(* ===== verification/_CoqProject ===== *)
-Q . S2P
Prelude.v
Str.v
Protocol.v
Concrete.v
Api.v
Config.v
Model.v
ModelProofs.v
Pack.v
PackProofs.v
Json.v
Oidc.v
OidcProofs.v
Auth.v
AuthProofs.v
AuthExamples.v
Records.v
Metadata.v
MetadataProofs.v
MemoryMetadata.v
PostgresMetadata.v
PostgresProofs.v
StoreRefinement.v
PostgresSessions.v
SessionsProofs.v
SweepProofs.v
ObjectStore.v
Gcs.v
Azure.v
S3.v
BlobMachine.v
CloudProofs.v
Filesystem.v
FilesystemProofs.v
Dispatch.v
Spool.v
Access.v
Metrics.v
App.v
Future.v
Tree.v
Actions.v
ActionsProofs.v
Blobs.v
BlobsProofs.v
PackUpload.v
PackUploadProofs.v
PackTermination.v
PackDownload.v
PackDownloadProofs.v
ReadOnly.v
ExpiryProofs.v
Results.v
ResultsProofs.v
Service.v
HandlerFutures.v
FutureTermination.v
FutureProofs.v
Interleaving.v
FutureBalance.v
ServiceProofs.v
FutureSafety.v
ValidatorSafety.v
HandlerSafety.v
DownloadSafety.v
InterleavingProofs.v
Fleet.v
FleetProofs.v
Startup.v
StartupProofs.v
ConcreteApp.v
StoreExamples.v
SessionsExamples.v
CloudExamples.v
ServerExamples.v
StartupExamples.v
InterleavingExamples.v
FleetExamples.v
