(* ===== verification/Prelude.v ===== *)
(** * A verified model of mbx-cache

    mbx-cache is a remote build cache: clients upload blobs under their digest,
    commit action results that refer to blobs, and ask for either again. This
    development is a shallow embedding of the server in src/src/: each handler,
    store and validator is a Rocq function that reads like the Rust one, and the
    theorems say what a client, an operator and a neighbouring namespace may
    rely on.

    ** Reading the model

    Fallible code returns [result]; [x <-? c; k] is the [?] operator. Code that
    also changes shared state is a state-error function [M W E A := W -> W *
    result E A]: an early return keeps the effects made before it, as in Rust.
    A [u64] is an [N] whose wrap-around, checked or saturating arithmetic is
    written out ([u64_add], [checked_add], [saturating_add]); bytes are
    [list Byte.byte], a [&str] is a [string] of its UTF-8 bytes, a [HashMap] or
    [BTreeMap] a [gmap].

    Code outside src/ is a parameter. It comes as operational type classes
    ([Protocol], [Hashes], [Hex], [Jwt], [Documents], [Disk], [Database],
    [ObjectStore], [S3Client], ...), and what src/ relies on as law classes
    beside them ([ProtocolLaws], [HashLaws], [DiskLaws], [ObjectLaws], ...).
    Every law class has a concrete, executable instance ([Concrete.v],
    [ConcreteApp.v], [CloudExamples.v]), on which the [*_witness] lemmas of the
    example files run each theorem.

    ** The parts

    - [Prelude.v], [Str.v]: results and the state-error monad, big-endian and
      machine integers, Rust's string operations.
    - [Protocol.v], [Json.v], [Records.v]: the boundary with the protocol crate,
      the hash libraries and serde_json; the two store interfaces of
      metadata/mod.rs and storage/mod.rs as the classes [MetadataStore] and
      [BlobStore], with their contracts: [MetadataLaws]; [BlobLaws], of what a
      store holds; and [BlobReads], that what it answers a read with is whole.
    - [Api.v] (server.rs): [ApiError], headers, preconditions, path digests.
    - [Model.v], [ModelProofs.v] (model.rs): one Module per descriptor with its
      [validate].
    - [Pack.v], [PackProofs.v] (pack.rs): [PackReader], the incremental parser;
      [push_step] is one turn of the loop of [push].
    - [Oidc.v], [OidcProofs.v], [Auth.v], [AuthProofs.v] (auth.rs): the key
      cache of a provider with its refresh mutex and clock, token verification,
      start-up fetches, grants and namespace patterns, [authorize].
    - [Metadata.v], [MetadataProofs.v]: the metadata store as an abstract machine
      ([spec_step]) that any lawful store refines, and what clients of such a
      store may rely on. [MemoryMetadata.v] (metadata/memory.rs),
      [PostgresMetadata.v], [PostgresProofs.v] (metadata/postgres.rs: each SQL
      statement a function on the tables, with faults before or after it) and
      [StoreRefinement.v] discharge the contract. [PostgresSessions.v],
      [SessionsProofs.v], [SweepProofs.v]: the statements of operations under way
      on one database interleaved ([session_step]), with the transaction of a
      sweep and the rows it locks.
    - [Filesystem.v], [FilesystemProofs.v] (storage/filesystem.rs): staged writes
      on a failing disk, and puts that run at the same time. [ObjectStore.v],
      [Gcs.v], [Azure.v], [S3.v], [BlobMachine.v], [CloudProofs.v] (storage/gcs.rs,
      azure.rs, s3.rs): the create-only put protocols over a bucket, against an
      abstract create-only map.
    - [Config.v] (config.rs), [Dispatch.v] (the [Arc<dyn ...>] stores that
      [from_url] and [from_config] choose, as sums that keep the contracts),
      [Startup.v], [StartupProofs.v] (main.rs): [main] up to the state it serves.
    - [Spool.v], [Access.v], [Metrics.v], [App.v] (server.rs, metrics.rs): the
      upload spool's permits, pending accesses, metrics, and [AppState].
    - [Tree.v], [Actions.v], [ActionsProofs.v], [ReadOnly.v] (server.rs): output
      trees, action descriptors and client metadata.
    - [Blobs.v], [BlobsProofs.v], [ExpiryProofs.v], [Results.v], [ResultsProofs.v]
      (server.rs): the single-blob endpoints, blobs whose objects expired, action
      results and manifests.
    - [PackUpload.v], [PackUploadProofs.v], [PackTermination.v] (server.rs,
      [put_blob_pack]): the request, its storing tasks, panics and cancellation
      as the step relation [pack_step], with other requests between any two
      steps. [PackDownload.v], [PackDownloadProofs.v]: [pack_blobs] and its
      response stream.
    - [Service.v], [ServiceProofs.v]: the requests there are, and what else may
      happen to the shared state as one step relation, [service_step]: pack uploads,
      background tasks, sweeps and restarts.
    - [Future.v], [HandlerFutures.v], [FutureProofs.v]: what is left of an async
      function, and every handler again as such a future, one call on the shared
      state at a time; run with nobody between its calls it is the handler
      ([runs_request]). [FutureTermination.v]: how many calls a future makes at
      most.
    - [Interleaving.v] (server.rs, main.rs): any number of requests and flushes under
      way, [busy_step] being the next call of one of them, a step of a pack upload,
      a client that goes away, a task that begins or ends, or a crash.
      [FutureBalance.v] (what a future holds it gives back), [FutureSafety.v],
      [ValidatorSafety.v], [HandlerSafety.v], [DownloadSafety.v] (what holds of each
      handler whatever the others do between its calls), [InterleavingProofs.v].
    - [Fleet.v], [FleetProofs.v]: several such processes over one database and one
      object store, started, stopped and killed at any time, the process that
      sweeps, and the object store's lifecycle policy, which takes objects away
      between any two calls ([fleet_step]).
    - [Concrete.v], [ConcreteApp.v] and the files named [...Examples.v]: concrete
      instances of every parameter, and runs on them.

    Handlers take the stores through the classes, so their theorems hold of
    every store; [BlobsProofs.store_inv] is the invariant they share: objects
    match their digests, and what a namespace sees has a valid digest and, where
    the object store retains its objects, is stored. Whether it does is a
    parameter of the invariant and of the theorems that rest on it
    ([BlobsProofs.Retention]): with [retains := True] nothing expires and they say
    all that follows from it; with [retains := False] objects expire at any time,
    and they say what remains true.

    ** What is shown

    - Of a deployment of any number of replicas, over any interleaving of the calls
      of their requests, pack uploads, flushes, sweeps, expiries, crashes and
      dropped requests, with any failures of the stores: the stores stay in order
      ([replicas_stay_safe]), an answer is kept ([replicas_keep_answers]),
      namespaces stay apart ([replicas_stay_apart]), nothing is taken
      ([replicas_take_nothing]), packs land ([replicas_land_packs]), each
      replica's spool permits and gauge balance ([replicas_keep_books]), and every
      request but a pack download ends within a number of turns of its own
      ([replicas_answer], where it keeps getting turns). The walk of an output tree
      ends by its checks alone ([validate_tree_ends]). [InterleavingProofs] has the
      same of one process; from the configuration on, [server_stays_in_order].
    - Of blobs whose objects expired: a read forgets the row and nothing else
      ([get_blob_answers]), and the blob comes back with the next upload
      ([expired_blobs_come_back]); a row that is forgotten while another upload
      recreates the object costs one more upload ([forget_races_upload]).
    - Of the Postgres store with its statements interleaved: operations are
      linearizable ([operations_linearize]), and alone are what they are in one
      piece ([operations_alone]); a sweep takes only what was old and nothing of
      what it keeps ([sweeps_take_the_old], [sweeps_keep_whole]), but a result may
      be committed behind its back ([sweep_races_commit]).
    - Of the pack upload and download: safety at every step, completeness of a
      receipt, termination ([pack_upload_safe], [pack_upload_complete],
      [pack_upload_ends]), and that a download is a pack that reads back.
    - Of the other endpoints: functional correctness on every branch, with the
      error answers (the theorems of [BlobsProofs], [ResultsProofs]), and the
      round trips of uploads and manifests; that no result is recorded before
      what it rests on was found, however its request is answered
      ([put_action_result_commits]).
    - Of the validators: soundness and what they refuse ([Tree], [ActionsProofs]).
      What a valid action is, is said apart from the checks of model.rs and proved
      to be what they accept ([ModelProofs]).
    - Of the pack format: parser and printer are inverse, parsing ignores chunk
      boundaries and stays within limits ([PackProofs]).
    - Of authorization: the decision against a declarative statement of its
      grounds, with the status each refusal has, sound verification, rate-limited
      refresh ([AuthProofs], [OidcProofs]).
    - Of the stores: refinement of the abstract machines, immutability, what
      exactly a sweep takes, a manifest as a compare-and-swap register on either
      metadata store ([manifests_linear], in [Dispatch]), path safety, concurrent
      puts ([StoreRefinement], [MetadataProofs], [FilesystemProofs],
      [CloudProofs]).

    ** Loops, fuel and time

    - [PackReader.push_loop] takes fuel; [push] gives it the linear measure of
      its reader and input, and [push_loop_fuel] shows that this is always enough.
    - [Tree.walk] spends one unit of fuel for each directory it reads.
      [validate_tree] gives it [MAX_DIRECTORIES], where the code's own limit
      refuses first: [walk_enough] and [validate_tree_ends] show that more fuel
      changes nothing, alone and among other tasks.
    - [chunks] takes the length of its list as fuel ([chunks_spec]).
    - A pack upload is a relation; [pack_upload_ends] shows that its steps are
      well-founded and that it can always go on to an answer. A future is an
      inductive tree, so it has finitely many calls whatever they return
      ([next_task_wf]).
    - The polls of [AzureStore.wait_until_readable] and the attempts of the
      OIDC start-up fetch are counted as in the code.
    Time, the network, the disk and the database are environments: an [Instant]
    is nanoseconds, the n-th call of a disk, database or bucket may fail, before
    or after it took effect where the code cannot tell.

    ** Assumptions on a deployment

    [config_ok], in the theorems on the service: twice the blob limit fits a
    [u64], as does the batch limit. The contract [BlobLaws] is kept by all four
    blob stores, on Azure Storage counting copies that are still pending.
    [BlobReads] is kept by the filesystem and S3, and by Cloud Storage and Azure
    Storage where a copy is done when it is answered ([PromptCopies]); the theorems
    on the content of what is read rest on it. What holds of an Azure copy that
    stays pending is [azure_reads_what_was_put].

    ** Not modelled

    - axum, tower and hyper: routing tables, timeouts, compression, the body
      limits they enforce ([blob_limit] and [pack_limit] are their arguments),
      tracing; the listener, TLS, signals and graceful shutdown of main.rs.
    - What is within one call on the shared state, in the futures: an
      authorization is one call, and so is each operation of a store. What races
      inside those has relations of its own: [Oidc.cache_step],
      [FilesystemStore.put_step], the bucket's pending copies, and [session_step].
      A pack's sixteen reads ahead are taken in order.
    - Row locks within one SQL statement: in [session_step] a statement takes all
      its rows when they are free. Two statements that take theirs one by one, in
      different orders, can come to wait for each other; Postgres then fails one
      of them, which here is one of the faults any statement may have. That no
      operation waits for ever is not claimed.
    - The pool gauges of a fleet: a replica's connections are counted with the
      database, which replicas share.
    - Expiries within one call of a store: a lifecycle rule that takes a staged
      source from under a copy, say.
    - serde's derived decoders, JWT and JWK parsing, HTTP and TLS clients, the
      builders of the cloud clients, clap's parsing of the command line, and
      Prometheus' text format: third-party code, given as parameters or, for the
      last two, left out.
    - Logging, and the ten-second interval of the background flush. *)

From Stdlib Require Export NArith Lia.
From Stdlib Require Strings.Byte.
From stdpp Require Export relations.
From stdpp Require Export base strings gmap numbers list.

Set Default Goal Selector "!".

(** ** Results

    Rust's [Result<A, E>], with the early return of the [?] operator as a
    notation of the development's own scope. *)

Inductive result (E A : Type) : Type :=
  | Ok (a : A)
  | Err (e : E).
Arguments Ok {E A} _.
Arguments Err {E A} _.

Declare Scope mbx_scope.
Delimit Scope mbx_scope with mbx.

Definition result_bind {E A B} (c : result E A) (k : A -> result E B) : result E B :=
  match c with
  | Ok a => k a
  | Err e => Err e
  end.

Notation "x <-? c ; k" := (result_bind c (fun x => k))
  (at level 100, c at next level, right associativity) : mbx_scope.

Definition is_ok {E A} (r : result E A) : bool :=
  match r with Ok _ => true | Err _ => false end.

(** [Option::ok_or]. *)
Definition ok_or {E A} (o : option A) (e : E) : result E A :=
  match o with Some a => Ok a | None => Err e end.

(** [Result::map_err]. *)
Definition map_err {E F A} (f : E -> F) (r : result E A) : result F A :=
  match r with Ok a => Ok a | Err e => Err (f e) end.

(** [Option::is_none_or]. *)
Definition is_none_or {A} (f : A -> bool) (o : option A) : bool :=
  match o with None => true | Some a => f a end.

Lemma result_bind_ok {E A B} (c : result E A) (k : A -> result E B) b :
  result_bind c k = Ok b <-> exists a, c = Ok a /\ k a = Ok b.
Proof. destruct c; simpl; split; [eauto|intros (?&?&?); congruence|discriminate|intros (?&?&?); congruence]. Qed.

Lemma ok_or_ok {E A} (o : option A) (e : E) a : ok_or o e = Ok a <-> o = Some a.
Proof. destruct o; simpl; split; congruence. Qed.

(** ** Stateful, fallible computations

    A handler is a function from the state of the service to its new state and
    the handler's result; an early return keeps the effects made so far. *)

Definition M (W E A : Type) : Type := W -> W * result E A.

Definition m_ret {W E A} (a : A) : M W E A := fun w => (w, Ok a).
Definition m_throw {W E A} (e : E) : M W E A := fun w => (w, Err e).
Definition m_bind {W E A B} (c : M W E A) (k : A -> M W E B) : M W E B :=
  fun w => match c w with
           | (w', Ok a) => k a w'
           | (w', Err e) => (w', Err e)
           end.
Definition m_lift {W E A} (r : result E A) : M W E A := fun w => (w, r).

Notation "x <~ c ; k" := (m_bind c (fun x => k))
  (at level 100, c at next level, right associativity) : mbx_scope.
Notation "c ;~ k" := (m_bind c (fun _ => k))
  (at level 100, right associativity) : mbx_scope.

Lemma m_bind_ok {W E A B} (c : M W E A) (k : A -> M W E B) w w' b :
  m_bind c k w = (w', Ok b) <-> exists w1 a, c w = (w1, Ok a) /\ k a w1 = (w', Ok b).
Proof. unfold m_bind. destruct (c w) as [w1 [a|e]]; naive_solver. Qed.

(** A computation that went well, one call at a time: the call and its result
    are named, and what follows it is left in the hypothesis. *)
Tactic Notation "m_step" ident(Hk) "as" simple_intropattern(w) simple_intropattern(a)
    simple_intropattern(Hc) := apply m_bind_ok in Hk as (w & a & Hc & Hk).
Tactic Notation "ok_step" ident(Hk) "as" simple_intropattern(a) simple_intropattern(Hc) :=
  apply result_bind_ok in Hk as (a & Hc & Hk).

(** ** Bytes and big-endian integers *)

Notation bytes := (list Byte.byte).

#[export] Instance byte_eq_dec : EqDecision Byte.byte := Byte.byte_eq_dec.

Definition u8_of_N (n : N) : Byte.byte := default Byte.x00 (Byte.of_N (n mod 256)).

(** [u64::to_be_bytes], for [k] bytes. *)
Fixpoint to_be_bytes (k : nat) (n : N) : bytes :=
  match k with
  | O => []
  | S k' => to_be_bytes k' (n / 256) ++ [u8_of_N n]
  end.

(** [u64::from_be_bytes]. *)
Definition from_be_bytes (bs : bytes) : N :=
  fold_left (fun acc b => (acc * 256 + Byte.to_N b)%N) bs 0%N.

Lemma to_N_u8_of_N n : Byte.to_N (u8_of_N n) = (n mod 256)%N.
Proof.
  unfold u8_of_N. destruct (Byte.of_N (n mod 256)) as [b|] eqn:E; simpl.
  - apply Byte.to_of_N in E. done.
  - apply Byte.of_N_None_iff in E. pose proof (N.mod_lt n 256). lia.
Qed.

Lemma u8_of_N_to_N b : u8_of_N (Byte.to_N b) = b.
Proof.
  unfold u8_of_N. pose proof (Byte.to_N_bounded b).
  rewrite N.mod_small by lia. by rewrite Byte.of_to_N.
Qed.

Lemma from_be_bytes_app bs1 b :
  from_be_bytes (bs1 ++ [b]) = (from_be_bytes bs1 * 256 + Byte.to_N b)%N.
Proof. unfold from_be_bytes. by rewrite fold_left_app. Qed.

Lemma length_to_be_bytes k n : length (to_be_bytes k n) = k.
Proof. revert n; induction k; intros; simpl; [done|]. rewrite length_app, IHk. simpl. lia. Qed.

Lemma from_to_be_bytes k n :
  (n < 256 ^ N.of_nat k)%N -> from_be_bytes (to_be_bytes k n) = n.
Proof.
  revert n; induction k as [|k IH]; intros n Hn.
  - cbn in *. lia.
  - cbn [to_be_bytes]. rewrite from_be_bytes_app, to_N_u8_of_N, IH.
    + pose proof (N.div_mod n 256). lia.
    + rewrite Nat2N.inj_succ, N.pow_succ_r' in Hn. apply N.Div0.div_lt_upper_bound. lia.
Qed.

Lemma to_from_be_bytes bs : to_be_bytes (length bs) (from_be_bytes bs) = bs.
Proof.
  induction bs as [|b bs IH] using rev_ind; [done|].
  rewrite length_app, Nat.add_comm. cbn [length Nat.add to_be_bytes].
  rewrite from_be_bytes_app. pose proof (Byte.to_N_bounded b).
  rewrite N.div_add_l, (N.div_small (Byte.to_N b)), N.add_0_r, IH by lia. f_equal.
  assert (u8_of_N (from_be_bytes bs * 256 + Byte.to_N b) = u8_of_N (Byte.to_N b)) as ->.
  { unfold u8_of_N. by rewrite N.add_comm, N.Div0.mod_add. }
  by rewrite u8_of_N_to_N.
Qed.

Lemma from_be_bytes_bound bs : (from_be_bytes bs < 256 ^ N.of_nat (length bs))%N.
Proof.
  induction bs as [|b bs IH] using rev_ind; [done|].
  rewrite from_be_bytes_app, length_app. simpl length.
  rewrite Nat.add_1_r, Nat2N.inj_succ, N.pow_succ_r'.
  pose proof (Byte.to_N_bounded b). lia.
Qed.

#[export] Hint Rewrite u8_of_N_to_N length_to_be_bytes to_from_be_bytes : bytes.

(** ** Machine-width integers *)

Definition u64_modulus : N := 2 ^ 64.
Definition u64_max : N := u64_modulus - 1.

(** [+=] on a [u64], wrapping as a release build does. *)
Definition u64_add (a b : N) : N := (a + b) mod u64_modulus.

(** [u64::checked_add]. *)
Definition checked_add (a b : N) : option N :=
  if (a + b <? u64_modulus)%N then Some (a + b)%N else None.

Lemma u64_add_small a b : (a + b < u64_modulus)%N -> u64_add a b = (a + b)%N.
Proof. apply N.mod_small. Qed.

Lemma checked_add_some a b c :
  checked_add a b = Some c <-> c = (a + b)%N /\ (a + b < u64_modulus)%N.
Proof. unfold checked_add. destruct (N.ltb_spec (a + b) u64_modulus); naive_solver lia. Qed.

(** ** Reachable states *)

(** What every step keeps, every run keeps. *)
Lemma rtc_invariant {A} (R : relation A) (P : A -> Prop) x y :
  (forall a b, P a -> R a b -> P b) -> rtc R x y -> P x -> P y.
Proof. intros Hstep Hrun. induction Hrun; eauto. Qed.
