(* ===== verification/Str.v ===== *)
(** * Rust string operations

    A [&str] is its UTF-8 bytes: [String.length] is [str::len], and the
    separators the program looks for are ASCII, so matching them byte by byte
    is matching them character by character. *)
From S2P Require Import Prelude.
From Stdlib Require Import Ascii.

Local Open Scope string_scope.
#[global] Arguments String.append !_ _ : simpl nomatch.

(** [str::bytes().all(f)]. *)
Fixpoint str_all (f : ascii -> bool) (s : string) : bool :=
  match s with
  | EmptyString => true
  | String a s' => f a && str_all f s'
  end.

(** [str::contains(c)]. *)
Definition contains_char (c : ascii) (s : string) : bool :=
  negb (str_all (fun a => negb (Ascii.eqb a c)) s).

(** [str::is_empty]. *)
Definition str_is_empty (s : string) : bool :=
  match s with EmptyString => true | _ => false end.

(** [str::split(c)]: never empty, one component more than separators. *)
Fixpoint split (c : ascii) (s : string) : list string :=
  match s with
  | EmptyString => [""]
  | String a s' =>
      if Ascii.eqb a c then "" :: split c s'
      else match split c s' with
           | [] => [String a ""]
           | w :: ws => String a w :: ws
           end
  end.

(** [slice::join], the inverse of [split]. *)
Fixpoint join (c : ascii) (ws : list string) : string :=
  match ws with
  | [] => ""
  | [w] => w
  | w :: ws' => w ++ String c (join c ws')
  end.

(** [str::strip_prefix]. *)
Fixpoint strip_prefix (p s : string) : option string :=
  match p, s with
  | EmptyString, _ => Some s
  | String a p', String b s' => if Ascii.eqb a b then strip_prefix p' s' else None
  | String _ _, EmptyString => None
  end.

(** [str::strip_suffix]. *)
Fixpoint strip_suffix (suf s : string) : option string :=
  if String.eqb s suf then Some ""
  else match s with
       | EmptyString => None
       | String a s' => String a <$> strip_suffix suf s'
       end.

(** [str::starts_with]. *)
Definition starts_with (p s : string) : bool :=
  match strip_prefix p s with Some _ => true | None => false end.

(** [str::split_once(c)], at the first occurrence. *)
Fixpoint split_once (c : ascii) (s : string) : option (string * string) :=
  match s with
  | EmptyString => None
  | String a s' =>
      if Ascii.eqb a c then Some ("", s')
      else match split_once c s' with
           | Some (l, r) => Some (String a l, r)
           | None => None
           end
  end.

(** [u8::is_ascii_digit], [u8::is_ascii_alphanumeric]. *)
Definition ascii_in (lo hi a : ascii) : bool :=
  (N_of_ascii lo <=? N_of_ascii a)%N && (N_of_ascii a <=? N_of_ascii hi)%N.
Definition is_ascii_digit (a : ascii) : bool := ascii_in "0" "9" a.
Definition is_ascii_alphanumeric (a : ascii) : bool :=
  is_ascii_digit a || ascii_in "a" "z" a || ascii_in "A" "Z" a.

(** Lower-case hexadecimal digits, as digests and entity tags are written. *)
Definition is_lower_hex (a : ascii) : bool := is_ascii_digit a || ascii_in "a" "f" a.

Definition NUL : ascii := "000".

(** ** Lemmas *)

Lemma str_append_assoc (a b c : string) : a ++ (b ++ c) = (a ++ b) ++ c.
Proof. induction a as [|x a IH]; simpl; [done|]. by rewrite IH. Qed.

Lemma str_append_nil_r (a : string) : a ++ "" = a.
Proof. induction a as [|x a IH]; simpl; [done|]. by rewrite IH. Qed.

Lemma str_append_length (a b : string) :
  String.length (a ++ b) = String.length a + String.length b.
Proof. induction a as [|x a IH]; simpl; [done|]. by rewrite IH. Qed.

Lemma str_append_inj_r (a b c : string) : a ++ c = b ++ c -> a = b.
Proof.
  revert b; induction a as [|x a IH]; intros [|y b] H; simpl in H; [done|..].
  - apply (f_equal String.length) in H. simpl in H. rewrite str_append_length in H. lia.
  - apply (f_equal String.length) in H. simpl in H. rewrite str_append_length in H. lia.
  - simplify_eq. f_equal. by apply IH.
Qed.

Lemma str_all_app f (a b : string) : str_all f (a ++ b) = str_all f a && str_all f b.
Proof. induction a as [|x a IH]; simpl; [done|]. by rewrite IH, andb_assoc. Qed.

Lemma str_all_impl (f g : ascii -> bool) s :
  (forall a, f a = true -> g a = true) -> str_all f s = true -> str_all g s = true.
Proof. intros H. induction s; simpl; [done|]. rewrite !andb_true_iff. naive_solver. Qed.

Lemma contains_char_false c s :
  contains_char c s = false <-> str_all (fun a => negb (Ascii.eqb a c)) s = true.
Proof. unfold contains_char. by rewrite negb_false_iff. Qed.

Lemma contains_char_app c a b :
  contains_char c (a ++ b) = contains_char c a || contains_char c b.
Proof. unfold contains_char. by rewrite str_all_app, negb_andb. Qed.

Lemma str_is_empty_spec s : str_is_empty s = true <-> s = "".
Proof. by destruct s. Qed.

Lemma strip_prefix_some p s r : strip_prefix p s = Some r <-> s = p ++ r.
Proof.
  revert s; induction p as [|a p IH]; intros s; simpl; [naive_solver|].
  destruct s as [|b s]; [naive_solver|].
  destruct (Ascii.eqb_spec a b) as [->|]; [rewrite IH; naive_solver|naive_solver].
Qed.

Lemma strip_suffix_some suf s r : strip_suffix suf s = Some r <-> s = r ++ suf.
Proof.
  revert r; induction s as [|a s IH]; intros r; cbn [strip_suffix].
  - destruct (String.eqb_spec "" suf) as [<-|Hne].
    + split; [by intros [= <-]|]. intros H. destruct r; simpl in H; congruence.
    + split; [done|]. intros H. destruct r; simpl in H; congruence.
  - destruct (String.eqb_spec (String a s) suf) as [<-|Hne].
    + split; [by intros [= <-]|]. intros H. f_equal. symmetry.
      by apply (str_append_inj_r r "" (String a s)).
    + rewrite fmap_Some. split.
      * intros (x & Hx & ->). apply IH in Hx. by subst.
      * intros Hr. destruct r as [|b r]; simpl in Hr; simplify_eq.
        exists r. by rewrite IH.
Qed.

Lemma starts_with_spec p s : starts_with p s = true <-> exists r, s = p ++ r.
Proof.
  unfold starts_with. destruct (strip_prefix p s) as [r|] eqn:E.
  - apply strip_prefix_some in E. naive_solver.
  - split; [done|]. intros [r Hr]. apply strip_prefix_some in Hr. congruence.
Qed.

Lemma split_not_nil c s : split c s <> [].
Proof. destruct s; simpl; [done|]. destruct (Ascii.eqb _ _); [done|]. by destruct (split c s). Qed.

(** Splitting loses nothing, and no component holds the separator. *)
Lemma join_split c s : join c (split c s) = s.
Proof.
  induction s as [|a s IH]; simpl; [done|].
  destruct (Ascii.eqb_spec a c) as [->|].
  - destruct (split c s) eqn:E; [by apply split_not_nil in E|]. simpl in *. by rewrite IH.
  - destruct (split c s) as [|w ws] eqn:E; [by apply split_not_nil in E|].
    rewrite <-IH. by destruct ws.
Qed.

Lemma split_no_sep c s : Forall (fun w => contains_char c w = false) (split c s).
Proof.
  induction s as [|a s IH]; simpl; [by repeat constructor|].
  destruct (Ascii.eqb_spec a c) as [->|Hne]; [by constructor|].
  destruct (split c s) as [|w ws]; inv IH.
  - constructor; [|done]. apply contains_char_false. simpl. by destruct (Ascii.eqb_spec a c).
  - constructor; [|done]. apply contains_char_false. simpl.
    destruct (Ascii.eqb_spec a c); [done|]. simpl. by apply contains_char_false.
Qed.

Lemma split_single c w : contains_char c w = false -> split c w = [w].
Proof.
  rewrite contains_char_false. induction w as [|a w IH]; simpl; [done|].
  rewrite andb_true_iff, negb_true_iff. intros [-> H]. by rewrite IH.
Qed.

Lemma split_append c w s :
  contains_char c w = false -> split c (w ++ String c s) = w :: split c s.
Proof.
  rewrite contains_char_false. induction w as [|a w IH]; simpl.
  - by rewrite Ascii.eqb_refl.
  - rewrite andb_true_iff, negb_true_iff. intros [-> H]. by rewrite IH.
Qed.

Lemma split_join c ws :
  ws <> [] -> Forall (fun w => contains_char c w = false) ws -> split c (join c ws) = ws.
Proof.
  induction ws as [|w ws IH]; [done|]. intros _ H. inv H.
  destruct ws as [|w' ws].
  - by apply split_single.
  - change (join c (w :: w' :: ws)) with (w ++ String c (join c (w' :: ws))).
    rewrite split_append by done. by rewrite IH.
Qed.

Lemma split_once_some c s l r :
  split_once c s = Some (l, r) <-> s = l ++ String c r /\ contains_char c l = false.
Proof.
  rewrite contains_char_false. revert l; induction s as [|a s IH]; intros l; simpl.
  { split; [done|]. intros [H _]. by destruct l. }
  destruct (Ascii.eqb_spec a c) as [->|Hne].
  - split; [by intros [= <- <-]|]. intros [H Hl].
    destruct l as [|b l]; simpl in H; simplify_eq; [done|].
    simpl in Hl. by rewrite Ascii.eqb_refl in Hl.
  - transitivity (exists l', l = String a l' /\ split_once c s = Some (l', r)).
    { destruct (split_once c s) as [[l' r']|]; naive_solver. }
    setoid_rewrite IH. split.
    + intros (l' & -> & -> & Hl). simpl. split; [done|].
      by destruct (Ascii.eqb_spec a c).
    + intros [H Hl]. destruct l as [|b l]; simpl in H; simplify_eq.
      simpl in Hl. apply andb_true_iff in Hl as [_ Hl]. eauto.
Qed.

(** A separator splits what is before it from what is after it. *)
Lemma split_app_sep c p r : (split c (p ++ String c r) = split c p ++ split c r)%list.
Proof.
  induction p as [|a p IH]; cbn [split String.append].
  { rewrite Ascii.eqb_refl. done. }
  destruct (Ascii.eqb_spec a c) as [->|]; [by rewrite IH|].
  rewrite IH. destruct (split c p) eqn:E; [by apply split_not_nil in E|]. done.
Qed.

Lemma join_app c ws1 ws2 :
  ws1 <> [] -> ws2 <> [] -> join c (ws1 ++ ws2)%list = join c ws1 ++ String c (join c ws2).
Proof.
  intros H1 H2. induction ws1 as [|w ws1 IH]; [done|]. destruct ws1 as [|w' ws1].
  - cbn. by destruct ws2.
  - change (join c ((w :: w' :: ws1) ++ ws2)%list)
      with (w ++ String c (join c ((w' :: ws1) ++ ws2)%list)).
    change (join c (w :: w' :: ws1)) with (w ++ String c (join c (w' :: ws1))).
    rewrite IH by done. by rewrite <-str_append_assoc.
Qed.
