(* ===== verification/Protocol.v ===== *)
(** * The boundary of the model: the protocol crate, hex, and the hash libraries

    [mbx_cache_protocol], [hex], [blake3] and [sha2] are third-party crates.
    What src/ calls of them are the operations of the classes below; what
    src/ relies on are the laws, each a documented behaviour of the crate. *)
From S2P Require Import Prelude Str.

Local Open Scope string_scope.

(** ** Digests

    [Algorithm] is the protocol's [DigestAlgorithm]: every match of src/ on it
    has these two arms. [Digest] has the three fields src/ builds it from. *)

Inductive Algorithm := Blake3 | Sha256.

#[export] Instance Algorithm_eq_dec : EqDecision Algorithm.
Proof. solve_decision. Defined.

Record Digest := mkDigest {
  digest_algorithm : string;
  digest_hash : string;
  digest_size : N;
}.

#[export] Instance Digest_eq_dec : EqDecision Digest.
Proof. solve_decision. Defined.

#[export] Instance Digest_countable : Countable Digest.
Proof.
  refine (inj_countable'
    (fun d => (digest_algorithm d, digest_hash d, digest_size d))
    (fun '(a, h, s) => mkDigest a h s) _).
  by intros [].
Defined.

(** Every size of the program is a [u64]. *)
Definition digest_u64 (d : Digest) : Prop := (digest_size d < u64_modulus)%N.

(** ** mbx_cache_protocol *)

Class Protocol := {
  (** [DigestAlgorithm::as_str], also its conversion [into] a [String]. *)
  algorithm_as_str : Algorithm -> string;
  (** [Digest::algorithm_kind], with the error as it is displayed. *)
  algorithm_kind : Digest -> result string Algorithm;
  (** [Digest::validate], with the error as it is displayed. *)
  digest_validate : Digest -> result string unit;
  (** [Digest::key], the object key of a digest below the store's prefix. *)
  digest_key : Digest -> string;
  (** [MAX_BATCH_ITEMS]. *)
  MAX_BATCH_ITEMS : N;
}.

(** The wire form of the hash of a valid digest: 64 lower-case hex digits. *)
Definition wire_hash (h : string) : Prop :=
  String.length h = 64 /\ str_all is_lower_hex h = true.

Class ProtocolLaws `{Protocol} : Prop := {
  as_str_blake3 : algorithm_as_str Blake3 = "blake3";
  as_str_sha256 : algorithm_as_str Sha256 = "sha256";
  algorithm_kind_into a h s :
    algorithm_kind (mkDigest (algorithm_as_str a) h s) = Ok a;
  algorithm_kind_name d a :
    algorithm_kind d = Ok a -> digest_algorithm d = algorithm_as_str a;
  validate_kind d :
    digest_validate d = Ok tt -> exists a, algorithm_kind d = Ok a;
  validate_hash d :
    digest_validate d = Ok tt -> wire_hash (digest_hash d);
  validate_intro d a :
    algorithm_kind d = Ok a -> wire_hash (digest_hash d) -> digest_validate d = Ok tt;
}.

(** ** hex *)

Class Hex := {
  hex_encode : bytes -> string;
  (** with the error as it is displayed *)
  hex_decode : string -> result string bytes;
}.

Class HexLaws `{Hex} : Prop := {
  hex_decode_encode bs : hex_decode (hex_encode bs) = Ok bs;
  hex_encode_decode s bs :
    str_all is_lower_hex s = true -> hex_decode s = Ok bs -> hex_encode bs = s;
  hex_decode_length s bs : hex_decode s = Ok bs -> String.length s = 2 * length bs;
  hex_decode_total s n :
    str_all is_lower_hex s = true -> String.length s = 2 * n ->
    exists bs, hex_decode s = Ok bs;
  hex_encode_lower bs : str_all is_lower_hex (hex_encode bs) = true;
}.

Lemma hex_encode_length `{HexLaws} bs : String.length (hex_encode bs) = 2 * length bs.
Proof. apply hex_decode_length, hex_decode_encode. Qed.

(** ** blake3 and sha2

    Incremental hashers. [blake3_to_hex] is [finalize().to_hex().to_string()],
    [sha256_finalize] the raw digest [hex::encode] is applied to. The laws
    are what incremental hashing promises, that how the input is cut does not
    matter, and the form of a 32-byte hash. Nothing is assumed about
    collisions. *)

Class Hashes := {
  blake3_state : Type;
  blake3_new : blake3_state;
  blake3_update : blake3_state -> bytes -> blake3_state;
  blake3_to_hex : blake3_state -> string;
  sha256_state : Type;
  sha256_new : sha256_state;
  sha256_update : sha256_state -> bytes -> sha256_state;
  sha256_finalize : sha256_state -> bytes;
}.

Class HashLaws `{Hashes} : Prop := {
  blake3_streaming chunks :
    blake3_to_hex (foldl blake3_update blake3_new chunks) =
    blake3_to_hex (blake3_update blake3_new (concat chunks));
  sha256_streaming chunks :
    sha256_finalize (foldl sha256_update sha256_new chunks) =
    sha256_finalize (sha256_update sha256_new (concat chunks));
  blake3_wire s : wire_hash (blake3_to_hex s);
  sha256_length s : length (sha256_finalize s) = 32;
}.

(** The hash of a content held in one piece, as a digest names it. *)
Definition content_hash `{Hashes} `{Hex} (a : Algorithm) (content : bytes) : string :=
  match a with
  | Blake3 => blake3_to_hex (blake3_update blake3_new content)
  | Sha256 => hex_encode (sha256_finalize (sha256_update sha256_new content))
  end.

(** What a digest promises of the bytes stored under it. *)
Definition content_matches `{Protocol} `{Hashes} `{Hex} (d : Digest) (content : bytes) : Prop :=
  digest_size d = N.of_nat (length content) /\
  exists a, algorithm_kind d = Ok a /\ digest_hash d = content_hash a content.

(** A digest that matches a content is a valid one. *)
Lemma content_hash_wire `{HashLaws} `{!Hex} `{!HexLaws} a content : wire_hash (content_hash a content).
Proof.
  destruct a; cbn; [apply blake3_wire|]. split; [|apply hex_encode_lower].
  by rewrite hex_encode_length, sha256_length.
Qed.

Lemma matches_empty `{Protocol} `{Hashes} `{Hex} d content :
  content_matches d content -> digest_size d = 0%N -> content = [].
Proof. intros [-> _]. destruct content; [done|]. cbn. lia. Qed.

Lemma matches_valid `{ProtocolLaws} `{HashLaws} `{HexLaws} d content :
  content_matches d content -> digest_validate d = Ok tt.
Proof.
  intros [_ (a & Ha & Hh)]. eapply validate_intro; [done|]. rewrite Hh. apply content_hash_wire.
Qed.
