(* ===== verification/Concrete.v ===== *)
(** * Concrete instances of the boundary

    Executable functions that satisfy the laws of [Protocol.v]. The theorems
    are proved for every instance; these run the witnesses. *)
From S2P Require Import Prelude Str Protocol.
From Stdlib Require Import Ascii DecimalString.
From Stdlib Require Strings.Byte.

Local Open Scope string_scope.

(** ** Hexadecimal *)

Definition hex_digit (n : N) : ascii :=
  if (n <? 10)%N then ascii_of_N (48 + n) else ascii_of_N (87 + n).

Definition hex_value (a : ascii) : option N :=
  if is_ascii_digit a then Some (N_of_ascii a - 48)%N
  else if ascii_in "a" "f" a then Some (N_of_ascii a - 87)%N
  else if ascii_in "A" "F" a then Some (N_of_ascii a - 55)%N
  else None.

Fixpoint hex_encode_bytes (bs : bytes) : string :=
  match bs with
  | [] => ""
  | b :: bs' =>
      String (hex_digit (Byte.to_N b / 16))
        (String (hex_digit (Byte.to_N b mod 16)) (hex_encode_bytes bs'))
  end.

Fixpoint hex_decode_bytes (s : string) : option bytes :=
  match s with
  | EmptyString => Some []
  | String h (String l s') =>
      match hex_value h, hex_value l, hex_decode_bytes s' with
      | Some a, Some b, Some bs => Some (u8_of_N (16 * a + b) :: bs)
      | _, _, _ => None
      end
  | String _ EmptyString => None
  end.

Definition concrete_hex : Hex := {|
  hex_encode := hex_encode_bytes;
  hex_decode s := ok_or (hex_decode_bytes s) "invalid hex string";
|}.

(** Facts about one digit or one byte are checked on all of them. *)
Definition every_ascii (f : ascii -> bool) : bool :=
  forallb (fun n => f (ascii_of_nat n)) (seq 0 256).
Definition every_byte (f : Byte.byte -> bool) : bool :=
  forallb (fun n => f (u8_of_N (N.of_nat n))) (seq 0 256).

Lemma every_ascii_spec f : every_ascii f = true -> forall a, f a = true.
Proof.
  unfold every_ascii. rewrite forallb_forall. intros H a.
  rewrite <-(ascii_nat_embedding a). apply H, in_seq. pose proof (nat_ascii_bounded a). lia.
Qed.

Lemma every_byte_spec f : every_byte f = true -> forall b, f b = true.
Proof.
  unfold every_byte. rewrite forallb_forall. intros H b.
  specialize (H (N.to_nat (Byte.to_N b))). rewrite N2Nat.id, u8_of_N_to_N in H.
  apply H, in_seq. pose proof (Byte.to_N_bounded b). lia.
Qed.

Lemma hex_digits_byte b :
  hex_value (hex_digit (Byte.to_N b / 16)) = Some (Byte.to_N b / 16)%N /\
  hex_value (hex_digit (Byte.to_N b mod 16)) = Some (Byte.to_N b mod 16)%N /\
  is_lower_hex (hex_digit (Byte.to_N b / 16)) = true /\
  is_lower_hex (hex_digit (Byte.to_N b mod 16)) = true.
Proof.
  set (f b := bool_decide (hex_value (hex_digit (Byte.to_N b / 16)) = Some (Byte.to_N b / 16)%N)
    && bool_decide (hex_value (hex_digit (Byte.to_N b mod 16)) = Some (Byte.to_N b mod 16)%N)
    && is_lower_hex (hex_digit (Byte.to_N b / 16))
    && is_lower_hex (hex_digit (Byte.to_N b mod 16))).
  assert (f b = true) as Hf by (apply every_byte_spec; vm_compute; reflexivity).
  unfold f in Hf. rewrite !andb_true_iff, !bool_decide_eq_true in Hf. tauto.
Qed.

Lemma hex_value_lower a :
  is_lower_hex a = true -> exists n, hex_value a = Some n /\ (n < 16)%N /\ hex_digit n = a.
Proof.
  set (f a := implb (is_lower_hex a)
    (match hex_value a with
     | Some n => (n <? 16)%N && Ascii.eqb (hex_digit n) a | None => false end)).
  assert (f a = true) as Hf by (apply every_ascii_spec; vm_compute; reflexivity).
  unfold f in Hf. intros Ha. rewrite Ha in Hf. simpl in Hf.
  destruct (hex_value a) as [n|]; [|done]. apply andb_true_iff in Hf as [H1 H2].
  apply N.ltb_lt in H1. apply Ascii.eqb_eq in H2. eauto.
Qed.

(** Two characters at a time. *)
Lemma pairs_ind (P : string -> Prop) :
  P "" -> (forall a, P (String a "")) ->
  (forall a b s, P s -> P (String a (String b s))) -> forall s, P s.
Proof.
  intros H0 H1 H2 s. enough (P s /\ forall a, P (String a s)) by tauto.
  induction s as [|a s [IH1 IH2]]; auto.
Qed.

Lemma concrete_hex_laws : @HexLaws concrete_hex.
Proof.
  split; cbn [hex_encode hex_decode concrete_hex].
  - induction bs as [|b bs IH]; [done|]. apply ok_or_ok. apply ok_or_ok in IH. cbn.
    destruct (hex_digits_byte b) as (-> & -> & _). rewrite IH.
    rewrite <-N.div_mod'. by autorewrite with bytes.
  - intros s; induction s as [|a|a b s IH] using pairs_ind; intros bs Hs; rewrite ok_or_ok; cbn.
    + by intros [= <-].
    + done.
    + cbn in Hs. rewrite !andb_true_iff in Hs. destruct Hs as (Ha & Hb & Hs).
      destruct (hex_value_lower a Ha) as (x & -> & Hx & <-).
      destruct (hex_value_lower b Hb) as (y & -> & Hy & <-).
      destruct (hex_decode_bytes s) as [bs'|] eqn:E; [|done]. intros [= <-]. cbn.
      rewrite to_N_u8_of_N, N.mod_small by lia.
      rewrite (N.mul_comm 16), N.div_add_l, N.div_small, N.add_0_r by lia.
      rewrite N.add_comm, N.Div0.mod_add, N.mod_small by lia.
      do 2 f_equal. apply IH; [done|]. by apply ok_or_ok.
  - intros s; induction s as [|a|a b s IH] using pairs_ind; intros bs; rewrite ok_or_ok; cbn.
    + by intros [= <-].
    + done.
    + repeat (case_match; [|done]). intros [= <-]. cbn.
      erewrite IH; [|apply ok_or_ok; done]. lia.
  - intros s; induction s as [|a|a b s IH] using pairs_ind; intros n Hs Hn; cbn in *.
    + by exists [].
    + lia.
    + rewrite !andb_true_iff in Hs. destruct Hs as (Ha & Hb & Hs).
      destruct (hex_value_lower a Ha) as (x & -> & _).
      destruct (hex_value_lower b Hb) as (y & -> & _).
      destruct (IH (n - 1) Hs ltac:(lia)) as [bs Hbs]. apply ok_or_ok in Hbs. rewrite Hbs.
      eexists; reflexivity.
  - induction bs as [|b bs IH]; [done|]. cbn.
    destruct (hex_digits_byte b) as (_ & _ & -> & ->). done.
Qed.

(** ** Digests *)

Definition concrete_kind (d : Digest) : result string Algorithm :=
  if String.eqb (digest_algorithm d) "blake3" then Ok Blake3
  else if String.eqb (digest_algorithm d) "sha256" then Ok Sha256
  else Err "unsupported digest algorithm".

Definition concrete_validate (d : Digest) : result string unit :=
  match concrete_kind d with
  | Err e => Err e
  | Ok _ =>
      if Nat.eqb (String.length (digest_hash d)) 64 && str_all is_lower_hex (digest_hash d)
      then Ok tt else Err "invalid digest hash"
  end.

Definition concrete_protocol : Protocol := {|
  algorithm_as_str a := match a with Blake3 => "blake3" | Sha256 => "sha256" end;
  algorithm_kind := concrete_kind;
  digest_validate := concrete_validate;
  digest_key d :=
    digest_algorithm d ++ "/" ++ digest_hash d ++ "/" ++ NilEmpty.string_of_uint (N.to_uint (digest_size d));
  MAX_BATCH_ITEMS := 10000;
|}.

Lemma concrete_protocol_laws : @ProtocolLaws concrete_protocol.
Proof.
  split; cbn [algorithm_as_str algorithm_kind digest_validate concrete_protocol].
  - done.
  - done.
  - by intros [] h s.
  - intros d a. unfold concrete_kind.
    destruct (String.eqb_spec (digest_algorithm d) "blake3") as [->|].
    { by intros [= <-]. }
    destruct (String.eqb_spec (digest_algorithm d) "sha256") as [->|]; [by intros [= <-]|done].
  - intros d. unfold concrete_validate. destruct (concrete_kind d); [eauto|done].
  - intros d. unfold concrete_validate, wire_hash. destruct (concrete_kind d); [|done].
    destruct (Nat.eqb_spec (String.length (digest_hash d)) 64); [|done].
    by destruct (str_all _ _).
  - intros d a Ha [Hl Hx]. unfold concrete_validate. by rewrite Ha, Hl, Hx.
Qed.

(** ** Hashes

    A checksum in place of the cryptographic functions: the hasher keeps what
    it was given, and finalizing folds it into 32 bytes. *)

Definition checksum (content : bytes) : bytes :=
  to_be_bytes 32 (fold_left (fun acc b => (acc * 257 + Byte.to_N b + 1) mod 2 ^ 256)%N content 7%N).

Definition concrete_hashes : Hashes := {|
  blake3_state := bytes;
  blake3_new := [];
  blake3_update s c := (s ++ c)%list;
  blake3_to_hex s := hex_encode_bytes (checksum s);
  sha256_state := bytes;
  sha256_new := [];
  sha256_update s c := (s ++ c)%list;
  sha256_finalize := checksum;
|}.

Lemma foldl_app_concat {A} (chunks : list (list A)) acc :
  foldl (fun s c => s ++ c)%list acc chunks = (acc ++ concat chunks)%list.
Proof.
  revert acc; induction chunks as [|c cs IH]; intros acc; cbn.
  - by rewrite app_nil_r.
  - by rewrite IH, <-app_assoc.
Qed.

Lemma concrete_hash_laws : @HashLaws concrete_hashes.
Proof.
  split.
  - intros chunks; cbn; by rewrite foldl_app_concat.
  - intros chunks; cbn; by rewrite foldl_app_concat.
  - intros s. split; [|apply concrete_hex_laws].
    pose proof (hex_encode_length (H0 := concrete_hex_laws) (checksum s)) as Hl.
    change (String.length (hex_encode_bytes (checksum s)) = 64).
    change (hex_encode (checksum s)) with (hex_encode_bytes (checksum s)) in Hl.
    by rewrite Hl; unfold checksum; autorewrite with bytes.
  - intros s. apply length_to_be_bytes.
Qed.
