(* ===== verification/Api.v ===== *)
(** * Error responses, request headers and preconditions (src/server.rs)

    [ApiError] and its conversion to a response, the parsing of path digests,
    and the two precondition checks of the write endpoints. *)
From S2P Require Import Prelude Str Protocol.
From Stdlib Require Import Ascii.

Local Open Scope string_scope.
Local Open Scope mbx_scope.

(** ** Errors *)

(** [axum::http::StatusCode] by its number. *)
Definition OK : N := 200.
Definition CREATED : N := 201.
Definition NO_CONTENT : N := 204.
Definition BAD_REQUEST : N := 400.
Definition UNAUTHORIZED : N := 401.
Definition FORBIDDEN : N := 403.
Definition NOT_FOUND : N := 404.
Definition CONFLICT : N := 409.
Definition PRECONDITION_FAILED : N := 412.
Definition PAYLOAD_TOO_LARGE : N := 413.
Definition UNPROCESSABLE_ENTITY : N := 422.
Definition UPGRADE_REQUIRED : N := 426.
Definition PRECONDITION_REQUIRED : N := 428.
Definition INTERNAL_SERVER_ERROR : N := 500.
Definition SERVICE_UNAVAILABLE : N := 503.

(** The errors a metadata or blob store returns ([anyhow::Error]): the program
    tells apart [sqlx::Error::PoolTimedOut] and everything else, which only
    has a text. *)
Inductive StoreError :=
  | PoolTimedOut
  | OtherError (display : string).

Record ApiError := mkApiError {
  status : N;
  message : string;
  advertise_protocol : bool;
}.

Definition new (st : N) (msg : string) : ApiError := mkApiError st msg false.
Definition bad_request := new BAD_REQUEST.
Definition unauthorized := new UNAUTHORIZED.
Definition forbidden := new FORBIDDEN.
Definition not_found := new NOT_FOUND.
Definition conflict := new CONFLICT.
Definition too_large := new PAYLOAD_TOO_LARGE.
Definition unavailable := new SERVICE_UNAVAILABLE.
Definition unprocessable := new UNPROCESSABLE_ENTITY.
Definition precondition := new PRECONDITION_FAILED.
Definition precondition_required := new PRECONDITION_REQUIRED.
Definition upgrade_required : ApiError :=
  mkApiError UPGRADE_REQUIRED "mbx cache protocol version 1 is required" true.

Definition internal (error : StoreError) : ApiError :=
  match error with
  | PoolTimedOut => new SERVICE_UNAVAILABLE "database busy, retry later"
  | OtherError _ => new INTERNAL_SERVER_ERROR "internal server error"
  end.

(** [IntoResponse for ApiError]: the status, the JSON field [error], and the
    headers it adds to the response of [Json]. *)
Record ErrorResponse := mkErrorResponse {
  response_status : N;
  response_error : string;
  response_headers : gmap string string;
}.

Definition into_response (e : ApiError) : ErrorResponse :=
  let headers : gmap string string := {["content-type" := "application/json"]} in
  let headers :=
    if advertise_protocol e then <["mbx-cache-protocol" := "1"]> headers else headers in
  let headers :=
    if (status e =? SERVICE_UNAVAILABLE)%N then <["retry-after" := "1"]> headers else headers in
  mkErrorResponse (status e) (message e) headers.

(** ** Headers

    A [HeaderMap] by what [.get(name).and_then(|value| value.to_str().ok())]
    gives, which is how every handler reads one. *)
Notation HeaderMap := (gmap string string).

(** [str::parse::<u64>]: an optional plus sign, then digits. *)
Fixpoint parse_digits (acc : N) (s : string) : option N :=
  match s with
  | EmptyString => Some acc
  | String a s' =>
      if is_ascii_digit a then
        let acc' := (acc * 10 + (N_of_ascii a - 48))%N in
        if (acc' <? u64_modulus)%N then parse_digits acc' s' else None
      else None
  end.

Definition parse_u64 (s : string) : option N :=
  let digits := match s with String "+" s' => s' | _ => s end in
  if str_is_empty digits then None else parse_digits 0 digits.

Definition required_u64_header (headers : HeaderMap) (name : string) : result ApiError N :=
  ok_or (headers !! name ≫= parse_u64) (bad_request (name ++ " must be an unsigned integer")).

Definition require_immutable_precondition (headers : HeaderMap) : result ApiError unit :=
  if bool_decide (headers !! "if-none-match" = Some "*") then Ok tt
  else Err (precondition "If-None-Match: * is required").

Definition DQUOTE : string := String "034" "".

Definition valid_etag (value : string) : bool :=
  Nat.eqb (String.length value) 64 && str_all is_lower_hex value.

Definition manifest_precondition (headers : HeaderMap) : result ApiError (option string) :=
  if bool_decide (headers !! "if-none-match" = Some "*") then Ok None
  else
    value <-? ok_or (headers !! "if-match")
      (precondition_required "If-None-Match: * or If-Match is required");
    etag <-? ok_or
      (strip_prefix DQUOTE value ≫= fun v =>
       strip_suffix DQUOTE v ≫= fun v => if valid_etag v then Some v else None)
      (bad_request "If-Match must contain one strong BLAKE3 ETag");
    Ok (Some etag).

Definition quoted_etag (etag : string) : string := DQUOTE ++ etag ++ DQUOTE.

(** ** Digests of a path or a body *)

Section Digests.
Context `{Protocol}.

Definition validate_digest (digest : Digest) : result ApiError unit :=
  if is_ok (digest_validate digest) then Ok tt else Err (bad_request "invalid digest").

Definition parse_digest (parts : string * string * N) : result ApiError Digest :=
  let '(algorithm, hash, sz) := parts in
  let digest := mkDigest algorithm hash sz in
  _ <-? validate_digest digest;
  Ok digest.

Definition parse_action_digest (parts : string * string * N) : result ApiError Digest :=
  digest <-? parse_digest parts;
  if negb (String.eqb (digest_algorithm digest) "blake3")
  then Err (bad_request "action result keys must use blake3")
  else Ok digest.

Definition validate_action_digest (digest : Digest) : result ApiError Digest :=
  _ <-? validate_digest digest;
  if negb (String.eqb (digest_algorithm digest) "blake3")
  then Err (bad_request "action result keys must use blake3")
  else Ok digest.
End Digests.

(** ** Lemmas *)

Lemma validate_digest_ok `{Protocol} d : validate_digest d = Ok tt <-> digest_validate d = Ok tt.
Proof. unfold validate_digest. destruct (digest_validate d) as [[]|]; simpl; split; congruence. Qed.

Lemma parse_digest_ok `{Protocol} a h s d :
  parse_digest (a, h, s) = Ok d <-> d = mkDigest a h s /\ digest_validate d = Ok tt.
Proof.
  cbn. rewrite result_bind_ok. split.
  - intros ([] & Hv & [= <-]). by rewrite <-validate_digest_ok.
  - intros [-> Hv]. exists tt. by rewrite validate_digest_ok.
Qed.

Lemma parse_digest_u64 `{Protocol} parts d :
  (parts.2 < u64_modulus)%N -> parse_digest parts = Ok d -> digest_u64 d.
Proof. destruct parts as [[alg h] n]. intros Hu [-> _]%parse_digest_ok. exact Hu. Qed.

Lemma parsed_valid `{Protocol} parts d : parse_digest parts = Ok d -> digest_validate d = Ok tt.
Proof. destruct parts as [[a h] s]. by intros [-> Hd]%parse_digest_ok. Qed.

Lemma parse_action_digest_ok `{Protocol} a h s d :
  parse_action_digest (a, h, s) = Ok d <->
  d = mkDigest a h s /\ digest_validate d = Ok tt /\ digest_algorithm d = "blake3".
Proof.
  unfold parse_action_digest. rewrite result_bind_ok. split.
  - intros (d' & Hd' & Hk). apply parse_digest_ok in Hd' as [-> Hv].
    destruct (String.eqb_spec (digest_algorithm (mkDigest a h s)) "blake3") as [Heq|];
      cbn [negb] in Hk; [|discriminate].
    by injection Hk as <-.
  - intros (-> & Hv & Ha). exists (mkDigest a h s). rewrite parse_digest_ok.
    split; [done|]. by rewrite Ha.
Qed.

(** A quoted entity tag sent back in [If-Match] is the tag it quotes. *)
Lemma manifest_precondition_quoted headers etag :
  headers !! "if-none-match" <> Some "*" ->
  headers !! "if-match" = Some (quoted_etag etag) ->
  valid_etag etag = true ->
  manifest_precondition headers = Ok (Some etag).
Proof.
  intros Hnm Hm Hv. unfold manifest_precondition.
  rewrite bool_decide_eq_false_2 by done. rewrite Hm. cbn [ok_or result_bind].
  assert (strip_prefix DQUOTE (quoted_etag etag) = Some (etag ++ DQUOTE)) as ->
    by (by apply strip_prefix_some).
  cbn [mbind option_bind].
  assert (strip_suffix DQUOTE (etag ++ DQUOTE) = Some etag) as -> by (by apply strip_suffix_some).
  cbn [mbind option_bind]. by rewrite Hv.
Qed.
