(* ===== verification/Config.v ===== *)
(** * The configuration (src/config.rs)

    The record the command line and the environment are parsed into, its
    defaults, and what the parser guarantees of it. *)
From S2P Require Import Prelude Str Api.

Local Open Scope string_scope.

Inductive StorageKind := Azure | Filesystem | Gcs | S3.

Module Config.
Record t := mk {
  listen : string;
  tls_cert : option string;
  tls_key : option string;
  storage : StorageKind;
  data_dir : string;
  database_url : string;
  database_max_connections : N;
  database_acquire_timeout : N;
  sweep_metadata_older_than_days : option N;
  azure_account : option string;
  azure_container : option string;
  azure_prefix : string;
  azure_credential_type : string;
  azure_endpoint : option string;
  azure_allow_http : bool;
  gcs_bucket : option string;
  gcs_prefix : string;
  s3_bucket : option string;
  s3_prefix : string;
  s3_endpoint : option string;
  s3_region : string;
  s3_path_style : bool;
  tokens_json : option string;
  oidc_providers_json : option string;
  allow_anonymous : bool;
  anonymous_read_namespaces_json : option string;
  max_blob_bytes : N;
  pack_store_concurrency : N;
  max_spool_bytes : N;
}.

(** What is set when no argument and no variable is given. *)
Definition default : t := {|
  listen := "0.0.0.0:8080";
  tls_cert := None;
  tls_key := None;
  storage := Filesystem;
  data_dir := "/var/lib/mbx-cache";
  database_url := "memory://";
  database_max_connections := 32;
  database_acquire_timeout := 30;
  sweep_metadata_older_than_days := None;
  azure_account := None;
  azure_container := None;
  azure_prefix := "v1";
  azure_credential_type := "auto";
  azure_endpoint := None;
  azure_allow_http := false;
  gcs_bucket := None;
  gcs_prefix := "v1";
  s3_bucket := None;
  s3_prefix := "v1";
  s3_endpoint := None;
  s3_region := "us-east-1";
  s3_path_style := false;
  tokens_json := None;
  oidc_providers_json := None;
  allow_anonymous := false;
  anonymous_read_namespaces_json := None;
  max_blob_bytes := 5 * 1024 * 1024 * 1024;
  pack_store_concurrency := 8;
  max_spool_bytes := 0;
|}.

(** The value parsers' ranges and [requires]: clap refuses any other. *)
Definition accepted (config : t) : bool :=
  (1 <=? database_max_connections config)%N && (database_max_connections config <? 2 ^ 32)%N
  && (1 <=? database_acquire_timeout config)%N && (database_acquire_timeout config <? u64_modulus)%N
  && (1 <=? pack_store_concurrency config)%N && (pack_store_concurrency config <? 2 ^ 32)%N
  && (max_blob_bytes config <? u64_modulus)%N && (max_spool_bytes config <? u64_modulus)%N
  && bool_decide (is_Some (tls_cert config) <-> is_Some (tls_key config)).
End Config.

(** [std::env::var_os(name).is_some()] *)
Class Environment := { env_is_set : string -> bool }.

(** A timeout the environment does not set. *)
Definition unless_set `{Environment} (name value : string) : option string :=
  if env_is_set name then None else Some value.
