(* ===== verification/Model.v ===== *)
(** * Action descriptors and client metadata (src/model.rs)

    The records a client uploads, and the validation each passes before an
    action result may name it. One Module per struct; a [Vec] is a list, a
    [BTreeMap] a [gmap], a [u8] or [u64] an [N]. *)
From S2P Require Import Prelude Str Protocol.
From Stdlib Require Import Ascii.

Local Open Scope string_scope.

(** ** Strings *)

Definition valid_string (value : string) : bool := negb (contains_char NUL value).

Definition valid_strings (values : list string) : bool := forallb valid_string values.

(** [BTreeMap::iter().all(f)]. *)
Definition map_all {V} (f : string -> V -> bool) (m : gmap string V) : bool :=
  forallb (fun kv => f kv.1 kv.2) (map_to_list m).

Definition valid_string_map (values : gmap string string) : bool :=
  map_all (fun key value => valid_string key && valid_string value) values.

Definition valid_optional_string_map (values : gmap string (option string)) : bool :=
  map_all (fun key value =>
    negb (str_is_empty key) && valid_string key && is_none_or valid_string value) values.

(** [!value.is_empty() && valid_string(value)]. *)
Definition valid_nonempty (value : string) : bool :=
  negb (str_is_empty value) && valid_string value.

(** One component of a path split at '/'. *)
Definition safe_component (component : string) : bool :=
  negb (str_is_empty component) && negb (String.eqb component ".")
  && negb (String.eqb component "..").

Definition valid_normalized_path (path : string) : bool :=
  match strip_prefix "${" path ≫= split_once "}" with
  | None => false
  | Some (placeholder, suffix) =>
      if str_is_empty placeholder
         || negb (str_all (fun byte => is_ascii_alphanumeric byte || Ascii.eqb byte "_") placeholder)
      then false
      else
        str_is_empty suffix
        || match strip_prefix "/" suffix with
           | None => false
           | Some suffix =>
               negb (str_is_empty suffix)
               && negb (contains_char "\" suffix || contains_char NUL suffix)
               && forallb safe_component (split "/" suffix)
           end
  end.

(** [iter().all(|input| f(input) && paths.insert(path(input)))]: the set of
    paths grows as the inputs are checked, and a path met twice fails. *)
Fixpoint all_fresh {A} (f : A -> bool) (path : A -> string) (paths : gset string) (l : list A)
  : bool :=
  match l with
  | [] => true
  | input :: l' =>
      f input
      && (if decide (path input ∈ paths) then false
          else all_fresh f path ({[path input]} ∪ paths) l')
  end.

(** [Digest::validate().is_ok()]. *)
Definition digest_ok `{Protocol} (d : Digest) : bool := is_ok (digest_validate d).

(** ** Task actions *)

Inductive TaskPhase := Normal | Post.

Module TaskRunSingle.
Record t := mk { task : string; args : list string; env : gmap string string }.
End TaskRunSingle.

Module TaskRunGroup.
Record t := mk { tasks : list string }.
End TaskRunGroup.

Module TaskRunEntry.
Inductive t :=
  | Script (script : string)
  | Single (entry : TaskRunSingle.t)
  | Group (entry : TaskRunGroup.t).

Definition validate (self : t) : bool :=
  match self with
  | Script script => valid_string script
  | Single entry =>
      valid_string (TaskRunSingle.task entry) && valid_strings (TaskRunSingle.args entry)
      && valid_string_map (TaskRunSingle.env entry)
  | Group entry => valid_strings (TaskRunGroup.tasks entry)
  end.
End TaskRunEntry.

Module TaskCommandInput.
Record t := mk { command : string; stdout_hash : string; stderr_hash : string }.

Definition validate (self : t) : bool :=
  valid_string (command self) && valid_string (stdout_hash self)
  && valid_string (stderr_hash self).
End TaskCommandInput.

Module TaskAction.
Record t := mk {
  version : N;
  kind : string;
  task : string;
  phase : TaskPhase;
  run : list TaskRunEntry.t;
  args : list string;
  shell : option string;
  outputs : list string;
  root : string;
  source_hash : string;
  dependency_keys : list string;
  environment : gmap string (option string);
  command_inputs : list TaskCommandInput.t;
  vars : gmap string string;
  tools : list string;
  os : string;
  arch : string;
}.

Definition validate (self : t) : bool :=
  (version self =? 1)%N
  && String.eqb (kind self) "task"
  && valid_string (task self)
  && match phase self with Normal | Post => true end
  && forallb TaskRunEntry.validate (run self)
  && valid_strings (args self)
  && is_none_or valid_string (shell self)
  && valid_strings (outputs self)
  && valid_string (root self)
  && valid_string (source_hash self)
  && valid_strings (dependency_keys self)
  && map_all (fun key value => valid_string key && is_none_or valid_string value)
       (environment self)
  && forallb TaskCommandInput.validate (command_inputs self)
  && valid_string_map (vars self)
  && valid_strings (tools self)
  && valid_string (os self)
  && valid_string (arch self).
End TaskAction.

(** ** Task metadata *)

Inductive TaskOutputStream := Stdout | Stderr.

Module TaskOutput.
Record t := mk { stream : TaskOutputStream; line : string }.

Definition validate (self : t) : bool :=
  match stream self with Stdout | Stderr => true end && valid_string (line self).
End TaskOutput.

Module TaskMetadata.
Record t := mk {
  version : N;
  kind : string;
  task_identity : string;
  roots : list string;
  output : list TaskOutput.t;
  restored_bytes : N;
  execution_duration_ns : N;
}.

Definition validate (self : t) : bool :=
  (version self =? 1)%N
  && String.eqb (kind self) "task"
  && valid_string (task_identity self)
  && valid_strings (roots self)
  && forallb TaskOutput.validate (output self).
End TaskMetadata.

(** ** Rustc actions *)

Module RustcCompiler.
Record t := mk {
  toolchain : string;
  rustc_version : string;
  host : string;
  driver : option string;
}.

Definition validate (self : t) : bool :=
  forallb valid_nonempty
    ([toolchain self; rustc_version self; host self]
       ++ match driver self with Some d => [d] | None => [] end).
End RustcCompiler.

Module RustcInput.
Record t := mk { path : string; digest : Digest }.

Definition validate `{Protocol} (self : t) : bool :=
  valid_normalized_path (path self) && digest_ok (digest self).
End RustcInput.

Module RustcLinkerIdentity.
Record t := mk {
  driver : string;
  driver_version : string;
  linker_version : string;
  crt_objects : gmap string Digest;
  sdk : option string;
  deployment_target : option string;
}.

Definition validate `{Protocol} (self : t) : bool :=
  forallb valid_nonempty [driver self; driver_version self; linker_version self]
  && map_all (fun name digest =>
       negb (str_is_empty name) && valid_string name && digest_ok digest) (crt_objects self)
  && is_none_or valid_nonempty (sdk self)
  && is_none_or valid_nonempty (deployment_target self).
End RustcLinkerIdentity.

Module RustcAction.
Record t := mk {
  version : N;
  kind : string;
  adapter_version : N;
  compiler : RustcCompiler.t;
  arguments : list string;
  environment : gmap string (option string);
  inputs : list RustcInput.t;
  linker : option RustcLinkerIdentity.t;
}.

Definition validate `{Protocol} (self : t) : bool :=
  (version self =? 1)%N
  && String.eqb (kind self) "rustc"
  && (0 <? adapter_version self)%N
  && RustcCompiler.validate (compiler self)
  && valid_strings (arguments self)
  && map_all (fun key value =>
       negb (str_is_empty key) && valid_string key && is_none_or valid_string value)
       (environment self)
  && negb (match inputs self with [] => true | _ => false end)
  && all_fresh RustcInput.validate RustcInput.path ∅ (inputs self)
  && is_none_or RustcLinkerIdentity.validate (linker self).
End RustcAction.

(** ** Cc actions *)

Module CcArgument.
Inductive t :=
  | Plain (value : string)
  | Path (flag path : string)
  | PrefixMap (flag from to : string)
  | Source (value : string).

Definition validate (self : t) : bool :=
  match self with
  | Plain value | Source value => valid_string value
  | Path flag path => valid_string flag && valid_string path
  | PrefixMap flag from to => valid_string flag && valid_string from && valid_string to
  end.
End CcArgument.

Module CcPathBinding.
Record t := mk {
  working_dir : string;
  arguments : list CcArgument.t;
  roots : gmap string string;
}.

Definition validate (self : t) : bool :=
  valid_string (working_dir self)
  && forallb CcArgument.validate (arguments self)
  && valid_string_map (roots self).
End CcPathBinding.

Module CcPreprocessing.
Record t := mk {
  working_dir : string;
  arguments : list string;
  roots : gmap string string;
}.

Definition validate (self : t) : bool :=
  valid_string (working_dir self) && valid_strings (arguments self)
  && valid_string_map (roots self).
End CcPreprocessing.

Module CcCompiler.
Record t := mk {
  assembler : string;
  family : string;
  target : string;
  version_text : string;
}.

Definition validate (self : t) : bool :=
  valid_string (assembler self)
  && forallb valid_nonempty [family self; target self; version_text self].
End CcCompiler.

Module CcInput.
Record t := mk { digest : Digest; path : string }.

Definition validate `{Protocol} (self : t) : bool :=
  negb (str_is_empty (path self)) && valid_string (path self) && digest_ok (digest self).
End CcInput.

Module CcAction.
Record t := mk {
  version : N;
  kind : string;
  adapter_version : N;
  assembly_input_model : option N;
  path_binding : option CcPathBinding.t;
  preprocessing : option CcPreprocessing.t;
  compiler : CcCompiler.t;
  arguments : list string;
  environment : gmap string (option string);
  inputs : list CcInput.t;
}.

Definition validate `{Protocol} (self : t) : bool :=
  (version self =? 1)%N
  && String.eqb (kind self) "cc"
  && (0 <? adapter_version self)%N
  && is_none_or (fun version => version =? 1)%N (assembly_input_model self)
  && is_none_or CcPathBinding.validate (path_binding self)
  && is_none_or CcPreprocessing.validate (preprocessing self)
  && CcCompiler.validate (compiler self)
  && valid_strings (arguments self)
  && valid_optional_string_map (environment self)
  && negb (match inputs self with [] => true | _ => false end)
  && all_fresh CcInput.validate CcInput.path ∅ (inputs self).
End CcAction.

(** ** Build-script actions and metadata *)

(** [BUILD_SCRIPT_ACTION_SCHEMAS], the range 2..=5. *)
Definition BUILD_SCRIPT_ACTION_SCHEMAS : N * N := (2, 5)%N.

Definition range_contains (range : N * N) (n : N) : bool := (range.1 <=? n)%N && (n <=? range.2)%N.

Module BuildScriptInput.
Inductive t :=
  | Missing
  | BlockedByFile
  | File (digest : Digest)
  | Directory (digest : Digest)
  | Symlink (target : string) (referent : t).

Fixpoint validate `{Protocol} (self : t) (depth : nat) : bool :=
  if (64 <? depth)%nat then false
  else
    match self with
    | Missing | BlockedByFile => true
    | File digest | Directory digest => digest_ok digest
    | Symlink target referent => valid_string target && validate referent (depth + 1)%nat
    end.
End BuildScriptInput.

Module BuildScriptAction.
Record t := mk {
  version : N;
  kind : string;
  archive_timestamps : option string;
  binary_action : Digest;
  cargo_environment : gmap string (option string);
  checkout : option string;
  environment : gmap string (option string);
  inputs : gmap string BuildScriptInput.t;
  out_dir : option string;
}.

Definition validate `{Protocol} (self : t) : bool :=
  range_contains BUILD_SCRIPT_ACTION_SCHEMAS (version self)
  && String.eqb (kind self) "build-script"
  && is_none_or valid_string (archive_timestamps self)
  && digest_ok (binary_action self)
  && valid_optional_string_map (cargo_environment self)
  && valid_optional_string_map (environment self)
  && map_all (fun path input =>
       valid_string path && negb (str_is_empty path) && BuildScriptInput.validate input 0)
       (inputs self)
  && is_none_or valid_string (out_dir self)
  && is_none_or valid_string (checkout self).
End BuildScriptAction.

Module BuildScriptMetadata.
Record t := mk { version : N; kind : string; stdout : Digest; stderr : Digest }.

Definition validate `{Protocol} (self : t) : bool :=
  (version self =? 1)%N
  && String.eqb (kind self) "build-script"
  && digest_ok (stdout self)
  && digest_ok (stderr self).
End BuildScriptMetadata.

(** ** Lemmas *)

Lemma map_all_spec {V} (f : string -> V -> bool) (m : gmap string V) :
  map_all f m = true <-> forall k v, m !! k = Some v -> f k v = true.
Proof.
  unfold map_all. rewrite forallb_forall. split.
  - intros H k v Hk. apply (H (k, v)). by apply list_elem_of_In, elem_of_map_to_list.
  - intros H [k v] Hin. apply H. by apply elem_of_map_to_list, list_elem_of_In.
Qed.

Lemma forallb_True {A} (f : A -> bool) l : forallb f l = true <-> Forall (fun x => f x = true) l.
Proof. by rewrite forallb_forall, List.Forall_forall. Qed.

Lemma all_fresh_spec {A} (f : A -> bool) (path : A -> string) paths l :
  all_fresh f path paths l = true <->
  Forall (fun x => f x = true) l /\ NoDup (map path l) /\
  Forall (fun x => path x ∉ paths) l.
Proof.
  revert paths; induction l as [|x l IH]; intros paths; cbn [all_fresh map].
  { split; [|done]. repeat split; constructor. }
  rewrite andb_true_iff, !Forall_cons_iff, NoDup_cons. case_decide as Hx.
  { split; [naive_solver|]. tauto. }
  rewrite IH.
  assert (Forall (fun x0 => path x0 ∉ {[path x]} ∪ paths) l <->
    path x ∉ map path l /\ Forall (fun x0 => path x0 ∉ paths) l) as ->.
  { rewrite !List.Forall_forall, list_elem_of_In, in_map_iff. split.
    - intros H. split; [intros (y & E & Hy)|intros y Hy]; specialize (H y Hy); set_solver.
    - intros [H1 H2] y Hy. specialize (H2 y Hy).
      assert (path y <> path x) by (intros E; apply H1; eauto). set_solver. }
  tauto.
Qed.

Definition string_nul_free (s : string) : Prop := contains_char NUL s = false.

Lemma valid_string_spec s : valid_string s = true <-> string_nul_free s.
Proof. apply negb_true_iff. Qed.

(** A path the server may see in a descriptor: "${name}", or that and a
    relative path of safe components below it. *)
Definition normalized_path (path : string) : Prop :=
  exists placeholder, placeholder <> "" /\
    str_all (fun b => is_ascii_alphanumeric b || Ascii.eqb b "_") placeholder = true /\
    (path = "${" ++ placeholder ++ "}" \/
     exists components, components <> [] /\
       path = "${" ++ placeholder ++ "}/" ++ join "/" components /\
       Forall (fun c => c <> "" /\ c <> "." /\ c <> ".." /\ contains_char "/" c = false /\
                 contains_char "\" c = false /\ contains_char NUL c = false) components).

Lemma safe_component_spec c : safe_component c = true <-> c <> "" /\ c <> "." /\ c <> "..".
Proof.
  unfold safe_component. rewrite !andb_true_iff, !negb_true_iff, !String.eqb_neq.
  rewrite <-not_true_iff_false, str_is_empty_spec. tauto.
Qed.

Lemma contains_char_join c sep ws :
  c <> sep ->
  (contains_char c (join sep ws) = false <-> Forall (fun w => contains_char c w = false) ws).
Proof.
  intros Hne. induction ws as [|w ws IH]; [split; [constructor|done]|].
  rewrite Forall_cons_iff, <-IH. destruct ws as [|w' ws]; [cbn; tauto|].
  change (join sep (w :: w' :: ws)) with (w ++ String sep (join sep (w' :: ws))).
  rewrite contains_char_app, orb_false_iff, !contains_char_false. cbn [str_all].
  rewrite andb_true_iff, negb_true_iff, Ascii.eqb_neq. assert (sep <> c) by congruence. tauto.
Qed.

(** The characters of a placeholder are none of the braces. *)
Lemma placeholder_no_brace placeholder :
  str_all (fun b => is_ascii_alphanumeric b || Ascii.eqb b "_") placeholder = true ->
  contains_char "}" placeholder = false.
Proof.
  rewrite contains_char_false. apply str_all_impl. intros a Ha.
  destruct (Ascii.eqb_spec a "}") as [->|]; [vm_compute in Ha; discriminate|done].
Qed.
