(* ===== verification/ModelProofs.v ===== *)
(** * What validated descriptors guarantee *)
From S2P Require Import Prelude Str Protocol Concrete Model.
From Stdlib Require Import Ascii.

Local Open Scope string_scope.

(** A check of all elements, each checked for a property. *)
Lemma forallb_spec {A} (f : A -> bool) (P : A -> Prop) l :
  (forall a, f a = true <-> P a) -> (forallb f l = true <-> Forall P l).
Proof. intros Hf. rewrite forallb_True. apply Forall_iff. exact Hf. Qed.

(** ** Normalized paths *)

Lemma safe_components_spec suffix :
  negb (contains_char "\" suffix || contains_char NUL suffix) &&
    forallb safe_component (split "/" suffix) = true <->
  exists components, components <> [] /\ suffix = join "/" components /\
    Forall (fun c => c <> "" /\ c <> "." /\ c <> ".." /\ contains_char "/" c = false /\
              contains_char "\" c = false /\ contains_char NUL c = false) components.
Proof.
  rewrite andb_true_iff, negb_true_iff, orb_false_iff, forallb_True. split.
  - intros [[Hb Hn] Hs]. exists (split "/" suffix).
    split; [apply split_not_nil|]. split; [by rewrite join_split|].
    pose proof (split_no_sep "/" suffix) as Hsep.
    rewrite <-(join_split "/" suffix) in Hb, Hn. rewrite contains_char_join in Hb, Hn by done.
    rewrite !Forall_forall in *. intros c Hc. specialize (Hs c Hc).
    apply safe_component_spec in Hs. naive_solver.
  - intros (cs & Hne & -> & Hcs).
    assert (Forall (fun w => contains_char "/" w = false) cs) as Hsep
      by (eapply Forall_impl; [exact Hcs|naive_solver]).
    rewrite !contains_char_join, split_join by done.
    repeat split; (eapply Forall_impl; [exact Hcs|]); intros c; cbn; rewrite ?safe_component_spec;
      naive_solver.
Qed.

(** The check accepts exactly the normalized paths: a placeholder of
    letters, digits and underscores, alone or followed by a relative path none
    of whose components is empty, "." or ".." or holds a separator, a backslash
    or a NUL. *)
Theorem valid_normalized_path_spec path :
  valid_normalized_path path = true <-> normalized_path path.
Proof.
  unfold valid_normalized_path, normalized_path. split.
  - intros H. destruct (strip_prefix "${" path ≫= split_once "}") as [[p suffix]|] eqn:E; [|done].
    apply bind_Some in E as (rest & ->%strip_prefix_some & [-> Hp]%split_once_some).
    destruct (str_is_empty p) eqn:Hempty; [done|].
    destruct (str_all _ p) eqn:Hall; [|done]. cbn [orb negb] in H.
    exists p. split; [by intros ->|]. split; [done|].
    destruct suffix as [|a suffix]; [by left|]. right. cbn [str_is_empty orb] in H.
    destruct (strip_prefix "/" (String a suffix)) as [s|] eqn:Es; [|done].
    apply strip_prefix_some in Es. rewrite <-andb_assoc, andb_true_iff, safe_components_spec in H.
    destruct H as [_ (cs & Hne & -> & Hcs)]. exists cs. rewrite Es. done.
  - intros (p & Hne & Hall & Hpath).
    pose proof (placeholder_no_brace p Hall) as Hbrace.
    assert (forall suffix, path = "${" ++ p ++ String "}" suffix ->
      strip_prefix "${" path ≫= split_once "}" = Some (p, suffix)) as Hsplit.
    { intros suffix ->. apply bind_Some. eexists. rewrite strip_prefix_some, split_once_some. done. }
    destruct (str_is_empty p) eqn:Hempty; [by apply str_is_empty_spec in Hempty|].
    destruct Hpath as [Hpath|(cs & Hcs & Hpath & Hok)].
    + rewrite (Hsplit "" Hpath), Hempty, Hall. done.
    + rewrite (Hsplit (String "/" (join "/" cs)) Hpath), Hempty, Hall.
      cbn [orb negb str_is_empty strip_prefix]. rewrite Ascii.eqb_refl, <-andb_assoc.
      rewrite (proj2 (safe_components_spec (join "/" cs))) by eauto. rewrite andb_true_r.
      apply negb_true_iff, not_true_iff_false. intros He%str_is_empty_spec.
      destruct cs as [|c cs]; [done|]. apply Forall_cons in Hok as [(Hc & _) _].
      destruct cs; [by destruct c|]. by destruct c.
Qed.

(** ** Inputs of compiler actions *)

(** A rustc action that validates lists at least one input, no path twice,
    each path normalized and each digest valid, and so are the digests of its
    linker's objects. *)
Theorem rustc_action_inputs `{Protocol} (action : RustcAction.t)
    (Hvalid : RustcAction.validate action = true) :
  RustcAction.inputs action <> [] /\
  NoDup (map RustcInput.path (RustcAction.inputs action)) /\
  Forall (fun i => normalized_path (RustcInput.path i) /\
                   digest_ok (RustcInput.digest i) = true) (RustcAction.inputs action) /\
  forall linker name digest,
    RustcAction.linker action = Some linker ->
    RustcLinkerIdentity.crt_objects linker !! name = Some digest -> digest_ok digest = true.
Proof.
  unfold RustcAction.validate in Hvalid. rewrite !andb_true_iff in Hvalid.
  destruct Hvalid as [[[_ Hne] Hin] Hlinker]. apply all_fresh_spec in Hin as (Hin & Hnd & _).
  split; [by intros Hnil; rewrite Hnil in Hne|]. split; [done|]. split.
  - eapply Forall_impl; [exact Hin|]. intros i Hi. unfold RustcInput.validate in Hi.
    rewrite andb_true_iff, valid_normalized_path_spec in Hi. done.
  - intros linker name digest Hl Ho. rewrite Hl in Hlinker. cbn in Hlinker.
    unfold RustcLinkerIdentity.validate in Hlinker. rewrite !andb_true_iff, map_all_spec in Hlinker.
    destruct Hlinker as [[[_ Hc] _] _]. specialize (Hc _ _ Ho). by apply andb_true_iff in Hc as [_ Hc].
Qed.

(** A library crate of one source file. *)
Definition sample_hash : string :=
  "0123456789abcdef0123456789abcdef0123456789abcdef0123456789abcdef".

Definition sample_rustc_action : RustcAction.t := RustcAction.mk 1 "rustc" 1
  (RustcCompiler.mk "stable" "rustc 1.80" "x86_64-unknown-linux-gnu" None)
  ["--crate-type=lib"] ∅
  [RustcInput.mk "${workspace}/src/lib.rs" (mkDigest "blake3" sample_hash 12)]
  (Some (RustcLinkerIdentity.mk "cc" "gcc 13" "ld 2.41"
    {["crt1.o" := mkDigest "sha256" sample_hash 3]} None None)).

Lemma rustc_action_inputs_witness :
  @RustcAction.validate concrete_protocol sample_rustc_action = true /\
  normalized_path "${workspace}/src/lib.rs".
Proof.
  assert (@RustcAction.validate concrete_protocol sample_rustc_action = true) as Hv
    by (vm_compute; reflexivity).
  split; [exact Hv|].
  destruct (@rustc_action_inputs concrete_protocol sample_rustc_action Hv) as (_ & _ & Hin & _).
  exact (proj1 (Forall_inv Hin)).
Defined.

(** ** Build-script inputs *)

Lemma digest_ok_spec `{Protocol} d : digest_ok d = true <-> digest_validate d = Ok tt.
Proof. unfold digest_ok. by destruct (digest_validate d) as [[]|e]. Qed.

(** How many symlinks are followed before the input is something else. *)
Fixpoint nesting (i : BuildScriptInput.t) : nat :=
  match i with
  | BuildScriptInput.Symlink _ referent => S (nesting referent)
  | _ => 0
  end.

Fixpoint input_well_formed `{Protocol} (i : BuildScriptInput.t) : Prop :=
  match i with
  | BuildScriptInput.Missing | BuildScriptInput.BlockedByFile => True
  | BuildScriptInput.File digest | BuildScriptInput.Directory digest => digest_validate digest = Ok tt
  | BuildScriptInput.Symlink target referent =>
      string_nul_free target /\ input_well_formed referent
  end.

(** The depth-limited check of a build-script input accepts exactly the
    well-formed chains of at most [64 - depth] symlinks. *)
Theorem build_script_input_spec `{Protocol} (i : BuildScriptInput.t) depth :
  BuildScriptInput.validate i depth = true <-> nesting i + depth <= 64 /\ input_well_formed i.
Proof.
  revert depth; induction i as [| | | |target i IH]; intros depth;
    cbn [BuildScriptInput.validate nesting input_well_formed];
    destruct (Nat.ltb_spec 64 depth); try (split; [done|lia]); try (split; [|tauto]; intros; split; [lia|done]).
  1, 2: rewrite digest_ok_spec; split; [intros; split; [lia|done]|tauto].
  rewrite andb_true_iff, IH, valid_string_spec. rewrite Nat.add_succ_l, <-Nat.add_succ_r, (Nat.add_1_r depth). tauto.
Qed.

(** ** No NUL in a task *)

(** Every string of a task action: none may hold a NUL byte. *)
Definition run_entry_strings (e : TaskRunEntry.t) : list string :=
  match e with
  | TaskRunEntry.Script s => [s]
  | TaskRunEntry.Single s =>
      TaskRunSingle.task s :: (TaskRunSingle.args s
        ++ flat_map (fun kv => [kv.1; kv.2]) (map_to_list (TaskRunSingle.env s)))%list
  | TaskRunEntry.Group g => TaskRunGroup.tasks g
  end.

Definition optional_list (o : option string) : list string :=
  match o with Some s => [s] | None => [] end.

Definition task_action_strings (a : TaskAction.t) : list string :=
  ([TaskAction.task a; TaskAction.root a; TaskAction.source_hash a; TaskAction.os a;
    TaskAction.arch a]
   ++ flat_map run_entry_strings (TaskAction.run a)
   ++ TaskAction.args a ++ optional_list (TaskAction.shell a) ++ TaskAction.outputs a
   ++ TaskAction.dependency_keys a
   ++ flat_map (fun kv => kv.1 :: optional_list kv.2) (map_to_list (TaskAction.environment a))
   ++ flat_map (fun c => [TaskCommandInput.command c; TaskCommandInput.stdout_hash c;
                          TaskCommandInput.stderr_hash c]) (TaskAction.command_inputs a)
   ++ flat_map (fun kv => [kv.1; kv.2]) (map_to_list (TaskAction.vars a))
   ++ TaskAction.tools a)%list.

Lemma forallb_flat_map {A B} (f : B -> bool) (g : A -> list B) l :
  forallb f (flat_map g l) = forallb (fun x => forallb f (g x)) l.
Proof. induction l as [|x l IH]; cbn; [done|]. by rewrite forallb_app, IH. Qed.

Lemma forallb_ext' {A} (f g : A -> bool) l : (forall x, f x = g x) -> forallb f l = forallb g l.
Proof. intros H. induction l as [|x l IH]; cbn; [done|]. by rewrite H, IH. Qed.

Lemma run_entry_strings_spec e :
  forallb valid_string (run_entry_strings e) = TaskRunEntry.validate e.
Proof.
  destruct e as [s|s|g]; cbn [run_entry_strings TaskRunEntry.validate]; cbn [forallb].
  - apply andb_true_r.
  - rewrite forallb_app, forallb_flat_map, <-andb_assoc. do 2 f_equal.
    apply forallb_ext'. intros [k v]. cbn. by rewrite andb_true_r.
  - done.
Qed.

Lemma optional_list_spec o : forallb valid_string (optional_list o) = is_none_or valid_string o.
Proof. destruct o; cbn; [apply andb_true_r|done]. Qed.

(** A task action validates exactly when it is version 1, of kind "task",
    and no string in it, at any depth, holds a NUL. *)
Theorem task_action_spec (a : TaskAction.t) :
  TaskAction.validate a = true <->
  TaskAction.version a = 1%N /\ TaskAction.kind a = "task" /\
  Forall string_nul_free (task_action_strings a).
Proof.
  rewrite <-(forallb_spec _ _ _ valid_string_spec).
  unfold task_action_strings, TaskAction.validate, valid_strings, valid_string_map, map_all.
  rewrite !forallb_app, !forallb_flat_map, !optional_list_spec.
  rewrite (forallb_ext' (fun x => forallb valid_string (run_entry_strings x)) TaskRunEntry.validate)
    by apply run_entry_strings_spec.
  rewrite (forallb_ext' (fun x => forallb valid_string (x.1 :: optional_list x.2))
    (fun kv => valid_string kv.1 && is_none_or valid_string kv.2))
    by (intros [k v]; cbn [forallb]; by rewrite optional_list_spec).
  rewrite (forallb_ext' (fun x => forallb valid_string [x.1; x.2])
    (fun kv => valid_string kv.1 && valid_string kv.2))
    by (intros [k v]; cbn; by rewrite andb_true_r).
  rewrite (forallb_ext' (fun x => forallb valid_string [TaskCommandInput.command x; _; _])
    TaskCommandInput.validate)
    by (intros x; unfold TaskCommandInput.validate; cbn; by rewrite andb_true_r, andb_assoc).
  cbn [forallb]. destruct (TaskAction.phase a); rewrite !andb_true_iff, N.eqb_eq, String.eqb_eq; tauto.
Qed.

(** ** Whole actions

    What a record must be, apart from how the code comes to check it. *)

Definition nonempty_text (s : string) : Prop := s <> "" /\ string_nul_free s.

(** Nothing, or something of which [P] holds. *)
Definition absent_or {A} (P : A -> Prop) (o : option A) : Prop := forall a, o = Some a -> P a.

Definition environment_ok (environment : gmap string (option string)) : Prop :=
  forall name value, environment !! name = Some value -> nonempty_text name /\ absent_or string_nul_free value.

Definition text_map (values : gmap string string) : Prop :=
  forall key value, values !! key = Some value -> string_nul_free key /\ string_nul_free value.

Lemma valid_nonempty_spec s : valid_nonempty s = true <-> nonempty_text s.
Proof.
  unfold valid_nonempty, nonempty_text. rewrite andb_true_iff, valid_string_spec, negb_true_iff.
  rewrite <-not_true_iff_false, str_is_empty_spec. done.
Qed.

Lemma is_none_or_spec {A} (f : A -> bool) (P : A -> Prop) o :
  (forall a, f a = true <-> P a) -> (is_none_or f o = true <-> absent_or P o).
Proof. intros Hf. unfold absent_or. destruct o as [a|]; cbn; [rewrite Hf; naive_solver|done]. Qed.

Lemma map_all_iff {V} (f : string -> V -> bool) (P : string -> V -> Prop) m :
  (forall k v, f k v = true <-> P k v) -> (map_all f m = true <-> forall k v, m !! k = Some v -> P k v).
Proof. intros Hf. rewrite map_all_spec. split; intros H k v Hk; by apply Hf, H. Qed.

Lemma valid_strings_spec l : valid_strings l = true <-> Forall string_nul_free l.
Proof. apply forallb_spec, valid_string_spec. Qed.

Lemma valid_string_map_spec m : valid_string_map m = true <-> text_map m.
Proof. apply map_all_iff. intros k v. by rewrite andb_true_iff, !valid_string_spec. Qed.

Lemma valid_environment_spec m : valid_optional_string_map m = true <-> environment_ok m.
Proof.
  apply map_all_iff. intros k v. rewrite andb_true_iff, (is_none_or_spec _ _ v valid_string_spec).
  by rewrite <-valid_nonempty_spec.
Qed.

Lemma nonempty_list {A} (l : list A) : negb (match l with [] => true | _ => false end) = true <-> l <> [].
Proof. by destruct l. Qed.

(** Inputs under paths of their own. *)
Lemma all_fresh_iff {A} (f : A -> bool) (P : A -> Prop) (path : A -> string) l :
  (forall a, f a = true <-> P a) ->
  (all_fresh f path ∅ l = true <-> Forall P l /\ NoDup (map path l)).
Proof.
  intros Hf. rewrite all_fresh_spec, <-forallb_True, (forallb_spec _ _ _ Hf). split; [tauto|].
  intros [HP Hnd]. split_and!; [done..|]. apply Forall_forall. set_solver.
Qed.

Section Actions.
Context `{Protocol}.

Definition valid_task_action (a : TaskAction.t) : Prop :=
  TaskAction.version a = 1%N /\ TaskAction.kind a = "task" /\ Forall string_nul_free (task_action_strings a).

Definition valid_linker (l : RustcLinkerIdentity.t) : Prop :=
  Forall nonempty_text
    [RustcLinkerIdentity.driver l; RustcLinkerIdentity.driver_version l; RustcLinkerIdentity.linker_version l] /\
  (forall name digest, RustcLinkerIdentity.crt_objects l !! name = Some digest ->
     nonempty_text name /\ digest_validate digest = Ok tt) /\
  absent_or nonempty_text (RustcLinkerIdentity.sdk l) /\
  absent_or nonempty_text (RustcLinkerIdentity.deployment_target l).

Definition valid_rustc_action (a : RustcAction.t) : Prop :=
  RustcAction.version a = 1%N /\ RustcAction.kind a = "rustc" /\ (0 < RustcAction.adapter_version a)%N /\
  Forall nonempty_text
    (let c := RustcAction.compiler a in
     [RustcCompiler.toolchain c; RustcCompiler.rustc_version c; RustcCompiler.host c]
       ++ optional_list (RustcCompiler.driver c)) /\
  Forall string_nul_free (RustcAction.arguments a) /\ environment_ok (RustcAction.environment a) /\
  RustcAction.inputs a <> [] /\
  Forall (fun i => normalized_path (RustcInput.path i) /\ digest_validate (RustcInput.digest i) = Ok tt)
    (RustcAction.inputs a) /\
  NoDup (map RustcInput.path (RustcAction.inputs a)) /\
  absent_or valid_linker (RustcAction.linker a).

Definition cc_argument_strings (a : CcArgument.t) : list string :=
  match a with
  | CcArgument.Plain value | CcArgument.Source value => [value]
  | CcArgument.Path flag path => [flag; path]
  | CcArgument.PrefixMap flag from to => [flag; from; to]
  end.

Definition valid_cc_action (a : CcAction.t) : Prop :=
  CcAction.version a = 1%N /\ CcAction.kind a = "cc" /\ (0 < CcAction.adapter_version a)%N /\
  absent_or (fun model => model = 1%N) (CcAction.assembly_input_model a) /\
  absent_or (fun b => string_nul_free (CcPathBinding.working_dir b) /\
      Forall (fun arg => Forall string_nul_free (cc_argument_strings arg)) (CcPathBinding.arguments b) /\
      text_map (CcPathBinding.roots b)) (CcAction.path_binding a) /\
  absent_or (fun p => string_nul_free (CcPreprocessing.working_dir p) /\
      Forall string_nul_free (CcPreprocessing.arguments p) /\ text_map (CcPreprocessing.roots p))
    (CcAction.preprocessing a) /\
  string_nul_free (CcCompiler.assembler (CcAction.compiler a)) /\
  Forall nonempty_text (let c := CcAction.compiler a in
    [CcCompiler.family c; CcCompiler.target c; CcCompiler.version_text c]) /\
  Forall string_nul_free (CcAction.arguments a) /\ environment_ok (CcAction.environment a) /\
  CcAction.inputs a <> [] /\
  Forall (fun i => nonempty_text (CcInput.path i) /\ digest_validate (CcInput.digest i) = Ok tt)
    (CcAction.inputs a) /\
  NoDup (map CcInput.path (CcAction.inputs a)).

Definition valid_build_script_action (a : BuildScriptAction.t) : Prop :=
  (2 <= BuildScriptAction.version a <= 5)%N /\ BuildScriptAction.kind a = "build-script" /\
  absent_or string_nul_free (BuildScriptAction.archive_timestamps a) /\
  digest_validate (BuildScriptAction.binary_action a) = Ok tt /\
  environment_ok (BuildScriptAction.cargo_environment a) /\ environment_ok (BuildScriptAction.environment a) /\
  (forall path input, BuildScriptAction.inputs a !! path = Some input ->
     nonempty_text path /\ nesting input <= 64 /\ input_well_formed input) /\
  absent_or string_nul_free (BuildScriptAction.out_dir a) /\ absent_or string_nul_free (BuildScriptAction.checkout a).

Lemma task_valid a : TaskAction.validate a = true <-> valid_task_action a.
Proof. apply task_action_spec. Qed.

Lemma linker_valid l : RustcLinkerIdentity.validate l = true <-> valid_linker l.
Proof.
  unfold RustcLinkerIdentity.validate, valid_linker.
  rewrite !andb_true_iff, (forallb_spec _ _ _ valid_nonempty_spec), !(is_none_or_spec _ _ _ valid_nonempty_spec).
  rewrite (map_all_iff _ (fun name d => nonempty_text name /\ digest_validate d = Ok tt)); [tauto|].
  intros name d. by rewrite andb_true_iff, digest_ok_spec, <-valid_nonempty_spec.
Qed.

Lemma rustc_valid a : RustcAction.validate a = true <-> valid_rustc_action a.
Proof.
  unfold RustcAction.validate, valid_rustc_action, RustcCompiler.validate.
  rewrite !andb_true_iff, N.eqb_eq, String.eqb_eq, N.ltb_lt, valid_strings_spec, nonempty_list.
  rewrite (forallb_spec _ _ _ valid_nonempty_spec), (is_none_or_spec _ _ _ linker_valid).
  rewrite (all_fresh_iff _ (fun i => normalized_path (RustcInput.path i) /\ digest_validate (RustcInput.digest i) = Ok tt))
    by (intros i; unfold RustcInput.validate; by rewrite andb_true_iff, valid_normalized_path_spec, digest_ok_spec).
  change (map_all _ (RustcAction.environment a)) with (valid_optional_string_map (RustcAction.environment a)).
  rewrite valid_environment_spec. tauto.
Qed.

Lemma cc_argument_valid a : CcArgument.validate a = true <-> Forall string_nul_free (cc_argument_strings a).
Proof.
  rewrite <-valid_strings_spec. unfold valid_strings. destruct a; cbn; by rewrite ?andb_true_r, ?andb_assoc.
Qed.

Lemma cc_valid a : CcAction.validate a = true <-> valid_cc_action a.
Proof.
  unfold CcAction.validate, valid_cc_action, CcCompiler.validate.
  rewrite !andb_true_iff, N.eqb_eq, String.eqb_eq, N.ltb_lt, valid_strings_spec, nonempty_list, valid_string_spec.
  rewrite (forallb_spec _ _ _ valid_nonempty_spec), valid_environment_spec.
  rewrite (is_none_or_spec _ _ (CcAction.assembly_input_model a) (fun model => N.eqb_eq model 1)).
  rewrite (is_none_or_spec CcPathBinding.validate (fun b => string_nul_free (CcPathBinding.working_dir b) /\
      Forall (fun arg => Forall string_nul_free (cc_argument_strings arg)) (CcPathBinding.arguments b) /\
      text_map (CcPathBinding.roots b)))
    by (intros b; unfold CcPathBinding.validate; rewrite !andb_true_iff, valid_string_spec, valid_string_map_spec,
          (forallb_spec _ _ _ cc_argument_valid); tauto).
  rewrite (is_none_or_spec CcPreprocessing.validate (fun p => string_nul_free (CcPreprocessing.working_dir p) /\
      Forall string_nul_free (CcPreprocessing.arguments p) /\ text_map (CcPreprocessing.roots p)))
    by (intros p; unfold CcPreprocessing.validate; rewrite !andb_true_iff, valid_string_spec, valid_string_map_spec,
          valid_strings_spec; tauto).
  rewrite (all_fresh_iff _ (fun i => nonempty_text (CcInput.path i) /\ digest_validate (CcInput.digest i) = Ok tt))
    by (intros i; unfold CcInput.validate; by rewrite andb_true_iff, digest_ok_spec, <-valid_nonempty_spec).
  tauto.
Qed.

Lemma build_script_valid a : BuildScriptAction.validate a = true <-> valid_build_script_action a.
Proof.
  unfold BuildScriptAction.validate, valid_build_script_action, range_contains. cbn [fst snd BUILD_SCRIPT_ACTION_SCHEMAS].
  rewrite !andb_true_iff, !N.leb_le, String.eqb_eq, digest_ok_spec, !valid_environment_spec.
  rewrite !(is_none_or_spec _ _ _ valid_string_spec).
  rewrite (map_all_iff _ (fun path input => nonempty_text path /\ nesting input <= 64 /\ input_well_formed input)); [tauto|].
  intros path input. rewrite andb_true_iff, build_script_input_spec, Nat.add_0_r, (andb_comm (valid_string path)).
  by rewrite <-valid_nonempty_spec.
Qed.
End Actions.
