(* ===== verification/Pack.v ===== *)
(** * The blob-pack reader (src/pack.rs) and frame writer (src/server.rs)

    The incremental parser of an uploaded pack as the state machine it is:
    [PackReader.push_step] is one turn of the loop of [push], [drive] the loop,
    [push] and [finish] the two calls a request makes. *)
From S2P Require Import Prelude Str Protocol Api.
From Stdlib Require Import Strings.Byte.

Local Open Scope mbx_scope.

(** [BLOB_PACK_MAGIC] and [BLOB_PACK_HEADER_BYTES]: the eight bytes
    "MBXPACK1", and one tag byte, 32 hash bytes and eight length bytes. *)
Definition BLOB_PACK_MAGIC : bytes := String.list_byte_of_string "MBXPACK1"%string.
Definition HEADER_BYTES : nat := 41.

Inductive PackEvent :=
  | Started (digest : Digest)
  | Payload (payload : bytes)
  | Complete.

Inductive PackError :=
  | ErrMagic
  | ErrAlgorithm (tag : N)
  | Truncated
  | BlobTooLarge (size limit : N)
  | TooManyBlobs (limit : N)
  | TooManyBytes (limit : N).

Inductive State := StMagic | StHeader | StPayload.

#[export] Instance State_eq_dec : EqDecision State.
Proof. solve_decision. Defined.

Module PackReader.
Section PackReader.
Context `{Protocol} `{Hex}.

Record t := mk {
  state : State;
  buffer : bytes;
  max_blob_bytes : N;
  max_blobs : N;
  max_payload_bytes : N;
  blobs : N;
  payload_bytes : N;
  remaining : N;
}.

(** [PackReader::new]. *)
Definition new (max_blob max_count max_payload : N) : t :=
  mk StMagic [] max_blob max_count max_payload 0 0 0.

Definition set_state (s : State) (r : t) : t :=
  mk s (buffer r) (max_blob_bytes r) (max_blobs r) (max_payload_bytes r)
    (blobs r) (payload_bytes r) (remaining r).
Definition set_buffer (b : bytes) (r : t) : t :=
  mk (state r) b (max_blob_bytes r) (max_blobs r) (max_payload_bytes r)
    (blobs r) (payload_bytes r) (remaining r).
Definition set_remaining (n : N) (r : t) : t :=
  mk (state r) (buffer r) (max_blob_bytes r) (max_blobs r) (max_payload_bytes r)
    (blobs r) (payload_bytes r) n.
(** [self.blobs += 1] and [self.payload_bytes += n]. *)
Definition add_blob (r : t) : t :=
  mk (state r) (buffer r) (max_blob_bytes r) (max_blobs r) (max_payload_bytes r)
    (u64_add (blobs r) 1) (payload_bytes r) (remaining r).
Definition add_payload_bytes (n : N) (r : t) : t :=
  mk (state r) (buffer r) (max_blob_bytes r) (max_blobs r) (max_payload_bytes r)
    (blobs r) (u64_add (payload_bytes r) n) (remaining r).

(** [fill]: buffer until [wanted] bytes are held, reporting whether they are;
    also what is left of [rest]. *)
Definition fill (r : t) (rest : bytes) (wanted : nat) : t * bytes * bool :=
  let '(r, rest) :=
    if length (buffer r) <? wanted then
      let n := Nat.min (wanted - length (buffer r)) (length rest) in
      (set_buffer (buffer r ++ take n rest) r, drop n rest)
    else (r, rest) in
  (r, rest, length (buffer r) =? wanted).

(** [parse_header], called on a buffer of [HEADER_BYTES]. *)
Definition parse_header (r : t) : result PackError Digest :=
  algorithm <-?
    match Byte.to_N (nth 0 (buffer r) x00) with
    | 1%N => Ok Blake3
    | 2%N => Ok Sha256
    | other => Err (ErrAlgorithm other)
    end;
  let hash := hex_encode (take 32 (drop 1 (buffer r))) in
  let sz := from_be_bytes (take (HEADER_BYTES - 33) (drop 33 (buffer r))) in
  if (max_blob_bytes r <? sz)%N then Err (BlobTooLarge sz (max_blob_bytes r))
  else Ok (mkDigest (algorithm_as_str algorithm) hash sz).

(** One turn of the loop of [push]: go on with what is left of the chunk, or
    return. *)
Inductive turn :=
  | Continue (r : t) (rest : bytes) (events : list PackEvent)
  | Return (r : t) (res : result PackError (list PackEvent)).

(** [if self.remaining == 0 { push Complete; state = Header }]. *)
Definition complete_if_done (r : t) (rest : bytes) (events : list PackEvent) : turn :=
  if (remaining r =? 0)%N
  then Continue (set_state StHeader r) rest (events ++ [Complete])
  else Continue r rest events.

Definition push_step (r : t) (rest : bytes) (events : list PackEvent) : turn :=
  match state r with
  | StMagic =>
      let '(r, rest, full) := fill r rest (length BLOB_PACK_MAGIC) in
      if negb full then Return r (Ok events)
      else if negb (bool_decide (buffer r = BLOB_PACK_MAGIC)) then Return r (Err ErrMagic)
      else Continue (set_state StHeader (set_buffer [] r)) rest events
  | StHeader =>
      if (length rest =? 0) && (length (buffer r) =? 0) then Return r (Ok events)
      else
        let '(r, rest, full) := fill r rest HEADER_BYTES in
        if negb full then Return r (Ok events)
        else
          match parse_header r with
          | Err e => Return r (Err e)
          | Ok digest =>
              let r := add_blob (set_remaining (digest_size digest) (set_buffer [] r)) in
              if (max_blobs r <? blobs r)%N then Return r (Err (TooManyBlobs (max_blobs r)))
              else complete_if_done (set_state StPayload r) rest (events ++ [Started digest])
          end
  | StPayload =>
      if length rest =? 0 then Return r (Ok events)
      else
        let n := N.to_nat (N.min (remaining r) (N.of_nat (length rest))) in
        let payload := take n rest in
        let rest := drop n rest in
        let r := add_payload_bytes (N.of_nat n)
                   (set_remaining (remaining r - N.of_nat n) r) in
        if (max_payload_bytes r <? payload_bytes r)%N
        then Return r (Err (TooManyBytes (max_payload_bytes r)))
        else complete_if_done r rest (events ++ [Payload payload])
  end.

(** The loop, with fuel; [None] is fuel exhausted. *)
Fixpoint push_loop (fuel : nat) (r : t) (rest : bytes) (events : list PackEvent)
  : option (t * result PackError (list PackEvent)) :=
  match fuel with
  | O => None
  | S fuel' =>
      match push_step r rest events with
      | Return r res => Some (r, res)
      | Continue r rest events => push_loop fuel' r rest events
      end
  end.

(** The measure that every turn decreases, whatever the reader. *)
Definition weight (r : t) : nat :=
  match state r, buffer r with
  | StMagic, _ => 3
  | StHeader, [] => 0
  | StHeader, _ => 2
  | StPayload, [] => 1
  | StPayload, _ => 3
  end.
Definition measure (r : t) (rest : bytes) : nat := 3 * length rest + weight r.

(** The loop with the fuel it needs; [push_loop_fuel] says the default is
    never taken. *)
Definition drive (r : t) (rest : bytes) (events : list PackEvent)
  : t * result PackError (list PackEvent) :=
  match push_loop (S (measure r rest)) r rest events with
  | Some out => out
  | None => (r, Ok events)
  end.

(** [PackReader::push]. *)
Definition push (r : t) (chunk : bytes) : t * result PackError (list PackEvent) :=
  drive r chunk [].

(** [PackReader::finish]. *)
Definition finish (r : t) : result PackError unit :=
  if bool_decide (state r = StHeader) && (length (buffer r) =? 0) then Ok tt
  else Err Truncated.

(** The events of a whole body, chunk after chunk, as the request handler
    asks for them; the first error ends the request. *)
Fixpoint push_all (r : t) (chunks : list bytes) : t * result PackError (list PackEvent) :=
  match chunks with
  | [] => (r, Ok [])
  | c :: cs =>
      match push r c with
      | (r1, Err e) => (r1, Err e)
      | (r1, Ok evs) =>
          match push_all r1 cs with
          | (r2, Ok evs') => (r2, Ok (evs ++ evs'))
          | (r2, Err e) => (r2, Err e)
          end
      end
  end.

(** The loop body of [read_pack]: a started blob is appended empty, payload
    goes to the last one. [None] is the [expect] that payload follows a
    started blob. *)
Definition collect_event (acc : option (list (Digest * bytes))) (e : PackEvent)
  : option (list (Digest * bytes)) :=
  blobs ← acc;
  match e with
  | Started d => Some (blobs ++ [(d, [])])
  | Payload p =>
      match list.last blobs with
      | Some (d, q) => Some (take (length blobs - 1) blobs ++ [(d, q ++ p)])
      | None => None
      end
  | Complete => Some blobs
  end.
Definition collect (evs : list PackEvent) : option (list (Digest * bytes)) :=
  foldl collect_event (Some []) evs.

(** [read_pack], on a body that arrives in chunks. *)
Definition read_chunks (r : t) (chunks : list bytes)
  : result PackError (option (list (Digest * bytes))) :=
  match push_all r chunks with
  | (_, Err e) => Err e
  | (r', Ok evs) => _ <-? finish r'; Ok (collect evs)
  end.
End PackReader.
End PackReader.

(** ** Writing a frame (src/server.rs) *)

Section Writer.
Context `{Protocol} `{Hex}.

Definition pack_blob_header (digest : Digest) : result ApiError bytes :=
  hash <-? map_err bad_request (hex_decode (digest_hash digest));
  if negb (length hash =? 32) then Err (bad_request "invalid digest hash length")
  else
    tag <-? map_err bad_request (algorithm_kind digest);
    Ok ((match tag with Blake3 => x01 | Sha256 => x02 end)
          :: hash ++ to_be_bytes 8 (digest_size digest)).

(** A frame is its header and its content; a pack is the magic and its
    frames, in order. *)
Definition pack_frame (entry : Digest * bytes) : result ApiError bytes :=
  header <-? pack_blob_header (fst entry);
  Ok (header ++ snd entry).

Fixpoint pack_frames (entries : list (Digest * bytes)) : result ApiError bytes :=
  match entries with
  | [] => Ok []
  | e :: es => f <-? pack_frame e; fs <-? pack_frames es; Ok (f ++ fs)
  end.

Definition encode_pack (entries : list (Digest * bytes)) : result ApiError bytes :=
  fs <-? pack_frames entries; Ok (BLOB_PACK_MAGIC ++ fs).
End Writer.

(** ** Termination *)

Import PackReader.

#[local] Arguments Nat.min : simpl never.
#[local] Arguments Nat.sub : simpl never.
#[local] Arguments Nat.mul : simpl never.
#[local] Arguments N.mul : simpl never.
#[local] Arguments N.add : simpl never.
#[local] Arguments HEADER_BYTES : simpl never.
#[local] Arguments BLOB_PACK_MAGIC : simpl never.

Section Termination.
Context `{Protocol} `{Hex}.

Lemma fill_spec r rest wanted r' rest' full :
  fill r rest wanted = (r', rest', full) ->
  exists n, r' = set_buffer (buffer r ++ take n rest) r /\ rest' = drop n rest /\
    n = Nat.min (wanted - length (buffer r)) (length rest) /\
    full = (length (buffer r') =? wanted).
Proof.
  unfold fill. destruct (Nat.ltb_spec (length (buffer r)) wanted) as [Hlt|Hge].
  - intros [= <- <- <-]. eauto.
  - intros [= <- <- <-]. exists 0. rewrite take_0, app_nil_r. destruct r; simpl in *.
    repeat split; auto with lia.
Qed.

Lemma push_step_measure r rest evs r' rest' evs' :
  push_step r rest evs = Continue r' rest' evs' -> measure r' rest' < measure r rest.
Proof.
  unfold push_step, complete_if_done. destruct (state r) eqn:Hst.
  - destruct (fill _ _ _) as [[r1 rest1] full] eqn:Hf.
    apply fill_spec in Hf as (n & -> & -> & -> & ->).
    repeat (case_match; try discriminate). intros [= <- <- <-].
    unfold measure, weight. simpl. rewrite Hst, length_drop. lia.
  - destruct ((length rest =? 0) && (length (buffer r) =? 0)) eqn:Hemp; [discriminate|].
    destruct (fill _ _ _) as [[r1 rest1] full] eqn:Hf.
    apply fill_spec in Hf as (n & -> & -> & -> & ->).
    apply andb_false_iff in Hemp. rewrite !Nat.eqb_neq in Hemp.
    repeat (case_match; try discriminate); intros [= <- <- <-];
      unfold measure, weight in *; simpl in *; rewrite Hst, length_drop;
      destruct (buffer r); simpl in *; unfold HEADER_BYTES in *; lia.
  - destruct (Nat.eqb_spec (length rest) 0); [discriminate|].
    repeat (case_match; try discriminate); intros [= <- <- <-];
      unfold measure, weight; simpl in *; rewrite ?Hst, length_drop;
      rewrite ?N.eqb_neq in *; destruct (buffer r); lia.
Qed.

(** The loop runs out of no fuel it is given by [drive], from any reader. *)
Lemma push_loop_fuel r rest evs fuel :
  measure r rest < fuel -> push_loop fuel r rest evs <> None.
Proof.
  revert r rest evs; induction fuel as [|fuel IH]; intros r rest evs Hm; [lia|]. simpl.
  destruct (push_step r rest evs) as [r' rest' evs'|r' res] eqn:E; [|done].
  apply push_step_measure in E. apply IH. lia.
Qed.

Lemma push_loop_mono r rest evs f1 f2 out :
  push_loop f1 r rest evs = Some out -> f1 <= f2 -> push_loop f2 r rest evs = Some out.
Proof.
  revert r rest evs f2; induction f1 as [|f1 IH]; intros r rest evs f2 Hl Hle; [done|].
  destruct f2 as [|f2]; [lia|]. simpl in *.
  destruct (push_step r rest evs); [|done]. apply IH; [done|lia].
Qed.

(** The equation of the loop, without fuel. *)
Lemma drive_eq r rest evs :
  drive r rest evs =
    match push_step r rest evs with
    | Return r' res => (r', res)
    | Continue r' rest' evs' => drive r' rest' evs'
    end.
Proof.
  unfold drive at 1. simpl.
  destruct (push_step r rest evs) as [r' rest' evs'|r' res] eqn:E; [|done].
  apply push_step_measure in E. unfold drive.
  destruct (push_loop (S (measure r' rest')) r' rest' evs') as [out|] eqn:El.
  - erewrite push_loop_mono by (done || lia). done.
  - exfalso. revert El. apply push_loop_fuel. lia.
Qed.

(** Induction along the turns of one [push]. *)
Lemma drive_ind (P : t -> bytes -> list PackEvent -> t * result PackError (list PackEvent) -> Prop) :
  (forall r rest evs r' res, push_step r rest evs = Return r' res -> P r rest evs (r', res)) ->
  (forall r rest evs r' rest' evs', push_step r rest evs = Continue r' rest' evs' ->
     P r' rest' evs' (drive r' rest' evs') -> P r rest evs (drive r' rest' evs')) ->
  forall r rest evs, P r rest evs (drive r rest evs).
Proof.
  intros HR HC r rest evs. remember (measure r rest) as m eqn:Hm.
  revert r rest evs Hm. induction (lt_wf m) as [m _ IH]. intros r rest evs ->.
  rewrite drive_eq. destruct (push_step r rest evs) eqn:E; [|by apply HR].
  eapply HC; [done|]. eapply IH; [|done]. by eapply push_step_measure.
Qed.
End Termination.

(** ** Events and the blobs they carry *)

Lemma last_snoc {A} (l : list A) x : list.last (l ++ [x]) = Some x.
Proof. induction l as [|a [|b l] IH]; done. Qed.

Lemma collect_started c d : collect_event (Some c) (Started d) = Some (c ++ [(d, [])]).
Proof. done. Qed.

Lemma collect_payload c d q p :
  collect_event (Some (c ++ [(d, q)])) (Payload p) = Some (c ++ [(d, q ++ p)]).
Proof.
  cbn. rewrite last_snoc, length_app. cbn [length].
  by replace (length c + 1 - 1) with (length c) by lia; rewrite take_app_length.
Qed.

Lemma collect_complete c : collect_event (Some c) Complete = Some c.
Proof. done. Qed.

(** Payload bytes of a list of entries. *)
Definition payload_total (entries : list (Digest * bytes)) : N :=
  foldr (fun e acc => N.of_nat (length (snd e)) + acc)%N 0%N entries.

Lemma payload_total_app es1 es2 :
  payload_total (es1 ++ es2) = (payload_total es1 + payload_total es2)%N.
Proof. induction es1 as [|e es1 IH]; simpl; [done|]. rewrite IH. lia. Qed.

(** An entry a client may send: its hash is written the way the protocol
    writes it, and its content has the declared size. *)
Definition entry_ok (max_blob : N) (e : Digest * bytes) : Prop :=
  str_all is_lower_hex (digest_hash (fst e)) = true /\
  digest_size (fst e) = N.of_nat (length (snd e)) /\ (digest_size (fst e) <= max_blob)%N.

(** ** Headers *)

Section Headers.
Context `{PL : ProtocolLaws} `{HL : HexLaws}.

Lemma pack_blob_header_ok d h :
  pack_blob_header d = Ok h <->
  exists raw a, hex_decode (digest_hash d) = Ok raw /\ length raw = 32 /\
    algorithm_kind d = Ok a /\
    h = (match a with Blake3 => Byte.x01 | Sha256 => Byte.x02 end)
          :: raw ++ to_be_bytes 8 (digest_size d).
Proof.
  unfold pack_blob_header. destruct (hex_decode (digest_hash d)) as [raw|]; simpl;
    [|split; [done|naive_solver]].
  destruct (Nat.eqb_spec (length raw) 32); simpl; [|split; [done|naive_solver]].
  destruct (algorithm_kind d) as [a|]; simpl; [|split; [done|naive_solver]].
  split; [|naive_solver]. intros [= <-]. eauto 10.
Qed.

Lemma pack_blob_header_length d h : pack_blob_header d = Ok h -> length h = HEADER_BYTES.
Proof.
  rewrite pack_blob_header_ok. intros (raw & a & _ & Hl & _ & ->). cbn [length].
  rewrite length_app, length_to_be_bytes, Hl. done.
Qed.

(** A header written for a digest is read back as that digest. *)
Lemma parse_header_pack r d h :
  pack_blob_header d = Ok h -> buffer r = h ->
  str_all is_lower_hex (digest_hash d) = true ->
  (digest_size d <= max_blob_bytes r)%N -> (digest_size d < u64_modulus)%N ->
  parse_header r = Ok d.
Proof.
  rewrite pack_blob_header_ok. intros (raw & a & Hdec & Hl & Hk & ->) Hb Hlow Hmax Hu.
  unfold parse_header. rewrite Hb. cbn [nth skipn]. rewrite drop_0.
  assert (take 32 (raw ++ to_be_bytes 8 (digest_size d)) = raw) as ->
    by (rewrite <-Hl; by rewrite take_app_length).
  assert (drop 32 (raw ++ to_be_bytes 8 (digest_size d)) = to_be_bytes 8 (digest_size d)) as ->
    by (rewrite <-Hl; by rewrite drop_app_length).
  rewrite take_ge by (autorewrite with bytes; unfold HEADER_BYTES; lia).
  rewrite from_to_be_bytes by exact Hu.
  rewrite (hex_encode_decode _ _ Hlow Hdec), (proj2 (N.ltb_ge _ _) Hmax).
  destruct d as [alg hash sz]; simpl in *.
  apply algorithm_kind_name in Hk. simpl in Hk. subst alg. by destruct a.
Qed.

(** A header that reads as a digest is the one written for it. *)
Lemma pack_parse_header r d :
  length (buffer r) = HEADER_BYTES -> parse_header r = Ok d ->
  pack_blob_header d = Ok (buffer r) /\
  str_all is_lower_hex (digest_hash d) = true /\ (digest_size d <= max_blob_bytes r)%N.
Proof.
  intros Hl. unfold parse_header.
  destruct (buffer r) as [|tag tl]; [done|]. cbn [nth skipn] in *. rewrite ?drop_0.
  set (raw := take 32 tl). set (len := take (HEADER_BYTES - 33) (drop 32 tl)).
  assert (length raw = 32) as Hraw by (unfold raw; rewrite length_take; simpl in Hl;
    unfold HEADER_BYTES in *; lia).
  assert (tl = raw ++ len) as Htl.
  { unfold raw, len. rewrite (take_ge (drop 32 tl)); [by rewrite take_drop|].
    rewrite length_drop. simpl in Hl. unfold HEADER_BYTES in *. lia. }
  assert (length len = 8) as Hlen.
  { apply (f_equal length) in Htl. rewrite length_app in Htl. simpl in Hl.
    unfold HEADER_BYTES in *. lia. }
  assert (to_be_bytes 8 (from_be_bytes len) = len) as Hbe
    by (rewrite <-Hlen; apply to_from_be_bytes).
  intros Hp. ok_step Hp as a Ha.
  destruct (N.ltb_spec (max_blob_bytes r) (from_be_bytes len)); [done|].
  injection Hp as <-. cbn [digest_hash digest_size].
  split; [|split; [apply hex_encode_lower|done]].
  apply pack_blob_header_ok. cbn [digest_hash digest_size].
  exists raw, a. split; [apply hex_decode_encode|]. split; [done|].
  split; [apply algorithm_kind_into|]. rewrite Hbe, <-Htl. f_equal.
  rewrite <-(u8_of_N_to_N tag). destruct (Byte.to_N tag) as [|[[|[]|]|[|[]|]|]]; simplify_eq;
    done.
Qed.
End Headers.

(** ** Frames parse one way only *)

Section Frames.
Context `{PL : ProtocolLaws} `{HL : HexLaws}.

Lemma pack_frames_cons d p es fs :
  pack_frames ((d, p) :: es) = Ok fs <->
  exists h fs', pack_blob_header d = Ok h /\ pack_frames es = Ok fs' /\ fs = h ++ p ++ fs'.
Proof.
  cbn. unfold pack_frame. cbn [fst snd].
  destruct (pack_blob_header d) as [h|] eqn:Hh; cbn; [|naive_solver].
  destruct (pack_frames es) as [fs'|]; cbn; [|naive_solver].
  rewrite <-app_assoc. naive_solver.
Qed.

Lemma pack_frames_app es1 es2 fs :
  pack_frames (es1 ++ es2) = Ok fs <->
  exists fs1 fs2, pack_frames es1 = Ok fs1 /\ pack_frames es2 = Ok fs2 /\ fs = fs1 ++ fs2.
Proof.
  revert fs; induction es1 as [|[d p] es1 IH]; intros fs.
  - cbn. split; [|naive_solver]. intros H1. by exists [], fs.
  - cbn [app]. rewrite pack_frames_cons. split.
    + intros (h & fs' & Hh & (fs1 & fs2 & H1 & H2 & ->)%IH & ->).
      exists (h ++ p ++ fs1), fs2. rewrite pack_frames_cons, <-!app_assoc. naive_solver.
    + intros (fs1 & fs2 & (h & fs' & Hh & H1 & ->)%pack_frames_cons & H2 & ->).
      exists h, (fs' ++ fs2). rewrite IH, <-!app_assoc. naive_solver.
Qed.

Lemma entry_ok_u64 max e :
  (max < u64_modulus)%N -> entry_ok max e -> (digest_size (fst e) < u64_modulus)%N.
Proof. unfold entry_ok. lia. Qed.

(** The header in front of a byte string determines the digest. *)
Lemma pack_blob_header_inj d1 d2 h1 h2 x1 x2 :
  pack_blob_header d1 = Ok h1 -> pack_blob_header d2 = Ok h2 ->
  str_all is_lower_hex (digest_hash d1) = true ->
  str_all is_lower_hex (digest_hash d2) = true ->
  (digest_size d1 < u64_modulus)%N -> (digest_size d2 < u64_modulus)%N ->
  h1 ++ x1 = h2 ++ x2 -> d1 = d2 /\ h1 = h2 /\ x1 = x2.
Proof.
  intros H1 H2 L1 L2 U1 U2 Heq.
  pose proof (pack_blob_header_length _ _ H1). pose proof (pack_blob_header_length _ _ H2).
  apply app_inj_1 in Heq as [-> ->]; [|congruence]. split; [|done].
  set (r := set_buffer h2 (new u64_max 0 0)).
  assert (Ok (E := PackError) d1 = Ok d2) as [= ->]; [|done].
  rewrite <-(parse_header_pack r d1 h2 H1); [|done|done|unfold u64_max in *; cbn; lia|done].
  apply (parse_header_pack r d2 h2 H2); [done|done|unfold u64_max in *; cbn; lia|done].
Qed.

Lemma frames_prefix max es c fc x :
  (max < u64_modulus)%N -> Forall (entry_ok max) es -> Forall (entry_ok max) c ->
  pack_frames c = Ok fc -> pack_frames es = Ok (fc ++ x) ->
  exists rem, es = c ++ rem /\ pack_frames rem = Ok x.
Proof.
  intros Hmax. revert es fc; induction c as [|[d p] c IH]; intros es fc He Hc Hfc Hfe.
  { cbn in Hfc. injection Hfc as <-. eauto. }
  apply pack_frames_cons in Hfc as (h & fc' & Hh & Hfc & ->).
  apply Forall_cons_iff in Hc as [(L1 & S1 & M1) Hc].
  destruct es as [|[d' p'] es].
  { cbn in Hfe. injection Hfe as Heq. apply pack_blob_header_length in Hh.
    apply (f_equal length) in Heq. rewrite !length_app, Hh in Heq.
    unfold HEADER_BYTES in Heq. cbn in Heq. lia. }
  apply pack_frames_cons in Hfe as (h' & fe' & Hh' & Hfe & Heq).
  apply Forall_cons_iff in He as [(L2 & S2 & M2) He].
  rewrite <-!app_assoc in Heq. cbn [fst snd] in *.
  apply (pack_blob_header_inj d d') in Heq as (<- & <- & Heq); try done; [|lia..].
  apply app_inj_1 in Heq as [<- <-]; [|lia].
  destruct (IH es fc') as (rem & -> & Hrem); eauto.
Qed.
End Frames.

