(* ===== verification/PackProofs.v ===== *)
(** * The pack reader is a parser of the pack format

    The invariant that ties a reader to the bytes it has consumed and the blobs
    it has reported, and the theorems about whole bodies. *)
From S2P Require Import Prelude Str Protocol Concrete Api Pack.

Import PackReader.

Local Open Scope mbx_scope.

#[local] Arguments Nat.min : simpl never.
#[local] Arguments Nat.sub : simpl never.
#[local] Arguments Nat.mul : simpl never.
#[local] Arguments N.mul : simpl never.
#[local] Arguments N.add : simpl never.
#[local] Arguments HEADER_BYTES : simpl never.
#[local] Arguments BLOB_PACK_MAGIC : simpl never.

(** ** The invariant of the reader

    [sinv r consumed col]: after the bytes [consumed], in whatever chunks they
    came, the events so far carry the blobs [col], and [consumed] is the magic,
    the frames of the finished blobs and the frame under way. *)

Section Invariant.
Context `{PL : ProtocolLaws} `{HL : HexLaws}.

Definition counts (r : t) (col : list (Digest * bytes)) : Prop :=
  blobs r = N.of_nat (length col) /\ payload_bytes r = payload_total col /\
  (blobs r <= max_blobs r)%N /\ (payload_bytes r <= max_payload_bytes r)%N.

Inductive sinv (r : t) (consumed : bytes) (col : list (Digest * bytes)) : Prop :=
  | sinv_magic :
      state r = StMagic -> buffer r = consumed ->
      length consumed < length BLOB_PACK_MAGIC -> col = [] -> counts r [] ->
      sinv r consumed col
  | sinv_header fs :
      state r = StHeader -> length (buffer r) < HEADER_BYTES ->
      pack_frames col = Ok fs -> consumed = BLOB_PACK_MAGIC ++ fs ++ buffer r ->
      Forall (entry_ok (max_blob_bytes r)) col -> counts r col ->
      sinv r consumed col
  | sinv_payload c d q fs h :
      state r = StPayload -> buffer r = [] -> col = c ++ [(d, q)] ->
      pack_frames c = Ok fs -> pack_blob_header d = Ok h ->
      consumed = BLOB_PACK_MAGIC ++ fs ++ h ++ q ->
      digest_size d = (N.of_nat (length q) + remaining r)%N -> (0 < remaining r)%N ->
      str_all is_lower_hex (digest_hash d) = true ->
      (digest_size d <= max_blob_bytes r)%N ->
      Forall (entry_ok (max_blob_bytes r)) c -> counts r col ->
      sinv r consumed col.

(** The limits leave room for the counters not to wrap. *)
Definition limits_ok (r : t) : Prop :=
  (max_blobs r < u64_max)%N /\ (max_payload_bytes r + max_blob_bytes r < u64_modulus)%N.

Definition same_limits (r r' : t) : Prop :=
  max_blob_bytes r' = max_blob_bytes r /\ max_blobs r' = max_blobs r /\
  max_payload_bytes r' = max_payload_bytes r.

Lemma sinv_new mb mc mp : sinv (new mb mc mp) [] [].
Proof. apply sinv_magic; try done. { vm_compute; lia. } unfold counts; cbn; lia. Qed.

(** What one turn may do from a state of the invariant. *)
Definition turn_ok (r : t) (consumed rest : bytes) (evs : list PackEvent)
    (col : list (Digest * bytes)) (u : turn) : Prop :=
  match u with
  | Return r' (Ok evs') =>
      evs' = evs /\ same_limits r r' /\ sinv r' (consumed ++ rest) col
  | Return r' (Err _) => same_limits r r'
  | Continue r' rest' evs' =>
      exists pre evs_new col', rest = pre ++ rest' /\ evs' = evs ++ evs_new /\
        foldl collect_event (Some col) evs_new = Some col' /\
        same_limits r r' /\ sinv r' (consumed ++ pre) col'
  end.

Lemma complete_if_done_eq r rest evs :
  complete_if_done r rest evs =
    if (remaining r =? 0)%N then Continue (set_state StHeader r) rest (evs ++ [Complete])
    else Continue r rest evs.
Proof. done. Qed.

Lemma turn_ok_magic r consumed rest evs col :
  state r = StMagic -> sinv r consumed col -> turn_ok r consumed rest evs col (push_step r rest evs).
Proof.
  intros Hst Hinv. destruct Hinv as [_ Hbuf Hlen -> Hc|? Hst'|? ? ? ? ? Hst']; [|congruence..].
  unfold push_step. rewrite Hst.
  destruct (fill r rest _) as [[r1 rest1] full] eqn:Hf.
  apply fill_spec in Hf as (n & -> & -> & Hn & ->). rewrite Hbuf in *. cbn [buffer set_buffer].
  destruct (Nat.eqb_spec (length (consumed ++ take n rest)) (length BLOB_PACK_MAGIC)) as [Hfull|Hfull];
    cbn [negb].
  - case_bool_decide as Hm; cbn [negb].
    + exists (take n rest), [], []. rewrite take_drop, app_nil_r.
      split; [done|]. split; [done|]. split; [done|]. split; [done|].
      apply (sinv_header _ _ _ []); try done. { cbn. unfold HEADER_BYTES. lia. }
    + done.
  - assert (n = length rest) as ->.
    { rewrite length_app, length_take in Hfull. lia. }
    rewrite take_ge in * by lia. split; [done|]. split; [done|].
    apply sinv_magic; try done. rewrite length_app in *. lia.
Qed.

Lemma turn_ok_header r consumed rest evs col :
  state r = StHeader -> limits_ok r -> sinv r consumed col ->
  turn_ok r consumed rest evs col (push_step r rest evs).
Proof.
  intros Hst [Hmb Hmp] Hinv.
  destruct Hinv as [Hst'|fs _ Hlen Hfs -> Hok Hc|? ? ? ? ? Hst']; [congruence| |congruence].
  unfold push_step. rewrite Hst.
  destruct ((length rest =? 0) && (length (buffer r) =? 0)) eqn:Hemp.
  { apply andb_true_iff in Hemp as [Hr%Nat.eqb_eq _]. destruct rest; [|done].
    cbn [turn_ok]. rewrite app_nil_r. repeat split; try done. by eapply sinv_header. }
  destruct (fill r rest HEADER_BYTES) as [[r1 rest1] full] eqn:Hf.
  apply fill_spec in Hf as (n & -> & -> & Hn & ->).
  set (h := buffer r ++ take n rest). cbn [buffer set_buffer].
  destruct (Nat.eqb_spec (length h) HEADER_BYTES) as [Hfull|Hfull]; cbn [negb].
  - destruct (parse_header (set_buffer h r)) as [d|e] eqn:Hp; [|done].
    apply pack_parse_header in Hp as (Hh & Hlow & Hmax); [|exact Hfull].
    cbn [buffer set_buffer max_blob_bytes] in Hh, Hmax.
    destruct Hc as (Hb & Hpb & Hbm & Hpm).
    assert (u64_add (blobs r) 1 = N.of_nat (length (col ++ [(d, [])]))) as Hadd.
    { rewrite u64_add_small, length_app, Hb by (unfold u64_max in *; lia). cbn. lia. }
    assert (payload_bytes r = payload_total (col ++ [(d, [])])) as Hpay
      by (rewrite payload_total_app; cbn; lia).
    cbn -[complete_if_done]. destruct (N.ltb_spec (max_blobs r) (u64_add (blobs r) 1)); [done|].
    unfold complete_if_done. cbn [remaining set_state add_blob set_remaining].
    destruct (N.eqb_spec (digest_size d) 0) as [Hz|Hz].
    + exists (take n rest), [Started d; Complete], (col ++ [(d, [])]).
      rewrite take_drop, <-app_assoc. repeat split; try done.
      apply (sinv_header _ _ _ (fs ++ h)); cbn; try done.
      * unfold HEADER_BYTES; lia.
      * apply pack_frames_app. exists fs, h. repeat split; [done|].
        apply pack_frames_cons. exists h, []. by rewrite app_nil_r.
      * rewrite app_nil_r, <-!app_assoc. done.
      * apply Forall_app. split; [done|]. apply Forall_singleton. by repeat split.
    + exists (take n rest), [Started d], (col ++ [(d, [])]).
      rewrite take_drop. repeat split; try done.
      apply (sinv_payload _ _ _ col d [] fs h); cbn; try done; [|lia].
      rewrite app_nil_r, <-!app_assoc. done.
  - assert (n = length rest) as ->.
    { unfold h in Hfull. rewrite length_app, length_take in Hfull. lia. }
    unfold h in *. rewrite take_ge in * by lia. split; [done|]. split; [done|].
    apply (sinv_header _ _ _ fs); try done.
    { cbn [buffer set_buffer]. rewrite length_app in *. lia. }
    cbn. by rewrite <-!app_assoc.
Qed.

Lemma turn_ok_payload r consumed rest evs col :
  state r = StPayload -> limits_ok r -> sinv r consumed col ->
  turn_ok r consumed rest evs col (push_step r rest evs).
Proof.
  intros Hst [Hmb Hmp] Hinv.
  destruct Hinv as [Hst'|? Hst'|c d q fs h _ Hbuf -> Hfs Hh -> Hsz Hrem Hlow Hmax Hok Hc];
    [congruence..|].
  unfold push_step. rewrite Hst.
  destruct (Nat.eqb_spec (length rest) 0) as [Hr|Hr].
  { destruct rest; [|done]. cbn [turn_ok]. rewrite app_nil_r.
    repeat split; try done. by eapply sinv_payload. }
  set (n := N.to_nat (N.min (remaining r) (N.of_nat (length rest)))).
  assert (N.of_nat n <= remaining r)%N as Hn1 by lia.
  assert (n <= length rest) as Hn2 by lia.
  destruct Hc as (Hb & Hpb & Hbm & Hpm).
  assert (payload_total (c ++ [(d, q ++ take n rest)]) = payload_bytes r + N.of_nat n)%N as Hpay.
  { rewrite Hpb, !payload_total_app. cbn. rewrite length_app, length_take. lia. }
  cbn -[complete_if_done]. rewrite u64_add_small by lia.
  destruct (N.ltb_spec (max_payload_bytes r) (payload_bytes r + N.of_nat n)); [done|].
  unfold complete_if_done. cbn [remaining add_payload_bytes set_remaining].
  destruct (N.eqb_spec (remaining r - N.of_nat n) 0) as [Hz|Hz].
  - exists (take n rest), [Payload (take n rest); Complete], (c ++ [(d, q ++ take n rest)]).
    rewrite take_drop, <-app_assoc. cbn [foldl]. rewrite collect_payload.
    repeat split; try done.
    apply (sinv_header _ _ _ (fs ++ h ++ q ++ take n rest)); cbn; try done.
    + rewrite Hbuf. cbn. unfold HEADER_BYTES; lia.
    + apply pack_frames_app. exists fs, (h ++ q ++ take n rest). repeat split; [done|].
      apply pack_frames_cons. exists h, []. by rewrite app_nil_r.
    + rewrite Hbuf, app_nil_r, <-!app_assoc. done.
    + apply Forall_app. split; [done|]. apply Forall_singleton.
      repeat split; cbn [fst snd]; try done. rewrite length_app, length_take. lia.
    + unfold counts. cbn. rewrite u64_add_small, Hpay, !length_app in * by lia. cbn in *. lia.
  - exists (take n rest), [Payload (take n rest)], (c ++ [(d, q ++ take n rest)]).
    rewrite take_drop. cbn [foldl]. rewrite collect_payload. repeat split; try done.
    apply (sinv_payload _ _ _ c d (q ++ take n rest) fs h); cbn; try done.
    + rewrite <-!app_assoc. done.
    + rewrite length_app, length_take. lia.
    + lia.
    + unfold counts. cbn. rewrite u64_add_small, Hpay, !length_app in * by lia. cbn in *. lia.
Qed.

Lemma push_step_turn r consumed rest evs col :
  limits_ok r -> sinv r consumed col ->
  turn_ok r consumed rest evs col (push_step r rest evs).
Proof.
  destruct (state r) eqn:Hst; intros;
    auto using turn_ok_magic, turn_ok_header, turn_ok_payload.
Qed.
End Invariant.

(** ** Whole bodies *)

Section Bodies.
Context `{PL : ProtocolLaws} `{HL : HexLaws}.

Lemma same_limits_refl r : same_limits r r.
Proof. done. Qed.

Lemma same_limits_trans r1 r2 r3 : same_limits r1 r2 -> same_limits r2 r3 -> same_limits r1 r3.
Proof. unfold same_limits. intuition congruence. Qed.

Lemma limits_ok_same r r' : same_limits r r' -> limits_ok r -> limits_ok r'.
Proof. unfold same_limits, limits_ok. by intros (-> & -> & ->). Qed.

(** One [push] keeps the invariant. *)
Lemma drive_sinv r rest evs consumed col r' evs' :
  limits_ok r -> sinv r consumed col -> drive r rest evs = (r', Ok evs') ->
  exists evs_new col', evs' = evs ++ evs_new /\
    foldl collect_event (Some col) evs_new = Some col' /\
    same_limits r r' /\ sinv r' (consumed ++ rest) col'.
Proof.
  revert consumed col r' evs'.
  apply (drive_ind (fun r rest evs out => forall consumed col r' evs',
    limits_ok r -> sinv r consumed col -> out = (r', Ok evs') ->
    exists evs_new col', evs' = evs ++ evs_new /\
      foldl collect_event (Some col) evs_new = Some col' /\
      same_limits r r' /\ sinv r' (consumed ++ rest) col')); clear r rest evs.
  - intros r rest evs r1 res Hstep consumed col r' evs' Hl Hinv [= <- ->].
    pose proof (push_step_turn r consumed rest evs col Hl Hinv) as Ht.
    rewrite Hstep in Ht. cbn in Ht. destruct Ht as (-> & Hs & Hi).
    exists [], col. by rewrite app_nil_r.
  - intros r rest evs r1 rest1 evs1 Hstep IH consumed col r' evs' Hl Hinv Hd.
    pose proof (push_step_turn r consumed rest evs col Hl Hinv) as Ht.
    rewrite Hstep in Ht. destruct Ht as (pre & new1 & col1 & -> & -> & Hc1 & Hs & Hi).
    destruct (IH (consumed ++ pre) col1 r' evs' (limits_ok_same _ _ Hs Hl) Hi Hd)
      as (new2 & col2 & -> & Hc2 & Hs2 & Hi2).
    exists (new1 ++ new2), col2. rewrite <-!app_assoc in *. rewrite foldl_app, Hc1.
    eauto using same_limits_trans.
Qed.

Lemma push_all_sinv chunks : forall r consumed col r' evs,
  limits_ok r -> sinv r consumed col -> push_all r chunks = (r', Ok evs) ->
  exists col', foldl collect_event (Some col) evs = Some col' /\
    same_limits r r' /\ sinv r' (consumed ++ concat chunks) col'.
Proof.
  induction chunks as [|c cs IH]; intros r consumed col r' evs Hl Hi Hp; cbn in Hp.
  { injection Hp as <- <-. exists col. by rewrite app_nil_r. }
  destruct (push r c) as [r1 [evs1|]] eqn:E1; [|done].
  destruct (push_all r1 cs) as [r2 [evs2|]] eqn:E2; [|done]. injection Hp as <- <-.
  apply (drive_sinv _ _ _ consumed col) in E1 as (new1 & col1 & -> & Hc1 & Hs1 & Hi1); [|done..].
  apply (IH _ (consumed ++ c) col1) in E2 as (col2 & Hc2 & Hs2 & Hi2);
    [|by eapply limits_ok_same|done].
  exists col2. cbn [app concat] in *. rewrite foldl_app, Hc1. rewrite <-app_assoc in Hi2.
  eauto using same_limits_trans.
Qed.

(** A pack within the reader's limits. *)
Definition pack_within (r : t) (entries : list (Digest * bytes)) : Prop :=
  Forall (entry_ok (max_blob_bytes r)) entries /\
  (N.of_nat (length entries) <= max_blobs r)%N /\
  (payload_total entries <= max_payload_bytes r)%N.

Lemma sinv_finished r consumed col :
  limits_ok r -> sinv r consumed col -> finish r = Ok tt ->
  encode_pack col = Ok consumed /\ pack_within r col.
Proof.
  intros Hl Hi Hf. unfold finish in Hf.
  case_bool_decide as Hst; [|done]. destruct (Nat.eqb_spec (length (buffer r)) 0); [|done].
  destruct Hi as [Hst'|fs _ _ Hfs -> Hok (Hb & Hp & Hbm & Hpm)|? ? ? ? ? Hst']; [congruence| |congruence].
  destruct (buffer r); [|done]. rewrite app_nil_r. unfold encode_pack. rewrite Hfs. cbn.
  split; [done|]. split; [done|]. lia.
Qed.

Lemma encode_pack_ok es bs :
  encode_pack es = Ok bs <-> exists fs, pack_frames es = Ok fs /\ bs = BLOB_PACK_MAGIC ++ fs.
Proof. unfold encode_pack. rewrite result_bind_ok. naive_solver. Qed.

(** While the bytes are those of a pack within the limits, no turn fails. *)
Lemma push_step_no_error r consumed rest future evs col entries r' e :
  limits_ok r -> sinv r consumed col -> pack_within r entries ->
  encode_pack entries = Ok (consumed ++ rest ++ future) ->
  push_step r rest evs <> Return r' (Err e).
Proof.
  intros [Hmb Hmp] Hinv (Hok & Hcount & Htotal) (fe & Hfe & Heq)%encode_pack_ok Hstep.
  assert (max_blob_bytes r < u64_modulus)%N as Hu by lia.
  unfold push_step in Hstep. destruct Hinv as
    [Hst Hbuf Hlen -> Hc|fs Hst Hlen Hfs -> Hcok (Hb & Hpb & _)
    |c d q fs h Hst Hbuf -> Hfs Hh -> Hsz Hrem Hlow Hmax Hcok (Hb & Hpb & _)]; rewrite Hst in Hstep.
  - destruct (fill r rest _) as [[r1 rest1] full] eqn:Hf.
    apply fill_spec in Hf as (n & -> & -> & Hn & ->). rewrite Hbuf in *. cbn [buffer set_buffer] in *.
    destruct (Nat.eqb_spec (length (consumed ++ take n rest)) (length BLOB_PACK_MAGIC)) as [Hfull|];
      [|done]. cbn [negb] in Hstep.
    rewrite bool_decide_eq_true_2 in Hstep; [done|].
    rewrite <-(take_drop n rest), <-!app_assoc, app_assoc in Heq.
    by apply app_inj_1 in Heq as [Heq _].
  - destruct ((length rest =? 0) && _); [done|].
    destruct (fill r rest HEADER_BYTES) as [[r1 rest1] full] eqn:Hf.
    apply fill_spec in Hf as (n & -> & -> & Hn & ->). cbn [buffer set_buffer] in Hstep.
    destruct (Nat.eqb_spec (length (buffer r ++ take n rest)) HEADER_BYTES) as [Hfull|]; [|done].
    cbn [negb] in Hstep. rewrite <-!app_assoc in Heq. apply app_inv_head in Heq. subst fe.
    destruct (frames_prefix _ entries col fs _ Hu Hok Hcok Hfs Hfe) as (rem & -> & Hrem).
    destruct rem as [|[d p] rem].
    { cbn in Hrem. injection Hrem as Hrem. apply (f_equal length) in Hrem.
      rewrite <-(take_drop n rest), !length_app in Hrem. rewrite !length_app in Hfull.
      unfold HEADER_BYTES in Hfull. cbn in Hrem. lia. }
    apply pack_frames_cons in Hrem as (h & fs' & Hh & Hrem & Hx).
    rewrite <-(take_drop n rest), <-!app_assoc, app_assoc in Hx.
    apply app_inj_1 in Hx as [Hx _]; [|by rewrite (pack_blob_header_length _ _ Hh)].
    rewrite Hx in Hstep.
    apply Forall_app in Hok as [_ [(Hlow & Hsz & Hmax) _]%Forall_cons_iff]. cbn [fst snd] in *.
    rewrite (parse_header_pack (set_buffer h r) d h) in Hstep; [|done|done|done|done|lia].
    rewrite length_app in Hcount. cbn [length] in Hcount.
    cbn -[complete_if_done] in Hstep. rewrite u64_add_small in Hstep by (unfold u64_max in *; lia).
    rewrite (proj2 (N.ltb_ge _ _)) in Hstep by lia.
    unfold complete_if_done in Hstep. case_match; done.
  - destruct (Nat.eqb_spec (length rest) 0) as [|Hr]; [done|].
    set (n := N.to_nat (N.min (remaining r) (N.of_nat (length rest)))) in *.
    rewrite <-!app_assoc in Heq. apply app_inv_head in Heq. subst fe.
    destruct (frames_prefix _ entries c fs _ Hu Hok Hcok Hfs Hfe) as (rem & -> & Htail).
    destruct rem as [|[d' p] rem].
    { cbn in Htail. injection Htail as Htail. apply (f_equal length) in Htail.
      apply pack_blob_header_length in Hh. rewrite !length_app, Hh in Htail.
      unfold HEADER_BYTES in Htail. cbn in Htail. lia. }
    apply pack_frames_cons in Htail as (h' & fs' & Hh' & Htail & Hx).
    apply Forall_app in Hok as [_ [(Hlow' & Hsz' & Hmax') _]%Forall_cons_iff]. cbn [fst snd] in *.
    apply (pack_blob_header_inj d d') in Hx as (<- & _ & _); try done; [|lia..].
    rewrite !payload_total_app in *. cbn in Htotal, Hpb.
    cbn -[complete_if_done] in Hstep. rewrite u64_add_small in Hstep by lia.
    rewrite (proj2 (N.ltb_ge _ _)) in Hstep by lia.
    unfold complete_if_done in Hstep. case_match; done.
Qed.
End Bodies.

(** ** Chunk boundaries

    Two outcomes are the same to the request when they fail with the same
    error, or leave the same reader and events that carry the same blobs. *)

Definition outcome_eq (o1 o2 : t * result PackError (list PackEvent)) : Prop :=
  match o1.2, o2.2 with
  | Ok e1, Ok e2 =>
      o1.1 = o2.1 /\ forall acc, foldl collect_event acc e1 = foldl collect_event acc e2
  | Err e1, Err e2 => e1 = e2
  | _, _ => False
  end.

#[export] Instance outcome_eq_equivalence : Equivalence outcome_eq.
Proof.
  unfold outcome_eq. split.
  - intros [r [e|e]]; done.
  - intros [r1 [e1|e1]] [r2 [e2|e2]]; cbn; naive_solver.
  - intros [r1 [e1|e1]] [r2 [e2|e2]] [r3 [e3|e3]]; cbn; try done; [|congruence].
    intros [-> H1] [-> H2]. split; [done|]. intros acc. by rewrite H1.
Qed.

Section Chunks.
Context `{PL : ProtocolLaws} `{HL : HexLaws}.

(** Feed [b] to what a chunk left, unless it failed. *)
Definition then_push (o : t * result PackError (list PackEvent)) (b : bytes)
  : t * result PackError (list PackEvent) :=
  match o with
  | (r, Ok evs) => drive r b evs
  | (r, Err e) => (r, Err e)
  end.

Lemma fill_app_full r a b w r1 a1 :
  fill r a w = (r1, a1, true) -> fill r (a ++ b) w = (r1, a1 ++ b, true).
Proof.
  unfold fill. destruct (Nat.ltb_spec (length (buffer r)) w) as [Hlt|Hge].
  - intros [= <- <- Hf]. cbn in Hf. apply Nat.eqb_eq in Hf.
    rewrite length_app, length_take in Hf.
    assert (Nat.min (w - length (buffer r)) (length a) = w - length (buffer r)) as Hn by lia.
    rewrite Hn in *. rewrite length_app.
    replace (Nat.min (w - length (buffer r)) (length a + length b))
      with (w - length (buffer r)) by lia.
    rewrite take_app_le, drop_app_le by lia. repeat f_equal. cbn.
    apply Nat.eqb_eq. rewrite length_app, length_take. lia.
  - by intros [= <- <- ->].
Qed.

Lemma fill_app_more r a b w r1 a1 :
  length (buffer r) < w -> fill r a w = (r1, a1, false) ->
  a1 = [] /\ r1 = set_buffer (buffer r ++ a) r /\ fill r (a ++ b) w = fill r1 b w.
Proof.
  intros Hlt. unfold fill at 1 2. rewrite (proj2 (Nat.ltb_lt _ _) Hlt).
  intros [= <- <- Hf]. cbn in Hf. apply Nat.eqb_neq in Hf.
  rewrite length_app, length_take in Hf.
  assert (Nat.min (w - length (buffer r)) (length a) = length a) as -> by lia.
  rewrite drop_all, take_ge by lia. split; [done|]. split; [done|].
  unfold fill. cbn [buffer set_buffer]. rewrite !length_app.
  destruct (Nat.ltb_spec (length (buffer r) + length a) w); [|lia].
  replace (Nat.min (w - length (buffer r)) (length a + length b))
    with (length a + Nat.min (w - (length (buffer r) + length a)) (length b)) by lia.
  rewrite take_app_add, drop_app_add. unfold set_buffer. cbn. rewrite !app_assoc. f_equal. rewrite !length_app. f_equal. lia.
Qed.

(** One turn on a longer chunk, payload apart. *)
Lemma push_step_app r a b evs consumed col :
  state r <> StPayload -> sinv r consumed col ->
  match push_step r a evs with
  | Continue r1 a1 evs1 => push_step r (a ++ b) evs = Continue r1 (a1 ++ b) evs1
  | Return r1 (Err e) => push_step r (a ++ b) evs = Return r1 (Err e)
  | Return r1 (Ok evs1) => evs1 = evs /\ push_step r (a ++ b) evs = push_step r1 b evs
  end.
Proof.
  intros Hst Hinv. unfold push_step. destruct (state r) eqn:Es; [| |done].
  - destruct Hinv as [_ Hb Hlen|? Hst'|? ? ? ? ? Hst']; [|congruence..].
    destruct (fill r a _) as [[r1 a1] full] eqn:Hf. destruct full; cbn [negb].
    + rewrite (fill_app_full _ _ _ _ _ _ Hf). cbn [negb]. by destruct (bool_decide _).
    + destruct (fill_app_more r a b (length BLOB_PACK_MAGIC) r1 a1) as (-> & -> & ->); [by rewrite Hb|done|].
      cbn [state set_buffer]. by rewrite Es.
  - destruct Hinv as [Hst'|? _ Hlen|? ? ? ? ? Hst']; [congruence| |congruence].
    destruct ((length a =? 0) && (length (buffer r) =? 0)) eqn:Hemp.
    { apply andb_true_iff in Hemp as [Ha%Nat.eqb_eq _]. destruct a; [|done]. by rewrite Es. }
    assert ((length (a ++ b) =? 0) && (length (buffer r) =? 0) = false) as ->.
    { apply andb_false_iff in Hemp. apply andb_false_iff. rewrite !Nat.eqb_neq in *.
      rewrite length_app. lia. }
    destruct (fill r a _) as [[r1 a1] full] eqn:Hf. destruct full; cbn [negb].
    + rewrite (fill_app_full _ _ _ _ _ _ Hf). cbn [negb].
      destruct (parse_header r1); [|done]. destruct (_ <? _)%N; [done|].
      unfold complete_if_done. by destruct (_ =? _)%N.
    + destruct (fill_app_more r a b HEADER_BYTES r1 a1 Hlen Hf) as (-> & -> & ->).
      split; [done|]. cbn [state set_buffer buffer]. rewrite Es.
      assert ((length b =? 0) && (length (buffer r ++ a) =? 0) = false) as ->; [|done].
      apply andb_false_iff in Hemp. apply andb_false_iff. rewrite !Nat.eqb_neq in *.
      rewrite length_app. lia.
Qed.

(** The events already there are a prefix of the outcome. *)
Lemma push_step_prefix r rest e1 e2 :
  push_step r rest (e1 ++ e2) =
    match push_step r rest e2 with
    | Continue r' rest' e' => Continue r' rest' (e1 ++ e')
    | Return r' (Ok e') => Return r' (Ok (e1 ++ e'))
    | Return r' (Err e) => Return r' (Err e)
    end.
Proof.
  unfold push_step, complete_if_done.
  destruct (state r); repeat (case_match; simplify_eq; try done); by rewrite <-!app_assoc.
Qed.

Lemma drive_prefix r rest e1 e2 :
  drive r rest (e1 ++ e2) =
    match drive r rest e2 with
    | (r', Ok e') => (r', Ok (e1 ++ e'))
    | (r', Err e) => (r', Err e)
    end.
Proof.
  apply (drive_ind (fun r rest e2 out => drive r rest (e1 ++ e2) =
    match out with (r', Ok e') => (r', Ok (e1 ++ e')) | (r', Err e) => (r', Err e) end));
    clear r rest e2.
  - intros r rest evs r' res Hstep. rewrite drive_eq, push_step_prefix, Hstep. by destruct res.
  - intros r rest evs r' rest' evs' Hstep IH. rewrite drive_eq, push_step_prefix, Hstep. done.
Qed.

Lemma collect_payload_app acc p q :
  collect_event (collect_event acc (Payload p)) (Payload q) = collect_event acc (Payload (p ++ q)).
Proof.
  destruct acc as [c|]; [|done]. cbn. destruct (list.last c) as [[d x]|] eqn:El; [|done].
  cbn. rewrite last_snoc, length_app. cbn [length].
  rewrite Nat.add_sub, take_app_length, <-app_assoc. done.
Qed.

(** A payload turn that a chunk cuts short goes on in the next. *)
Lemma payload_split r a b evs consumed col :
  state r = StPayload -> limits_ok r -> sinv r consumed col ->
  (N.of_nat (length a) < remaining r)%N -> a <> [] -> b <> [] ->
  outcome_eq (drive r (a ++ b) evs) (then_push (drive r a evs) b).
Proof.
  intros Hst [_ Hmp] Hinv Hlt Ha Hb.
  destruct Hinv as [Hst'|? Hst'|? ? ? ? ? _ _ _ _ _ _ Hsz Hrem _ Hmax _ (_ & _ & _ & Hpm)];
    [congruence..|].
  assert (length a <> 0) as Ha0 by (by destruct a).
  assert (length b <> 0) as Hb0 by (by destruct b).
  rewrite (drive_eq r (a ++ b)), (drive_eq r a).
  unfold push_step at 1 2. rewrite Hst, length_app.
  rewrite (proj2 (Nat.eqb_neq (length a) 0)), (proj2 (Nat.eqb_neq (length a + length b) 0)) by lia.
  assert (N.to_nat (N.min (remaining r) (N.of_nat (length a))) = length a) as -> by lia.
  set (nb := N.to_nat (N.min (remaining r - N.of_nat (length a)) (N.of_nat (length b)))).
  assert (N.to_nat (N.min (remaining r) (N.of_nat (length a + length b))) = length a + nb) as -> by lia.
  rewrite (take_ge a), (drop_ge a), take_app_add, drop_app_add by lia.
  unfold complete_if_done. cbn -[N.add]. rewrite !u64_add_small by lia.
  destruct (N.ltb_spec (max_payload_bytes r) (payload_bytes r + N.of_nat (length a))) as [Hover|Hfit].
  { cbn. rewrite (proj2 (N.ltb_lt _ _)) by lia. done. }
  rewrite (proj2 (N.eqb_neq (remaining r - N.of_nat (length a)) 0)) by lia.
  set (r1 := add_payload_bytes _ (set_remaining (remaining r - N.of_nat (length a)) r)).
  rewrite (drive_eq r1 []). unfold push_step at 1. replace (state r1) with StPayload by done.
  cbn [length Nat.eqb then_push]. rewrite (drive_eq r1 b). unfold push_step at 1.
  replace (state r1) with StPayload by done. rewrite (proj2 (Nat.eqb_neq (length b) 0)) by lia.
  replace (N.to_nat (N.min (remaining r1) (N.of_nat (length b)))) with nb by done.
  unfold complete_if_done. cbn -[N.add drive].
  rewrite (u64_add_small (payload_bytes r) (N.of_nat (length a))) by lia.
  rewrite u64_add_small by lia.
  replace (payload_bytes r + N.of_nat (length a + nb))%N
    with (payload_bytes r + N.of_nat (length a) + N.of_nat nb)%N by lia.
  replace (remaining r - N.of_nat (length a + nb))%N
    with (remaining r - N.of_nat (length a) - N.of_nat nb)%N by lia.
  destruct (_ <? _)%N; [done|].
  set (r2 := add_payload_bytes _ (set_remaining _ r1)).
  set (r2' := add_payload_bytes _ (set_remaining _ r)).
  assert (r2' = r2) as ->.
  { unfold r2, r2', r1, add_payload_bytes, set_remaining. cbn -[N.add].
    rewrite !(u64_add_small (payload_bytes r)), (u64_add_small (_ + _)) by lia. f_equal. lia. }
  assert (forall tl r', outcome_eq
    (drive r' (drop nb b) ((evs ++ [Payload (a ++ take nb b)]) ++ tl))
    (drive r' (drop nb b) (((evs ++ [Payload a]) ++ [Payload (take nb b)]) ++ tl))) as Heq.
  { intros tl r'.
    replace ((evs ++ [Payload (a ++ take nb b)]) ++ tl)
      with ((evs ++ Payload (a ++ take nb b) :: tl) ++ [])
      by (by rewrite app_nil_r, <-app_assoc).
    replace (((evs ++ [Payload a]) ++ [Payload (take nb b)]) ++ tl)
      with ((evs ++ Payload a :: Payload (take nb b) :: tl) ++ [])
      by (by rewrite app_nil_r, <-!app_assoc).
    rewrite !(drive_prefix r' (drop nb b) _ []).
    destruct (drive r' (drop nb b) []) as [r'' [e'|]]; [|done]. split; [done|]. intros acc.
    cbn -[collect_event]. rewrite !foldl_app. cbn -[collect_event]. by rewrite collect_payload_app. }
  destruct (_ =? _)%N; [apply Heq|].
  specialize (Heq [] r2). by rewrite !app_nil_r in Heq.
Qed.
End Chunks.

Section WholeBodies.
Context `{PL : ProtocolLaws} `{HL : HexLaws}.

Lemma drive_nil r consumed col evs : sinv r consumed col -> drive r [] evs = (r, Ok evs).
Proof.
  intros Hinv. rewrite drive_eq. unfold push_step, fill.
  destruct Hinv as [Hst Hb Hlen -> Hc|fs Hst Hlen ? ? ? ?|? ? ? ? ? Hst]; rewrite Hst; [| |done].
  - rewrite Hb, (proj2 (Nat.ltb_lt _ _) Hlen), Nat.min_0_r, take_nil, app_nil_r. cbn [buffer set_buffer].
    rewrite (proj2 (Nat.eqb_neq _ _)) by lia. cbn. destruct r; cbn in *. by subst.
  - destruct (_ && _); [done|].
    rewrite (proj2 (Nat.ltb_lt _ _) Hlen), Nat.min_0_r, take_nil, app_nil_r. cbn [buffer set_buffer].
    rewrite (proj2 (Nat.eqb_neq _ _)) by lia. cbn. by destruct r.
Qed.

(** A turn on payload that the chunk does not cut short. *)
Lemma payload_step_app r a b evs consumed col :
  state r = StPayload -> limits_ok r -> sinv r consumed col ->
  a <> [] -> (remaining r <= N.of_nat (length a))%N ->
  match push_step r a evs with
  | Continue r1 a1 evs1 => push_step r (a ++ b) evs = Continue r1 (a1 ++ b) evs1
  | Return r1 res => push_step r (a ++ b) evs = Return r1 res
  end.
Proof.
  intros Hst _ _ Ha Hle. unfold push_step. rewrite Hst, length_app.
  assert (length a <> 0) by (by destruct a).
  rewrite (proj2 (Nat.eqb_neq (length a) 0)), (proj2 (Nat.eqb_neq (length a + length b) 0)) by lia.
  replace (N.min (remaining r) (N.of_nat (length a))) with (remaining r) by lia.
  replace (N.min (remaining r) (N.of_nat (length a + length b))) with (remaining r) by lia.
  rewrite take_app_le, drop_app_le by lia. unfold complete_if_done.
  destruct (_ <? _)%N; [done|]. by destruct (_ =? _)%N.
Qed.

Lemma drive_split r a b evs consumed col :
  limits_ok r -> sinv r consumed col ->
  outcome_eq (drive r (a ++ b) evs) (then_push (drive r a evs) b).
Proof.
  intros Hl Hi. revert consumed col Hl Hi.
  apply (drive_ind (fun r a evs out => forall consumed col, limits_ok r -> sinv r consumed col ->
    outcome_eq (drive r (a ++ b) evs) (then_push out b))); clear r a evs.
  - intros r a evs r1 res Hstep consumed col Hl Hi. cbn [then_push].
    destruct (decide (state r = StPayload)) as [Hst|Hst].
    + destruct (decide (a = [])) as [->|Ha].
      { unfold push_step in Hstep. rewrite Hst in Hstep. cbn in Hstep. by injection Hstep as <- <-. }
      destruct (N.le_gt_cases (remaining r) (N.of_nat (length a))) as [Hle|Hgt].
      * pose proof (payload_step_app r a b evs consumed col Hst Hl Hi Ha Hle) as Hs.
        rewrite Hstep in Hs. rewrite drive_eq, Hs. destruct res as [evs1|e]; [|done].
        unfold push_step, complete_if_done in Hstep. rewrite Hst in Hstep.
        rewrite (proj2 (Nat.eqb_neq (length a) 0)) in Hstep by (by destruct a).
        repeat (case_match; try done).
      * destruct (decide (b = [])) as [->|Hb].
        { rewrite app_nil_r, drive_eq, Hstep. destruct res as [evs1|e]; [|done].
          pose proof (push_step_turn r consumed a evs col Hl Hi) as Ht. rewrite Hstep in Ht.
          destruct Ht as (-> & _ & Hi1). by rewrite (drive_nil _ _ _ _ Hi1). }
        pose proof (payload_split r a b evs consumed col Hst Hl Hi Hgt Ha Hb) as Hs.
        rewrite (drive_eq r a evs), Hstep in Hs. exact Hs.
    + pose proof (push_step_app r a b evs consumed col Hst Hi) as Hs. rewrite Hstep in Hs.
      destruct res as [evs1|e]; [|by rewrite drive_eq, Hs].
      destruct Hs as [-> Hs]. by rewrite drive_eq, Hs, <-drive_eq.
  - intros r a evs r1 a1 evs1 Hstep IH consumed col Hl Hi.
    pose proof (push_step_turn r consumed a evs col Hl Hi) as Ht. rewrite Hstep in Ht.
    destruct Ht as (pre & new & col1 & Ha1 & -> & _ & Hs1 & Hi1).
    assert (limits_ok r1) as Hl1 by (by eapply limits_ok_same).
    assert (push_step r (a ++ b) evs = Continue r1 (a1 ++ b) (evs ++ new) ->
      outcome_eq (drive r (a ++ b) evs) (then_push (drive r1 a1 (evs ++ new)) b)) as Hgo.
    { intros Hs. rewrite drive_eq, Hs. by eapply IH. }
    destruct (decide (state r = StPayload)) as [Hst|Hst].
    2:{ pose proof (push_step_app r a b evs consumed col Hst Hi) as Hs. rewrite Hstep in Hs. auto. }
    destruct (decide (a = [])) as [->|Ha].
    { unfold push_step in Hstep. by rewrite Hst in Hstep. }
    destruct (N.le_gt_cases (remaining r) (N.of_nat (length a))) as [Hle|Hgt].
    { pose proof (payload_step_app r a b evs consumed col Hst Hl Hi Ha Hle) as Hs.
      rewrite Hstep in Hs. auto. }
    destruct (decide (b = [])) as [->|Hb].
    { apply Hgo. by rewrite !app_nil_r. }
    pose proof (payload_split r a b evs consumed col Hst Hl Hi Hgt Ha Hb) as Hs.
    by rewrite (drive_eq r a evs), Hstep in Hs.
Qed.

Lemma push_all_drive chunks : forall r consumed col, limits_ok r -> sinv r consumed col ->
  outcome_eq (push_all r chunks) (drive r (concat chunks) []).
Proof.
  induction chunks as [|c cs IH]; intros r consumed col Hl Hi; cbn [push_all concat].
  { by rewrite (drive_nil _ _ _ _ Hi). }
  etransitivity; [|symmetry; by eapply drive_split]. unfold push.
  destruct (drive r c []) as [r1 [evs1|e]] eqn:Ed; [|done]. cbn [then_push].
  apply (drive_sinv _ _ _ consumed col) in Ed as (new & col1 & -> & _ & Hs1 & Hi1); [|done..].
  assert (limits_ok r1) as Hl1 by (by eapply limits_ok_same).
  specialize (IH r1 _ col1 Hl1 Hi1). cbn [app].
  rewrite <-(app_nil_r new), drive_prefix, app_nil_r.
  destruct (push_all r1 cs) as [r2 [evs2|]], (drive r1 (concat cs) []) as [r3 [evs3|]]; try done.
  destruct IH as [[= ->] IH]. split; [done|]. intros acc. by rewrite !foldl_app, IH.
Qed.

(** An error is never raised on a prefix of a pack within the limits. *)
Lemma drive_no_error r consumed rest evs col entries r' e future :
  limits_ok r -> sinv r consumed col -> pack_within r entries ->
  encode_pack entries = Ok (consumed ++ rest ++ future) ->
  drive r rest evs <> (r', Err e).
Proof.
  intros Hl Hi Hw He. revert consumed col Hl Hi Hw He r' e.
  apply (drive_ind (fun r rest evs out => forall consumed col, limits_ok r -> sinv r consumed col ->
    pack_within r entries -> encode_pack entries = Ok (consumed ++ rest ++ future) ->
    forall r' e, out <> (r', Err e))); clear r rest evs.
  - intros r rest evs r1 res Hstep consumed col Hl Hi Hw He r' e [= -> ->].
    by eapply push_step_no_error.
  - intros r rest evs r1 rest1 evs1 Hstep IH consumed col Hl Hi Hw He.
    pose proof (push_step_turn r consumed rest evs col Hl Hi) as Ht. rewrite Hstep in Ht.
    destruct Ht as (pre & new & col1 & -> & -> & _ & Hs1 & Hi1).
    apply (IH (consumed ++ pre) col1); [by eapply limits_ok_same|done| |].
    + unfold pack_within in *. by destruct Hs1 as (-> & -> & ->).
    + by rewrite <-!app_assoc in *.
Qed.

(** At the end of such a pack, the reader has its entries. *)
Lemma sinv_at_end r entries body col :
  limits_ok r -> pack_within r entries -> encode_pack entries = Ok body ->
  sinv r body col -> finish r = Ok tt /\ col = entries.
Proof.
  intros [Hmb Hmp] (Hok & _) (fe & Hfe & Heq)%encode_pack_ok Hinv.
  assert (max_blob_bytes r < u64_modulus)%N as Hu by lia.
  destruct Hinv as
    [Hst Hbuf Hlen -> Hc|fs Hst Hlen Hfs -> Hcok _
    |c d q fs h Hst Hbuf -> Hfs Hh -> Hsz Hrem Hlow Hmax Hcok _].
  - rewrite Heq, length_app in Hlen. lia.
  - apply app_inv_head in Heq. subst fe.
    destruct (frames_prefix _ entries col fs _ Hu Hok Hcok Hfs Hfe) as (rem & -> & Htail).
    destruct rem as [|[d p] rem].
    + cbn in Htail. injection Htail as Hb. rewrite app_nil_r. unfold finish.
      by rewrite bool_decide_eq_true_2, <-Hb.
    + apply pack_frames_cons in Htail as (h & fs' & Hh & _ & Hb).
      apply pack_blob_header_length in Hh. rewrite Hb, !length_app in Hlen. lia.
  - apply app_inv_head in Heq. subst fe.
    destruct (frames_prefix _ entries c fs _ Hu Hok Hcok Hfs Hfe) as (rem & -> & Htail).
    destruct rem as [|[d' p] rem].
    { cbn in Htail. injection Htail as Htail. apply (f_equal length) in Htail.
      apply pack_blob_header_length in Hh. rewrite !length_app, Hh in Htail.
      unfold HEADER_BYTES in Htail. cbn in Htail. lia. }
    apply pack_frames_cons in Htail as (h' & fs' & Hh' & Htail & Hx).
    apply Forall_app in Hok as [_ [(Hlow' & Hsz' & Hmax') _]%Forall_cons_iff]. cbn [fst snd] in *.
    apply (pack_blob_header_inj d d') in Hx as (<- & _ & Hx); try done; [|lia..].
    apply (f_equal length) in Hx. rewrite !length_app in Hx. lia.
Qed.
End WholeBodies.

(** ** The reader against the pack format *)

Section Theorems.
Context `{PL : ProtocolLaws} `{HL : HexLaws}.

Lemma read_chunks_encoded mb mc mp entries body chunks :
  limits_ok (new mb mc mp) -> pack_within (new mb mc mp) entries ->
  encode_pack entries = Ok body -> concat chunks = body ->
  read_chunks (new mb mc mp) chunks = Ok (Some entries).
Proof.
  intros Hlimits Hwithin Hencode Hchunks.
  pose proof (sinv_new mb mc mp) as Hi. unfold read_chunks.
  pose proof (push_all_drive chunks _ _ _ Hlimits Hi) as Heq. rewrite Hchunks in Heq.
  destruct (drive (new mb mc mp) body []) as [r1 [evs1|e]] eqn:Ed.
  2:{ exfalso. revert Ed. eapply (drive_no_error _ [] body [] [] entries _ _ []); try done.
      by rewrite app_nil_r. }
  destruct (push_all (new mb mc mp) chunks) as [r2 [evs2|]]; [|done].
  destruct Heq as [[= ->] Hev].
  apply (drive_sinv _ _ _ [] []) in Ed as (new1 & col & -> & Hcol & Hs & Hi1); [|done..].
  cbn [app] in *. destruct (sinv_at_end r1 entries body col) as [Hf ->]; try done.
  - by eapply limits_ok_same.
  - unfold pack_within in *. by destruct Hs as (-> & -> & ->).
  - rewrite Hf. cbn. unfold collect. by rewrite Hev, Hcol.
Qed.

(** C22. Every pack within the limits is read back as its entries, in order
    and with every byte, however the network cuts it into chunks. *)
Theorem read_chunks_roundtrip mb mc mp entries body chunks
    (Hlimits : limits_ok (new mb mc mp))
    (Hwithin : pack_within (new mb mc mp) entries)
    (Hencode : encode_pack entries = Ok body)
    (Hchunks : concat chunks = body) :
  read_chunks (new mb mc mp) chunks = Ok (Some entries).
Proof. by eapply read_chunks_encoded. Qed.

(** C23. A body the reader accepts is, byte for byte, the pack of the blobs it
    reported, every one of them of its declared size and the whole within
    the limits; payload never comes before a frame started. *)
Theorem read_chunks_sound mb mc mp chunks o
    (Hlimits : limits_ok (new mb mc mp))
    (Hread : read_chunks (new mb mc mp) chunks = Ok o) :
  exists entries, o = Some entries /\ encode_pack entries = Ok (concat chunks) /\
    pack_within (new mb mc mp) entries.
Proof.
  unfold read_chunks in Hread.
  destruct (push_all (new mb mc mp) chunks) as [r' [evs|]] eqn:E; [|done].
  apply (push_all_sinv _ _ [] []) in E as (col & Hcol & Hs & Hi); [|done|apply sinv_new].
  apply result_bind_ok in Hread as ([] & Hf & [= <-]).
  destruct (sinv_finished r' (concat chunks) col) as [He Hw]; try done.
  { by eapply limits_ok_same. }
  exists col. split; [done|]. split; [done|].
  unfold pack_within in *. by destruct Hs as (<- & <- & <-).
Qed.

(** C24. How a body is cut into chunks does not change what reading it gives,
    the error included. *)
Theorem read_chunks_chunking mb mc mp chunks1 chunks2
    (Hlimits : limits_ok (new mb mc mp))
    (Hsame : concat chunks1 = concat chunks2) :
  read_chunks (new mb mc mp) chunks1 = read_chunks (new mb mc mp) chunks2.
Proof.
  pose proof (push_all_drive chunks1 _ _ _ Hlimits (sinv_new mb mc mp)) as H1.
  pose proof (push_all_drive chunks2 _ _ _ Hlimits (sinv_new mb mc mp)) as H2.
  rewrite Hsame in H1. rewrite <-H2 in H1. unfold read_chunks.
  destruct (push_all _ chunks1) as [r1 [e1|]], (push_all _ chunks2) as [r2 [e2|]]; try done.
  - destruct H1 as [[= ->] H1]. unfold collect. by rewrite H1.
  - unfold outcome_eq in H1. cbn in H1. by subst.
Qed.

(** C25. Whatever arrives, and whether or not the body is accepted in the end,
    what the reader has handed out stays within the limits: no more blobs,
    no larger blob and no more payload bytes than declared, and its counters
    say exactly how much that was. *)
Theorem push_all_within mb mc mp chunks r' evs
    (Hlimits : limits_ok (new mb mc mp))
    (Hpush : push_all (new mb mc mp) chunks = (r', Ok evs)) :
  exists entries, collect evs = Some entries /\
    blobs r' = N.of_nat (length entries) /\ (blobs r' <= mc)%N /\
    payload_bytes r' = payload_total entries /\ (payload_bytes r' <= mp)%N /\
    Forall (fun e => (N.of_nat (length e.2) <= digest_size e.1 <= mb)%N) entries.
Proof.
  apply (push_all_sinv _ _ [] []) in Hpush as (col & Hcol & (Hs1 & Hs2 & Hs3) & Hi);
    [|done|apply sinv_new].
  cbn in Hs1, Hs2, Hs3. exists col. split; [done|].
  assert (forall l, Forall (entry_ok (max_blob_bytes r')) l ->
    Forall (fun e => (N.of_nat (length e.2) <= digest_size e.1 <= mb)%N) l) as Hweak.
  { intros l Hl. eapply Forall_impl; [exact Hl|]. intros [d p] (_ & -> & ?). cbn in *. lia. }
  destruct Hi as [_ _ _ -> (-> & -> & Hb & Hp)|fs _ _ _ _ Hok (Hb1 & Hp1 & Hb & Hp)
    |c d q fs h _ _ -> _ _ _ Hsz Hrem _ Hmax Hok (Hb1 & Hp1 & Hb & Hp)];
    subst mb mc mp; repeat split; auto.
  apply Forall_app. split; [auto|]. apply Forall_singleton. cbn. lia.
Qed.
End Theorems.

(** Every push ends, from any reader and on any chunk: the loop returns
    within three turns per byte of the chunk and three more, and the outcome
    satisfies the loop's own equation. *)
Theorem push_total `{Protocol} `{Hex} r chunk :
  push_loop (3 * length chunk + 4) r chunk [] = Some (push r chunk) /\
  push r chunk =
    match push_step r chunk [] with
    | Return r' res => (r', res)
    | Continue r' rest evs => drive r' rest evs
    end.
Proof.
  split; [|apply drive_eq]. unfold push, drive.
  destruct (push_loop (S (measure r chunk)) r chunk []) as [out|] eqn:El.
  - eapply push_loop_mono; [exact El|]. unfold measure, weight.
    destruct (state r), (buffer r); lia.
  - exfalso. revert El. apply push_loop_fuel. lia.
Qed.

(** ** Witnesses *)

Module Example.
Definition digest_of (content : string) : Digest :=
  mkDigest "blake3"
    (@content_hash concrete_hashes concrete_hex Blake3 (String.list_byte_of_string content))
    (N.of_nat (String.length content)).
Definition entries : list (Digest * bytes) :=
  [(digest_of "first", String.list_byte_of_string "first"); (digest_of "", []);
   (digest_of "second blob", String.list_byte_of_string "second blob")].
Definition body : bytes :=
  match @encode_pack concrete_protocol concrete_hex entries with Ok b => b | Err _ => [] end.
(** One byte at a time. *)
Definition chunks : list bytes := map (fun b => [b]) body.
Definition reader : t := new 1024 10 1024.
Definition read := @read_chunks concrete_protocol concrete_hex reader.
End Example.

Lemma read_chunks_roundtrip_witness :
  Example.read Example.chunks = Ok (Some Example.entries).
Proof.
  apply (@read_chunks_roundtrip concrete_protocol concrete_protocol_laws concrete_hex
    concrete_hex_laws 1024 10 1024 Example.entries Example.body Example.chunks).
  - vm_compute. split; reflexivity.
  - split; [|split; vm_compute; discriminate].
    repeat (apply Forall_cons_2; [vm_compute; repeat split; discriminate|]). constructor.
  - vm_compute. reflexivity.
  - vm_compute. reflexivity.
Defined.

Lemma read_chunks_sound_witness :
  exists entries, Some Example.entries = Some entries /\
    @encode_pack concrete_protocol concrete_hex entries = Ok (concat Example.chunks) /\
    pack_within Example.reader entries.
Proof.
  apply (@read_chunks_sound concrete_protocol concrete_protocol_laws concrete_hex
    concrete_hex_laws 1024 10 1024 Example.chunks (Some Example.entries)).
  - vm_compute. split; reflexivity.
  - vm_compute. reflexivity.
Defined.

Lemma read_chunks_chunking_witness :
  Example.read Example.chunks = Example.read [Example.body].
Proof.
  apply (@read_chunks_chunking concrete_protocol concrete_protocol_laws concrete_hex
    concrete_hex_laws 1024 10 1024 Example.chunks [Example.body]).
  - vm_compute. split; reflexivity.
  - vm_compute. reflexivity.
Defined.

(** A body cut short of its last byte: nothing fails before the end. *)
Definition cut_short := @push_all concrete_protocol concrete_hex Example.reader
  [take (length Example.body - 1) Example.body].

Lemma push_all_within_witness :
  exists r' evs, cut_short = (r', Ok evs) /\
  exists entries, collect evs = Some entries /\
    blobs r' = N.of_nat (length entries) /\ (blobs r' <= 10)%N /\
    payload_bytes r' = payload_total entries /\ (payload_bytes r' <= 1024)%N /\
    Forall (fun e => (N.of_nat (length e.2) <= digest_size e.1 <= 1024)%N) entries.
Proof.
  destruct cut_short as [r' [evs|e]] eqn:E; [|vm_compute in E; discriminate].
  exists r', evs. split; [reflexivity|].
  apply (@push_all_within concrete_protocol concrete_protocol_laws concrete_hex
    concrete_hex_laws 1024 10 1024 [take (length Example.body - 1) Example.body]).
  - vm_compute. split; reflexivity.
  - exact E.
Defined.
