(* ===== verification/Json.v ===== *)
(** * JSON values (the part of serde_json src/ matches on)

    The constructors are those of [serde_json::Value]; numbers, parsing and
    printing belong to the crate. An object is its entries: the crate's map
    holds each key once. *)
From S2P Require Import Prelude.

Class JsonNumber := {
  (** [serde_json::Number], its equality and [as_u64]. *)
  Number : Type;
  Number_eq_dec :: EqDecision Number;
  number_as_u64 : Number -> option N;
}.

Inductive Value `{JsonNumber} :=
  | Null
  | Bool (b : bool)
  | JNumber (n : Number)
  | JString (s : string)
  | Array (values : list Value)
  | Object (entries : list (string * Value)).

Section Value.
Context `{JsonNumber}.

Fixpoint entries_get (name : string) (entries : list (string * Value)) : option Value :=
  match entries with
  | [] => None
  | (k, v) :: rest => if String.eqb k name then Some v else entries_get name rest
  end.

(** [Value::get], [Map::get] and [Map::contains_key]. *)
Definition value_get (v : Value) (name : string) : option Value :=
  match v with Object entries => entries_get name entries | _ => None end.

Definition contains_key (entries : list (string * Value)) (name : string) : bool :=
  match entries_get name entries with Some _ => true | None => false end.

Definition as_object (v : Value) : option (list (string * Value)) :=
  match v with Object entries => Some entries | _ => None end.
Definition is_object (v : Value) : bool :=
  match v with Object _ => true | _ => false end.
Definition as_str (v : Value) : option string :=
  match v with JString s => Some s | _ => None end.
Definition as_u64 (v : Value) : option N :=
  match v with JNumber n => number_as_u64 n | _ => None end.
End Value.

(** Equality of values, as [PartialEq] derives it. *)
#[export] Instance Value_eq_dec `{JsonNumber} : EqDecision Value.
Proof.
  refine (fix eq (v1 v2 : Value) : Decision (v1 = v2) :=
    let eqs := fix eqs (l1 l2 : list Value) : Decision (l1 = l2) :=
      match l1, l2 with
      | [], [] => left eq_refl
      | a :: l1, b :: l2 =>
          match eq a b, eqs l1 l2 with
          | left _, left _ => left _
          | _, _ => right _
          end
      | _, _ => right _
      end in
    let eqe := fix eqe (l1 l2 : list (string * Value)) : Decision (l1 = l2) :=
      match l1, l2 with
      | [], [] => left eq_refl
      | (k1, a) :: l1, (k2, b) :: l2 =>
          match decide (k1 = k2), eq a b, eqe l1 l2 with
          | left _, left _, left _ => left _
          | _, _, _ => right _
          end
      | _, _ => right _
      end in
    match v1, v2 with
    | Null, Null => left eq_refl
    | Bool a, Bool b => match decide (a = b) with left _ => left _ | right _ => right _ end
    | JNumber a, JNumber b => match decide (a = b) with left _ => left _ | right _ => right _ end
    | JString a, JString b => match decide (a = b) with left _ => left _ | right _ => right _ end
    | Array a, Array b => match eqs a b with left _ => left _ | right _ => right _ end
    | Object a, Object b => match eqe a b with left _ => left _ | right _ => right _ end
    | _, _ => right _
    end); try congruence.
Unshelve. all: congruence.
Defined.

(** [serde_json::from_slice::<Value>] and [serde_json::to_vec]. *)
Class JsonText `{JsonNumber} := {
  value_from_slice : bytes -> result string Value;
  value_to_vec : Value -> result string bytes;
}.
