(* ===== verification/Oidc.v ===== *)
(** * OIDC providers (src/auth.rs)

    The key cache of one provider, the validation of its tokens, its refresh
    under the mutex, and the start-up fetch. Time is an [Instant] in
    nanoseconds; what the network answers is an argument. *)
From S2P Require Import Prelude Str Json.
From Stdlib Require Import Ascii.

Local Open Scope string_scope.
Local Open Scope mbx_scope.

(** ** The boundary: jsonwebtoken *)

(** [jsonwebtoken::Algorithm]: the ones src/ names, and the others. *)
Inductive SigAlgorithm :=
  | RS256 | RS384 | RS512 | PS256 | PS384 | PS512 | ES256 | ES384 | EdDSA
  | OtherAlgorithm (name : string).

#[export] Instance SigAlgorithm_eq_dec : EqDecision SigAlgorithm.
Proof. solve_decision. Defined.

Inductive PublicKeyUse := Signature | OtherUse (name : string).
Inductive KeyOperations := Verify | OtherOperation (name : string).

#[export] Instance PublicKeyUse_eq_dec : EqDecision PublicKeyUse.
Proof. solve_decision. Defined.
#[export] Instance KeyOperations_eq_dec : EqDecision KeyOperations.
Proof. solve_decision. Defined.

(** The fields src/ reads of a JWT header and of the [common] part of a key,
    and the ones it sets of a [Validation]. *)
Record JwtHeader := mkJwtHeader { header_alg : SigAlgorithm; header_kid : option string }.

Record CommonParameters := mkCommonParameters {
  key_algorithm : option string;
  public_key_use : option PublicKeyUse;
  key_operations : option (list KeyOperations);
}.

Record Validation := mkValidation {
  validation_alg : SigAlgorithm;
  validation_audience : list string;
  validation_issuer : list string;
  required_spec_claims : list string;
  validate_nbf : bool;
  leeway : N;
}.

Class Jwt `{JsonNumber} := {
  Jwk : Type;
  JwkSet : Type;
  DecodingKey : Type;
  (** [Algorithm::from_str] *)
  algorithm_from_str : string -> option SigAlgorithm;
  decode_header : string -> result string JwtHeader;
  jwk_common : Jwk -> CommonParameters;
  jwk_find : JwkSet -> string -> option Jwk;
  from_jwk : Jwk -> result string DecodingKey;
  (** [decode::<Value>] at a Unix time. *)
  jwt_decode : N -> string -> DecodingKey -> Validation -> result string Value;
}.

(** ** Configuration *)

Definition DEFAULT_JWKS_REFRESH_SECONDS : N := 300.
Definition DEFAULT_CLOCK_SKEW_SECONDS : N := 60.
Definition MIN_JWKS_REFRESH_SECONDS : N := 30.
Definition INITIAL_FETCH_ATTEMPTS : N := 3.
Definition INITIAL_FETCH_BACKOFF_MILLIS : N := 250.
Definition DEFAULT_ALGORITHMS : list SigAlgorithm :=
  [RS256; RS384; RS512; PS256; PS384; PS512; ES256; ES384; EdDSA].

(** [Duration::from_secs], in nanoseconds. *)
Definition from_secs (s : N) : N := s * 1000000000.

(** [Instant::elapsed], which saturates. *)
Definition elapsed (now since : N) : N := now - since.

Inductive Access := Read | Write.

Section Oidc.
Context `{Jwt}.

Inductive ScalarValue :=
  | ScalarString (s : string)
  | ScalarNumber (n : Number)
  | ScalarBool (b : bool).

Inductive ClaimRequirement :=
  | One (value : ScalarValue)
  | AnyOf (values : list ScalarValue).

Record OidcRule := mkOidcRule {
  rule_claims : gmap string ClaimRequirement;
  rule_read : list string;
  rule_write : list string;
}.

Record OidcProviderConfig := mkOidcProviderConfig {
  issuer : string;
  audiences : list string;
  discovery_uri : option string;
  jwks_uri : option string;
  algorithms : list string;
  jwks_refresh_seconds : N;
  clock_skew_seconds : N;
  rules : list OidcRule;
}.

Record DiscoveryDocument := mkDiscoveryDocument {
  document_issuer : string;
  document_jwks_uri : string;
  id_token_signing_alg_values_supported : list string;
}.

Record CachedKeys := mkCachedKeys {
  set : JwkSet;
  fetched_at : N;
  attempted_at : option N;
}.

Record OidcProvider := mkOidcProvider {
  config : OidcProviderConfig;
  provider_algorithms : list SigAlgorithm;
  provider_jwks_uri : string;
  keys : CachedKeys;
  min_refresh_interval : N;
}.

(** ** Rules and claims *)

Definition scalar_matches (self : ScalarValue) (actual : Value) : bool :=
  match self, actual with
  | ScalarString expected, JString actual => String.eqb expected actual
  | ScalarNumber expected, JNumber actual => bool_decide (expected = actual)
  | ScalarBool expected, Bool actual => Bool.eqb expected actual
  | _, _ => false
  end.

Definition requirement_matches (self : ClaimRequirement) (actual : Value) : bool :=
  let expected := match self with One value => [value] | AnyOf values => values end in
  match actual with
  | Array values =>
      existsb (fun actual => existsb (fun value => scalar_matches value actual) expected) values
  | actual => existsb (fun value => scalar_matches value actual) expected
  end.

Definition rule_patterns (self : OidcRule) (access : Access) : list string :=
  match access with Read => rule_read self | Write => rule_write self end.

Definition matches_claims (self : OidcRule) (claims : Value) : bool :=
  forallb (fun kv =>
    match value_get claims kv.1 with
    | Some actual => requirement_matches kv.2 actual
    | None => false
    end) (map_to_list (rule_claims self)).

(** ** Start-up *)

Definition validate_provider_config (config : OidcProviderConfig) : result string unit :=
  if str_is_empty (issuer config)
     || match audiences config with [] => true | _ => false end
     || match rules config with [] => true | _ => false end
  then Err "each OIDC provider requires issuer, audiences, and rules"
  else if (jwks_refresh_seconds config =? 0)%N
  then Err "OIDC jwks_refresh_seconds must be greater than zero"
  else if existsb (fun rule => bool_decide (rule_claims rule = ∅)) (rules config)
  then Err "each OIDC authorization rule must require at least one claim"
  else Ok tt.

(** [map(from_str).collect::<Result<Vec<_>>>()] *)
Fixpoint collect_algorithms (names : list string) : result string (list SigAlgorithm) :=
  match names with
  | [] => Ok []
  | name :: names =>
      algorithm <-? ok_or (algorithm_from_str name) ("unsupported OIDC algorithm " ++ name);
      rest <-? collect_algorithms names;
      Ok (algorithm :: rest)
  end.

(** [Vec::retain(|algorithm| kept.contains(algorithm))] *)
Definition retain_in (kept l : list SigAlgorithm) : list SigAlgorithm :=
  List.filter (fun algorithm => bool_decide (algorithm ∈ kept)) l.

Definition configured_algorithms (configured advertised : list string)
  : result string (list SigAlgorithm) :=
  algorithms <-?
    match configured with
    | [] => Ok DEFAULT_ALGORITHMS
    | _ => collect_algorithms configured
    end;
  let algorithms := retain_in DEFAULT_ALGORITHMS algorithms in
  let algorithms :=
    match advertised with
    | [] => algorithms
    | _ => retain_in (omap algorithm_from_str advertised) algorithms
    end in
  match algorithms with
  | [] => Err "OIDC provider has no mutually supported asymmetric signing algorithm"
  | _ => Ok algorithms
  end.

(** What GET requests answer at one moment, [fetch_json] at the two types it
    is used at. *)
Record Network := mkNetwork {
  get_discovery : string -> result string DiscoveryDocument;
  get_jwks : string -> result string JwkSet;
}.

(** [str::trim_end_matches(c)] *)
Fixpoint trim_end_matches (c : ascii) (s : string) : string :=
  match s with
  | EmptyString => ""
  | String a s' =>
      match trim_end_matches c s' with
      | EmptyString => if Ascii.eqb a c then "" else String a ""
      | trimmed => String a trimmed
      end
  end.

Definition fetch_jwks (net : Network) (uri : string) : result string JwkSet :=
  map_err (fun _ => "fetch JWKS") (get_jwks net uri).

Definition fetch_provider_data (net : Network) (config : OidcProviderConfig)
  : result string (string * list string * JwkSet) :=
  found <-?
    match jwks_uri config with
    | Some uri => Ok (uri, [])
    | None =>
        let discovery_uri :=
          default (trim_end_matches "/" (issuer config) ++ "/.well-known/openid-configuration")
            (discovery_uri config) in
        document <-? map_err (fun _ => "discover OIDC issuer " ++ issuer config)
                       (get_discovery net discovery_uri);
        if negb (String.eqb (document_issuer document) (issuer config))
        then Err "OIDC discovery issuer mismatch"
        else Ok (document_jwks_uri document, id_token_signing_alg_values_supported document)
    end;
  let '(jwks_uri, advertised_algorithms) := found in
  set <-? map_err (fun _ => "fetch OIDC keys for " ++ issuer config) (fetch_jwks net jwks_uri);
  Ok (jwks_uri, advertised_algorithms, set).

(** The attempts [1..=INITIAL_FETCH_ATTEMPTS]; also how long was slept, in
    milliseconds, between them. *)
Fixpoint fetch_attempts (net : N -> Network) (config : OidcProviderConfig) (attempts : list N)
    (slept : list N) : list N * option (string * list string * JwkSet) :=
  match attempts with
  | [] => (slept, None)
  | attempt :: attempts =>
      match fetch_provider_data (net attempt) config with
      | Ok data => (slept, Some data)
      | Err _ =>
          fetch_attempts net config attempts
            (if (attempt <? INITIAL_FETCH_ATTEMPTS)%N
             then (slept ++ [INITIAL_FETCH_BACKOFF_MILLIS * attempt]%N)%list else slept)
      end
  end.

Definition fetch_initial_provider_data (net : N -> Network) (config : OidcProviderConfig)
  : list N * result string (string * list string * JwkSet) :=
  let '(slept, found) := fetch_attempts net config [1; 2; 3]%N [] in
  (slept, ok_or found ("initialize OIDC issuer " ++ issuer config)).

(** [OidcProvider::new], where [client] is what building the HTTP client gives. *)
Definition provider_new (client : result string unit) (net : N -> Network) (now : N)
    (config : OidcProviderConfig) : result string OidcProvider :=
  _ <-? validate_provider_config config;
  _ <-? client;
  data <-? (fetch_initial_provider_data net config).2;
  let '(jwks_uri, advertised_algorithms, set) := data in
  algorithms <-? configured_algorithms (algorithms config) advertised_algorithms;
  Ok (mkOidcProvider config algorithms jwks_uri (mkCachedKeys set now None)
        (from_secs MIN_JWKS_REFRESH_SECONDS)).

(** ** Refreshing keys

    [refresh_keys] holds the mutex throughout; it reads the cache, marks the
    attempt, fetches, and installs what it got. *)

Definition known_key (keys : CachedKeys) (kid : string) : bool :=
  match jwk_find (set keys) kid with Some _ => true | None => false end.

Definition stale (p : OidcProvider) (now : N) : bool :=
  (from_secs (jwks_refresh_seconds (config p)) <=? elapsed now (fetched_at (keys p)))%N.

(** Nothing to fetch: an attempt was made too recently, or another task has
    refreshed the cache while this one waited for the mutex. *)
Definition skip_refresh (p : OidcProvider) (kid : string) (now : N) : bool :=
  match attempted_at (keys p) with
  | Some attempted_at => (elapsed now attempted_at <? min_refresh_interval p)%N
  | None => false
  end
  || (negb (stale p now) && known_key (keys p) kid).

Definition with_keys (f : CachedKeys -> CachedKeys) (p : OidcProvider) : OidcProvider :=
  mkOidcProvider (config p) (provider_algorithms p) (provider_jwks_uri p) (f (keys p))
    (min_refresh_interval p).

Definition mark_attempt (now : N) : OidcProvider -> OidcProvider :=
  with_keys (fun k => mkCachedKeys (set k) (fetched_at k) (Some now)).

Definition install_keys (new_set : JwkSet) (now : N) : OidcProvider -> OidcProvider :=
  with_keys (fun k => mkCachedKeys new_set now (attempted_at k)).

(** The instants at which one call reads the clock, in order, the Unix time
    the claims are checked at, and what the network answers. *)
Record Moment := mkMoment {
  read_time : N;
  locked_time : N;
  attempt_time : N;
  fetched_time : N;
  unix_time : N;
  network : Network;
}.

Definition refresh_keys (m : Moment) (kid : string) : M OidcProvider string unit :=
  fun p =>
    if skip_refresh p kid (locked_time m) then (p, Ok tt)
    else
      let p := mark_attempt (attempt_time m) p in
      match fetch_jwks (network m) (provider_jwks_uri p) with
      | Err e => (p, Err e)
      | Ok new_set => (install_keys new_set (fetched_time m) p, Ok tt)
      end.

(** ** Validating a token *)

(** A key published for another algorithm, another use, or operations that do
    not include verifying. *)
Definition key_unusable (common : CommonParameters) (alg : SigAlgorithm) : bool :=
  match key_algorithm common with
  | Some name => negb (bool_decide (algorithm_from_str name = Some alg))
  | None => false
  end
  || match public_key_use common with
     | Some usage => negb (bool_decide (usage = Signature))
     | None => false
     end
  || match key_operations common with
     | Some operations => negb (bool_decide (Verify ∈ operations))
     | None => false
     end.

Definition verification_key (p : OidcProvider) (kid : string) (alg : SigAlgorithm)
  : result string DecodingKey :=
  jwk <-? ok_or (jwk_find (set (keys p)) kid) "JWT signing key was not found";
  if key_unusable (jwk_common jwk) alg then Err "JWT signing key is not valid for this algorithm"
  else map_err (fun _ => "decode JWT signing key") (from_jwk jwk).

Definition token_validation (config : OidcProviderConfig) (alg : SigAlgorithm) : Validation :=
  mkValidation alg (audiences config) [issuer config] ["exp"; "aud"; "iss"; "sub"] true
    (clock_skew_seconds config).

Definition verify (m : Moment) (token : string) : M OidcProvider string Value :=
  header <~ m_lift (map_err (fun _ => "decode JWT header") (decode_header token));
  kid <~ m_lift (ok_or (header_kid header) "JWT header is missing kid");
  fun p =>
    if negb (bool_decide (header_alg header ∈ provider_algorithms p))
    then (p, Err "JWT uses a disallowed signing algorithm")
    else
      let known := known_key (keys p) kid in
      let '(p, refreshed) :=
        if stale p (read_time m) || negb known
        then
          match refresh_keys m kid p with
          | (p, Err error) => (p, if negb known then Err error else Ok tt)
          | (p, Ok _) => (p, Ok tt)
          end
        else (p, Ok tt) in
      (p, _ <-? refreshed;
          key <-? verification_key p kid (header_alg header);
          map_err (fun _ => "validate JWT")
            (jwt_decode (unix_time m) token key (token_validation (config p) (header_alg header)))).

(** ** Concurrent refreshes

    Any number of requests verify tokens of one provider at once; each reads
    the cache under the read lock and refreshes under the mutex. The steps of
    the tasks interleave, and the clock moves on between them. [attempts] logs
    when a fetch was started, latest first. *)

Inductive Phase := Locked (kid : string) | Deciding | Fetching.

Record CacheState := mkCacheState {
  provider : OidcProvider;
  mutex : option Phase;
  clock : N;
  attempts : list N;
}.

Inductive cache_step : CacheState -> CacheState -> Prop :=
  | Tick p mu c log d :
      cache_step (mkCacheState p mu c log) (mkCacheState p mu (c + d) log)
  | Acquire p c log kid :
      cache_step (mkCacheState p None c log) (mkCacheState p (Some (Locked kid)) c log)
  | Skip p c log kid :
      skip_refresh p kid c = true ->
      cache_step (mkCacheState p (Some (Locked kid)) c log) (mkCacheState p None c log)
  | Decide p c log kid :
      skip_refresh p kid c = false ->
      cache_step (mkCacheState p (Some (Locked kid)) c log) (mkCacheState p (Some Deciding) c log)
  | Mark p c log :
      cache_step (mkCacheState p (Some Deciding) c log)
        (mkCacheState (mark_attempt c p) (Some Fetching) c (c :: log))
  | FetchFails p c log :
      cache_step (mkCacheState p (Some Fetching) c log) (mkCacheState p None c log)
  | Install p c log new_set :
      cache_step (mkCacheState p (Some Fetching) c log)
        (mkCacheState (install_keys new_set c p) None c log).

(** A provider as [provider_new] returns it, before any request. *)
Definition cache_initial (s : CacheState) : Prop :=
  mutex s = None /\ attempts s = [] /\ attempted_at (keys (provider s)) = None.

End Oidc.
