(* ===== verification/OidcProofs.v ===== *)
(** * What OIDC verification and key refresh guarantee *)
From S2P Require Import Prelude Str Json Oidc.

Local Open Scope string_scope.
Local Open Scope mbx_scope.

Section OidcProofs.
Context `{Jwt}.

(** ** Algorithms *)

Lemma retain_in_spec kept l x : x ∈ retain_in kept l <-> x ∈ l /\ x ∈ kept.
Proof.
  unfold retain_in. by rewrite list_elem_of_In, filter_In, bool_decide_eq_true, <-list_elem_of_In.
Qed.

Lemma collect_algorithms_spec names l :
  collect_algorithms names = Ok l <-> map Some l = map algorithm_from_str names.
Proof.
  revert l; induction names as [|n names IH]; intros l; cbn.
  { split; [by intros [= <-]|]. by destruct l. }
  destruct (algorithm_from_str n) as [a|]; cbn; [|split; [done|by destruct l]].
  rewrite result_bind_ok. setoid_rewrite IH. split.
  - intros (rest & Hr & [= <-]). cbn. by rewrite Hr.
  - destruct l as [|b l]; cbn; [done|]. intros [= -> Hl]. eauto.
Qed.

(** The algorithms a provider accepts are the asymmetric ones, cut down to
    the configured ones if any are configured and to the advertised ones if
    any are advertised; there is always at least one. *)
Theorem configured_algorithms_spec configured advertised algs
    (Hok : configured_algorithms configured advertised = Ok algs) :
  algs <> [] /\
  forall alg, alg ∈ algs <->
    alg ∈ DEFAULT_ALGORITHMS /\
    (configured = [] \/ exists name, name ∈ configured /\ algorithm_from_str name = Some alg) /\
    (advertised = [] \/ exists name, name ∈ advertised /\ algorithm_from_str name = Some alg).
Proof.
  unfold configured_algorithms in Hok. ok_step Hok as base Hbase.
  assert (forall alg, alg ∈ base /\ alg ∈ DEFAULT_ALGORITHMS <-> alg ∈ DEFAULT_ALGORITHMS /\
    (configured = [] \/ exists name, name ∈ configured /\ algorithm_from_str name = Some alg)) as Hb.
  { intros alg. destruct configured as [|c configured].
    - injection Hbase as <-. split; [intros [Hd _]; auto|intros [Hd _]; auto].
    - apply collect_algorithms_spec in Hbase.
      assert (alg ∈ base <-> Some alg ∈ map Some base) as ->.
      { rewrite list_elem_of_fmap. split; [eauto|]. by intros (y & [= ->] & Hy). }
      rewrite Hbase, list_elem_of_fmap. split.
      + intros [(name & Hn & Hin) Hd]. eauto 10.
      + intros [Hd [Hnil|(name & Hin & Hn)]]; [done|]. eauto. }
  set (kept := retain_in DEFAULT_ALGORITHMS base) in *.
  assert (algs = match advertised with [] => kept | _ =>
    retain_in (omap algorithm_from_str advertised) kept end /\ algs <> []) as [-> Hne].
  { destruct (match advertised with [] => kept | _ => _ end); [done|]. by injection Hok as <-. }
  split; [done|]. intros alg. rewrite (and_assoc (_ ∈ _)), <-Hb.
  assert (alg ∈ base /\ alg ∈ DEFAULT_ALGORITHMS <-> alg ∈ kept) as ->
    by (unfold kept; by rewrite retain_in_spec).
  destruct advertised as [|a advertised]; [split; [auto|by intros [Hk _]]|].
  rewrite retain_in_spec, list_elem_of_omap. apply and_iff_compat_l. split; [auto|].
  by intros [Hnil|Hex].
Qed.

(** ** Start-up *)

(** The state in which [provider_new] leaves a provider. *)
Definition provider_ok (p : OidcProvider) : Prop :=
  issuer (config p) <> "" /\ audiences (config p) <> [] /\ rules (config p) <> [] /\
  (0 < jwks_refresh_seconds (config p))%N /\
  Forall (fun rule => rule_claims rule <> ∅) (rules (config p)) /\
  provider_algorithms p <> [] /\
  (forall alg, alg ∈ provider_algorithms p -> alg ∈ DEFAULT_ALGORITHMS) /\
  min_refresh_interval p = from_secs 30.

Lemma configured_algorithms_asymmetric configured advertised algs :
  configured_algorithms configured advertised = Ok algs ->
  algs <> [] /\ forall alg, alg ∈ algs -> alg ∈ DEFAULT_ALGORITHMS.
Proof.
  intros (base & Hbase & Hok)%result_bind_ok. cbn zeta in Hok.
  destruct advertised as [|a advertised];
    destruct (retain_in DEFAULT_ALGORITHMS base) as [|x l] eqn:E; try done.
  - injection Hok as <-. split; [done|]. intros alg. rewrite <-E, retain_in_spec. tauto.
  - destruct (retain_in _ (x :: l)) as [|y k] eqn:E2; [done|]. injection Hok as <-.
    split; [done|]. intros alg. rewrite <-E2, retain_in_spec, <-E, retain_in_spec. tauto.
Qed.

Lemma validate_provider_config_ok c :
  validate_provider_config c = Ok tt ->
  issuer c <> "" /\ audiences c <> [] /\ rules c <> [] /\ (0 < jwks_refresh_seconds c)%N /\
  Forall (fun rule => rule_claims rule <> ∅) (rules c).
Proof.
  unfold validate_provider_config. destruct (_ || _) eqn:E; [done|].
  rewrite !orb_false_iff in E. destruct E as [[Hi Ha] Hr].
  destruct (N.eqb_spec (jwks_refresh_seconds c) 0); [done|].
  destruct (existsb _ _) eqn:Hx; [done|]. intros _. repeat split.
  - intros Hn. by rewrite Hn in Hi.
  - intros Hn. by rewrite Hn in Ha.
  - intros Hn. by rewrite Hn in Hr.
  - lia.
  - apply List.Forall_forall. intros r Hin Hempty. apply not_true_iff_false in Hx. apply Hx.
    apply existsb_exists. exists r. by rewrite bool_decide_eq_true.
Qed.

(** The keys a provider starts with are the ones one of its three fetches
    returned, the first that succeeded. *)
Lemma fetch_initial_ok net c slept data :
  fetch_initial_provider_data net c = (slept, Ok data) ->
  exists n, (1 <= n <= 3)%N /\ fetch_provider_data (net n) c = Ok data /\
    (forall k, (1 <= k < n)%N -> is_ok (fetch_provider_data (net k) c) = false) /\
    slept = map (fun k => 250 * k)%N (take (N.to_nat n - 1) [1; 2; 3]%N).
Proof.
  unfold fetch_initial_provider_data. cbn [fetch_attempts].
  destruct (fetch_provider_data (net 1%N) c) as [d|] eqn:E1.
  { intros [= <- <-]. exists 1%N. split; [lia|]. split; [done|]. split; [lia|done]. }
  destruct (fetch_provider_data (net 2%N) c) as [d|] eqn:E2.
  { intros [= <- <-]. exists 2%N. split; [lia|]. split; [done|]. split; [|done].
    intros k Hk. assert (k = 1%N) as -> by lia. by rewrite E1. }
  destruct (fetch_provider_data (net 3%N) c) as [d|] eqn:E3; [|done].
  intros [= <- <-]. exists 3%N. split; [lia|]. split; [done|]. split; [|done].
  intros k Hk. assert (k = 1 \/ k = 2)%N as [-> | ->] by lia; by rewrite ?E1, ?E2.
Qed.

Lemma provider_new_ok client net now c p :
  provider_new client net now c = Ok p ->
  config p = c /\ provider_ok p /\ attempted_at (keys p) = None /\
  exists n advertised, (1 <= n <= 3)%N /\
    fetch_provider_data (net n) c = Ok (provider_jwks_uri p, advertised, set (keys p)) /\
    configured_algorithms (algorithms c) advertised = Ok (provider_algorithms p).
Proof.
  unfold provider_new. intros ([] & Hv & (_ & _ & (data & Hd & Hp)%result_bind_ok)%result_bind_ok)
    %result_bind_ok.
  destruct data as [[uri adv] ks]. apply result_bind_ok in Hp as (algs & Ha & [= <-]). cbn.
  split; [done|]. apply validate_provider_config_ok in Hv as (? & ? & ? & ? & ?).
  pose proof (configured_algorithms_asymmetric _ _ _ Ha) as [? ?].
  split; [by unfold provider_ok|]. split; [done|].
  destruct (fetch_initial_provider_data net c) as [slept r] eqn:E. cbn in Hd. subst r.
  apply fetch_initial_ok in E as (n & Hn & Hf & _). eauto 10.
Qed.

(** ** Verification *)

Lemma refresh_keys_frame m kid p :
  config (refresh_keys m kid p).1 = config p /\
  provider_algorithms (refresh_keys m kid p).1 = provider_algorithms p /\
  provider_jwks_uri (refresh_keys m kid p).1 = provider_jwks_uri p /\
  min_refresh_interval (refresh_keys m kid p).1 = min_refresh_interval p.
Proof. unfold refresh_keys. case_match; [done|]. by case_match. Qed.

(** A usable key was published for nothing that excludes verifying with the
    algorithm. *)
Lemma key_usable common alg :
  key_unusable common alg = false ->
  (forall name, key_algorithm common = Some name -> algorithm_from_str name = Some alg) /\
  (forall usage, public_key_use common = Some usage -> usage = Signature) /\
  (forall operations, key_operations common = Some operations -> Verify ∈ operations).
Proof.
  unfold key_unusable. rewrite !orb_false_iff. intros [[Ha Hu] Ho].
  split_and!; intros x Hx; rewrite Hx in *; rewrite negb_false_iff in *; by eapply bool_decide_eq_true.
Qed.

(** C20. Claims are only ever returned for a token whose header names a key and
    an algorithm the provider allows, and which the crate's verification
    accepted with that very key: one that is in the provider's key set when
    the call returns, published for nothing that excludes verifying with the
    algorithm, and with the provider's own issuer, audiences and leeway. *)
Theorem verify_sound m token p claims
    (Hok : (verify m token p).2 = Ok claims) :
  exists header kid jwk key,
    decode_header token = Ok header /\ header_kid header = Some kid /\
    header_alg header ∈ provider_algorithms p /\
    jwk_find (set (keys (verify m token p).1)) kid = Some jwk /\
    (forall name, key_algorithm (jwk_common jwk) = Some name ->
       algorithm_from_str name = Some (header_alg header)) /\
    (forall usage, public_key_use (jwk_common jwk) = Some usage -> usage = Signature) /\
    (forall operations, key_operations (jwk_common jwk) = Some operations -> Verify ∈ operations) /\
    from_jwk jwk = Ok key /\
    jwt_decode (unix_time m) token key
      (mkValidation (header_alg header) (audiences (config p)) [issuer (config p)]
         ["exp"; "aud"; "iss"; "sub"] true (clock_skew_seconds (config p))) = Ok claims.
Proof.
  unfold verify, m_bind, m_lift in *. destruct (decode_header token) as [h|]; [|done].
  cbn [map_err] in *. destruct (header_kid h) as [kid|] eqn:Hkid; [|done]. cbn [ok_or] in *.
  rewrite if_negb in *. destruct (bool_decide_reflect (header_alg h ∈ provider_algorithms p)); [|done].
  destruct (if stale p (read_time m) || _ then _ else _) as [p' refreshed] eqn:Hr.
  assert (config p' = config p) as Hc.
  { pose proof (refresh_keys_frame m kid p) as [Hf _].
    destruct (refresh_keys m kid p) as [q [?|?]]; case_match; simplify_eq; done. }
  cbn [fst snd] in *. ok_step Hok as _ _.
  ok_step Hok as key Hkey.
  unfold verification_key in Hkey. ok_step Hkey as jwk Hj.
  apply ok_or_ok in Hj. destruct (key_unusable _ _) eqn:Hu; [done|].
  apply key_usable in Hu as (Halg & Huse & Hops).
  exists h, kid, jwk, key. rewrite Hc in Hok. unfold token_validation in Hok.
  destruct (from_jwk jwk); [|done]. injection Hkey as ->.
  destruct (jwt_decode _ _ _ _); [|done]. by injection Hok as ->.
Qed.

(** C21. A failing refresh costs nothing to holders of a known key: the token is
    decided with the cached set, exactly as when the set is fresh. A token
    with an unknown key is refused with the fetch's error, and the attempt is
    remembered. *)
Theorem verify_when_fetch_fails m token p header kid
    (Hheader : decode_header token = Ok header) (Hkid : header_kid header = Some kid)
    (Hfail : is_ok (get_jwks (network m) (provider_jwks_uri p)) = false) :
  set (keys (verify m token p).1) = set (keys p) /\
  fetched_at (keys (verify m token p).1) = fetched_at (keys p) /\
  (known_key (keys p) kid = true ->
   (verify m token p).2 =
     if bool_decide (header_alg header ∈ provider_algorithms p) then
       key <-? verification_key p kid (header_alg header);
       map_err (fun _ => "validate JWT")
         (jwt_decode (unix_time m) token key (token_validation (config p) (header_alg header)))
     else Err "JWT uses a disallowed signing algorithm") /\
  (known_key (keys p) kid = false -> is_ok (verify m token p).2 = false).
Proof.
  assert (refresh_keys m kid p = (p, Ok tt) \/
    refresh_keys m kid p = (mark_attempt (attempt_time m) p, Err "fetch JWKS")) as Hr.
  { unfold refresh_keys. case_match; [by left|]. right. cbn. unfold fetch_jwks.
    by destruct (get_jwks _ _). }
  unfold verify, m_bind, m_lift. rewrite Hheader. cbn [map_err]. rewrite Hkid. cbn [ok_or].
  rewrite if_negb. destruct (bool_decide _); [|done].
  destruct (known_key (keys p) kid) eqn:Hk.
  - split; [|split; [|split; [|done]]];
      (destruct (stale p (read_time m) || _); [destruct Hr as [-> | ->]|]); done.
  - rewrite orb_true_r. unfold verification_key, known_key in *.
    split; [|split; [|split; [done|intros _]]]; destruct Hr as [-> | ->]; cbn; try done.
    by destruct (jwk_find _ _).
Qed.

(** ** Refreshes are rate-limited *)

(** Latest first, no two closer than [d]. *)
Fixpoint spaced (d : N) (log : list N) : Prop :=
  match log with
  | later :: (earlier :: _) as rest => (earlier + d <= later)%N /\ spaced d rest
  | _ => True
  end.

Record cache_inv (d : N) (s : CacheState) : Prop := {
  inv_interval : min_refresh_interval (provider s) = d;
  inv_attempted : attempted_at (keys (provider s)) = head (attempts s);
  inv_past : Forall (fun t => t <= clock s)%N (attempts s);
  inv_spaced : spaced d (attempts s);
  inv_deciding : mutex s = Some Deciding ->
    forall t, head (attempts s) = Some t -> (t + d <= clock s)%N;
}.

Lemma cache_inv_initial s :
  cache_initial s -> cache_inv (min_refresh_interval (provider s)) s.
Proof. intros (Hm & Hl & Ha). split; rewrite ?Hl, ?Hm; try done. Qed.

Lemma cache_inv_step d s s' : cache_inv d s -> cache_step s s' -> cache_inv d s'.
Proof.
  intros [Hi Ha Hp Hs Hd] Hstep. inv Hstep; cbn in *; split; cbn; try done.
  - eapply Forall_impl; [exact Hp|]. intros t Ht. cbn in Ht. lia.
  - intros Hmu t Ht. specialize (Hd Hmu t Ht). lia.
  - intros _ t Ht. unfold skip_refresh in *. rewrite Ha, Ht in *.
    rewrite orb_false_iff, N.ltb_ge in *. unfold elapsed in *.
    destruct log as [|t' log]; [done|]. injection Ht as ->.
    apply Forall_cons_iff in Hp as [Hp _]. lia.
  - constructor; [lia|done].
  - destruct log as [|t log]; [done|]. split; [|done]. by apply Hd.
Qed.

Lemma spaced_count d log t :
  (0 < d)%N -> spaced d (t :: log) -> (d * N.of_nat (length log) <= t)%N.
Proof.
  revert t; induction log as [|t' log IH]; intros t Hd Hs; cbn [length].
  { lia. }
  destruct Hs as [Hle Hs]. specialize (IH t' Hd Hs). lia.
Qed.

(** However the requests interleave and whatever tokens they carry, two
    fetches of a provider's keys start at least its refresh interval apart:
    after any run the log of attempts is spaced, and it has at most one entry
    more than the intervals that fit into the time so far. *)
Theorem refresh_rate_limited s s'
    (Hinit : cache_initial s) (Hpos : (0 < min_refresh_interval (provider s))%N)
    (Hrun : rtc cache_step s s') :
  spaced (min_refresh_interval (provider s)) (attempts s') /\
  (N.of_nat (length (attempts s')) <= clock s' / min_refresh_interval (provider s) + 1)%N.
Proof.
  assert (cache_inv (min_refresh_interval (provider s)) s') as [_ _ Hp Hs _].
  { eapply rtc_invariant; [apply cache_inv_step|exact Hrun|by apply cache_inv_initial]. }
  split; [done|]. destruct (attempts s') as [|t log]; [apply N.le_0_l|].
  apply spaced_count in Hs; [|done]. apply Forall_cons_iff in Hp as [Hp _]. cbn [length].
  apply N.Div0.div_le_mono with (c := min_refresh_interval (provider s)) in Hp.
  assert (N.of_nat (length log) <= clock s' / min_refresh_interval (provider s))%N as Hlog.
  { etransitivity; [|exact Hp]. apply N.div_le_lower_bound; [lia|done]. }
  rewrite Nat2N.inj_succ, <-N.add_1_r. by apply N.add_le_mono_r.
Qed.

(** [refresh_keys] is a run of those steps: with clock readings in order,
    from a free mutex it takes the provider to the state the function returns,
    frees the mutex, and logs one attempt if it fetched and none if not. *)
Theorem refresh_keys_runs m kid p c log
    (Hlocked : (c <= locked_time m)%N) (Hattempt : (locked_time m <= attempt_time m)%N)
    (Hfetched : (attempt_time m <= fetched_time m)%N) :
  exists c',
    rtc cache_step (mkCacheState p None c log)
      (mkCacheState (refresh_keys m kid p).1 None c'
         (if skip_refresh p kid (locked_time m) then log else attempt_time m :: log)).
Proof.
  assert (forall q mu log c1 c2, (c1 <= c2)%N ->
    cache_step (mkCacheState q mu c1 log) (mkCacheState q mu c2 log)) as Htick.
  { intros q mu l c1 c2 Hle. replace c2 with (c1 + (c2 - c1))%N by lia. constructor. }
  unfold refresh_keys. destruct (skip_refresh p kid (locked_time m)) eqn:Hskip.
  - exists (locked_time m). eapply rtc_l; [apply Htick, Hlocked|].
    eapply rtc_l; [apply (Acquire _ _ _ kid)|]. eapply rtc_once, Skip, Hskip.
  - assert (rtc cache_step (mkCacheState p None c log)
      (mkCacheState (mark_attempt (attempt_time m) p) (Some Fetching) (attempt_time m)
         (attempt_time m :: log))) as Hmark.
    { eapply rtc_l; [apply Htick, Hlocked|]. eapply rtc_l; [apply (Acquire _ _ _ kid)|].
      eapply rtc_l; [apply Decide, Hskip|]. eapply rtc_l; [apply Htick, Hattempt|].
      eapply rtc_once, Mark. }
    cbn. destruct (fetch_jwks _ _) as [new_set|e]; cbn.
    + exists (fetched_time m). etransitivity; [exact Hmark|].
      eapply rtc_l; [apply Htick, Hfetched|]. eapply rtc_once, Install.
    + exists (attempt_time m). etransitivity; [exact Hmark|]. eapply rtc_once, FetchFails.
Qed.

End OidcProofs.
