(* ===== verification/Auth.v ===== *)
(** * Authorization (src/auth.rs)

    Who may read or write a namespace: the namespace and pattern checks, the
    token grants, and [Authorizer] that puts them together with the OIDC
    providers. The state of [authorize] is the authorizer itself, whose
    providers cache keys. *)
From S2P Require Import Prelude Str Api Json Oidc.
From Stdlib Require Import Ascii.

Local Open Scope string_scope.
Local Open Scope mbx_scope.

(** ** Namespaces *)

Definition namespace_byte (byte : ascii) : bool :=
  is_ascii_alphanumeric byte || Ascii.eqb byte "-" || Ascii.eqb byte "_" || Ascii.eqb byte "."
  || Ascii.eqb byte "/".

Definition valid_namespace (value : string) : bool :=
  negb (str_is_empty value)
  && (String.length value <=? 255)%nat
  && str_all namespace_byte value
  && forallb (fun component =>
       negb (str_is_empty component) && negb (String.eqb component ".")
       && negb (String.eqb component "..")) (split "/" value).

Definition matches_namespace (pattern namespace : string) : bool :=
  String.eqb pattern "*"
  || String.eqb pattern namespace
  || match strip_suffix "/*" pattern with
     | Some prefix =>
         starts_with prefix namespace
         && bool_decide (String.get (String.length prefix) namespace = Some "/"%char)
     | None => false
     end.

(** The fold of [diff | (a ^ b)] over a [u8]. *)
Definition constant_time_eq (left right : bytes) : bool :=
  if negb (length left =? length right)%nat then false
  else
    (fold_left (fun diff ab => N.lor diff (N.lxor (Byte.to_N ab.1) (Byte.to_N ab.2)))
       (combine left right) 0 =? 0)%N.

(** ** Grants *)

Record TokenGrant := mkTokenGrant {
  token : string;
  grant_read : list string;
  grant_write : list string;
}.

Definition patterns (grant : TokenGrant) (access : Access) : list string :=
  match access with Read => grant_read grant | Write => grant_write grant end.

Definition authorize_patterns (patterns : list string) (namespace : string)
  : result ApiError string :=
  if existsb (fun pattern => matches_namespace pattern namespace) patterns then Ok namespace
  else Err (forbidden "token is not authorized for this namespace").

(** [str::as_bytes] *)
Definition as_bytes (s : string) : bytes := String.list_byte_of_string s.

(** ** JSON of the configuration, and of a token's payload *)

Section Auth.
Context `{Jwt}.

Class AuthJson := {
  grants_from_str : string -> result string (list TokenGrant);
  providers_from_str : string -> result string (list OidcProviderConfig);
  patterns_from_str : string -> result string (list string);
  (** [URL_SAFE_NO_PAD.decode] *)
  base64_decode : string -> result string bytes;
}.
Context `{!JsonText} `{AuthJson}.

Definition parse_json_array {T} (from_str : string -> result string (list T))
    (json : option string) (label : string) : result string (list T) :=
  match json with
  | None => Ok []
  | Some json => map_err (fun _ => "parse " ++ label ++ " JSON") (from_str json)
  end.

Definition unverified_issuer (token : string) : result string string :=
  match split "." token with
  | [] => Err "JWT is missing header"
  | [_] => Err "JWT is missing payload"
  | [_; _] => Err "JWT is missing signature"
  | [_; payload; _] =>
      decoded <-? base64_decode payload;
      claims <-? value_from_slice decoded;
      ok_or (value_get claims "iss" ≫= as_str) "JWT is missing issuer"
  | _ => Err "JWT has too many segments"
  end.

(** ** The authorizer *)

Record Authorizer := mkAuthorizer {
  grants : list TokenGrant;
  oidc : list OidcProvider;
  allow_anonymous : bool;
  anonymous_read_namespaces : list string;
}.

(** The loop over the configured providers: [net n] is the network while the
    n-th provider is initialised, [issuers] the issuers met so far. *)
Fixpoint new_providers (client : result string unit) (net : nat -> N -> Network) (now : nat -> N)
    (configs : list OidcProviderConfig) (n : nat) (issuers : gset string)
  : result string (list OidcProvider) :=
  match configs with
  | [] => Ok []
  | config :: configs =>
      if decide (issuer config ∈ issuers)
      then Err ("OIDC issuer " ++ issuer config ++ " is configured more than once")
      else
        provider <-? provider_new client (net n) (now n) config;
        rest <-? new_providers client net now configs (S n) ({[issuer config]} ∪ issuers);
        Ok (provider :: rest)
  end.

Definition authorizer_new (client : result string unit) (net : nat -> N -> Network)
    (now : nat -> N) (tokens_json oidc_providers_json : option string) (allow_anonymous : bool)
    (anonymous_read_namespaces_json : option string) : result string Authorizer :=
  grants <-? parse_json_array grants_from_str tokens_json "token grants";
  configs <-? parse_json_array providers_from_str oidc_providers_json "OIDC providers";
  anonymous_read_namespaces <-?
    parse_json_array patterns_from_str anonymous_read_namespaces_json
      "anonymous read namespace patterns";
  oidc <-? new_providers client net now configs 0 ∅;
  Ok (mkAuthorizer grants oidc allow_anonymous anonymous_read_namespaces).

(** The first provider of an issuer, with its place in the list. *)
Fixpoint find_provider (issuer' : string) (l : list OidcProvider) (n : nat)
  : option (nat * OidcProvider) :=
  match l with
  | [] => None
  | p :: l => if String.eqb (issuer (config p)) issuer' then Some (n, p)
              else find_provider issuer' l (S n)
  end.

Definition set_provider (n : nat) (p : OidcProvider) (a : Authorizer) : Authorizer :=
  mkAuthorizer (grants a) (<[n := p]> (oidc a)) (allow_anonymous a) (anonymous_read_namespaces a).

(** The rules of a provider allow the access for these claims. *)
Definition rules_allow (p : OidcProvider) (claims : Value) (access : Access) (namespace : string)
  : bool :=
  existsb (fun rule =>
    matches_claims rule claims
    && existsb (fun pattern => matches_namespace pattern namespace) (rule_patterns rule access))
    (rules (config p)).

Definition is_read (access : Access) : bool := match access with Read => true | Write => false end.

Definition is_empty_list {A} (l : list A) : bool := match l with [] => true | _ => false end.

(** The token of an [Authorization: Bearer] header. *)
Definition bearer (headers : HeaderMap) : option string :=
  headers !! "authorization" ≫= strip_prefix "Bearer ".

(** The part of [authorize] after every grant has been tried. *)
Definition authorize_oidc (m : Moment) (token namespace : string) (access : Access)
  : M Authorizer ApiError string :=
  issuer <~ m_lift (map_err (fun _ => unauthorized "invalid bearer token")
              (unverified_issuer token));
  fun a =>
    match find_provider issuer (oidc a) 0 with
    | None => (a, Err (unauthorized "invalid bearer token"))
    | Some (n, provider) =>
        let '(provider, verified) := verify m token provider in
        (set_provider n provider a,
         claims <-? map_err (fun _ => unauthorized "invalid bearer token") verified;
         if rules_allow provider claims access namespace then Ok namespace
         else Err (forbidden "identity is not authorized for this namespace"))
    end.

Definition authorize (m : Moment) (headers : HeaderMap) (access : Access)
  : M Authorizer ApiError string :=
  fun self =>
    if negb (bool_decide (headers !! "mbx-cache-protocol" = Some "1"))
    then (self, Err upgrade_required)
    else
      match headers !! "mbx-cache-namespace" ≫= (fun v => if valid_namespace v then Some v else None)
      with
      | None => (self, Err (bad_request "a valid Mbx-Cache-Namespace header is required"))
      | Some namespace =>
          if allow_anonymous self && is_empty_list (grants self) && is_empty_list (oidc self)
          then (self, Ok namespace)
          else if is_read access
                  && existsb (fun pattern => matches_namespace pattern namespace)
                       (anonymous_read_namespaces self)
          then (self, Ok namespace)
          else
            match bearer headers with
            | None => (self, Err (unauthorized "a bearer token is required"))
            | Some tok =>
                match List.find (fun grant =>
                        constant_time_eq (as_bytes (token grant)) (as_bytes tok)) (grants self)
                with
                | Some grant => (self, authorize_patterns (patterns grant access) namespace)
                | None => authorize_oidc m tok namespace access self
                end
            end
      end.

End Auth.

(** ** Lemmas *)

Definition namespace_component (c : string) : Prop :=
  c <> "" /\ c <> "." /\ c <> ".." /\
  str_all (fun b => namespace_byte b && negb (Ascii.eqb b "/")) c = true.

Lemma str_all_and f g s :
  str_all (fun b => f b && g b) s = str_all f s && str_all g s.
Proof.
  induction s as [|b s IH]; cbn; [done|]. rewrite IH.
  destruct (f b), (g b), (str_all f s); done.
Qed.

Lemma namespace_join cs :
  str_all namespace_byte (join "/" cs) = true <->
  Forall (fun c => str_all namespace_byte c = true) cs.
Proof.
  induction cs as [|c cs IH]; [split; [constructor|done]|]. rewrite Forall_cons_iff, <-IH.
  destruct cs as [|c' cs]; [cbn; tauto|].
  change (join "/" (c :: c' :: cs)) with (c ++ String "/" (join "/" (c' :: cs))).
  rewrite str_all_app, andb_true_iff. cbn [str_all]. tauto.
Qed.

Lemma get_append p rest : String.get (String.length p) (p ++ rest) = String.get 0 rest.
Proof. induction p as [|a p IH]; [done|exact IH]. Qed.

Lemma starts_with_at p ns c :
  starts_with p ns && bool_decide (String.get (String.length p) ns = Some c) = true <->
  exists rest, ns = p ++ String c rest.
Proof.
  rewrite andb_true_iff, bool_decide_eq_true, starts_with_spec. split.
  - intros [[rest ->] Hget]. rewrite get_append in Hget.
    destruct rest as [|b rest]; cbn in Hget; [done|]. injection Hget as ->. by exists rest.
  - intros [rest ->]. rewrite get_append. eauto.
Qed.

(** What a pattern covers, by prefix: everything, one namespace, or what lies
    below a prefix. *)
Definition covers (pattern namespace : string) : Prop :=
  pattern = "*" \/ pattern = namespace \/
  exists prefix rest, pattern = prefix ++ "/*" /\ namespace = prefix ++ "/" ++ rest.

Lemma matches_covers pattern namespace :
  matches_namespace pattern namespace = true <-> covers pattern namespace.
Proof.
  unfold matches_namespace, covers. rewrite !orb_true_iff, !String.eqb_eq, Logic.or_assoc.
  do 2 (apply or_iff_compat_l).
  destruct (strip_suffix "/*" pattern) as [prefix|] eqn:E.
  - apply strip_suffix_some in E as ->. rewrite starts_with_at. split.
    + intros [rest ->]. exists prefix, rest. done.
    + intros (p & rest & Hp%str_append_inj_r & ->). subst p. by exists rest.
  - split; [done|]. intros (p & rest & Hp & _). apply strip_suffix_some in Hp. congruence.
Qed.

Lemma existsb_covers l namespace :
  existsb (fun pattern => matches_namespace pattern namespace) l = true <->
  exists pattern, pattern ∈ l /\ covers pattern namespace.
Proof.
  rewrite existsb_exists. by setoid_rewrite matches_covers; setoid_rewrite list_elem_of_In.
Qed.

Lemma lor_eq_0 a b : N.lor a b = 0%N <-> a = 0%N /\ b = 0%N.
Proof. apply N.lor_eq_0_iff. Qed.

Lemma fold_diff l acc :
  fold_left (fun diff ab => N.lor diff (N.lxor (Byte.to_N ab.1) (Byte.to_N ab.2))) l acc = 0%N <->
  acc = 0%N /\ Forall (fun ab => ab.1 = ab.2) l.
Proof.
  revert acc; induction l as [|[a b] l IH]; intros acc; cbn [fold_left fst snd].
  { split; [by intros ->|by intros [-> _]]. }
  rewrite IH, lor_eq_0, N.lxor_eq_0_iff, Forall_cons_iff. cbn [fst snd].
  enough (Byte.to_N a = Byte.to_N b <-> a = b) by tauto.
  split; [|by intros ->]. intros Hab. by rewrite <-(u8_of_N_to_N a), Hab, u8_of_N_to_N.
Qed.

Lemma combine_equal {A} (l1 l2 : list A) :
  length l1 = length l2 -> (Forall (fun ab => ab.1 = ab.2) (combine l1 l2) <-> l1 = l2).
Proof.
  revert l2; induction l1 as [|a l1 IH]; intros [|b l2] Hl; try done.
  cbn. injection Hl as Hl. rewrite Forall_cons_iff, IH by done. cbn. naive_solver.
Qed.

Lemma as_bytes_inj s1 s2 : as_bytes s1 = as_bytes s2 -> s1 = s2.
Proof.
  unfold as_bytes. intros Heq.
  by rewrite <-(String.string_of_list_byte_of_string s1), Heq, String.string_of_list_byte_of_string.
Qed.

Lemma constant_time_eq_iff left right : constant_time_eq left right = true <-> left = right.
Proof.
  unfold constant_time_eq. destruct (Nat.eqb_spec (length left) (length right)) as [Hl|Hl]; cbn.
  - rewrite N.eqb_eq, fold_diff, combine_equal by done. tauto.
  - split; [done|]. by intros ->.
Qed.

Lemma token_eq_iff s1 s2 : constant_time_eq (as_bytes s1) (as_bytes s2) = true <-> s1 = s2.
Proof. rewrite constant_time_eq_iff. split; [apply as_bytes_inj|by intros ->]. Qed.

(** [List.find] finds the first. *)
Lemma find_first {A} (f : A -> bool) l x :
  List.find f l = Some x <->
  exists before after, l = (before ++ x :: after)%list /\ f x = true /\
    Forall (fun y => f y = false) before.
Proof.
  induction l as [|y l IH]; cbn.
  { split; [done|]. intros ([] & ? & ? & _); done. }
  destruct (f y) eqn:Hy.
  - split; [intros [= ->]; by exists [], l|].
    intros ([|z before] & after & Heq & Hx & Hb); injection Heq as -> ->; [done|].
    apply Forall_cons_iff in Hb as [Hb _]. congruence.
  - rewrite IH. split.
    + intros (before & after & -> & Hx & Hb). exists (y :: before), after. auto.
    + intros ([|z before] & after & Heq & Hx & Hb); injection Heq as -> ->; [congruence|].
      apply Forall_cons_iff in Hb as [_ Hb]. eauto.
Qed.

Lemma find_none_forall {A} (f : A -> bool) l :
  List.find f l = None <-> Forall (fun y => f y = false) l.
Proof.
  induction l as [|y l IH]; cbn; [done|]. rewrite Forall_cons_iff.
  destruct (f y); [naive_solver|]. naive_solver.
Qed.

Lemma find_provider_first `{Jwt} iss l n k p :
  find_provider iss l n = Some (k, p) <->
  exists before after, l = (before ++ p :: after)%list /\ k = (n + length before)%nat /\
    issuer (config p) = iss /\ Forall (fun q => issuer (config q) <> iss) before.
Proof.
  revert n; induction l as [|q l IH]; intros n; cbn.
  { split; [done|]. intros ([] & ? & ? & _); done. }
  destruct (String.eqb_spec (issuer (config q)) iss) as [Hq|Hq].
  - split.
    + intros [= <- ->]. exists [], l. rewrite Nat.add_0_r. auto.
    + intros ([|z before] & after & Heq & -> & Hp & Hb); injection Heq as -> ->.
      * by rewrite Nat.add_0_r.
      * apply Forall_cons_iff in Hb as [Hb _]. congruence.
  - rewrite IH. split.
    + intros (before & after & -> & -> & Hp & Hb). exists (q :: before), after. cbn.
      rewrite Nat.add_succ_r. auto.
    + intros ([|z before] & after & Heq & -> & Hp & Hb); injection Heq as -> ->; [congruence|].
      apply Forall_cons_iff in Hb as [_ Hb]. exists before, after. cbn. rewrite Nat.add_succ_r. auto.
Qed.
