(* ===== verification/AuthProofs.v ===== *)
(** * Who may read and write

    The namespace checks and the decision of [authorize] against a declarative
    statement of the grounds on which access is given. *)
From S2P Require Import Prelude Str Api Json Oidc OidcProofs Auth.
From Stdlib Require Import Ascii.

Local Open Scope string_scope.
Local Open Scope mbx_scope.

(** ** Namespaces *)

(** A namespace is valid exactly when it is at most 255 bytes of
    components joined by '/', none of them empty, "." or "..", all of letters,
    digits, '-', '_' and '.'. *)
Theorem valid_namespace_spec value :
  valid_namespace value = true <->
  (String.length value <= 255)%nat /\
  exists components, components <> [] /\ value = join "/" components /\
    Forall namespace_component components.
Proof.
  unfold valid_namespace, namespace_component. rewrite !andb_true_iff, Nat.leb_le.
  setoid_rewrite str_all_and. setoid_rewrite andb_true_iff. setoid_rewrite <-contains_char_false.
  rewrite forallb_forall. split.
  - intros [[[_ Hl] Hb] Hc]. split; [done|]. exists (split "/" value).
    split; [apply split_not_nil|]. rewrite join_split. split; [done|].
    rewrite <-(join_split "/" value), namespace_join in Hb.
    pose proof (split_no_sep "/" value) as Hs. rewrite !Forall_forall in *. intros c Hin.
    specialize (Hc c (proj1 (list_elem_of_In _ _) Hin)).
    rewrite !andb_true_iff, !negb_true_iff, !String.eqb_neq in Hc.
    rewrite <-not_true_iff_false, str_is_empty_spec in Hc.
    destruct Hc as [[H1 H2] H3]. auto 10.
  - intros [Hl (cs & Hne & -> & Hcs)].
    assert (Forall (fun w => contains_char "/" w = false) cs) as Hsep
      by (eapply Forall_impl; [exact Hcs|naive_solver]).
    rewrite namespace_join, split_join by done.
    repeat split; [|done|eapply Forall_impl; [exact Hcs|naive_solver]|].
    + destruct cs as [|c cs]; [done|]. apply Forall_cons_iff in Hcs as [(Hc & _) _].
      destruct c; [done|]. by destruct cs.
    + intros c Hin. apply list_elem_of_In in Hin. rewrite Forall_forall in Hcs.
      apply Hcs in Hin as (H1 & H2 & H3 & _).
      rewrite !andb_true_iff, !negb_true_iff, !String.eqb_neq.
      rewrite <-not_true_iff_false, str_is_empty_spec. auto 10.
Qed.

(** A pattern matches exactly the namespaces it is meant to: "*" all of
    them, a name itself, and "prefix/*" the namespaces whose path has the
    components of the prefix and at least one more, so that "team/*" never
    matches "team" or "team-other". *)
Theorem matches_namespace_spec pattern namespace :
  matches_namespace pattern namespace = true <->
  pattern = "*" \/ pattern = namespace \/
  exists prefix below, pattern = prefix ++ "/*" /\ below <> [] /\
    split "/" namespace = (split "/" prefix ++ below)%list.
Proof.
  rewrite matches_covers. unfold covers. do 2 (apply or_iff_compat_l). split.
  - intros (prefix & rest & -> & ->). exists prefix, (split "/" rest).
    split; [done|]. split; [apply split_not_nil|]. apply (split_app_sep "/").
  - intros (prefix & below & -> & Hne & Hsplit). exists prefix, (join "/" below).
    split; [done|]. rewrite <-(join_split "/" namespace), Hsplit, join_app by
      (done || apply split_not_nil). by rewrite join_split.
Qed.

(** The comparison of tokens that looks at every byte, whatever the bytes,
    accepts exactly equal tokens. *)
Theorem constant_time_eq_spec left right :
  constant_time_eq (as_bytes left) (as_bytes right) = bool_decide (left = right).
Proof.
  apply eq_true_iff_eq. by rewrite token_eq_iff, bool_decide_eq_true.
Qed.

(** ** The decision *)

#[local] Arguments verify : simpl never.
#[local] Arguments unverified_issuer : simpl never.
#[local] Arguments authorize_oidc : simpl never.

Section Authorize.
Context `{Jwt} `{!JsonText} `{!AuthJson}.

(** The grounds on which an authorizer gives access to a namespace. *)
Inductive grounds (m : Moment) (a : Authorizer) (headers : HeaderMap) (access : Access)
    (namespace : string) : Prop :=
  | OpenServer :
      allow_anonymous a = true -> grants a = [] -> oidc a = [] ->
      grounds m a headers access namespace
  | AnonymousRead pattern :
      access = Read -> pattern ∈ anonymous_read_namespaces a -> covers pattern namespace ->
      grounds m a headers access namespace
  | TokenGranted before grant after pattern :
      grants a = (before ++ grant :: after)%list ->
      bearer headers = Some (token grant) ->
      Forall (fun g => token g <> token grant) before ->
      pattern ∈ patterns grant access -> covers pattern namespace ->
      grounds m a headers access namespace
  | IdentityVerified tok before p after claims rule pattern :
      bearer headers = Some tok ->
      Forall (fun g => token g <> tok) (grants a) ->
      oidc a = (before ++ p :: after)%list ->
      unverified_issuer tok = Ok (issuer (config p)) ->
      Forall (fun q => issuer (config q) <> issuer (config p)) before ->
      (verify m tok p).2 = Ok claims ->
      rule ∈ rules (config p) -> matches_claims rule claims = true ->
      pattern ∈ rule_patterns rule access -> covers pattern namespace ->
      grounds m a headers access namespace.

Lemma rules_allow_spec p claims access namespace :
  rules_allow p claims access namespace = true <->
  exists rule pattern, rule ∈ rules (config p) /\ matches_claims rule claims = true /\
    pattern ∈ rule_patterns rule access /\ covers pattern namespace.
Proof.
  unfold rules_allow. rewrite existsb_exists.
  setoid_rewrite andb_true_iff. setoid_rewrite existsb_covers.
  setoid_rewrite <-list_elem_of_In. naive_solver.
Qed.

(** Verifying changes nothing but the keys. *)
Lemma verify_config m tok p : config (verify m tok p).1 = config p.
Proof.
  unfold verify, m_bind, m_lift. destruct (map_err _ _) as [h|]; cbn; [|done].
  destruct (ok_or _ _) as [kid|]; cbn; [|done].
  case_match; [done|]. case_match eqn:E; cbn. 
  unfold refresh_keys in E. repeat (case_match; simplify_eq; cbn; try done).
Qed.

Lemma authorize_oidc_ok m tok namespace access a ns :
  (authorize_oidc m tok namespace access a).2 = Ok ns <->
  ns = namespace /\ exists before p after claims rule pattern,
    oidc a = (before ++ p :: after)%list /\
    unverified_issuer tok = Ok (issuer (config p)) /\
    Forall (fun q => issuer (config q) <> issuer (config p)) before /\
    (verify m tok p).2 = Ok claims /\
    rule ∈ rules (config p) /\ matches_claims rule claims = true /\
    pattern ∈ rule_patterns rule access /\ covers pattern namespace.
Proof.
  unfold authorize_oidc, m_bind, m_lift.
  destruct (unverified_issuer tok) as [iss|e]; cbn; [|split; [done|naive_solver]].
  destruct (find_provider iss (oidc a) 0) as [[n p]|] eqn:Hf.
  - apply find_provider_first in Hf as (before & after & Ha & -> & Hiss & Hb).
    pose proof (verify_config m tok p) as Hc.
    destruct (verify m tok p) as [p' verified] eqn:Hv. cbn in Hc |- *.
    assert (forall claims, rules_allow p' claims access namespace =
      rules_allow p claims access namespace) as Hr by (intros; unfold rules_allow; by rewrite Hc).
    split.
    + destruct verified as [claims|]; cbn; [|done]. rewrite Hr. case_match eqn:E; [|done].
      intros [= <-]. apply rules_allow_spec in E as (rule & pattern & E).
      split; [done|]. exists before, p, after, claims, rule, pattern. subst iss.
      rewrite Hv. naive_solver.
    + intros (-> & before' & q & after' & claims & rule & pattern & Hq & Hu & Hb' & Hvq & Hrule).
      assert (q = p) as ->.
      { assert (find_provider iss (oidc a) 0 = Some ((0 + length before')%nat, q)) as Hf1.
        { apply find_provider_first. exists before', after'. injection Hu as ->. done. }
        assert (find_provider iss (oidc a) 0 = Some ((0 + length before)%nat, p)) as Hf2.
        { apply find_provider_first. eauto 10. }
        congruence. }
      rewrite Hv in Hvq. cbn in Hvq. subst verified. cbn. rewrite Hr.
      rewrite (proj2 (rules_allow_spec p claims access namespace)); [done|]. eauto.
  - cbn. split; [done|].
    intros (-> & before' & q & after' & claims & rule & pattern & Hq & Hu & Hb' & Hrest).
    assert (find_provider iss (oidc a) 0 = Some ((0 + length before')%nat, q)) as Hf1.
    { apply find_provider_first. exists before', after'. injection Hu as ->. done. }
    congruence.
Qed.

(** Without an open server or an anonymous read, only a token gives grounds. *)
Lemma bearer_grounds m a headers access namespace :
  allow_anonymous a && is_empty_list (grants a) && is_empty_list (oidc a) = false ->
  is_read access && existsb (fun pattern => matches_namespace pattern namespace)
    (anonymous_read_namespaces a) = false ->
  grounds m a headers access namespace <->
  exists tok, bearer headers = Some tok /\
  match List.find (fun grant => constant_time_eq (as_bytes (token grant)) (as_bytes tok)) (grants a)
  with
  | Some grant => exists pattern, pattern ∈ patterns grant access /\ covers pattern namespace
  | None => (authorize_oidc m tok namespace access a).2 = Ok namespace
  end.
Proof.
  intros Hopen Hanon. split.
  - intros [Ha Hg Ho|pattern -> Hin Hc|before g after pattern Hg Hb Hne Hin Hc|
            tok before p after claims rule pattern Hb Hne Ho Hu Hf Hv Hr Hm Hin Hc].
    + rewrite Ha, Hg, Ho in Hopen. done.
    + exfalso. apply not_true_iff_false in Hanon. apply Hanon. cbn. apply existsb_covers. eauto.
    + exists (token g). split; [done|].
      rewrite (proj2 (find_first _ (grants a) g)); [by exists pattern|].
      exists before, after. split; [done|]. split; [by apply token_eq_iff|].
      eapply Forall_impl; [exact Hne|]. intros x Hx. cbn.
      rewrite <-not_true_iff_false, token_eq_iff. done.
    + exists tok. split; [done|].
      rewrite (proj2 (find_none_forall _ (grants a))).
      * apply authorize_oidc_ok. split; [done|]. exists before, p, after, claims, rule, pattern. done.
      * eapply Forall_impl; [exact Hne|]. intros x Hx. cbn.
        rewrite <-not_true_iff_false, token_eq_iff. done.
  - intros (tok & Hb & Hg). destruct (List.find _ _) as [g|] eqn:E.
    + apply find_first in E as (before & after & Ha & Heq & Hne). apply token_eq_iff in Heq as <-.
      destruct Hg as (pattern & Hin & Hc). eapply TokenGranted; [exact Ha|exact Hb| |done..].
      eapply Forall_impl; [exact Hne|]. intros x Hx. cbn in Hx.
      by rewrite <-not_true_iff_false, token_eq_iff in Hx.
    + apply find_none_forall in E.
      apply authorize_oidc_ok in Hg as (_ & before & p & after & claims & rule & pattern & Hrest).
      destruct Hrest as (? & ? & ? & ? & ? & ? & ? & ?).
      eapply IdentityVerified; try done. eapply Forall_impl; [exact E|]. intros x Hx. cbn in Hx.
      by rewrite <-not_true_iff_false, token_eq_iff in Hx.
Qed.

Lemma authorize_ok m headers access a namespace :
  (authorize m headers access a).2 = Ok namespace <->
  headers !! "mbx-cache-protocol" = Some "1" /\
  headers !! "mbx-cache-namespace" = Some namespace /\
  valid_namespace namespace = true /\
  grounds m a headers access namespace.
Proof.
  unfold authorize. rewrite if_negb.
  destruct (bool_decide_reflect (headers !! "mbx-cache-protocol" = Some "1")) as [Hp|Hp];
    [|split; [done|by intros (? & _)]].
  destruct (headers !! "mbx-cache-namespace") as [ns|]; cbn;
    [|split; [done|by intros (_ & ? & _)]].
  destruct (valid_namespace ns) eqn:Hv;
    [|split; [done|intros (_ & [= ->] & Hv' & _); congruence]].
  transitivity (namespace = ns /\ grounds m a headers access ns); [|naive_solver].
  destruct (allow_anonymous a && _ && _) eqn:Hopen.
  { rewrite !andb_true_iff in Hopen. destruct Hopen as [[Ha Hg] Ho].
    split; [intros [= <-]|by intros [-> _]]. split; [done|].
    apply OpenServer; [done|by destruct (grants a)|by destruct (oidc a)]. }
  destruct (is_read access && _) eqn:Hanon.
  { apply andb_true_iff in Hanon as [Hr (pattern & Hin & Hc)%existsb_covers].
    split; [intros [= <-]|by intros [-> _]]. split; [done|].
    eapply AnonymousRead; [by destruct access|done..]. }
  rewrite bearer_grounds by done.
  destruct (bearer headers) as [tok|]; cbn; [|naive_solver].
  destruct (List.find _ _) as [g|] eqn:Hg.
  - unfold authorize_patterns. cbn [snd]. split.
    + destruct (existsb _ (patterns g access)) eqn:E; [|done]. intros [= <-]. apply existsb_covers in E.
      split; [done|]. exists tok. rewrite Hg. eauto.
    + intros (-> & tok' & [= <-] & Hg'). rewrite Hg in Hg'. apply existsb_covers in Hg'.
      by rewrite Hg'.
  - split.
    + intros Hok. pose proof Hok as Hok'. apply authorize_oidc_ok in Hok as [-> _]. split; [done|].
      exists tok. rewrite Hg. done.
    + intros (-> & tok' & [= <-] & Hok). by rewrite Hg in Hok.
Qed.

(** Who presents a token the authorizer knows: the secret of a grant, or one that
    the provider it names verifies. *)
Definition identified (m : Moment) (a : Authorizer) (headers : HeaderMap) : Prop :=
  exists tok, bearer headers = Some tok /\
    ((exists grant, grant ∈ grants a /\ token grant = tok) \/
     (Forall (fun g => token g <> tok) (grants a) /\
      exists before p after claims, oidc a = (before ++ p :: after)%list /\
        unverified_issuer tok = Ok (issuer (config p)) /\
        Forall (fun q => issuer (config q) <> issuer (config p)) before /\
        (verify m tok p).2 = Ok claims)).

(** A token no grant has is refused as unknown or, if it is verified, as not
    allowed. *)
Lemma authorize_oidc_refusal m tok namespace access a e :
  (authorize_oidc m tok namespace access a).2 = Err e ->
  let verified := exists before p after claims, oidc a = (before ++ p :: after)%list /\
    unverified_issuer tok = Ok (issuer (config p)) /\
    Forall (fun q => issuer (config q) <> issuer (config p)) before /\ (verify m tok p).2 = Ok claims in
  (status e = UNAUTHORIZED /\ ~ verified) \/ (status e = FORBIDDEN /\ verified).
Proof.
  unfold authorize_oidc, m_bind, m_lift. cbv zeta.
  destruct (unverified_issuer tok) as [iss|e']; cbn.
  2:{ intros [= <-]. left. split; [done|]. by intros (before & p & after & claims & _ & ? & _). }
  destruct (find_provider iss (oidc a) 0) as [[n p]|] eqn:Hf.
  - assert (forall q before after, oidc a = (before ++ q :: after)%list -> iss = issuer (config q) ->
      Forall (fun q' => issuer (config q') <> issuer (config q)) before -> q = p) as Hone.
    { intros q before after Hq -> Hb.
      assert (find_provider (issuer (config q)) (oidc a) 0 = Some ((0 + length before)%nat, q)) as Hf'
        by (apply find_provider_first; eauto 10). congruence. }
    apply find_provider_first in Hf as (before & after & Ha & -> & Hiss & Hb).
    destruct (verify m tok p) as [p' verified] eqn:Hv. cbn. destruct verified as [claims|e']; cbn.
    + destruct (rules_allow _ _ _ _); intros [= <-]. right. split; [done|].
      exists before, p, after, claims. subst iss. by rewrite Hv.
    + intros [= <-]. left. split; [done|]. intros (b' & q & a' & claims & Hq & Hu & Hb' & Hvq).
      injection Hu as Hu. by rewrite (Hone _ _ _ Hq Hu Hb'), Hv in Hvq.
  - intros [= <-]. left. split; [done|]. intros (b' & q & a' & claims & Hq & Hu & Hb' & _).
    assert (find_provider iss (oidc a) 0 = Some ((0 + length b')%nat, q)) as Hf'
      by (apply find_provider_first; injection Hu as ->; eauto 10). congruence.
Qed.

(** C19. [authorize] lets a request through exactly when it speaks the protocol
    version, names a valid namespace, and there are grounds to give it the
    access: an open server, an anonymous read, the grant of its token, or a
    verified identity with a rule for the namespace; it returns the namespace
    of the request's own header. Any other request is refused, with the status
    of what it lacks first: 426 if it does not speak the version, 400 if it
    names no valid namespace, 401 if it presents no token that is known, and 403
    if it does. *)
Theorem authorize_decides m headers access a :
  let spoken := headers !! "mbx-cache-protocol" = Some "1" in
  let named namespace := headers !! "mbx-cache-namespace" = Some namespace /\ valid_namespace namespace = true in
  match (authorize m headers access a).2 with
  | Ok namespace => spoken /\ named namespace /\ grounds m a headers access namespace
  | Err e =>
      (status e = UPGRADE_REQUIRED /\ ~ spoken) \/
      (status e = BAD_REQUEST /\ spoken /\ forall namespace, ~ named namespace) \/
      (exists namespace, spoken /\ named namespace /\ ~ grounds m a headers access namespace /\
        ((status e = UNAUTHORIZED /\ ~ identified m a headers) \/
         (status e = FORBIDDEN /\ identified m a headers)))
  end.
Proof.
  cbv zeta. destruct (authorize m headers access a).2 as [ns|e] eqn:E.
  { apply authorize_ok in E as (? & ? & ? & ?). auto. }
  assert (forall ns, headers !! "mbx-cache-protocol" = Some "1" -> headers !! "mbx-cache-namespace" = Some ns ->
    valid_namespace ns = true -> ~ grounds m a headers access ns) as Hno.
  { intros ns Hp Hn Hv Hg. assert ((authorize m headers access a).2 = Ok ns) as Hok
      by (by apply authorize_ok). congruence. }
  unfold authorize in E. rewrite if_negb in E.
  destruct (bool_decide_reflect (headers !! "mbx-cache-protocol" = Some "1")) as [Hp|Hp];
    [|injection E as <-; by left].
  right. destruct (headers !! "mbx-cache-namespace") as [ns|]; cbn in E;
    [|injection E as <-; left; split_and!; [done..|by intros ns [? _]]].
  destruct (valid_namespace ns) eqn:Hv;
    [|injection E as <-; left; split_and!; [done..|intros ns' [[= <-] ?]; congruence]].
  right. exists ns. split_and!; [done..|by apply Hno|]. clear Hno.
  destruct (allow_anonymous a && _ && _); [done|]. destruct (is_read access && _); [done|].
  unfold identified. destruct (bearer headers) as [tok|]; [|injection E as <-; left; split; [done|by intros (? & ? & _)]].
  destruct (List.find _ _) as [g|] eqn:Hg.
  - apply find_first in Hg as (before & after & Ha & Heq%token_eq_iff & _). cbn in E.
    unfold authorize_patterns in E. destruct (existsb _ _); [done|]. injection E as <-.
    right. split; [done|]. exists tok. split; [done|]. left. exists g. rewrite Ha. set_solver.
  - apply find_none_forall in Hg.
    assert (Forall (fun g => token g <> tok) (grants a)) as Hne.
    { eapply Forall_impl; [exact Hg|]. intros x Hx. cbn in Hx. by rewrite <-not_true_iff_false, token_eq_iff in Hx. }
    apply authorize_oidc_refusal in E as [[Hs Hnv]|[Hs Hverified]]; [left|right]; (split; [done|]).
    + intros (tok' & [= <-] & [(g & Hin & Htok)|[_ Hverified]]); [|done].
      rewrite Forall_forall in Hne. by destruct (Hne g Hin).
    + exists tok. split; [done|]. by right.
Qed.

(** A write is never anonymous: unless the server is wholly open, whoever
    is let through presented a bearer token, and that token is the secret of
    a grant with a write pattern for the namespace, or passed verification by
    the provider it names, under a rule with such a pattern. *)
Theorem write_needs_identity m headers a namespace :
  (allow_anonymous a = false \/ grants a <> [] \/ oidc a <> []) ->
  (authorize m headers Write a).2 = Ok namespace ->
  exists tok pattern, bearer headers = Some tok /\ covers pattern namespace /\
    ((exists grant, grant ∈ grants a /\ token grant = tok /\ pattern ∈ grant_write grant) \/
     (exists p claims rule, p ∈ oidc a /\ unverified_issuer tok = Ok (issuer (config p)) /\
        (verify m tok p).2 = Ok claims /\ rule ∈ rules (config p) /\
        matches_claims rule claims = true /\ pattern ∈ rule_write rule)).
Proof.
  intros Hclosed (_ & _ & _ & Hg)%authorize_ok.
  destruct Hg as [Ha Hg Ho|pattern Hr _ _|before g after pattern Hg Hb Hne Hin Hc|
            tok before p after claims rule pattern Hb Hne Ho Hu Hf Hv Hr Hm Hin Hc].
  - destruct Hclosed as [?|[?|?]]; congruence.
  - done.
  - exists (token g), pattern. split; [done|]. split; [done|]. left. exists g.
    rewrite Hg. set_solver.
  - exists tok, pattern. split; [done|]. split; [done|]. right. exists p, claims, rule.
    rewrite Ho. set_solver.
Qed.
(** ** Start-up *)

Lemma new_providers_ok client net now configs n issuers l :
  new_providers client net now configs n issuers = Ok l ->
  map config l = configs /\ NoDup (map issuer configs) /\
  Forall (fun c => issuer c ∉ issuers) configs /\
  Forall (fun p => provider_ok p /\ attempted_at (keys p) = None) l.
Proof.
  revert n issuers l; induction configs as [|c configs IH]; intros n issuers l; cbn [new_providers].
  { intros [= <-]. repeat split; constructor. }
  case_decide as Hin; [done|].
  intros (p & Hp & (rest & Hrest & [= <-])%result_bind_ok)%result_bind_ok.
  apply provider_new_ok in Hp as (Hc & Hok & Hat & _).
  apply IH in Hrest as (Hm & Hnd & Hfresh & Hall). cbn. rewrite Hc, Hm.
  split; [done|]. split; [|split].
  - apply NoDup_cons. split; [|done]. intros (c' & Heq & Hc')%list_elem_of_fmap.
    rewrite Forall_forall in Hfresh. specialize (Hfresh c' Hc'). set_solver.
  - constructor; [done|]. eapply Forall_impl; [exact Hfresh|]. set_solver.
  - constructor; done.
Qed.

(** An authorizer that starts has one provider per issuer, each with a
    nonempty issuer, audiences and rules, no rule without a required claim, at
    least one algorithm and only asymmetric ones, and no fetch attempted yet;
    what is not configured is empty. *)
Theorem authorizer_new_ok client net now tokens providers anonymous anon_reads a
    (Hok : authorizer_new client net now tokens providers anonymous anon_reads = Ok a) :
  NoDup (map (fun p => issuer (config p)) (oidc a)) /\
  Forall (fun p => provider_ok p /\ attempted_at (keys p) = None) (oidc a) /\
  allow_anonymous a = anonymous /\
  (tokens = None -> grants a = []) /\ (providers = None -> oidc a = []) /\
  (anon_reads = None -> anonymous_read_namespaces a = []).
Proof.
  unfold authorizer_new in Hok. ok_step Hok as gs Hg.
  ok_step Hok as cs Hc. ok_step Hok as an Ha.
  apply result_bind_ok in Hok as (ps & Hp & [= <-]). cbn [oidc grants allow_anonymous
    anonymous_read_namespaces].
  apply new_providers_ok in Hp as (Hm & Hnd & _ & Hall). split.
  { rewrite <-Hm, map_map in Hnd. exact Hnd. }
  split; [done|]. split; [done|]. split; [|split]; intros ->; cbn in *; simplify_eq; try done.
  by destruct ps.
Qed.
End Authorize.
