(* ===== verification/AuthExamples.v ===== *)
(** * Runs of authorization and token verification

    A concrete instance of the JWT boundary, in which a token is its key id
    and an issuer, and the theorems of [AuthProofs.v] and [OidcProofs.v]
    applied to it. *)
From S2P Require Import Prelude Str Api Json Oidc OidcProofs Auth AuthProofs.
From Stdlib Require Import Ascii.

Local Open Scope string_scope.
Local Open Scope mbx_scope.

Definition concrete_numbers : JsonNumber := {|
  Number := N;
  Number_eq_dec := N.eq_dec;
  number_as_u64 n := Some n;
|}.

Definition algorithm_names : list (string * SigAlgorithm) :=
  [("RS256", RS256); ("ES256", ES256); ("EdDSA", EdDSA); ("HS256", OtherAlgorithm "HS256")].

Fixpoint assoc {A} (k : string) (l : list (string * A)) : option A :=
  match l with
  | [] => None
  | (k', a) :: l => if String.eqb k k' then Some a else assoc k l
  end.

(** The token "kid.issuer.s" is signed by the key of that id. *)
Definition token_part (n : nat) (token : string) : option string := split "." token !! n.

Definition concrete_jwt : @Jwt concrete_numbers := {|
  Jwk := string * CommonParameters;
  JwkSet := list (string * CommonParameters);
  DecodingKey := string;
  algorithm_from_str name := assoc name algorithm_names;
  decode_header token :=
    kid <-? ok_or (token_part 0 token) "no header"; Ok (mkJwtHeader RS256 (Some kid));
  jwk_common := snd;
  jwk_find keys kid := pair kid <$> assoc kid keys;
  from_jwk jwk := Ok jwk.1;
  jwt_decode now token key validation :=
    kid <-? ok_or (token_part 0 token) "no header";
    iss <-? ok_or (token_part 1 token) "no payload";
    if String.eqb kid key && bool_decide (iss ∈ validation_issuer validation)
    then Ok (Object [("iss", JString iss); ("sub", JString kid)])
    else Err "InvalidSignature";
|}.

Definition concrete_auth_json : @AuthJson concrete_numbers := {|
  grants_from_str s :=
    if String.eqb s "[]" then Ok [] else Ok [mkTokenGrant s ["*"] ["team/*"]];
  providers_from_str s := if String.eqb s "[]" then Ok [] else Err "expected a list";
  patterns_from_str s := Ok [s];
  base64_decode s := Ok (as_bytes s);
|}.

Definition concrete_json_text : @JsonText concrete_numbers := {|
  value_from_slice bs := Ok (Object [("iss", JString (String.string_of_list_byte bs))]);
  value_to_vec v := Err "not used";
|}.

#[local] Existing Instances concrete_numbers concrete_jwt concrete_auth_json concrete_json_text.

Definition sample_config : OidcProviderConfig :=
  mkOidcProviderConfig "https://ci" ["cache"] None (Some "https://ci/jwks") ["RS256"; "HS256"]
    300 60 [mkOidcRule {["sub" := One (ScalarString "k1")]} ["*"] ["team/*"]].

Definition signing_key : CommonParameters := mkCommonParameters (Some "RS256") (Some Signature) None.

Definition sample_provider : OidcProvider :=
  mkOidcProvider sample_config [RS256] "https://ci/jwks"
    (mkCachedKeys [("k1", signing_key)] 0 None) (from_secs MIN_JWKS_REFRESH_SECONDS).

(** A network that answers with a rotated key set, and one that is down. *)
Definition rotated : Network :=
  mkNetwork (fun _ => Err "404") (fun _ => Ok [("k1", signing_key); ("k2", signing_key)]).
Definition down : Network := mkNetwork (fun _ => Err "down") (fun _ => Err "down").

Definition at_second (s : N) (net : Network) : Moment :=
  mkMoment (from_secs s) (from_secs s) (from_secs s) (from_secs s + 5) s net.

Lemma configured_algorithms_spec_witness :
  configured_algorithms ["RS256"; "HS256"] ["RS256"; "ES256"] = Ok [RS256] /\
  OtherAlgorithm "HS256" ∉ [RS256].
Proof.
  assert (configured_algorithms ["RS256"; "HS256"] ["RS256"; "ES256"] = Ok [RS256]) as Hok
    by (vm_compute; reflexivity).
  split; [exact Hok|]. intros Hin.
  destruct (configured_algorithms_spec _ _ _ Hok) as [_ Hspec].
  apply Hspec in Hin as [Hin _]. revert Hin. unfold DEFAULT_ALGORITHMS.
  rewrite !elem_of_cons, elem_of_nil. intuition discriminate.
Defined.

(** A key the cache does not hold is fetched and then verifies the token. *)
Lemma verify_sound_witness :
  (verify (at_second 7 rotated) "k2.https://ci.s" sample_provider).2 =
    Ok (Object [("iss", JString "https://ci"); ("sub", JString "k2")]) /\
  exists jwk, jwk_find [("k1", signing_key); ("k2", signing_key)] "k2" = Some jwk.
Proof.
  assert ((verify (at_second 7 rotated) "k2.https://ci.s" sample_provider).2 =
    Ok (Object [("iss", JString "https://ci"); ("sub", JString "k2")])) as Hok
    by (vm_compute; reflexivity).
  split; [exact Hok|].
  destruct (verify_sound _ _ _ _ Hok) as (h & kid & jwk & key & Hh & Hkid & _ & Hf & _).
  vm_compute in Hh. injection Hh as <-. vm_compute in Hkid. injection Hkid as <-.
  exists jwk. exact Hf.
Defined.

(** A year later the provider is unreachable, and the known key still works. *)
Lemma verify_when_fetch_fails_witness :
  (verify (at_second 31536000 down) "k1.https://ci.s" sample_provider).2 =
    Ok (Object [("iss", JString "https://ci"); ("sub", JString "k1")]).
Proof.
  destruct (verify_when_fetch_fails (at_second 31536000 down) "k1.https://ci.s" sample_provider
    (mkJwtHeader RS256 (Some "k1")) "k1" eq_refl eq_refl eq_refl) as (_ & _ & Hknown & _).
  rewrite (Hknown eq_refl). vm_compute. reflexivity.
Defined.

Lemma refresh_rate_limited_witness :
  (N.of_nat (length [from_secs 40]) <= from_secs 40 / from_secs 30 + 1)%N.
Proof.
  refine (proj2 (refresh_rate_limited (mkCacheState sample_provider None 0 [])
    (mkCacheState (mark_attempt (from_secs 40) sample_provider) (Some Fetching) (from_secs 40)
       [from_secs 40]) _ _ _)).
  - repeat split.
  - reflexivity.
  - eapply rtc_l; [apply (Tick _ _ 0 [] (from_secs 40))|].
    eapply rtc_l; [apply (Acquire _ _ _ "k2")|].
    eapply rtc_l; [apply Decide; vm_compute; reflexivity|].
    eapply rtc_once, Mark.
Defined.

Lemma refresh_keys_runs_witness :
  exists c', rtc cache_step (mkCacheState sample_provider None 0 [])
    (mkCacheState (refresh_keys (at_second 7 rotated) "k2" sample_provider).1 None c'
       [from_secs 7]).
Proof.
  assert (0 <= from_secs 7)%N as H0 by (vm_compute; discriminate).
  assert (from_secs 7 <= from_secs 7)%N as H1 by (vm_compute; discriminate).
  assert (from_secs 7 <= from_secs 7 + 5)%N as H2 by (vm_compute; discriminate).
  exact (refresh_keys_runs (at_second 7 rotated) "k2" sample_provider 0 [] H0 H1 H2).
Defined.

Definition sample_authorizer : Authorizer :=
  mkAuthorizer [mkTokenGrant "secret" ["*"] ["team/*"]] [sample_provider] true ["public"].

Definition write_headers (tok : string) : HeaderMap :=
  {["mbx-cache-protocol" := "1"; "mbx-cache-namespace" := "team/main";
    "authorization" := "Bearer " ++ tok]}.

Lemma write_needs_identity_witness :
  (authorize (at_second 7 down) (write_headers "k1.https://ci.s") Write sample_authorizer).2 =
    Ok "team/main" /\
  exists tok pattern, bearer (write_headers "k1.https://ci.s") = Some tok /\
    covers pattern "team/main".
Proof.
  assert ((authorize (at_second 7 down) (write_headers "k1.https://ci.s") Write
    sample_authorizer).2 = Ok "team/main") as Hok by (vm_compute; reflexivity).
  split; [exact Hok|].
  destruct (write_needs_identity (at_second 7 down) (write_headers "k1.https://ci.s")
    sample_authorizer "team/main") as (tok & pattern & Hb & Hc & _); [|exact Hok|].
  - right. left. discriminate.
  - exists tok, pattern. split; [exact Hb|exact Hc].
Defined.

Lemma authorizer_new_ok_witness :
  exists a, authorizer_new (Ok tt) (fun _ _ => down) (fun _ => 0%N) (Some "secret") None false None
    = Ok a /\ oidc a = [] /\ anonymous_read_namespaces a = [].
Proof.
  eexists. assert (authorizer_new (Ok tt) (fun _ _ => down) (fun _ => 0%N) (Some "secret") None
    false None = Ok (mkAuthorizer [mkTokenGrant "secret" ["*"] ["team/*"]] [] false [])) as Hok
    by reflexivity.
  split; [exact Hok|].
  destruct (authorizer_new_ok _ _ _ _ _ _ _ _ Hok) as (_ & _ & _ & _ & Ho & Ha).
  split; [exact (Ho eq_refl)|exact (Ha eq_refl)].
Defined.
