(* ===== verification/Records.v ===== *)
(** * Protocol records, their encodings, and the two store interfaces
    (src/metadata/mod.rs, src/storage/mod.rs)

    [ActionResult], [Directory] and the manifest are records of the protocol
    crate, as src/ builds and reads them. [MetadataStore] and [BlobStore] are
    the traits of src/: their operations as state transformers, and beside each
    a class of laws that says what the request handlers may rely on. *)
From S2P Require Import Prelude Str Protocol Api Json.

Local Open Scope mbx_scope.

(** ** Records of the protocol crate *)

Record ActionResult := mkActionResult {
  result_action : Digest;
  result_metadata : option Digest;
  output_root : option Digest;
  result_version : N;
}.

#[export] Instance ActionResult_eq_dec : EqDecision ActionResult.
Proof. solve_decision. Defined.

Record DirectoryNode := mkDirectoryNode {
  directory_name : string; directory_mode : N; directory_digest : Digest }.
Record FileNode := mkFileNode {
  file_name : string; file_mode : N; file_executable : bool; file_digest : Digest }.
Record SymlinkNode := mkSymlinkNode {
  symlink_name : string; symlink_mode : N; symlink_target : string }.

Record Directory := mkDirectory {
  directory_version : N;
  directories : list DirectoryNode;
  files : list FileNode;
  symlinks : list SymlinkNode;
}.

(** The manifest record, opaque but for the calls src/ makes on it, and the
    encodings serde derives. *)
Class Records `{JsonNumber} := {
  TaskActionManifest : Type;
  manifest_validate : TaskActionManifest -> bool;
  selector_digest : TaskActionManifest -> Digest;
  (** [canonical_json(&manifest)] *)
  canonical_json : TaskActionManifest -> result StoreError bytes;
  (** [serde_json::{to_vec, from_slice, to_value, from_value}] *)
  result_to_vec : ActionResult -> result StoreError bytes;
  result_from_slice : bytes -> result StoreError ActionResult;
  result_to_value : ActionResult -> result StoreError Value;
  result_from_value : Value -> result StoreError ActionResult;
  manifest_to_value : TaskActionManifest -> result StoreError Value;
  manifest_from_value : Value -> result StoreError TaskActionManifest;
}.

(** What is encoded is decoded as it was. *)
Class RecordsLaws `{Records} : Prop := {
  result_slice_roundtrip r bs : result_to_vec r = Ok bs -> result_from_slice bs = Ok r;
  result_value_roundtrip r v : result_to_value r = Ok v -> result_from_value v = Ok r;
  manifest_value_roundtrip m v : manifest_to_value m = Ok v -> manifest_from_value v = Ok m;
}.

(** ** Outcomes *)

Inductive PutOutcome := PutCreated | PutAlreadyExists.
Inductive CommitOutcome := CommitCreated | CommitAlreadyExists | CommitConflict.
Inductive ManifestCommitOutcome := ManifestCreated | ManifestUpdated | PreconditionFailed.

Record SweepOutcome := mkSweepOutcome {
  swept_blobs : N; swept_action_results : N; swept_manifests : N }.

Record PoolStats := mkPoolStats { pool_max : N; pool_open : N; pool_idle : N }.

#[export] Instance PutOutcome_eq_dec : EqDecision PutOutcome.
Proof. solve_decision. Defined.

(** ** The metadata store *)

Section Interfaces.
Context `{Records}.

Record ManifestRecord := mkManifestRecord {
  record_etag : string; record_manifest : TaskActionManifest }.

Class MetadataStore (S : Type) := {
  visible_blobs : string -> list Digest -> M S StoreError (list Digest);
  register_blob : string -> Digest -> PutOutcome -> M S StoreError unit;
  forget_blob : string -> Digest -> M S StoreError unit;
  touch_blobs : string -> list Digest -> M S StoreError unit;
  meta_get : string -> Digest -> M S StoreError (option ActionResult);
  meta_get_batch : string -> list Digest -> M S StoreError (list ActionResult);
  commit : string -> Digest -> ActionResult -> M S StoreError CommitOutcome;
  get_manifest : string -> Digest -> M S StoreError (option ManifestRecord);
  commit_manifest : string -> Digest -> option string -> string -> TaskActionManifest ->
    M S StoreError ManifestCommitOutcome;
  sweep : N -> M S StoreError SweepOutcome;
  pool_stats : S -> option PoolStats;
}.

(** The provided methods of the trait. *)
Definition blob_visible {S} `{!MetadataStore S} (namespace : string) (digest : Digest)
  : M S StoreError bool :=
  found <~ visible_blobs namespace [digest];
  m_ret (negb (match found with [] => true | _ => false end)).

Definition default_touch_blobs {S} (namespace : string) (digests : list Digest)
  : M S StoreError unit := m_ret tt.

Fixpoint default_get_batch {S} (get : Digest -> M S StoreError (option ActionResult))
    (actions : list Digest) (results : list ActionResult) : M S StoreError (list ActionResult) :=
  match actions with
  | [] => m_ret results
  | action :: actions =>
      found <~ get action;
      default_get_batch get actions
        (match found with Some result => results ++ [result] | None => results end)
  end.

Definition default_sweep {S} (older_than_days : N) : M S StoreError SweepOutcome :=
  m_ret (mkSweepOutcome 0 0 0).

Definition default_pool_stats {S} (s : S) : option PoolStats := None.

(** *** What a store holds

    The abstract contents of a metadata store: which blobs a namespace sees,
    the action results and the manifests. Two stores that answer every lookup
    alike hold the same. *)

Record MetaView := mkMetaView {
  view_blob : string -> Digest -> bool;
  view_result : string -> Digest -> option ActionResult;
  view_manifest : string -> Digest -> option ManifestRecord;
}.

#[export] Instance MetaView_equiv : Equiv MetaView := fun v1 v2 =>
  (forall ns d, view_blob v1 ns d = view_blob v2 ns d) /\
  (forall ns d, view_result v1 ns d = view_result v2 ns d) /\
  (forall ns d, view_manifest v1 ns d = view_manifest v2 ns d).

#[export] Instance MetaView_equivalence : Equivalence (≡@{MetaView}).
Proof.
  split.
  - by intros v.
  - intros v1 v2 (Hb & Hr & Hm). split; [|split]; congruence.
  - intros v1 v2 v3 (Hb & Hr & Hm) (Hb' & Hr' & Hm'). split; [|split]; intros; congruence.
Qed.

(** [f], but [b] at one key. *)
Definition upd {B} (ns : string) (d : Digest) (b : B) (f : string -> Digest -> B)
  (ns' : string) (d' : Digest) : B :=
  if decide ((ns', d') = (ns, d)) then b else f ns' d'.

Definition view_set_blob (ns : string) (d : Digest) (b : bool) (v : MetaView) : MetaView :=
  mkMetaView (upd ns d b (view_blob v)) (view_result v) (view_manifest v).
Definition view_set_result (ns : string) (d : Digest) (r : ActionResult) (v : MetaView)
  : MetaView :=
  mkMetaView (view_blob v) (upd ns d (Some r) (view_result v)) (view_manifest v).
Definition view_set_manifest (ns : string) (d : Digest) (m : ManifestRecord) (v : MetaView)
  : MetaView :=
  mkMetaView (view_blob v) (view_result v) (upd ns d (Some m) (view_manifest v)).

#[export] Instance view_set_blob_proper ns d b : Proper ((≡) ==> (≡)) (view_set_blob ns d b).
Proof. intros v1 v2 (Hb & Hr & Hm). split; [|done]. intros ns' d'. cbn. unfold upd. by rewrite Hb. Qed.
#[export] Instance view_set_result_proper ns d r : Proper ((≡) ==> (≡)) (view_set_result ns d r).
Proof.
  intros v1 v2 (Hb & Hr & Hm). split; [done|]. split; [|done]. intros ns' d'. cbn. unfold upd.
  by rewrite Hr.
Qed.
#[export] Instance view_set_manifest_proper ns d m : Proper ((≡) ==> (≡)) (view_set_manifest ns d m).
Proof.
  intros v1 v2 (Hb & Hr & Hm). split; [done|]. split; [done|]. intros ns' d'. cbn. unfold upd.
  by rewrite Hm.
Qed.

(** A sweep removes, and removes only. *)
Definition view_shrinks (v' v : MetaView) : Prop :=
  (forall ns d, view_blob v' ns d = true -> view_blob v ns d = true) /\
  (forall ns d r, view_result v' ns d = Some r -> view_result v ns d = Some r) /\
  (forall ns d m, view_manifest v' ns d = Some m -> view_manifest v ns d = Some m).

(** What an operation may leave behind: its effect if it succeeds; if it fails,
    all of it or nothing, since an answer can be lost after the fact. *)
Definition effect {A} (v v' : MetaView) (r : result StoreError A) (after : A -> MetaView -> MetaView)
  : Prop :=
  match r with
  | Ok a => v' ≡ after a v
  | Err _ => v' ≡ v \/ exists a, v' ≡ after a v
  end.

(** *** The contract *)

Class MetadataLaws (S : Type) `{!MetadataStore S} := {
  view : S -> MetaView;
  meta_wf : S -> Prop;

  visible_blobs_law ns ds s s' r :
    meta_wf s -> visible_blobs ns ds s = (s', r) ->
    meta_wf s' /\ view s' ≡ view s /\
    forall vs, r = Ok vs -> vs = List.filter (view_blob (view s) ns) ds;

  register_blob_law ns d stored s s' r :
    meta_wf s -> digest_u64 d -> register_blob ns d stored s = (s', r) ->
    meta_wf s' /\ effect (view s) (view s') r (fun _ => view_set_blob ns d true);

  forget_blob_law ns d s s' r :
    meta_wf s -> digest_u64 d -> forget_blob ns d s = (s', r) ->
    meta_wf s' /\ effect (view s) (view s') r (fun _ => view_set_blob ns d false);

  touch_blobs_law ns ds s s' r :
    meta_wf s -> touch_blobs ns ds s = (s', r) -> meta_wf s' /\ view s' ≡ view s;

  meta_get_law ns d s s' r :
    meta_wf s -> digest_u64 d -> meta_get ns d s = (s', r) ->
    meta_wf s' /\ view s' ≡ view s /\ forall o, r = Ok o -> o = view_result (view s) ns d;

  meta_get_batch_law ns ds s s' r :
    meta_wf s -> Forall digest_u64 ds -> meta_get_batch ns ds s = (s', r) ->
    meta_wf s' /\ view s' ≡ view s /\
    forall l, r = Ok l -> l = omap (view_result (view s) ns) ds;

  commit_law ns d result s s' r :
    meta_wf s -> digest_u64 d -> commit ns d result s = (s', r) ->
    meta_wf s' /\
    match r with
    | Ok CommitCreated =>
        view_result (view s) ns d = None /\ view s' ≡ view_set_result ns d result (view s)
    | Ok CommitAlreadyExists =>
        view_result (view s) ns d = Some result /\ view s' ≡ view s
    | Ok CommitConflict =>
        (exists other, view_result (view s) ns d = Some other /\ other <> result) /\
        view s' ≡ view s
    | Err _ =>
        view s' ≡ view s \/
        (view_result (view s) ns d = None /\ view s' ≡ view_set_result ns d result (view s))
    end;

  get_manifest_law ns d s s' r :
    meta_wf s -> digest_u64 d -> get_manifest ns d s = (s', r) ->
    meta_wf s' /\ view s' ≡ view s /\ forall o, r = Ok o -> o = view_manifest (view s) ns d;

  commit_manifest_law ns d expected etag m s s' r :
    meta_wf s -> digest_u64 d -> commit_manifest ns d expected etag m s = (s', r) ->
    meta_wf s' /\
    let current := record_etag <$> view_manifest (view s) ns d in
    let written := view s' ≡ view_set_manifest ns d (mkManifestRecord etag m) (view s) in
    match r with
    | Ok ManifestCreated => expected = None /\ current = None /\ written
    | Ok ManifestUpdated => expected = current /\ current <> None /\ written
    | Ok PreconditionFailed => expected <> current /\ view s' ≡ view s
    | Err _ => view s' ≡ view s \/ (expected = current /\ written)
    end;

  sweep_law days s s' r :
    meta_wf s -> sweep days s = (s', r) -> meta_wf s' /\ view_shrinks (view s') (view s);
}.

(** ** The blob store

    A blob is its size and a stream of chunks that may break off. The source
    file of a put is its contents. *)

Record Blob := mkBlob { blob_size : N; blob_stream : list (result StoreError bytes) }.

Class BlobStore (S : Type) := {
  blob_get : Digest -> M S StoreError (option Blob);
  blob_put : Digest -> bytes -> M S StoreError PutOutcome;
}.

(** What a stream yields before it ends or breaks off, and whether it ended. *)
Fixpoint collect_stream (stream : list (result StoreError bytes)) : bytes * result StoreError unit :=
  match stream with
  | [] => ([], Ok tt)
  | Ok chunk :: stream => let '(bs, e) := collect_stream stream in ((chunk ++ bs)%list, e)
  | Err e :: _ => ([], Err e)
  end.

(** A stream of a content: all of it, or a part of it and an error. *)
Definition streams (stream : list (result StoreError bytes)) (content : bytes) : Prop :=
  match collect_stream stream with
  | (bs, Ok _) => bs = content
  | (bs, Err _) => bs `prefix_of` content
  end.

Class BlobLaws `{Protocol} (S : Type) `{!BlobStore S} := {
  objects : S -> Digest -> option bytes;

  blob_get_law d s s' r :
    blob_get d s = (s', r) ->
    (forall d', objects s' d' = objects s d') /\
    match r with
    | Ok found => is_Some found <-> is_Some (objects s d)
    | Err _ => True
    end;

  blob_put_law d content s s' r :
    digest_validate d = Ok tt -> (digest_size d = 0%N -> content = []) ->
    blob_put d content s = (s', r) ->
    (forall d', d' <> d -> digest_validate d' = Ok tt -> objects s' d' = objects s d') /\
    match r with
    | Ok PutCreated => objects s d = None /\ objects s' d = Some content
    | Ok PutAlreadyExists => is_Some (objects s d) /\ objects s' d = objects s d
    | Err _ =>
        objects s' d = objects s d \/ (objects s d = None /\ objects s' d = Some content)
    end;
}.

(** What is read is what is stored. (Where an object may be there before its
    content is, as on Azure, it may not be.) *)
Class BlobReads `{Protocol} (S : Type) `{!BlobStore S} `{!BlobLaws S} : Prop := {
  blob_read_law d s s' blob :
    blob_get d s = (s', Ok (Some blob)) ->
    exists content, objects s d = Some content /\
      blob_size blob = N.of_nat (length content) /\ streams (blob_stream blob) content;
}.

Lemma blob_get_content `{Protocol} {S : Type} `{!BlobStore S} `{!BlobLaws S} `{!BlobReads S} d s s' r :
  blob_get d s = (s', r) ->
  (forall d', objects s' d' = objects s d') /\
  match r with
  | Ok None => objects s d = None
  | Ok (Some blob) =>
      exists content, objects s d = Some content /\
        blob_size blob = N.of_nat (length content) /\ streams (blob_stream blob) content
  | Err _ => True
  end.
Proof.
  intros Hg. pose proof Hg as [Ho Hr]%blob_get_law. split; [done|]. destruct r as [[blob|]|e]; [|..|done].
  - by eapply blob_read_law.
  - destruct (objects s d) as [c|]; [|done]. by destruct Hr as [_ [? [=]]].
Qed.
End Interfaces.

#[export] Hint Mode MetadataStore - - ! : typeclass_instances.
#[export] Hint Mode BlobStore ! : typeclass_instances.
