(* ===== verification/Metadata.v ===== *)
(** * The metadata store as an abstract machine

    The operations of the trait as data, what a store may answer to each and
    leave behind ([spec_step]), and sequences of them. Every store that keeps
    the laws of [Records.v] refines this machine; the guarantees clients see,
    such as immutable action results, are theorems about it. *)
From S2P Require Import Prelude Str Protocol Api Json Records.

Local Open Scope mbx_scope.

Section Metadata.
Context `{Records}.

Inductive MetaOp :=
  | OpVisible (ns : string) (ds : list Digest)
  | OpRegister (ns : string) (d : Digest) (stored : PutOutcome)
  | OpForget (ns : string) (d : Digest)
  | OpTouch (ns : string) (ds : list Digest)
  | OpGet (ns : string) (d : Digest)
  | OpGetBatch (ns : string) (ds : list Digest)
  | OpCommit (ns : string) (d : Digest) (r : ActionResult)
  | OpGetManifest (ns : string) (d : Digest)
  | OpCommitManifest (ns : string) (d : Digest) (expected : option string) (etag : string)
      (m : TaskActionManifest)
  | OpSweep (days : N).

Inductive MetaAnswer :=
  | AnsDigests (l : list Digest)
  | AnsDone
  | AnsResult (o : option ActionResult)
  | AnsResults (l : list ActionResult)
  | AnsCommit (o : CommitOutcome)
  | AnsManifest (o : option ManifestRecord)
  | AnsManifestCommit (o : ManifestCommitOutcome)
  | AnsSwept (o : SweepOutcome).

Definition answer {S A} (f : A -> MetaAnswer) (c : M S StoreError A) : M S StoreError MetaAnswer :=
  a <~ c; m_ret (f a).

Definition run_op {S} `{!MetadataStore S} (op : MetaOp) : M S StoreError MetaAnswer :=
  match op with
  | OpVisible ns ds => answer AnsDigests (visible_blobs ns ds)
  | OpRegister ns d stored => answer (fun _ => AnsDone) (register_blob ns d stored)
  | OpForget ns d => answer (fun _ => AnsDone) (forget_blob ns d)
  | OpTouch ns ds => answer (fun _ => AnsDone) (touch_blobs ns ds)
  | OpGet ns d => answer AnsResult (meta_get ns d)
  | OpGetBatch ns ds => answer AnsResults (meta_get_batch ns ds)
  | OpCommit ns d r => answer AnsCommit (commit ns d r)
  | OpGetManifest ns d => answer AnsManifest (get_manifest ns d)
  | OpCommitManifest ns d expected etag m =>
      answer AnsManifestCommit (commit_manifest ns d expected etag m)
  | OpSweep days => answer AnsSwept (sweep days)
  end.

(** The answers to a sequence of operations. *)
Fixpoint run_ops {S} `{!MetadataStore S} (ops : list MetaOp) (s : S)
  : S * list (result StoreError MetaAnswer) :=
  match ops with
  | [] => (s, [])
  | op :: ops =>
      let '(s, a) := run_op op s in
      let '(s, rest) := run_ops ops s in
      (s, a :: rest)
  end.

(** The sizes an operation names are [u64]s. *)
Definition op_u64 (op : MetaOp) : Prop :=
  match op with
  | OpRegister _ d _ | OpForget _ d | OpGet _ d | OpCommit _ d _ | OpGetManifest _ d
  | OpCommitManifest _ d _ _ _ => digest_u64 d
  | OpGetBatch _ ds => Forall digest_u64 ds
  | _ => True
  end.

(** ** The machine *)

(** What an operation may do to the contents when it succeeds with an answer. *)
Inductive succeeds (v : MetaView) : MetaOp -> MetaAnswer -> MetaView -> Prop :=
  | SVisible ns ds : succeeds v (OpVisible ns ds) (AnsDigests (List.filter (view_blob v ns) ds)) v
  | SRegister ns d st : succeeds v (OpRegister ns d st) AnsDone (view_set_blob ns d true v)
  | SForget ns d : succeeds v (OpForget ns d) AnsDone (view_set_blob ns d false v)
  | STouch ns ds : succeeds v (OpTouch ns ds) AnsDone v
  | SGet ns d : succeeds v (OpGet ns d) (AnsResult (view_result v ns d)) v
  | SGetBatch ns ds :
      succeeds v (OpGetBatch ns ds) (AnsResults (omap (view_result v ns) ds)) v
  | SCommitNew ns d r :
      view_result v ns d = None ->
      succeeds v (OpCommit ns d r) (AnsCommit CommitCreated) (view_set_result ns d r v)
  | SCommitSame ns d r :
      view_result v ns d = Some r ->
      succeeds v (OpCommit ns d r) (AnsCommit CommitAlreadyExists) v
  | SCommitOther ns d r r' :
      view_result v ns d = Some r' -> r' <> r ->
      succeeds v (OpCommit ns d r) (AnsCommit CommitConflict) v
  | SGetManifest ns d :
      succeeds v (OpGetManifest ns d) (AnsManifest (view_manifest v ns d)) v
  | SManifestCreated ns d etag m :
      view_manifest v ns d = None ->
      succeeds v (OpCommitManifest ns d None etag m) (AnsManifestCommit ManifestCreated)
        (view_set_manifest ns d (mkManifestRecord etag m) v)
  | SManifestUpdated ns d current etag m :
      view_manifest v ns d = Some current ->
      succeeds v (OpCommitManifest ns d (Some (record_etag current)) etag m)
        (AnsManifestCommit ManifestUpdated) (view_set_manifest ns d (mkManifestRecord etag m) v)
  | SManifestStale ns d expected etag m :
      expected <> record_etag <$> view_manifest v ns d ->
      succeeds v (OpCommitManifest ns d expected etag m) (AnsManifestCommit PreconditionFailed) v
  | SSweep days out v' : view_shrinks v' v -> succeeds v (OpSweep days) (AnsSwept out) v'.

(** A failing operation has done all of it or nothing. *)
Definition spec_step (v : MetaView) (op : MetaOp) (r : result StoreError MetaAnswer)
    (v' : MetaView) : Prop :=
  match r with
  | Ok a => exists v1, succeeds v op a v1 /\ v' ≡ v1
  | Err _ => v' ≡ v \/ exists a v1, succeeds v op a v1 /\ v' ≡ v1
  end.

Inductive spec_run : MetaView -> list MetaOp -> list (result StoreError MetaAnswer) -> MetaView
    -> Prop :=
  | RunNil v v' : v' ≡ v -> spec_run v [] [] v'
  | RunCons v op r v1 ops rs v' :
      spec_step v op r v1 -> spec_run v1 ops rs v' -> spec_run v (op :: ops) (r :: rs) v'.

(** ** Every lawful store refines the machine *)

Lemma answer_inv {S A} (f : A -> MetaAnswer) (c : M S StoreError A) s s' r :
  answer f c s = (s', r) -> exists q, c s = (s', q) /\
    r = match q with Ok a => Ok (f a) | Err e => Err e end.
Proof.
  unfold answer, m_bind, m_ret. destruct (c s) as [s1 [a|e]]; intros [= <- <-]; eauto.
Qed.

Lemma run_op_refines {S} `{!MetadataStore S} `{!MetadataLaws S} op s s' r :
  meta_wf s -> op_u64 op -> run_op op s = (s', r) ->
  meta_wf s' /\ spec_step (view s) op r (view s').
Proof.
  intros Hwf Hu Hop. destruct op; cbn [run_op op_u64] in *;
    apply answer_inv in Hop as (q & Hop & ->).
  - apply visible_blobs_law in Hop as (Hwf' & Hv & Ha); [|done]. split; [done|].
    destruct q as [l|e]; [|by left]. rewrite (Ha l eq_refl). eexists. split; [constructor|done].
  - apply register_blob_law in Hop as (Hwf' & He); [|done..]. split; [done|].
    destruct q as [[]|e]; cbn in *.
    + eexists. split; [constructor|done].
    + destruct He as [He|[_ He]]; [by left|right]. eexists AnsDone, _. split; [constructor|done].
  - apply forget_blob_law in Hop as (Hwf' & He); [|done..]. split; [done|].
    destruct q as [[]|e]; cbn in *.
    + eexists. split; [constructor|done].
    + destruct He as [He|[_ He]]; [by left|right]. eexists AnsDone, _. split; [constructor|done].
  - apply touch_blobs_law in Hop as (Hwf' & Hv); [|done]. split; [done|].
    destruct q as [[]|e]; [|by left]. eexists. split; [constructor|done].
  - apply meta_get_law in Hop as (Hwf' & Hv & Ha); [|done..]. split; [done|].
    destruct q as [o|e]; [|by left]. rewrite (Ha o eq_refl). eexists. split; [constructor|done].
  - apply meta_get_batch_law in Hop as (Hwf' & Hv & Ha); [|done..]. split; [done|].
    destruct q as [l|e]; [|by left]. rewrite (Ha l eq_refl). eexists. split; [constructor|done].
  - apply commit_law in Hop as (Hwf' & Hc); [|done..]. split; [done|].
    destruct q as [[]|e]; cbn in *.
    + destruct Hc as [Hn Hv]. eexists. split; [by constructor|done].
    + destruct Hc as [Hn Hv]. eexists. split; [by constructor|done].
    + destruct Hc as [(r' & Hn & Hne) Hv]. eexists. split; [by econstructor|done].
    + destruct Hc as [Hv|[Hn Hv]]; [by left|right]. eexists _, _. split; [by constructor|done].
  - apply get_manifest_law in Hop as (Hwf' & Hv & Ha); [|done..]. split; [done|].
    destruct q as [o|e]; [|by left]. rewrite (Ha o eq_refl). eexists. split; [constructor|done].
  - apply commit_manifest_law in Hop as (Hwf' & Hc); [|done..]. split; [done|]. cbn zeta in Hc.
    assert (forall w, expected = record_etag <$> view_manifest (view s) ns d ->
      w ≡ view_set_manifest ns d (mkManifestRecord etag m) (view s) ->
      exists v1, succeeds (view s) (OpCommitManifest ns d expected etag m)
        (AnsManifestCommit (if expected then ManifestUpdated else ManifestCreated)) v1 /\ w ≡ v1)
      as Hw.
    { intros w -> Hwr. destruct (view_manifest (view s) ns d) as [current|] eqn:E; cbn;
        eexists; (split; [by constructor|done]). }
    destruct q as [[]|e]; cbn in *.
    + destruct Hc as (-> & Hn & Hv). exact (Hw (view s') (eq_sym Hn) Hv).
    + destruct Hc as (-> & Hn & Hv). specialize (Hw (view s') eq_refl Hv).
      by destruct (record_etag <$> _).
    + destruct Hc as (Hne & Hv). eexists. split; [by constructor|done].
    + destruct Hc as [Hv|[He Hv]]; [by left|right]. destruct (Hw _ He Hv) as (v1 & Hs & Hv1). eauto.
  - apply sweep_law in Hop as (Hwf' & Hs); [|done]. split; [done|].
    destruct q as [o|e].
    + exists (view s'). split; [by constructor|done].
    + right. exists (AnsSwept (mkSweepOutcome 0 0 0)), (view s'). split; [by constructor|done].
Qed.

Lemma run_ops_refines {S} `{!MetadataStore S} `{!MetadataLaws S} ops s s' rs :
  meta_wf s -> Forall op_u64 ops -> run_ops ops s = (s', rs) ->
  meta_wf s' /\ spec_run (view s) ops rs (view s').
Proof.
  intros Hwf Hu. revert s rs Hwf; induction Hu as [|op ops Hop Hu IH]; intros s rs Hwf; cbn.
  { intros [= <- <-]. split; [done|]. by constructor. }
  destruct (run_op op s) as [s1 a] eqn:E. destruct (run_ops ops s1) as [s2 rest] eqn:E2.
  intros [= <- <-]. apply run_op_refines in E as [Hwf1 Hs]; [|done..].
  apply IH in E2 as [Hwf2 Hr]; [|done]. split; [done|]. by econstructor.
Qed.

End Metadata.
