(* ===== verification/MetadataProofs.v ===== *)
(** * What clients of a metadata store may rely on

    Theorems about any store that keeps the laws, over any sequence of its
    operations: immutable action results, isolated namespaces, and manifests as
    compare-and-swap registers, which [Dispatch] states of the two stores. *)
From S2P Require Import Prelude Str Protocol Api Json Records Metadata.

Local Open Scope mbx_scope.

Section Guarantees.
Context `{Records}.

Definition is_sweep (op : MetaOp) : bool := match op with OpSweep _ => true | _ => false end.

Definition op_namespace (op : MetaOp) : option string :=
  match op with
  | OpVisible ns _ | OpRegister ns _ _ | OpForget ns _ | OpTouch ns _ | OpGet ns _
  | OpGetBatch ns _ | OpCommit ns _ _ | OpGetManifest ns _ | OpCommitManifest ns _ _ _ _ => Some ns
  | OpSweep _ => None
  end.

(** ** One step *)

Lemma upd_same {B} ns d (b : B) f : upd ns d b f ns d = b.
Proof. unfold upd. by rewrite decide_True. Qed.

Lemma upd_other {B} ns d (b : B) f ns' d' : (ns', d') <> (ns, d) -> upd ns d b f ns' d' = f ns' d'.
Proof. intros Hne. unfold upd. by rewrite decide_False. Qed.

(** A fact about one key of the contents that every success keeps is kept by
    every step, failures included. *)
Lemma spec_step_keeps (P : MetaView -> Prop) v op r v' :
  (forall w1 w2, w1 ≡ w2 -> P w1 -> P w2) ->
  (forall a v1, succeeds v op a v1 -> P v1) ->
  P v -> spec_step v op r v' -> P v'.
Proof.
  intros Hp Hs Hv. destruct r as [a|e]; cbn.
  - intros (v1 & Hsu & Heq). by eapply Hp; [symmetry|eapply Hs].
  - intros [Heq|(a & v1 & Hsu & Heq)]; (eapply Hp; [by symmetry|]); [done|by eapply Hs].
Qed.

Lemma succeeds_result_kept v op a v1 ns d r :
  is_sweep op = false -> view_result v ns d = Some r -> succeeds v op a v1 ->
  view_result v1 ns d = Some r.
Proof.
  intros Hns Hr Hs. destruct Hs; try done. cbn. unfold upd. case_decide as Heq; [|done].
  injection Heq as -> ->. congruence.
Qed.

Lemma spec_step_result_kept v op q v' ns d r :
  is_sweep op = false -> view_result v ns d = Some r -> spec_step v op q v' ->
  view_result v' ns d = Some r.
Proof.
  intros Hns Hr. apply (spec_step_keeps (fun w => view_result w ns d = Some r)); [|intros|done].
  - intros w1 w2 (_ & Hw & _) Hw1. by rewrite <-Hw.
  - by eapply succeeds_result_kept.
Qed.

(** ** Immutable results *)

Lemma spec_run_result_kept v ops rs v' ns d r :
  spec_run v ops rs v' -> Forall (fun op => is_sweep op = false) ops ->
  view_result v ns d = Some r ->
  view_result v' ns d = Some r /\
  (forall i a, ops !! i = Some (OpGet ns d) -> rs !! i = Some (Ok a) -> a = AnsResult (Some r)) /\
  (forall i r' o, ops !! i = Some (OpCommit ns d r') -> rs !! i = Some (Ok (AnsCommit o)) ->
     o = if decide (r' = r) then CommitAlreadyExists else CommitConflict).
Proof.
  intros Hrun. induction Hrun as [v v' Heq|v op q v1 ops rs v' Hstep Hrun IH]; intros Hns Hr.
  - split; [by rewrite (proj1 (proj2 Heq))|done].
  - apply Forall_cons_iff in Hns as [Hop Hns].
    pose proof (spec_step_result_kept _ _ _ _ _ _ _ Hop Hr Hstep) as Hr1.
    destruct (IH Hns Hr1) as (Hfin & Hget & Hcommit). split; [done|]. split.
    + intros [|i] a Hi Ha; cbn in Hi, Ha; [|by eapply Hget].
      injection Hi as ->. injection Ha as ->. destruct Hstep as (w & Hs & _). inv Hs.
      by rewrite Hr.
    + intros [|i] r' o Hi Ha; cbn in Hi, Ha; [|by eapply Hcommit].
      injection Hi as ->. injection Ha as ->. destruct Hstep as (w & Hs & _).
      inv Hs; try congruence; case_decide; congruence.
Qed.

(** An action result, once held, is what the namespace answers until a
    sweep: whatever else happens, failed operations included, every read of
    it returns it and every later commit of another one is a conflict. *)
Theorem results_immutable {S} `{!MetadataStore S} `{!MetadataLaws S} (s s' : S) ops rs ns d r
    (Hwf : meta_wf s) (Hu64 : Forall op_u64 ops)
    (Hsweep : Forall (fun op => is_sweep op = false) ops)
    (Hrun : run_ops ops s = (s', rs))
    (Hheld : view_result (view s) ns d = Some r) :
  view_result (view s') ns d = Some r /\
  (forall i a, ops !! i = Some (OpGet ns d) -> rs !! i = Some (Ok a) -> a = AnsResult (Some r)) /\
  (forall i r' o, ops !! i = Some (OpCommit ns d r') -> rs !! i = Some (Ok (AnsCommit o)) ->
     o = if decide (r' = r) then CommitAlreadyExists else CommitConflict).
Proof.
  apply run_ops_refines in Hrun as [_ Hrun]; [|done..]. by eapply spec_run_result_kept.
Qed.

(** ** Isolated namespaces *)

(** The part of the contents one namespace sees. *)
Definition same_namespace (ns : string) (v v' : MetaView) : Prop :=
  (forall d, view_blob v ns d = view_blob v' ns d) /\
  (forall d, view_result v ns d = view_result v' ns d) /\
  (forall d, view_manifest v ns d = view_manifest v' ns d).

Lemma spec_run_isolated v ops rs v' ns :
  spec_run v ops rs v' ->
  Forall (fun op => is_sweep op = false /\ op_namespace op <> Some ns) ops ->
  same_namespace ns v v'.
Proof.
  intros Hrun. induction Hrun as [v v' (Hb & Hr & Hm)|v op q v1 ops rs v' Hstep Hrun IH]; intros Hns.
  { by repeat split. }
  apply Forall_cons_iff in Hns as [[Hop Hne] Hns]. destruct (IH Hns) as (Hb & Hr & Hm).
  assert (same_namespace ns v v1) as (Hb1 & Hr1 & Hm1).
  { revert Hstep. apply (spec_step_keeps (same_namespace ns v)); [| |done].
    - intros w1 w2 (Hb1 & Hr1 & Hm1) (Hb2 & Hr2 & Hm2). repeat split; congruence.
    - intros a w Hs. destruct Hs; try done; cbn in Hne;
        split_and!; intros d'; cbn;
        first [done|rewrite upd_other; [done|intros [= -> ->]; by destruct Hne]]. }
  repeat split; congruence.
Qed.

(** What other namespaces do never shows in a namespace: its blobs, results
    and manifests are the same after any operations on others. *)
Theorem namespaces_isolated {S} `{!MetadataStore S} `{!MetadataLaws S} (s s' : S) ops rs ns
    (Hwf : meta_wf s) (Hu64 : Forall op_u64 ops)
    (Hothers : Forall (fun op => is_sweep op = false /\ op_namespace op <> Some ns) ops)
    (Hrun : run_ops ops s = (s', rs)) :
  same_namespace ns (view s) (view s').
Proof.
  apply run_ops_refines in Hrun as [_ Hrun]; [|done..]. by eapply spec_run_isolated.
Qed.

(** ** Manifests without lost updates *)

Definition manifest_tag (held : option ManifestRecord) : option string := record_etag <$> held.

(** A manifest as a register that is written by compare-and-swap on its entity
    tag: what a run of operations, with their answers, makes of it. An operation
    whose answer is lost may have taken effect; a sweep may take the manifest. *)
Inductive register_run (ns : string) (d : Digest) : option ManifestRecord -> list MetaOp ->
    list (result StoreError MetaAnswer) -> option ManifestRecord -> Prop :=
  | RegisterEnd held : register_run ns d held [] [] held
  | RegisterWritten held etag m o ops rs held' :
      o = match held with None => ManifestCreated | Some _ => ManifestUpdated end ->
      register_run ns d (Some (mkManifestRecord etag m)) ops rs held' ->
      register_run ns d held (OpCommitManifest ns d (manifest_tag held) etag m :: ops)
        (Ok (AnsManifestCommit o) :: rs) held'
  | RegisterRefused held expected etag m ops rs held' :
      expected <> manifest_tag held -> register_run ns d held ops rs held' ->
      register_run ns d held (OpCommitManifest ns d expected etag m :: ops)
        (Ok (AnsManifestCommit PreconditionFailed) :: rs) held'
  | RegisterWriteLost held etag m e ops rs held' :
      register_run ns d (Some (mkManifestRecord etag m)) ops rs held' ->
      register_run ns d held (OpCommitManifest ns d (manifest_tag held) etag m :: ops) (Err e :: rs) held'
  | RegisterFailed held expected etag m e ops rs held' :
      register_run ns d held ops rs held' ->
      register_run ns d held (OpCommitManifest ns d expected etag m :: ops) (Err e :: rs) held'
  | RegisterRead held r ops rs held' :
      (is_ok r = true -> r = Ok (AnsManifest held)) -> register_run ns d held ops rs held' ->
      register_run ns d held (OpGetManifest ns d :: ops) (r :: rs) held'
  | RegisterSwept held left days r ops rs held' :
      left = held \/ left = None -> register_run ns d left ops rs held' ->
      register_run ns d held (OpSweep days :: ops) (r :: rs) held'
  | RegisterElsewhere held op r ops rs held' :
      (forall expected etag m, op <> OpCommitManifest ns d expected etag m) -> op <> OpGetManifest ns d ->
      is_sweep op = false -> register_run ns d held ops rs held' ->
      register_run ns d held (op :: ops) (r :: rs) held'.

(** Operations on anything else leave it. *)
Lemma spec_step_manifest_kept v op r v1 ns d :
  spec_step v op r v1 -> (forall expected etag m, op <> OpCommitManifest ns d expected etag m) ->
  is_sweep op = false -> view_manifest v1 ns d = view_manifest v ns d.
Proof.
  intros Hstep Hop Hsweep. revert Hstep. apply (spec_step_keeps (fun w => view_manifest w ns d = view_manifest v ns d)).
  - intros w1 w2 (_ & _ & Hm). by rewrite Hm.
  - intros a w Hs. destruct Hs as [| | | | | | | | | |ns' d'|ns' d'| |]; try done; cbn;
      (rewrite upd_other; [done|]; intros [= <- <-]; by eapply Hop).
  - done.
Qed.

(** A read of it answers with what it holds. *)
Lemma spec_step_manifest_read v r v1 ns d :
  spec_step v (OpGetManifest ns d) r v1 -> is_ok r = true -> r = Ok (AnsManifest (view_manifest v ns d)).
Proof. destruct r as [a|]; [|done]. intros (w & Hs & _) _. by inv Hs. Qed.

Lemma shrinks_equiv v1 w v : v1 ≡ w -> view_shrinks w v -> view_shrinks v1 v.
Proof.
  intros (Hb & Hr & Hm) (Sb & Sr & Sm). split_and!; intros ns d; [rewrite Hb|rewrite Hr|rewrite Hm]; auto.
Qed.

Lemma spec_run_register v ops rs v' ns d :
  spec_run v ops rs v' -> register_run ns d (view_manifest v ns d) ops rs (view_manifest v' ns d).
Proof.
  intros Hrun. induction Hrun as [v v' (_ & _ & Hm)|v op r v1 ops rs v' Hstep Hrun IH].
  { rewrite Hm. constructor. }
  destruct (is_sweep op) eqn:Hsweep.
  { destruct op as [| | | | | | | | |days]; try done. eapply RegisterSwept; [|exact IH].
    assert (view_shrinks v1 v) as (_ & _ & Hs).
    { destruct r as [a|e]; [|destruct Hstep as [Heq|Hstep]].
      - destruct Hstep as (w & Hs & Heq). inv Hs. by eapply shrinks_equiv.
      - eapply shrinks_equiv; [exact Heq|]. by split_and!.
      - destruct Hstep as (a & w & Hs & Heq). inv Hs. by eapply shrinks_equiv. }
    destruct (view_manifest v1 ns d) as [m|] eqn:Hm; [left; symmetry; auto|by right]. }
  assert ((exists expected etag m, op = OpCommitManifest ns d expected etag m) \/
    (forall expected etag m, op <> OpCommitManifest ns d expected etag m)) as [(expected & etag & m & ->)|Hop].
  { destruct op as [| | | | | | | |ns' d' expected etag m|]; try by right.
    destruct (decide ((ns', d') = (ns, d))) as [[= -> ->]|]; [left; eauto|right; intros; congruence]. }
  - assert (forall a w, succeeds v (OpCommitManifest ns d expected etag m) a w -> v1 ≡ w ->
      (a = AnsManifestCommit PreconditionFailed /\ expected <> manifest_tag (view_manifest v ns d) /\
       view_manifest v1 ns d = view_manifest v ns d) \/
      (a = AnsManifestCommit match view_manifest v ns d with None => ManifestCreated | Some _ => ManifestUpdated end /\
       expected = manifest_tag (view_manifest v ns d) /\
       view_manifest v1 ns d = Some (mkManifestRecord etag m))) as Hcases.
    { intros a w Hs (_ & _ & Hm). rewrite Hm. inv Hs; cbn [view_manifest view_set_manifest].
      - right. rewrite upd_same. by match goal with Hv : view_manifest v ns d = _ |- _ => rewrite Hv end.
      - right. rewrite upd_same. by match goal with Hv : view_manifest v ns d = _ |- _ => rewrite Hv end.
      - by left. }
    destruct r as [a|e]; [|destruct Hstep as [(_ & _ & Hm)|Hstep]].
    + destruct Hstep as (w & Hs & Heq). destruct (Hcases _ _ Hs Heq) as [(-> & Hne & Hm)|(-> & -> & Hm)];
        rewrite Hm in IH; by constructor.
    + rewrite Hm in IH. by constructor.
    + destruct Hstep as (a & w & Hs & Heq). destruct (Hcases _ _ Hs Heq) as [(_ & _ & Hm)|(_ & -> & Hm)];
        rewrite Hm in IH; by constructor.
  - pose proof (spec_step_manifest_kept _ _ _ _ _ _ Hstep Hop Hsweep) as Hm. rewrite Hm in IH.
    assert (op = OpGetManifest ns d \/ op <> OpGetManifest ns d) as [->|Hget].
    { destruct op as [| | | | | | |ns' d'| |]; try by right.
      destruct (decide ((ns', d') = (ns, d))) as [[= -> ->]|]; [by left|right; congruence]. }
    + apply RegisterRead; [|done]. by eapply spec_step_manifest_read.
    + by apply RegisterElsewhere.
Qed.

(** The manifest of every lawful store is such a register. *)
Lemma manifest_register {S} `{!MetadataStore S} `{!MetadataLaws S} (s s' : S) ops rs ns d :
  meta_wf s -> Forall op_u64 ops -> run_ops ops s = (s', rs) ->
  register_run ns d (view_manifest (view s) ns d) ops rs (view_manifest (view s') ns d).
Proof. intros Hwf Hu Hrun. apply run_ops_refines in Hrun as [_ Hrun]; [|done..]. by apply spec_run_register. Qed.

End Guarantees.
