(* ===== verification/MemoryMetadata.v ===== *)
(** * The in-memory metadata store (src/metadata/memory.rs)

    Three maps behind their locks. Entries hold the encoded action result, and
    nothing ages out. The instance of [MetadataLaws] says it keeps the
    contract of a metadata store. *)
From S2P Require Import Prelude Str Protocol Api Json Records.

Local Open Scope mbx_scope.

Module MemoryMetadata.
Section MemoryMetadata.
Context `{Records}.

Record t := mk {
  entries : gmap (string * Digest) bytes;
  blobs : gset (string * Digest);
  manifests : gmap (string * Digest) (string * TaskActionManifest);
}.

(** [MemoryMetadata::default()] *)
Definition default_store : t := mk ∅ ∅ ∅.

Definition visible_blobs (namespace : string) (digests : list Digest)
  : M t StoreError (list Digest) :=
  fun self =>
    (self, Ok (List.filter (fun digest => bool_decide ((namespace, digest) ∈ blobs self)) digests)).

Definition register_blob (namespace : string) (digest : Digest) (stored : PutOutcome)
  : M t StoreError unit :=
  fun self => (mk (entries self) ({[(namespace, digest)]} ∪ blobs self) (manifests self), Ok tt).

Definition forget_blob (namespace : string) (digest : Digest) : M t StoreError unit :=
  fun self => (mk (entries self) (blobs self ∖ {[(namespace, digest)]}) (manifests self), Ok tt).

(** [map(from_slice).transpose()] *)
Definition get (namespace : string) (action : Digest) : M t StoreError (option ActionResult) :=
  fun self =>
    (self,
     match entries self !! (namespace, action) with
     | None => Ok None
     | Some value => result <-? result_from_slice value; Ok (Some result)
     end).

Definition get_batch (namespace : string) (actions : list Digest)
  : M t StoreError (list ActionResult) :=
  default_get_batch (get namespace) actions [].

Definition commit (namespace : string) (action : Digest) (result : ActionResult)
  : M t StoreError CommitOutcome :=
  encoded <~ m_lift (result_to_vec result);
  fun self =>
    match entries self !! (namespace, action) with
    | None =>
        (mk (<[(namespace, action) := encoded]> (entries self)) (blobs self) (manifests self),
         Ok CommitCreated)
    | Some existing =>
        (self, Ok (if decide (existing = encoded) then CommitAlreadyExists else CommitConflict))
    end.

Definition get_manifest (namespace : string) (key : Digest)
  : M t StoreError (option ManifestRecord) :=
  fun self =>
    (self, Ok ((fun '(etag, manifest) => mkManifestRecord etag manifest)
                 <$> manifests self !! (namespace, key))).

Definition commit_manifest (namespace : string) (key : Digest) (expected_etag : option string)
    (etag : string) (manifest : TaskActionManifest) : M t StoreError ManifestCommitOutcome :=
  fun self =>
    let entry := manifests self !! (namespace, key) in
    let matches :=
      match entry, expected_etag with
      | None, None => true
      | Some (current, _), Some expected => String.eqb current expected
      | _, _ => false
      end in
    if negb matches then (self, Ok PreconditionFailed)
    else
      let outcome := match entry with Some _ => ManifestUpdated | None => ManifestCreated end in
      (mk (entries self) (blobs self) (<[(namespace, key) := (etag, manifest)]> (manifests self)),
       Ok outcome).

#[global] Instance store : MetadataStore t := {
  visible_blobs := visible_blobs;
  register_blob := register_blob;
  forget_blob := forget_blob;
  touch_blobs := default_touch_blobs;
  meta_get := get;
  meta_get_batch := get_batch;
  commit := commit;
  get_manifest := get_manifest;
  commit_manifest := commit_manifest;
  sweep := default_sweep;
  pool_stats := default_pool_stats;
}.

(** ** The contract *)

Definition decoded (value : bytes) : option ActionResult :=
  match result_from_slice value with Ok r => Some r | Err _ => None end.

Definition view (self : t) : MetaView :=
  mkMetaView (fun ns d => bool_decide ((ns, d) ∈ blobs self))
    (fun ns d => entries self !! (ns, d) ≫= decoded)
    (fun ns d => (fun '(etag, manifest) => mkManifestRecord etag manifest)
                   <$> manifests self !! (ns, d)).

(** Every entry is the encoding of some result. *)
Definition wf (self : t) : Prop :=
  map_Forall (fun _ value => exists r, result_to_vec r = Ok value) (entries self).

Context `{!RecordsLaws}.

Lemma decoded_to_vec r value : result_to_vec r = Ok value -> decoded value = Some r.
Proof. intros Hr. unfold decoded. by rewrite (result_slice_roundtrip _ _ Hr). Qed.

Lemma wf_default : wf default_store.
Proof. apply map_Forall_empty. Qed.

Lemma get_view ns d s :
  wf s -> get ns d s = (s, Ok (view_result (view s) ns d)).
Proof.
  intros Hwf. unfold get. cbn. destruct (entries s !! (ns, d)) as [value|] eqn:E; cbn; [|done].
  destruct (Hwf _ _ E) as [r Hr]. unfold decoded.
  by rewrite (result_slice_roundtrip _ _ Hr).
Qed.

Lemma get_batch_view ns ds acc s :
  wf s -> default_get_batch (get ns) ds acc s = (s, Ok (acc ++ omap (view_result (view s) ns) ds)).
Proof.
  intros Hwf. revert acc; induction ds as [|d ds IH]; intros acc; cbn [default_get_batch].
  { unfold m_ret. by rewrite app_nil_r. }
  unfold m_bind. rewrite get_view by done. rewrite IH. cbn [omap list_omap].
  destruct (view_result (view s) ns d); [|done]. by rewrite <-app_assoc.
Qed.

Lemma commit_view ns d result s s' r :
  wf s -> commit ns d result s = (s', r) ->
  wf s' /\
  match r with
  | Ok CommitCreated =>
      view_result (view s) ns d = None /\ view s' ≡ view_set_result ns d result (view s)
  | Ok CommitAlreadyExists => view_result (view s) ns d = Some result /\ view s' ≡ view s
  | Ok CommitConflict =>
      (exists other, view_result (view s) ns d = Some other /\ other <> result) /\
      view s' ≡ view s
  | Err _ => view s' ≡ view s
  end.
Proof.
  intros Hwf. unfold commit, m_bind, m_lift.
  destruct (result_to_vec result) as [encoded|e] eqn:Henc; [|by intros [= <- <-]].
  destruct (entries s !! (ns, d)) as [existing|] eqn:E; intros [= <- <-].
  - split; [done|]. destruct (Hwf _ _ E) as [other Ho]. pose proof (decoded_to_vec _ _ Ho) as Hdec.
    cbn. rewrite E. cbn. rewrite Hdec. case_decide as Heq.
    + subst encoded. rewrite (decoded_to_vec _ _ Henc) in Hdec. by injection Hdec as ->.
    + split; [|done]. exists other. split; [done|]. congruence.
  - split; [apply map_Forall_insert_2; [by exists result|done]|]. cbn. rewrite E. split; [done|].
    split; [done|]. split; [|done]. intros ns' d'. cbn. unfold upd. case_decide as Heq.
    + injection Heq as -> ->. rewrite lookup_insert_eq. cbn. by apply decoded_to_vec.
    + by rewrite lookup_insert_ne by congruence.
Qed.

Lemma commit_manifest_view ns d expected etag m s s' r :
  commit_manifest ns d expected etag m s = (s', r) ->
  entries s' = entries s /\
  let current := record_etag <$> view_manifest (view s) ns d in
  let written := view s' ≡ view_set_manifest ns d (mkManifestRecord etag m) (view s) in
  match r with
  | Ok ManifestCreated => expected = None /\ current = None /\ written
  | Ok ManifestUpdated => expected = current /\ current <> None /\ written
  | Ok PreconditionFailed => expected <> current /\ view s' ≡ view s
  | Err _ => False
  end.
Proof.
  unfold commit_manifest. cbn.
  assert (view (mk (entries s) (blobs s) (<[(ns, d):=(etag, m)]> (manifests s))) ≡
    view_set_manifest ns d (mkManifestRecord etag m) (view s)) as Hw'.
  { split; [done|]. split; [done|]. intros ns' d'. cbn. unfold upd.
    case_decide as Heq; [injection Heq as -> ->; by rewrite lookup_insert_eq|].
    by rewrite lookup_insert_ne by congruence. }
  destruct (manifests s !! (ns, d)) as [[current m']|], expected as [expected|]; cbn;
    [destruct (String.eqb_spec current expected) as [->|]; cbn|..]; intros [= <- <-];
    (split; [done|]); cbn; repeat split; try done; try congruence; try apply Hw'.
Qed.

#[global] Program Instance laws : MetadataLaws t := { view := view; meta_wf := wf }.
Next Obligation. intros ns ds s s' r Hwf [= <- <-]. split; [done|]. split; [done|]. by intros vs [= <-]. Qed.
Next Obligation.
  intros ns d stored s s' r Hwf _ [= <- <-]. split; [done|]. cbn. split; [|done].
  intros ns' d'. cbn. unfold upd. case_decide as Heq.
  - injection Heq as -> ->. apply bool_decide_eq_true. set_solver.
  - apply bool_decide_ext. set_solver.
Qed.
Next Obligation.
  intros ns d s s' r Hwf _ [= <- <-]. split; [done|]. cbn. split; [|done].
  intros ns' d'. cbn. unfold upd. case_decide as Heq.
  - injection Heq as -> ->. apply bool_decide_eq_false. set_solver.
  - apply bool_decide_ext. set_solver.
Qed.
Next Obligation. intros ns ds s s' r Hwf [= <- <-]. done. Qed.
Next Obligation.
  intros ns d s s' r Hwf _. cbn. rewrite get_view by done. intros [= <- <-].
  split; [done|]. split; [done|]. by intros o [= <-].
Qed.
Next Obligation.
  intros ns ds s s' r Hwf _. cbn. unfold get_batch. rewrite get_batch_view by done.
  intros [= <- <-]. split; [done|]. split; [done|]. by intros o [= <-].
Qed.
Next Obligation.
  intros ns d result s s' r Hwf _ Hc. apply commit_view in Hc as [Hwf' Hc]; [|done].
  split; [done|]. destruct r as [[]|]; auto.
Qed.
Next Obligation.
  intros ns d s s' r Hwf _ [= <- <-]. split; [done|]. split; [done|]. by intros o [= <-].
Qed.
Next Obligation.
  intros ns d expected etag m s s' r Hwf _ Hc. apply commit_manifest_view in Hc as [He Hc].
  split; [unfold wf; by rewrite He|]. cbn. destruct r as [[]|]; [exact Hc..|done].
Qed.
Next Obligation. intros days s s' r Hwf [= <- <-]. done. Qed.

End MemoryMetadata.
End MemoryMetadata.
