(* ===== verification/PostgresMetadata.v ===== *)
(** * The Postgres metadata store (src/metadata/postgres.rs, migrations/)

    The three tables as maps from their primary keys, and each SQL statement as
    a function on them. The database is an environment: it says when the n-th
    query runs, and whether the connection fails before it or loses its answer
    after it. Times are microseconds. *)
From S2P Require Import Prelude Str Protocol Api Json Records.

Local Open Scope string_scope.
Local Open Scope mbx_scope.

Inductive Fault := NoFault | FailBefore (e : StoreError) | FailAfter (e : StoreError).

(** One execution: the [now()] of its transaction, and its fault. *)
Record Exec := mkExec { exec_now : Z; exec_fault : Fault }.

Class Database `{JsonNumber} := {
  execution : nat -> Exec;
  (** jsonb's [->>] on a value that is not a string. *)
  jsonb_text : Value -> option string;
  (** [(digest ->> 'size')::bigint] of the value under 'size'. *)
  jsonb_bigint : Value -> result StoreError (option Z);
  (** The connections of the pool after a number of queries. *)
  database_pool : nat -> PoolStats;
}.

(** ** Tables *)

(** Namespace, algorithm, hash, size: the primary key of every table. *)
Notation Key := (string * string * string * Z)%type.

Definition ACCESS_REFRESH_INTERVAL : Z := 3600 * 1000000.
Definition DAY : Z := 86400 * 1000000.

Module PostgresMetadata.
Section PostgresMetadata.
Context `{Records} `{!Database}.

Record BlobRow := mkBlobRow { created_at : Z; last_accessed_at : Z }.
Record ManifestRow := mkManifestRow { etag_column : string; manifest_column : Value; updated_at : Z }.

Record Tables := mkTables {
  action_results : gmap Key Value;
  namespace_blobs : gmap Key BlobRow;
  action_manifests : gmap Key ManifestRow;
}.

(** The server's own state is its database's, and how many queries were made. *)
Record t := mk { tables : Tables; queries : nat }.

(** [PgPoolOptions::connect] and the migrations: the tables they find. *)
Class PgPool := { pg_connect (url : string) (max_connections acquire_timeout : N) : result StoreError Tables }.

Definition connect `{PgPool} (url : string) (max_connections acquire_timeout : N) : result StoreError t :=
  if negb (0 <? max_connections)%N
  then Err (OtherError "database max connections must be at least 1")
  else
    tables <-? pg_connect url max_connections acquire_timeout;
    Ok (mk tables 0).

Definition with_results (f : gmap Key Value -> gmap Key Value) (db : Tables) : Tables :=
  mkTables (f (action_results db)) (namespace_blobs db) (action_manifests db).
Definition with_blobs (f : gmap Key BlobRow -> gmap Key BlobRow) (db : Tables) : Tables :=
  mkTables (action_results db) (f (namespace_blobs db)) (action_manifests db).
Definition with_manifests (f : gmap Key ManifestRow -> gmap Key ManifestRow) (db : Tables)
  : Tables :=
  mkTables (action_results db) (namespace_blobs db) (f (action_manifests db)).

(** A statement, at a time, on the tables: their new contents and its rows. *)
Definition Statement (A : Type) : Type := Z -> Tables -> result StoreError (Tables * A).

(** Running one statement on the pool, in a transaction of its own. *)
Definition execute {A} (statement : Statement A) : M t StoreError A :=
  fun self =>
    let exec := execution (queries self) in
    match exec_fault exec with
    | FailBefore e => (mk (tables self) (S (queries self)), Err e)
    | fault =>
        match statement (exec_now exec) (tables self) with
        | Err e => (mk (tables self) (S (queries self)), Err e)
        | Ok (tables, rows) =>
            (mk tables (S (queries self)),
             match fault with FailAfter e => Err e | _ => Ok rows end)
        end
    end.

(** The CHECK constraints of the migrations. *)
Definition check_constraint (ok : bool) : result StoreError unit :=
  if ok then Ok tt else Err (OtherError "violates check constraint").
Definition check_algorithm (algorithm : string) : bool :=
  String.eqb algorithm "blake3" || String.eqb algorithm "sha256".
Definition check_size (size : Z) : bool := (0 <=? size)%Z.

(** [size as i64] *)
Definition as_i64 (size : N) : Z :=
  if (size <? 2 ^ 63)%N then Z.of_N size else (Z.of_N size - 2 ^ 64)%Z.

(** The key of the bound parameters [namespace, algorithm, hash, size as i64]. *)
Definition key_of (namespace : string) (d : Digest) : Key :=
  (namespace, digest_algorithm d, digest_hash d, as_i64 (digest_size d)).

Definition representable (d : Digest) : bool := (digest_size d <? 2 ^ 63)%N.

(** [filter_map] over [i64::try_from(digest.size)]. *)
Definition representable_digests (digests : list Digest) : list (Digest * Z) :=
  omap (fun digest =>
    if representable digest then Some (digest, Z.of_N (digest_size digest)) else None) digests.

(** The columns bound as arrays, and UNNEST of them. *)
Definition unnest (algorithms hashes : list string) (sizes : list Z)
  : list (string * string * Z) :=
  combine (combine algorithms hashes) sizes.

Definition requested_rows (digests : list (Digest * Z)) : list (string * string * Z) :=
  unnest (map (fun d => digest_algorithm d.1) digests) (map (fun d => digest_hash d.1) digests)
    (map snd digests).

(** ** Blobs *)

(** SELECT requested.ordinality FROM UNNEST ... WITH ORDINALITY JOIN
    namespace_blobs ... ORDER BY requested.ordinality *)
Definition select_visible (namespace : string) (requested : list (string * string * Z))
  : Statement (list Z) :=
  fun _ db =>
    Ok (db, omap (fun row =>
      let '(ordinality, (algorithm, hash, size)) := row in
      _ ← namespace_blobs db !! (namespace, algorithm, hash, size);
      Some ordinality) (combine (map (fun n => Z.of_nat (S n)) (seq 0 (length requested))) requested)).

(** [rows.into_iter().map(...).collect()] *)
Fixpoint digests_of_ordinals (digests : list (Digest * Z)) (rows : list Z)
  : result StoreError (list Digest) :=
  match rows with
  | [] => Ok []
  | ordinal :: rows =>
      digest <-?
        (if (ordinal - 1 <? 0)%Z then Err (OtherError "out of range integral type conversion")
         else ok_or (fst <$> digests !! Z.to_nat (ordinal - 1))
                (OtherError "database returned an invalid blob ordinal"));
      rest <-? digests_of_ordinals digests rows;
      Ok (digest :: rest)
  end.

Definition visible_blobs (namespace : string) (digests : list Digest)
  : M t StoreError (list Digest) :=
  let digests := representable_digests digests in
  match digests with
  | [] => m_ret []
  | _ =>
      rows <~ execute (select_visible namespace (requested_rows digests));
      m_lift (digests_of_ordinals digests rows)
  end.

(** UPDATE namespace_blobs SET last_accessed_at = now() FROM UNNEST ... *)
Definition update_accessed (namespace : string) (requested : list (string * string * Z))
  : Statement unit :=
  fun now db =>
    Ok (with_blobs (fun blobs =>
      map_imap (fun key row =>
        let '(ns, algorithm, hash, size) := key in
        Some (if bool_decide (ns = namespace) && bool_decide ((algorithm, hash, size) ∈ requested)
                 && (last_accessed_at row <? now - ACCESS_REFRESH_INTERVAL)%Z
              then mkBlobRow (created_at row) now else row)) blobs) db, tt).

Definition touch_blobs (namespace : string) (digests : list Digest) : M t StoreError unit :=
  let digests := representable_digests digests in
  match digests with
  | [] => m_ret tt
  | _ => execute (update_accessed namespace (requested_rows digests))
  end.

(** INSERT INTO namespace_blobs ... ON CONFLICT DO UPDATE *)
Definition upsert_blob (namespace : string) (d : Digest) (created : bool) : Statement unit :=
  fun now db =>
    _ <-? check_constraint (check_algorithm (digest_algorithm d)
            && check_size (as_i64 (digest_size d)));
    Ok (with_blobs (fun blobs =>
      let row :=
        match blobs !! key_of namespace d with
        | None => mkBlobRow now now
        | Some row => mkBlobRow (if created then now else created_at row) now
        end in
      <[key_of namespace d := row]> blobs) db, tt).

Definition register_blob (namespace : string) (digest : Digest) (stored : PutOutcome)
  : M t StoreError unit :=
  execute (upsert_blob namespace digest (match stored with PutCreated => true | _ => false end)).

(** DELETE FROM namespace_blobs WHERE ... *)
Definition delete_blob (namespace : string) (d : Digest) : Statement unit :=
  fun _ db => Ok (with_blobs (delete (key_of namespace d)) db, tt).

Definition forget_blob (namespace : string) (digest : Digest) : M t StoreError unit :=
  execute (delete_blob namespace digest).

(** ** Action results *)

(** SELECT result FROM action_results WHERE ... *)
Definition select_result (namespace : string) (d : Digest) : Statement (option Value) :=
  fun _ db => Ok (db, action_results db !! key_of namespace d).

(** [row.map(from_value).transpose()] *)
Definition decode_row (row : option Value) : result StoreError (option ActionResult) :=
  match row with
  | None => Ok None
  | Some value => result <-? result_from_value value; Ok (Some result)
  end.

Definition get (namespace : string) (action : Digest) : M t StoreError (option ActionResult) :=
  row <~ execute (select_result namespace action);
  m_lift (decode_row row).

(** SELECT (SELECT results.result ...) AS result FROM UNNEST ... *)
Definition select_results (namespace : string) (requested : list (string * string * Z))
  : Statement (list (option Value)) :=
  fun _ db =>
    Ok (db, map (fun row =>
      let '(algorithm, hash, size) := row in
      action_results db !! (namespace, algorithm, hash, size)) requested).

(** [filter_map(...).collect()] *)
Fixpoint decode_rows (rows : list (option Value)) : result StoreError (list ActionResult) :=
  match rows with
  | [] => Ok []
  | None :: rows => decode_rows rows
  | Some value :: rows =>
      result <-? result_from_value value;
      rest <-? decode_rows rows;
      Ok (result :: rest)
  end.

Definition get_batch (namespace : string) (actions : list Digest)
  : M t StoreError (list ActionResult) :=
  let actions := representable_digests actions in
  match actions with
  | [] => m_ret []
  | _ =>
      rows <~ execute (select_results namespace (requested_rows actions));
      m_lift (decode_rows rows)
  end.

(** INSERT INTO action_results ... ON CONFLICT DO NOTHING; the rows affected. *)
Definition insert_result (namespace : string) (d : Digest) (encoded : Value) : Statement N :=
  fun _ db =>
    _ <-? check_constraint (check_algorithm (digest_algorithm d)
            && check_size (as_i64 (digest_size d)));
    match action_results db !! key_of namespace d with
    | Some _ => Ok (db, 0%N)
    | None => Ok (with_results (<[key_of namespace d := encoded]>) db, 1%N)
    end.

Definition commit (namespace : string) (action : Digest) (result : ActionResult)
  : M t StoreError CommitOutcome :=
  encoded <~ m_lift (result_to_value result);
  inserted <~ execute (insert_result namespace action encoded);
  if (inserted =? 1)%N then m_ret CommitCreated
  else
    found <~ get namespace action;
    existing <~ m_lift (ok_or found (OtherError "action result disappeared after conflict"));
    existing_value <~ m_lift (result_to_value existing);
    m_ret (if decide (existing_value = encoded) then CommitAlreadyExists else CommitConflict).

(** ** Manifests *)

Definition select_manifest (namespace : string) (d : Digest) : Statement (option ManifestRow) :=
  fun _ db => Ok (db, action_manifests db !! key_of namespace d).

Definition get_manifest (namespace : string) (key : Digest)
  : M t StoreError (option ManifestRecord) :=
  row <~ execute (select_manifest namespace key);
  m_lift
    match row with
    | None => Ok None
    | Some row =>
        manifest <-? manifest_from_value (manifest_column row);
        Ok (Some (mkManifestRecord (etag_column row) manifest))
    end.

(** UPDATE action_manifests SET ... WHERE ... AND etag = $7 *)
Definition update_manifest (namespace : string) (d : Digest) (expected etag : string)
    (manifest : Value) : Statement N :=
  fun now db =>
    match action_manifests db !! key_of namespace d with
    | Some row =>
        if String.eqb (etag_column row) expected
        then Ok (with_manifests (<[key_of namespace d := mkManifestRow etag manifest now]>) db, 1%N)
        else Ok (db, 0%N)
    | None => Ok (db, 0%N)
    end.

(** INSERT INTO action_manifests ... ON CONFLICT DO NOTHING *)
Definition insert_manifest (namespace : string) (d : Digest) (etag : string) (manifest : Value)
  : Statement N :=
  fun now db =>
    _ <-? check_constraint (String.eqb (digest_algorithm d) "blake3"
            && check_size (as_i64 (digest_size d)));
    match action_manifests db !! key_of namespace d with
    | Some _ => Ok (db, 0%N)
    | None =>
        Ok (with_manifests (<[key_of namespace d := mkManifestRow etag manifest now]>) db, 1%N)
    end.

Definition commit_manifest (namespace : string) (key : Digest) (expected_etag : option string)
    (etag : string) (manifest : TaskActionManifest) : M t StoreError ManifestCommitOutcome :=
  manifest <~ m_lift (manifest_to_value manifest);
  rows <~ match expected_etag with
          | Some expected_etag => execute (update_manifest namespace key expected_etag etag manifest)
          | None => execute (insert_manifest namespace key etag manifest)
          end;
  m_ret (if (rows =? 0)%N then PreconditionFailed
         else match expected_etag with Some _ => ManifestUpdated | None => ManifestCreated end).

(** ** Sweep *)

(** DELETE FROM namespace_blobs WHERE created_at < now() - $1::interval *)
Definition delete_old_blobs (days : N) : Statement N :=
  fun now db =>
    let keep := filter (fun kv => ~ (created_at kv.2 < now - Z.of_N days * DAY)%Z)
                  (namespace_blobs db) in
    Ok (with_blobs (fun _ => keep) db,
        N.of_nat (size (namespace_blobs db) - size keep)).

(** jsonb_typeof(digest) = 'object' *)
Definition is_json_object (v : option Value) : option Value :=
  v ← v; if is_object v then Some v else None.

(** [digest ->> name] *)
Definition text_of (digest : Value) (name : string) : option string :=
  match value_get digest name with
  | Some (JString s) => Some s
  | Some v => jsonb_text v
  | None => None
  end.

(** The subquery NOT EXISTS (SELECT 1 FROM namespace_blobs ...). *)
Definition blob_absent (db : Tables) (namespace : string) (digest : Value)
  : result StoreError bool :=
  size <-? match value_get digest "size" with
           | Some v => jsonb_bigint v
           | None => Ok None
           end;
  Ok match text_of digest "algorithm", text_of digest "hash", size with
     | Some algorithm, Some hash, Some size =>
         match namespace_blobs db !! (namespace, algorithm, hash, size) with
         | Some _ => false
         | None => true
         end
     | _, _, _ => true
     end.

Definition dangling (db : Tables) (namespace : string) (row : Value)
  : result StoreError bool :=
  let absent (field : string) :=
    match is_json_object (value_get row field) with
    | Some digest => blob_absent db namespace digest
    | None => Ok false
    end in
  in_metadata <-? absent "metadata";
  in_root <-? absent "output_root";
  Ok (in_metadata || in_root).

(** The rows a DELETE with a computed condition keeps; an error in one row
    fails the statement. *)
Fixpoint keep_rows {V} (doomed : Key -> V -> result StoreError bool) (rows : list (Key * V))
  : result StoreError (list (Key * V)) :=
  match rows with
  | [] => Ok []
  | (key, row) :: rows =>
      gone <-? doomed key row;
      rest <-? keep_rows doomed rows;
      Ok (if (gone : bool) then rest else (key, row) :: rest)
  end.

(** DELETE FROM action_results WHERE EXISTS ... *)
Definition delete_dangling_results : Statement N :=
  fun _ db =>
    kept <-? keep_rows (fun key row => dangling db key.1.1.1 row) (map_to_list (action_results db));
    Ok (with_results (fun _ => list_to_map kept) db,
        N.of_nat (size (action_results db) - length kept)).

(** DELETE FROM action_manifests WHERE updated_at < now() - $1::interval *)
Definition delete_old_manifests (days : N) : Statement N :=
  fun now db =>
    let keep := filter (fun kv => ~ (updated_at kv.2 < now - Z.of_N days * DAY)%Z)
                  (action_manifests db) in
    Ok (with_manifests (fun _ => keep) db,
        N.of_nat (size (action_manifests db) - size keep)).

(** A statement inside an open transaction: the tables are its own copy until
    it commits, and [now()] is when it began. *)
Definition in_transaction {A} (now : Z) (statement : Statement A) (work : Tables)
  : M t StoreError (Tables * A) :=
  fun self =>
    let counted := mk (tables self) (S (queries self)) in
    match exec_fault (execution (queries self)) with
    | NoFault => (counted, statement now work)
    | FailBefore e | FailAfter e => (counted, Err e)
    end.

Definition begin_transaction : M t StoreError (Z * Tables) :=
  fun self =>
    let exec := execution (queries self) in
    (mk (tables self) (S (queries self)),
     match exec_fault exec with
     | NoFault => Ok (exec_now exec, tables self)
     | FailBefore e | FailAfter e => Err e
     end).

Definition commit_transaction (work : Tables) : M t StoreError unit :=
  execute (fun _ _ => Ok (work, tt)).

Definition sweep (older_than_days : N) : M t StoreError SweepOutcome :=
  begun <~ begin_transaction;
  let '(now, work) := begun in
  step <~ in_transaction now (delete_old_blobs older_than_days) work;
  let '(work, blobs) := step in
  step <~ in_transaction now delete_dangling_results work;
  let '(work, action_results) := step in
  step <~ in_transaction now (delete_old_manifests older_than_days) work;
  let '(work, manifests) := step in
  commit_transaction work ;~
  m_ret (mkSweepOutcome blobs action_results manifests).

(** [options().get_max_connections()], [size()] and [num_idle()]. *)
Definition pool_stats (self : t) : option PoolStats := Some (database_pool (queries self)).

#[global] Instance store : MetadataStore t := {
  Records.visible_blobs := visible_blobs;
  Records.register_blob := register_blob;
  Records.forget_blob := forget_blob;
  Records.touch_blobs := touch_blobs;
  Records.meta_get := get;
  Records.meta_get_batch := get_batch;
  Records.commit := commit;
  Records.get_manifest := get_manifest;
  Records.commit_manifest := commit_manifest;
  Records.sweep := sweep;
  Records.pool_stats := pool_stats;
}.
End PostgresMetadata.
End PostgresMetadata.
