(* ===== verification/PostgresProofs.v ===== *)
(** * The Postgres store keeps the contract

    What the tables hold as a [MetaView], the invariant of the rows, and the
    laws of a metadata store for every operation, faults included. *)
From S2P Require Import Prelude Str Protocol Api Json Records PostgresMetadata.

Local Open Scope string_scope.
Local Open Scope mbx_scope.

Import PostgresMetadata.

#[local] Arguments as_i64 : simpl never.
#[local] Arguments representable : simpl never.
#[local] Arguments N.pow : simpl never.
#[local] Arguments Z.pow : simpl never.

Section Keys.

Lemma representable_spec d : representable d = true <-> (digest_size d < 2 ^ 63)%N.
Proof. apply N.ltb_lt. Qed.

Lemma as_i64_small n : (n < 2 ^ 63)%N -> as_i64 n = Z.of_N n.
Proof. unfold as_i64. intros H%N.ltb_lt. by rewrite H. Qed.

Lemma key_of_representable ns d :
  representable d = true ->
  key_of ns d = (ns, digest_algorithm d, digest_hash d, Z.of_N (digest_size d)).
Proof. intros H%representable_spec. unfold key_of. by rewrite as_i64_small. Qed.

Lemma as_i64_negative d :
  digest_u64 d -> representable d = false -> (as_i64 (digest_size d) < 0)%Z.
Proof.
  unfold digest_u64, u64_modulus, representable, as_i64. intros Hd Hr. rewrite Hr.
  change (2 ^ 64)%N with 18446744073709551616%N in Hd.
  change (2 ^ 64)%Z with 18446744073709551616%Z. lia.
Qed.

Lemma as_i64_nonneg d : digest_u64 d -> (0 <= as_i64 (digest_size d))%Z -> representable d = true.
Proof.
  intros Hd H0. destruct (representable d) eqn:E; [done|].
  pose proof (as_i64_negative d Hd E). lia.
Qed.

Lemma key_of_inj ns ns' d d' :
  representable d = true -> representable d' = true ->
  key_of ns d = key_of ns' d' <-> (ns, d) = (ns', d').
Proof.
  intros Hd Hd'. rewrite !key_of_representable by done. split; [|by intros [= -> ->]].
  destruct d, d'; cbn. intros Heq. injection Heq as -> -> -> Hsz. apply N2Z.inj in Hsz as ->. done.
Qed.
End Keys.

Section View.
Context `{Records} `{!Database}.

Definition decoded_value (v : Value) : option ActionResult :=
  match result_from_value v with Ok r => Some r | Err _ => None end.
Definition decoded_manifest (row : ManifestRow) : option ManifestRecord :=
  match manifest_from_value (manifest_column row) with
  | Ok m => Some (mkManifestRecord (etag_column row) m)
  | Err _ => None
  end.

Definition view_of (db : Tables) : MetaView :=
  mkMetaView
    (fun ns d => representable d && bool_decide (is_Some (namespace_blobs db !! key_of ns d)))
    (fun ns d => if representable d then action_results db !! key_of ns d ≫= decoded_value
                 else None)
    (fun ns d => if representable d then action_manifests db !! key_of ns d ≫= decoded_manifest
                 else None).

(** The rows the CHECK constraints and the encoders let in. *)
Record db_wf (db : Tables) : Prop := {
  results_wf : map_Forall (fun key v => (0 <= key.2)%Z /\ exists r, result_to_value r = Ok v)
                 (action_results db);
  blobs_wf : map_Forall (fun key _ => (0 <= key.2)%Z) (namespace_blobs db);
  manifests_wf : map_Forall (fun key row => (0 <= key.2)%Z /\
                   exists m, manifest_to_value m = Ok (manifest_column row)) (action_manifests db);
}.

(** ** Running a statement *)

Lemma execute_spec {A} (st : Statement A) s s' r :
  execute st s = (s', r) ->
  (tables s' = tables s /\ exists e, r = Err e) \/
  exists now tb a, st now (tables s) = Ok (tb, a) /\ tables s' = tb /\
    (r = Ok a \/ exists e, r = Err e).
Proof.
  unfold execute. destruct (exec_fault _); [| |].
  - destruct (st _ _) as [[tb a]|e] eqn:E; intros [= <- <-]; cbn; [right|left]; eauto 10.
  - intros [= <- <-]. left. eauto.
  - destruct (st _ _) as [[tb a]|e'] eqn:E; intros [= <- <-]; cbn; [right|left]; eauto 10.
Qed.

(** A query that only reads. *)
Lemma execute_read {A} (f : Tables -> A) (st : Statement A) s s' r :
  (forall now db, st now db = Ok (db, f db)) ->
  execute st s = (s', r) -> tables s' = tables s /\ forall a, r = Ok a -> a = f (tables s).
Proof.
  intros Hst [[Ht [e ->]]|(now & tb & a & Ha & Ht & Hr)]%execute_spec; [by split|].
  rewrite Hst in Ha. injection Ha as <- <-. split; [done|].
  intros a. destruct Hr as [-> | [e ->]]; [by intros [= <-]|done].
Qed.

(** ** Reading blobs *)

Lemma requested_rows_spec l :
  requested_rows l = map (fun d => (digest_algorithm d.1, digest_hash d.1, d.2)) l.
Proof. unfold requested_rows, unnest. induction l as [|d l IH]; cbn; [done|]. by rewrite IH. Qed.

(** Ordinals that count from [n] lead back to the digests they stand for. *)
Lemma ordinals_select (P : Digest * Z -> option unit) (pre l : list (Digest * Z)) n :
  length pre = n ->
  digests_of_ordinals (pre ++ l)
    (omap (fun row : Z * (Digest * Z) => _ ← P row.2; Some row.1)
       (combine (map (fun k => Z.of_nat (S k)) (seq n (length l))) l)) =
  Ok (map fst (List.filter (fun d => match P d with Some _ => true | None => false end) l)).
Proof.
  revert pre n; induction l as [|d l IH]; intros pre n Hn; [done|].
  cbn [length seq map combine omap list_omap].
  specialize (IH (pre ++ [d])%list (S n)). rewrite <-app_assoc in IH. cbn [app] in IH.
  rewrite length_app in IH. cbn [length] in IH. specialize (IH ltac:(lia)).
  cbn [List.filter fst snd]. destruct (P d) as [[]|]; cbn [mbind option_bind].
  - cbn [digests_of_ordinals]. destruct (Z.ltb_spec (Z.of_nat (S n) - 1) 0); [lia|].
    replace (Z.to_nat (Z.of_nat (S n) - 1)) with (length pre) by lia.
    rewrite list_lookup_middle by done. cbn [fmap option_fmap option_map ok_or result_bind].
    rewrite IH. done.
  - exact IH.
Qed.

Lemma omap_combine_map {A B C D} (g : B -> C) (f : A * C -> option D) (xs : list A) (ys : list B) :
  omap f (combine xs (map g ys)) = omap (fun p => f (p.1, g p.2)) (combine xs ys).
Proof.
  revert ys; induction xs as [|x xs IH]; intros [|y ys]; cbn; [done..|]. by rewrite IH.
Qed.

Lemma select_visible_spec ns l now db :
  exists rows, select_visible ns (requested_rows l) now db = Ok (db, rows) /\
    digests_of_ordinals l rows =
      Ok (map fst (List.filter (fun d =>
        bool_decide (is_Some (namespace_blobs db !!
          (ns, digest_algorithm d.1, digest_hash d.1, d.2)))) l)).
Proof.
  eexists. split; [reflexivity|]. rewrite requested_rows_spec, length_map, omap_combine_map.
  pose proof (ordinals_select (fun d => _ ← namespace_blobs db !!
    (ns, digest_algorithm d.1, digest_hash d.1, d.2); Some tt) [] l 0 eq_refl) as Hord.
  cbn [app] in Hord. etransitivity; [|etransitivity; [exact Hord|]].
  - f_equal. apply list_omap_ext. apply Forall_Forall2_diag, Forall_true. intros [z [d k]]. cbn.
    by destruct (_ !! _).
  - do 2 f_equal. apply filter_ext. intros [d k]. cbn.
    by destruct (namespace_blobs db !! _).
Qed.

Lemma representable_filter (f : string -> Digest -> bool) (P : Digest * Z -> bool) ns ds :
  (forall d, representable d = true -> P (d, Z.of_N (digest_size d)) = f ns d) ->
  (forall d, representable d = false -> f ns d = false) ->
  map fst (List.filter P (representable_digests ds)) = List.filter (f ns) ds.
Proof.
  intros Hp Hf. induction ds as [|d ds IH]; [done|]. cbn [representable_digests omap list_omap].
  destruct (representable d) eqn:E; cbn.
  - rewrite Hp by done. destruct (f ns d); cbn; [|exact IH]. f_equal. exact IH.
  - rewrite Hf by done. exact IH.
Qed.

Lemma visible_blobs_spec ns ds s s' r :
  visible_blobs ns ds s = (s', r) ->
  tables s' = tables s /\
  forall vs, r = Ok vs -> vs = List.filter (view_blob (view_of (tables s)) ns) ds.
Proof.
  assert (forall db, map fst (List.filter (fun d =>
      bool_decide (is_Some (namespace_blobs db !!
        (ns, digest_algorithm d.1, digest_hash d.1, d.2)))) (representable_digests ds)) =
    List.filter (view_blob (view_of db) ns) ds) as Hfilter.
  { intros db. apply representable_filter; cbn; intros d Hd; rewrite Hd; [|done].
    by rewrite key_of_representable. }
  unfold visible_blobs. destruct (representable_digests ds) as [|d l] eqn:E.
  - intros [= <- <-]. split; [done|]. intros vs [= <-]. by rewrite <-Hfilter.
  - rewrite <-E in *. unfold m_bind, m_lift.
    destruct (execute _ s) as [s1 [rows|e]] eqn:Hx; intros [= <- <-];
      apply execute_spec in Hx as [[Ht [e' He]]|(now & tb & a & Ha & Ht & Hr)];
      destruct (select_visible_spec ns (representable_digests ds) 0 (tables s)) as (rs & Hs & Hd);
      try done; try (unfold select_visible in *; injection Ha as <- <-; done).
    unfold select_visible in *. injection Ha as <- <-. injection Hs as <-. split; [done|].
    destruct Hr as [[= ->]|[e He]]; [|done]. rewrite Hd. intros vs [= <-]. apply Hfilter.
Qed.

(** ** Writing blobs *)

Lemma touch_blobs_spec ns ds s s' r :
  db_wf (tables s) -> touch_blobs ns ds s = (s', r) ->
  db_wf (tables s') /\ view_of (tables s') ≡ view_of (tables s).
Proof.
  intros Hwf. unfold touch_blobs. destruct (representable_digests ds) as [|d l].
  { by intros [= <- <-]. }
  intros [[-> _]|(now & tb & a & [= <- <-] & -> & _)]%execute_spec; [done|].
  assert (forall key, is_Some (namespace_blobs (with_blobs (map_imap (fun key row =>
      let '(ns0, algorithm, hash, size) := key in
      Some (if bool_decide (ns0 = ns) &&
               bool_decide ((algorithm, hash, size) ∈ requested_rows (d :: l)) &&
               (last_accessed_at row <? now - ACCESS_REFRESH_INTERVAL)%Z
            then mkBlobRow (created_at row) now else row))) (tables s)) !! key) <->
    is_Some (namespace_blobs (tables s) !! key)) as Hkeys.
  { intros [[[ns0 alg] hash] size]. cbn. rewrite map_lookup_imap.
    destruct (namespace_blobs (tables s) !! _); cbn; [|done]. split; eauto. }
  split.
  - destruct Hwf as [Hr Hb Hm]. split; [done| |done]. intros key row Hrow.
    destruct (proj1 (Hkeys key)) as [row' Hrow']; [eexists; exact Hrow|]. by apply (Hb key row').
  - split; [|done]. intros ns' d'. cbn [view_of view_blob]. f_equal. apply bool_decide_ext, Hkeys.
Qed.

Lemma view_with_blob ns d row db :
  representable d = true ->
  view_of (with_blobs (<[key_of ns d := row]>) db) ≡ view_set_blob ns d true (view_of db).
Proof.
  intros Hd. split; [|done]. intros ns' d'. cbn. unfold upd. case_decide as Heq.
  - injection Heq as -> ->. rewrite Hd, lookup_insert_eq. done.
  - destruct (representable d') eqn:Hd'; [|done]. cbn. rewrite lookup_insert_ne; [done|].
    intros Hk%eq_sym%key_of_inj; done.
Qed.

Lemma view_without_blob ns d db :
  representable d = true ->
  view_of (with_blobs (delete (key_of ns d)) db) ≡ view_set_blob ns d false (view_of db).
Proof.
  intros Hd. split; [|done]. intros ns' d'. cbn. unfold upd. case_decide as Heq.
  - injection Heq as -> ->. by rewrite Hd, lookup_delete_eq.
  - destruct (representable d') eqn:Hd'; [|done]. cbn. rewrite lookup_delete_ne; [done|].
    intros Hk%eq_sym%key_of_inj; done.
Qed.

Lemma check_constraint_ok b : check_constraint b = Ok tt <-> b = true.
Proof. unfold check_constraint. by destruct b. Qed.

(** What a row that passes the CHECK constraints is keyed by. *)
Lemma checked_representable d b :
  digest_u64 d -> b && check_size (as_i64 (digest_size d)) = true -> representable d = true.
Proof. intros Hd [_ Hs%Z.leb_le]%andb_true_iff. by apply as_i64_nonneg. Qed.

Lemma key_of_size ns d : representable d = true -> (0 <= (key_of ns d).2)%Z.
Proof. intros Hd. rewrite key_of_representable by done. cbn. lia. Qed.

Lemma register_blob_spec ns d stored s s' r :
  db_wf (tables s) -> digest_u64 d -> register_blob ns d stored s = (s', r) ->
  db_wf (tables s') /\
  effect (view_of (tables s)) (view_of (tables s')) r (fun _ => view_set_blob ns d true).
Proof.
  intros Hwf Hd [[-> [e ->]]|(now & tb & a & Ha & -> & Hr)]%execute_spec; [by split; [|left]|].
  unfold upsert_blob in Ha. apply result_bind_ok in Ha as ([] & Hc & [= <- <-]).
  apply check_constraint_ok, checked_representable in Hc; [|done].
  split.
  - destruct Hwf as [Hrw Hb Hm]. split; [done| |done]. cbn.
    apply map_Forall_insert_2; [by apply key_of_size|done].
  - assert (view_of (with_blobs (fun blobs => <[key_of ns d := match blobs !! key_of ns d with
        | Some row => mkBlobRow (if match stored with PutCreated => true | _ => false end
                                 then now else created_at row) now
        | None => mkBlobRow now now end]> blobs) (tables s)) ≡
      view_set_blob ns d true (view_of (tables s))) as Hv by (apply (view_with_blob ns d _ _ Hc)).
    destruct Hr as [-> | [e ->]]; cbn; [exact Hv|right; exists tt; exact Hv].
Qed.

Lemma forget_blob_spec ns d s s' r :
  db_wf (tables s) -> digest_u64 d -> forget_blob ns d s = (s', r) ->
  db_wf (tables s') /\
  effect (view_of (tables s)) (view_of (tables s')) r (fun _ => view_set_blob ns d false).
Proof.
  intros Hwf Hd [[-> [e ->]]|(now & tb & a & [= <- <-] & -> & Hr)]%execute_spec;
    [by split; [|left]|].
  assert (view_of (with_blobs (delete (key_of ns d)) (tables s)) ≡
    view_set_blob ns d false (view_of (tables s))) as Hv.
  { destruct (representable d) eqn:E; [by apply view_without_blob|].
    assert (namespace_blobs (tables s) !! key_of ns d = None) as Hnone.
    { apply eq_None_not_Some. intros [row Hrow]. destruct Hwf as [_ Hb _].
      specialize (Hb _ _ Hrow). pose proof (as_i64_negative d Hd E). cbn in Hb. lia. }
    unfold with_blobs. rewrite delete_id by done. split; [|by destruct (tables s)].
    intros ns' d'. cbn. unfold upd. case_decide as Heq; [|done]. injection Heq as -> ->.
    by rewrite E. }
  split.
  - destruct Hwf as [Hrw Hb Hm]. split; [done| |done]. cbn. by apply map_Forall_delete.
  - destruct Hr as [-> | [e ->]]; cbn; [exact Hv|right; exists tt; exact Hv].
Qed.
(** ** Action results *)

Section Laws.
Context `{!RecordsLaws}.

Lemma decoded_value_ok r v : result_to_value r = Ok v -> decoded_value v = Some r.
Proof. intros Hr. unfold decoded_value. by rewrite (result_value_roundtrip _ _ Hr). Qed.

(** The row of a representable digest, read through the view. *)
Lemma view_result_row ns d db :
  db_wf db -> digest_u64 d ->
  match action_results db !! key_of ns d with
  | Some v => exists r, result_to_value r = Ok v /\ result_from_value v = Ok r /\
                view_result (view_of db) ns d = Some r
  | None => view_result (view_of db) ns d = None
  end.
Proof.
  intros [Hr _ _] Hd. cbn. destruct (action_results db !! key_of ns d) as [v|] eqn:E.
  - destruct (Hr _ _ E) as [Hs [r Hv]]. exists r. rewrite (as_i64_nonneg d Hd Hs). cbn.
    split; [done|]. split; [by apply result_value_roundtrip|by apply decoded_value_ok].
  - by destruct (representable d).
Qed.

Lemma get_row_spec ns d s s' r :
  db_wf (tables s) -> digest_u64 d -> get ns d s = (s', r) ->
  tables s' = tables s /\ forall o, r = Ok o -> o = view_result (view_of (tables s)) ns d.
Proof.
  intros Hwf Hd. unfold get, m_bind, m_lift.
  destruct (execute _ s) as [s1 q] eqn:Hx.
  apply (execute_read (fun db => action_results db !! key_of ns d)) in Hx as [Ht Hq]; [|done].
  pose proof (view_result_row ns d (tables s) Hwf Hd) as Hrow.
  destruct q as [row|e]; intros [= <- <-]; (split; [done|]); [|done].
  rewrite (Hq row eq_refl). destruct (action_results _ !! _) as [v|]; cbn [decode_row].
  - destruct Hrow as (r0 & _ & -> & ->). by intros o [= <-].
  - intros o [= <-]. done.
Qed.

Lemma decode_rows_spec ns ds db :
  db_wf db -> Forall digest_u64 ds ->
  decode_rows (map (fun row => let '(algorithm, hash, size) := row in
      action_results db !! (ns, algorithm, hash, size))
    (requested_rows (representable_digests ds))) =
  Ok (omap (view_result (view_of db) ns) ds).
Proof.
  intros Hwf Hds. rewrite requested_rows_spec, map_map.
  induction Hds as [|d ds Hd Hds IH]; [done|]. cbn [representable_digests omap list_omap].
  destruct (representable d) eqn:E.
  - cbn [map fst snd]. pose proof (view_result_row ns d db Hwf Hd) as Hrow.
    rewrite key_of_representable in Hrow by done. cbn [decode_rows].
    destruct (action_results db !! _) as [v|]; cbn [decode_rows].
    + destruct Hrow as (r & _ & -> & ->). cbn [result_bind]. unfold representable_digests in IH.
      by rewrite IH.
    + rewrite Hrow. exact IH.
  - cbn [view_result view_of]. rewrite E. exact IH.
Qed.

Lemma get_batch_spec ns ds s s' r :
  db_wf (tables s) -> Forall digest_u64 ds -> get_batch ns ds s = (s', r) ->
  tables s' = tables s /\ forall l, r = Ok l -> l = omap (view_result (view_of (tables s)) ns) ds.
Proof.
  intros Hwf Hds. pose proof (decode_rows_spec ns ds (tables s) Hwf Hds) as Hdec.
  unfold get_batch. destruct (representable_digests ds) as [|d l] eqn:E.
  - intros [= <- <-]. split; [done|]. intros o [= <-].
    by injection Hdec.
  - rewrite <-E in *. unfold m_bind, m_lift. destruct (execute _ s) as [s1 q] eqn:Hx.
    eapply execute_read in Hx as [Ht Hq]; [|by intros].
    destruct q as [rows|e]; intros [= <- <-]; (split; [done|]); [|done].
    rewrite (Hq rows eq_refl). cbn beta. rewrite Hdec. by intros o [= <-].
Qed.

Lemma view_with_result ns d r v db :
  representable d = true -> result_to_value r = Ok v ->
  view_of (with_results (<[key_of ns d := v]>) db) ≡ view_set_result ns d r (view_of db).
Proof.
  intros Hd Hv. split; [done|]. split; [|done]. intros ns' d'. cbn. unfold upd. case_decide as Heq.
  - injection Heq as -> ->. rewrite Hd, lookup_insert_eq. cbn. by apply decoded_value_ok.
  - destruct (representable d') eqn:Hd'; [|done]. rewrite lookup_insert_ne; [done|].
    intros Hk%eq_sym%key_of_inj; done.
Qed.

(** The INSERT: a row is added when there is none, and nothing else happens. *)
Lemma insert_result_spec ns d r v s s' q :
  db_wf (tables s) -> digest_u64 d -> result_to_value r = Ok v ->
  execute (insert_result ns d v) s = (s', q) ->
  db_wf (tables s') /\
  let old := view_of (tables s) in let new := view_of (tables s') in
  match q with
  | Ok n => if (n =? 1)%N then view_result old ns d = None /\ new ≡ view_set_result ns d r old
            else is_Some (view_result old ns d) /\ new ≡ old
  | Err _ => new ≡ old \/ (view_result old ns d = None /\ new ≡ view_set_result ns d r old)
  end.
Proof.
  intros Hwf Hd Hv [[-> [e ->]]|(now & tb & a & Ha & Ht & Hq)]%execute_spec; [by split; [|left]|].
  unfold insert_result in Ha. ok_step Ha as [] Hc.
  apply check_constraint_ok, checked_representable in Hc; [|done].
  pose proof (view_result_row ns d (tables s) Hwf Hd) as Hrow.
  destruct (action_results (tables s) !! key_of ns d) as [v'|] eqn:E;
    injection Ha as <- <-; subst; rewrite Ht.
  - split; [done|]. cbn zeta. destruct Hrow as (r' & _ & _ & ->).
    destruct Hq as [-> | [e ->]]; cbn; eauto.
  - pose proof (view_with_result ns d r v (tables s) Hc Hv) as Hview. split.
    + destruct Hwf as [Hr Hb Hm]. split; [|done..]. cbn. apply map_Forall_insert_2; [|done].
      split; [by apply key_of_size|eauto].
    + cbn zeta. destruct Hq as [-> | [e ->]]; cbn; eauto.
Qed.

Lemma commit_spec ns d result s s' r :
  db_wf (tables s) -> digest_u64 d -> commit ns d result s = (s', r) ->
  db_wf (tables s') /\
  let old := view_of (tables s) in let new := view_of (tables s') in
  match r with
  | Ok CommitCreated => view_result old ns d = None /\ new ≡ view_set_result ns d result old
  | Ok CommitAlreadyExists => view_result old ns d = Some result /\ new ≡ old
  | Ok CommitConflict =>
      (exists other, view_result old ns d = Some other /\ other <> result) /\ new ≡ old
  | Err _ => new ≡ old \/ (view_result old ns d = None /\ new ≡ view_set_result ns d result old)
  end.
Proof.
  intros Hwf Hd. unfold commit, m_bind, m_lift, m_ret.
  destruct (result_to_value result) as [v|e] eqn:Hv; [|by intros [= <- <-]; split; [|left]].
  destruct (execute _ s) as [s1 q] eqn:Hx.
  pose proof (insert_result_spec _ _ _ _ _ _ _ Hwf Hd Hv Hx) as [Hwf1 Hq]. cbn zeta in Hq |- *.
  destruct q as [n|e]; [|by intros [= <- <-]]. destruct (n =? 1)%N; [by intros [= <- <-]|].
  destruct (get ns d s1) as [s2 g] eqn:Hg. destruct Hq as [[other Hother] Hsame].
  apply get_row_spec in Hg as [Ht Hg]; [|done..].
  assert (view_result (view_of (tables s1)) ns d = Some other) as Hother'
    by (by rewrite (proj1 (proj2 Hsame))).
  destruct g as [o|e]; [|intros [= <- <-]; rewrite Ht; by split; [|left]].
  rewrite (Hg o eq_refl), Hother' in *. cbn [ok_or].
  destruct (result_to_value other) as [v'|e] eqn:Hv'; intros [= <- <-]; rewrite Ht;
    (split; [done|]); [|by left].
  case_decide as Heq; (split; [|done]).
  - subst v'. rewrite Hother. apply result_value_roundtrip in Hv, Hv'. congruence.
  - exists other. split; [done|]. intros ->. congruence.
Qed.

(** ** Manifests *)

Lemma view_manifest_row ns d db :
  db_wf db -> digest_u64 d ->
  match action_manifests db !! key_of ns d with
  | Some row => exists m, manifest_from_value (manifest_column row) = Ok m /\
                  view_manifest (view_of db) ns d = Some (mkManifestRecord (etag_column row) m)
  | None => view_manifest (view_of db) ns d = None
  end.
Proof.
  intros [_ _ Hm] Hd. cbn. destruct (action_manifests db !! key_of ns d) as [row|] eqn:E.
  - destruct (Hm _ _ E) as [Hs [m Hv]]. exists m. rewrite (as_i64_nonneg d Hd Hs). cbn.
    apply manifest_value_roundtrip in Hv. split; [done|]. unfold decoded_manifest. by rewrite Hv.
  - by destruct (representable d).
Qed.

Lemma get_manifest_spec ns d s s' r :
  db_wf (tables s) -> digest_u64 d -> get_manifest ns d s = (s', r) ->
  tables s' = tables s /\ forall o, r = Ok o -> o = view_manifest (view_of (tables s)) ns d.
Proof.
  intros Hwf Hd. unfold get_manifest, m_bind, m_lift.
  destruct (execute _ s) as [s1 q] eqn:Hx.
  apply (execute_read (fun db => action_manifests db !! key_of ns d)) in Hx as [Ht Hq]; [|done].
  pose proof (view_manifest_row ns d (tables s) Hwf Hd) as Hrow.
  destruct q as [row|e]; intros [= <- <-]; (split; [done|]); [|done].
  rewrite (Hq row eq_refl). destruct (action_manifests _ !! _) as [row'|].
  - destruct Hrow as (m & -> & ->). by intros o [= <-].
  - intros o [= <-]. done.
Qed.

Lemma view_with_manifest ns d etag m v now db :
  representable d = true -> manifest_to_value m = Ok v ->
  view_of (with_manifests (<[key_of ns d := mkManifestRow etag v now]>) db) ≡
    view_set_manifest ns d (mkManifestRecord etag m) (view_of db).
Proof.
  intros Hd Hv. split; [done|]. split; [done|]. intros ns' d'. cbn. unfold upd. case_decide as Heq.
  - injection Heq as -> ->. rewrite Hd, lookup_insert_eq. cbn. unfold decoded_manifest. cbn.
    by rewrite (manifest_value_roundtrip _ _ Hv).
  - destruct (representable d') eqn:Hd'; [|done]. rewrite lookup_insert_ne; [done|].
    intros Hk%eq_sym%key_of_inj; done.
Qed.

Lemma wf_with_manifest ns d etag m v now db :
  representable d = true -> manifest_to_value m = Ok v -> db_wf db ->
  db_wf (with_manifests (<[key_of ns d := mkManifestRow etag v now]>) db).
Proof.
  intros Hd Hv [Hr Hb Hm]. split; [done..|]. cbn. apply map_Forall_insert_2; [|done].
  split; [by apply key_of_size|eauto].
Qed.

(** One statement of [commit_manifest]: the row is written, when the current
    tag is the expected one, or nothing is. *)
Lemma write_manifest_spec ns d expected etag m v s s' q :
  db_wf (tables s) -> digest_u64 d -> manifest_to_value m = Ok v ->
  match expected with
  | Some expected => execute (update_manifest ns d expected etag v)
  | None => execute (insert_manifest ns d etag v)
  end s = (s', q) ->
  db_wf (tables s') /\
  let old := view_of (tables s) in let new := view_of (tables s') in
  let current := record_etag <$> view_manifest old ns d in
  let written := view_set_manifest ns d (mkManifestRecord etag m) old in
  match q with
  | Ok n => if (n =? 0)%N then expected <> current /\ new ≡ old
            else expected = current /\ new ≡ written
  | Err _ => new ≡ old \/ (expected = current /\ new ≡ written)
  end.
Proof.
  intros Hwf Hd Hv Hx. pose proof (view_manifest_row ns d (tables s) Hwf Hd) as Hrow.
  pose proof (fun now Hr => view_with_manifest ns d etag m v now (tables s) Hr Hv) as Hview.
  pose proof (fun now Hr => wf_with_manifest ns d etag m v now (tables s) Hr Hv Hwf) as Hwf'.
  destruct expected as [expected|];
    apply execute_spec in Hx as [[-> [e ->]]|(now & tb & a & Ha & Ht & Hq)];
    try (by split; [|left]); cbn zeta.
  - unfold update_manifest in Ha.
    destruct (action_manifests (tables s) !! key_of ns d) as [row|] eqn:E.
    + destruct Hrow as (m' & _ & Hrow). rewrite Hrow. cbn [fmap option_fmap option_map record_etag].
      assert (representable d = true) as Hr
        by (apply as_i64_nonneg; [done|]; destruct Hwf as [_ _ Hm]; apply (Hm _ _ E)).
      destruct (String.eqb_spec (etag_column row) expected) as [<-|Hne];
        injection Ha as <- <-; subst; rewrite Ht.
      * split; [by apply Hwf'|]. specialize (Hview now Hr).
        destruct Hq as [-> | [e ->]]; cbn; eauto.
      * split; [done|]. destruct Hq as [-> | [e ->]]; cbn; [|by left]. split; [congruence|done].
    + rewrite Hrow. injection Ha as <- <-. subst. rewrite Ht. split; [done|].
      destruct Hq as [-> | [e ->]]; cbn; [done|by left].
  - unfold insert_manifest in Ha. ok_step Ha as [] Hc.
    apply check_constraint_ok, checked_representable in Hc; [|done].
    destruct (action_manifests (tables s) !! key_of ns d) as [row|] eqn:E;
      injection Ha as <- <-; subst; rewrite Ht.
    + destruct Hrow as (m' & _ & ->). split; [done|].
      destruct Hq as [-> | [e ->]]; cbn; [done|by left].
    + rewrite Hrow. split; [by apply Hwf'|]. specialize (Hview now Hc).
      destruct Hq as [-> | [e ->]]; cbn; eauto.
Qed.

Lemma commit_manifest_spec ns d expected etag m s s' r :
  db_wf (tables s) -> digest_u64 d -> commit_manifest ns d expected etag m s = (s', r) ->
  db_wf (tables s') /\
  let current := record_etag <$> view_manifest (view_of (tables s)) ns d in
  let written := view_of (tables s') ≡
    view_set_manifest ns d (mkManifestRecord etag m) (view_of (tables s)) in
  match r with
  | Ok ManifestCreated => expected = None /\ current = None /\ written
  | Ok ManifestUpdated => expected = current /\ current <> None /\ written
  | Ok PreconditionFailed => expected <> current /\ view_of (tables s') ≡ view_of (tables s)
  | Err _ => view_of (tables s') ≡ view_of (tables s) \/ (expected = current /\ written)
  end.
Proof.
  intros Hwf Hd. unfold commit_manifest, m_bind, m_lift, m_ret.
  destruct (manifest_to_value m) as [v|e] eqn:Hv; [|by intros [= <- <-]; split; [|left]].
  destruct (match expected with
            | Some expected => execute (update_manifest ns d expected etag v)
            | None => execute (insert_manifest ns d etag v)
            end s) as [s1 q] eqn:Hx.
  apply (write_manifest_spec _ _ _ _ m) in Hx as [Hwf1 Hq]; [|done..]. cbn zeta in *.
  destruct q as [n|e]; intros [= <- <-]; (split; [done|]); [|done].
  destruct (n =? 0)%N; [done|]. destruct Hq as [-> Hw].
  destruct (view_manifest (view_of (tables s)) ns d) as [rec|]; cbn; [|done]. done.
Qed.

(** ** Sweeps *)

(** The tables shrink, row by row. *)
Definition tables_shrink (db' db : Tables) : Prop :=
  action_results db' ⊆ action_results db /\ namespace_blobs db' ⊆ namespace_blobs db /\
  action_manifests db' ⊆ action_manifests db.

Lemma tables_shrink_refl db : tables_shrink db db.
Proof. done. Qed.

Lemma tables_shrink_trans a b c : tables_shrink a b -> tables_shrink b c -> tables_shrink a c.
Proof. intros (H1' & H2' & H3') (H4 & H5 & H6). by repeat split; etransitivity. Qed.

Lemma shrink_wf db' db : tables_shrink db' db -> db_wf db -> db_wf db'.
Proof.
  intros (Hr & Hb & Hm) [Wr Wb Wm].
  split; intros key v Hv; [apply Wr|apply (Wb key v)|apply Wm]; eapply lookup_weaken; eauto.
Qed.

Lemma shrink_view db' db : tables_shrink db' db -> view_shrinks (view_of db') (view_of db).
Proof.
  intros (Hr & Hb & Hm). split; [|split]; intros ns d; cbn; destruct (representable d); try done.
  - cbn. rewrite !bool_decide_eq_true. intros [row Hrow]. exists row. eapply lookup_weaken; eauto.
  - intros r (v & Hv & Hd)%bind_Some. apply bind_Some. exists v. split; [|done].
    eapply lookup_weaken; eauto.
  - intros r (v & Hv & Hd)%bind_Some. apply bind_Some. exists v. split; [|done].
    eapply lookup_weaken; eauto.
Qed.

Lemma keep_rows_spec {V} (doomed : Key -> V -> result StoreError bool) rows kept :
  keep_rows doomed rows = Ok kept ->
  kept `sublist_of` rows /\
  forall key v, (key, v) ∈ rows -> exists gone, doomed key v = Ok gone /\
    (gone = false -> (key, v) ∈ kept).
Proof.
  revert kept; induction rows as [|[key v] rows IH]; intros kept; cbn [keep_rows].
  { intros [= <-]. split; [done|]. set_solver. }
  intros (gone & Hg & (rest & Hrest & [= <-])%result_bind_ok)%result_bind_ok.
  destruct (IH rest Hrest) as [Hsub Hall]. split.
  - destruct gone; [by apply sublist_cons|by apply sublist_skip].
  - intros key' v' [[= -> ->]|Hin]%elem_of_cons.
    + exists gone. split; [done|]. intros ->. set_solver.
    + destruct (Hall key' v' Hin) as (g & Hd & Hk). exists g. split; [done|]. intros Hg0.
      destruct gone; [auto|]. apply elem_of_cons. auto.
Qed.

Lemma keep_rows_doomed {V} (doomed : Key -> V -> result StoreError bool) rows kept key v :
  keep_rows doomed rows = Ok kept -> (key, v) ∈ kept -> doomed key v = Ok false.
Proof.
  revert kept; induction rows as [|[key' v'] rows IH]; intros kept; cbn [keep_rows].
  { intros [= <-]. set_solver. }
  intros (gone & Hg & (rest & Hrest & [= <-])%result_bind_ok)%result_bind_ok.
  destruct gone; [by apply IH|]. intros [[= -> ->]|Hin]%elem_of_cons; [done|eauto].
Qed.

(** What is left after the second statement: the rows that dangle are gone,
    the others are as they were. *)
Lemma delete_dangling_spec now db db' n :
  delete_dangling_results now db = Ok (db', n) ->
  namespace_blobs db' = namespace_blobs db /\ action_manifests db' = action_manifests db /\
  forall key v, action_results db' !! key = Some v <->
    action_results db !! key = Some v /\ dangling db key.1.1.1 v = Ok false.
Proof.
  unfold delete_dangling_results. intros (kept & Hk & [= <- <-])%result_bind_ok. cbn.
  split; [done|]. split; [done|]. pose proof (keep_rows_spec _ _ _ Hk) as [Hsub Hall].
  assert (NoDup kept.*1) as Hnd.
  { eapply sublist_NoDup; [apply (NoDup_fst_map_to_list (action_results db))|].
    by rewrite Hsub. }
  intros key v. rewrite <-elem_of_list_to_map by done. split.
  - intros Hin. split; [|by eapply keep_rows_doomed in Hk].
    apply elem_of_map_to_list. by eapply elem_of_sublist.
  - intros [Hin Hd]. apply elem_of_map_to_list in Hin.
    destruct (Hall key v Hin) as (gone & Hg & Hkept). apply Hkept. congruence.
Qed.

(** It counts them. *)
Lemma delete_dangling_counts now db db' n :
  delete_dangling_results now db = Ok (db', n) ->
  n = N.of_nat (size (action_results db) - size (action_results db')).
Proof.
  unfold delete_dangling_results. intros (kept & Hk & [= <- <-])%result_bind_ok. cbn.
  pose proof (keep_rows_spec _ _ _ Hk) as [Hsub _]. rewrite <-(length_map_to_list (list_to_map kept)).
  rewrite map_to_list_to_map; [done|]. eapply sublist_NoDup; [apply (NoDup_fst_map_to_list (action_results db))|].
  by rewrite Hsub.
Qed.

Lemma in_transaction_spec {A} now (st : Statement A) work s s' r :
  in_transaction now st work s = (s', r) ->
  tables s' = tables s /\ forall out, r = Ok out -> st now work = Ok out.
Proof.
  unfold in_transaction. destruct (exec_fault _); intros [= <- <-]; split; done.
Qed.

(** A sweep either leaves the tables alone or replaces them by what its three
    deletions leave; an error may hide a commit that went through. *)
Lemma sweep_spec days s s' r :
  sweep days s = (s', r) ->
  (tables s' = tables s /\ exists e, r = Err e) \/
  exists db1 db2 n1 n2 n3, let now := exec_now (execution (queries s)) in
    delete_old_blobs days now (tables s) = Ok (db1, n1) /\
    delete_dangling_results now db1 = Ok (db2, n2) /\
    delete_old_manifests days now db2 = Ok (tables s', n3) /\
    (r = Ok (mkSweepOutcome n1 n2 n3) \/ exists e, r = Err e).
Proof.
  unfold sweep, m_bind at 1, begin_transaction.
  destruct (exec_fault _); try (intros [= <- <-]; left; eauto).
  set (now := exec_now _). set (s0 := mk (tables s) (S (queries s))).
  assert (tables s0 = tables s) as Ht0 by done. clearbody now s0. unfold m_bind at 1.
  destruct (in_transaction now _ _ s0) as [s1 [[db1 n1]|e]] eqn:E1;
    apply in_transaction_spec in E1 as [Ht1 E1]; [|intros [= <- <-]; left; split; [congruence|eauto]].
  unfold m_bind at 1.
  destruct (in_transaction now _ _ s1) as [s2 [[db2 n2]|e]] eqn:E2;
    apply in_transaction_spec in E2 as [Ht2 E2]; [|intros [= <- <-]; left; split; [congruence|eauto]].
  unfold m_bind at 1.
  destruct (in_transaction now _ _ s2) as [s3 [[db3 n3]|e]] eqn:E3;
    apply in_transaction_spec in E3 as [Ht3 E3]; [|intros [= <- <-]; left; split; [congruence|eauto]].
  specialize (E1 _ eq_refl). specialize (E2 _ eq_refl). specialize (E3 _ eq_refl).
  unfold m_bind, commit_transaction, m_ret.
  destruct (execute _ s3) as [s4 q] eqn:Hx.
  apply execute_spec in Hx as [[Ht4 [e ->]]|(now' & tb & [] & [= <-] & Ht4 & Hq)].
  - intros [= <- <-]. left. split; [congruence|eauto].
  - intros Heq. right. exists db1, db2, n1, n2, n3. rewrite <-Ht4 in E3.
    destruct Hq as [-> | [e ->]]; injection Heq as <- <-; eauto 10.
Qed.

Lemma sweep_shrinks days s s' r : sweep days s = (s', r) -> tables_shrink (tables s') (tables s).
Proof.
  intros [[-> _]|(db1 & db2 & n1 & n2 & n3 & E1 & E2 & E3 & _)]%sweep_spec; [done|].
  injection E1 as <- _. apply delete_dangling_spec in E2 as (Hb & Hm & Hr).
  injection E3 as <- _. cbn in *. split; [|split]; cbn.
  - apply map_subseteq_spec. intros key v [Hv _]%Hr. done.
  - rewrite Hb. apply map_filter_subseteq.
  - rewrite Hm. apply map_filter_subseteq.
Qed.

(** ** The contract *)

#[global] Program Instance laws : MetadataLaws t := {
  view s := view_of (tables s); meta_wf s := db_wf (tables s) }.
Next Obligation.
  intros ns ds s s' r Hwf Hv. apply visible_blobs_spec in Hv as [-> Hv]. by split_and!.
Qed.
Next Obligation. intros ns d st s s' r Hwf Hd Hr. exact (register_blob_spec _ _ _ _ _ _ Hwf Hd Hr). Qed.
Next Obligation. intros ns d s s' r Hwf Hd Hr. exact (forget_blob_spec _ _ _ _ _ Hwf Hd Hr). Qed.
Next Obligation. intros ns ds s s' r Hwf Hr. exact (touch_blobs_spec _ _ _ _ _ Hwf Hr). Qed.
Next Obligation.
  intros ns d s s' r Hwf Hd Hg. apply get_row_spec in Hg as [-> Hg]; [|done..]. by split_and!.
Qed.
Next Obligation.
  intros ns ds s s' r Hwf Hd Hg. apply get_batch_spec in Hg as [-> Hg]; [|done..]. by split_and!.
Qed.
Next Obligation. intros ns d result s s' r Hwf Hd Hc. exact (commit_spec _ _ _ _ _ _ Hwf Hd Hc). Qed.
Next Obligation.
  intros ns d s s' r Hwf Hd Hg. apply get_manifest_spec in Hg as [-> Hg]; [|done..].
  by split_and!.
Qed.
Next Obligation. intros ns d expected etag m s s' r Hwf Hd Hc. exact (commit_manifest_spec _ _ _ _ _ _ _ _ Hwf Hd Hc). Qed.
Next Obligation.
  intros days s s' r Hwf Hs. apply sweep_shrinks in Hs.
  split; [by eapply shrink_wf|by apply shrink_view].
Qed.

End Laws.
End View.
