(* ===== verification/StoreRefinement.v ===== *)
(** * Both metadata stores refine the abstract machine

    Sequences of operations on the in-memory store and on Postgres, from an
    empty store, are runs of the machine of [Metadata.v]; and what a sweep and
    an upload do to the ages of Postgres rows. *)
From S2P Require Import Prelude Str Protocol Api Json Records Metadata MetadataProofs.
From S2P Require Import MemoryMetadata PostgresMetadata PostgresProofs.

Local Open Scope string_scope.
Local Open Scope mbx_scope.

(** Nothing visible, no result, no manifest. *)
Definition empty_view `{Records} : MetaView :=
  mkMetaView (fun _ _ => false) (fun _ _ => None) (fun _ _ => None).

Section Memory.
Context `{RecordsLaws}.

(** C26. The in-memory store is a store: from an empty one, every sequence of
    operations is answered as the abstract machine allows, ending with the
    contents it ends with. Its operations never fail, but for a commit whose
    result cannot be encoded. *)
Theorem memory_refines ops s' rs
    (Hu64 : Forall op_u64 ops)
    (Hrun : run_ops ops MemoryMetadata.default_store = (s', rs)) :
  spec_run empty_view ops rs (MemoryMetadata.view s') /\
  Forall2 (fun op r => is_ok r = true \/
    exists ns d result, op = OpCommit ns d result /\ is_ok (result_to_vec result) = false) ops rs.
Proof.
  split.
  - apply run_ops_refines in Hrun as [_ Hrun]; [exact Hrun| |done].
    apply MemoryMetadata.wf_default.
  - assert (MemoryMetadata.wf MemoryMetadata.default_store) as Hwf
      by apply MemoryMetadata.wf_default.
    revert rs Hwf Hrun. generalize MemoryMetadata.default_store.
    induction Hu64 as [|op ops Hop Hu64 IH]; intros s rs Hwf; cbn; [intros [= <- <-]; constructor|].
    destruct (run_op op s) as [s1 a] eqn:E. destruct (run_ops ops s1) as [s2 rest] eqn:E2.
    intros [= -> <-]. pose proof (run_op_refines _ _ _ _ Hwf Hop E) as [Hwf1 _].
    constructor; [|eapply IH; [|exact E2]; exact Hwf1].
    destruct op; cbn [run_op] in E; apply answer_inv in E as (q & E & ->);
      try (injection E as <- <-; by left); try (cbn in E).
    + rewrite (MemoryMetadata.get_view _ _ _ Hwf) in E. injection E as <- <-. by left.
    + unfold MemoryMetadata.get_batch in E. rewrite (MemoryMetadata.get_batch_view _ _ _ _ Hwf) in E.
      injection E as <- <-. by left.
    + unfold MemoryMetadata.commit, m_bind, m_lift in E.
      destruct (result_to_vec r) as [encoded|e] eqn:He.
      * destruct (MemoryMetadata.entries s !! _); injection E as <- <-; by left.
      * right. exists ns, d, r. by rewrite He.
    + unfold MemoryMetadata.commit_manifest in E. destruct (negb _); injection E as <- <-; by left.
Qed.
End Memory.

Section Postgres.
Context `{RecordsLaws} `{!Database}.
Import PostgresMetadata.

Definition empty_tables : Tables := mkTables ∅ ∅ ∅.

Lemma empty_tables_wf : db_wf empty_tables.
Proof. split; apply map_Forall_empty. Qed.

Lemma empty_tables_view : view_of empty_tables ≡ empty_view.
Proof.
  split; [|split]; intros ns d; cbn; rewrite lookup_empty; destruct (representable d); done.
Qed.

(** The Postgres store is a store, whatever the database's faults: every
    sequence of operations on a fresh database is answered as the abstract
    machine allows, each failed one having taken effect as a whole or not at
    all, and the rows stay well-formed. *)
Theorem postgres_refines ops n s' rs
    (Hu64 : Forall op_u64 ops) (Hrun : run_ops ops (mk empty_tables n) = (s', rs)) :
  db_wf (tables s') /\ spec_run (view_of empty_tables) ops rs (view_of (tables s')) /\
  view_of empty_tables ≡ empty_view.
Proof.
  apply run_ops_refines in Hrun as [Hwf Hrun]; [|apply empty_tables_wf|done].
  split; [done|]. split; [done|apply empty_tables_view].
Qed.

(** ** Ages *)

(** The JSON a digest is written as, and Postgres' reading of its size. *)
Definition digest_value (d : Digest) (v : Value) : Prop :=
  is_object v = true /\
  value_get v "algorithm" = Some (JString (digest_algorithm d)) /\
  value_get v "hash" = Some (JString (digest_hash d)) /\
  exists n, value_get v "size" = Some n /\ as_u64 n = Some (digest_size d).

Definition optional_digest_value (o : option Digest) (v : option Value) : Prop :=
  match o with
  | Some d => exists v', v = Some v' /\ digest_value d v'
  | None => is_json_object v = None
  end.

Class ResultJsonLaws : Prop := {
  result_metadata_value r v :
    result_to_value r = Ok v -> optional_digest_value (result_metadata r) (value_get v "metadata");
  result_root_value r v :
    result_to_value r = Ok v -> optional_digest_value (output_root r) (value_get v "output_root");
  jsonb_bigint_u64 v n :
    as_u64 v = Some n ->
    jsonb_bigint v = if (n <? 2 ^ 63)%N then Ok (Some (Z.of_N n))
                     else Err (OtherError "bigint out of range");
}.
Context `{!ResultJsonLaws}.

Lemma blob_present_spec db ns d v :
  digest_value d v -> blob_absent db ns v = Ok false -> view_blob (view_of db) ns d = true.
Proof.
  intros (_ & Ha & Hh & n & Hs & Hn). unfold blob_absent, text_of.
  rewrite Ha, Hh, Hs, (jsonb_bigint_u64 _ _ Hn). cbn.
  destruct (N.ltb_spec (digest_size d) (2 ^ 63)) as [Hlt|]; cbn; [|done].
  apply representable_spec in Hlt. rewrite Hlt, key_of_representable by done.
  destruct (namespace_blobs db !! _); [|done]. by intros _.
Qed.

(** The field of a row that does not dangle names a visible blob. *)
Lemma dangling_field_spec db ns r v d :
  result_to_value r = Ok v -> dangling db ns v = Ok false ->
  (result_metadata r = Some d \/ output_root r = Some d) -> view_blob (view_of db) ns d = true.
Proof.
  intros Hv Hd Hr. unfold dangling in Hd.
  apply result_bind_ok in Hd as (b1 & H1' & (b2 & H2' & [= Hb])%result_bind_ok).
  apply orb_false_iff in Hb as [-> ->].
  pose proof (result_metadata_value _ _ Hv) as Hm. pose proof (result_root_value _ _ Hv) as Ho.
  destruct Hr as [Hr|Hr]; rewrite Hr in *; cbn in Hm, Ho.
  - destruct Hm as (v' & Hv' & Hdv). rewrite Hv' in H1'. cbn in H1'.
    rewrite (proj1 Hdv) in H1'. by eapply blob_present_spec.
  - destruct Ho as (v' & Hv' & Hdv). rewrite Hv' in H2'. cbn in H2'.
    rewrite (proj1 Hdv) in H2'. by eapply blob_present_spec.
Qed.

(** How many rows a table has lost. *)
Definition rows_gone {V} (before after : gmap Key V) : N := N.of_nat (size before - size after).

(** C31. A successful sweep takes exactly what is older than the given number of
    days, at the database's time when its transaction began: the blobs created
    before, the manifests not updated since, and the action results that refer
    to a blob their namespace does not hold afterwards. So no result is left
    that dangles, every other row is kept as it was, and the answer counts the
    rows that are gone. *)
Theorem sweep_leaves_no_dangling days s s' out
    (Hwf : db_wf (tables s)) (Hsweep : sweep days s = (s', Ok out)) :
  let cutoff := (exec_now (execution (queries s)) - Z.of_N days * (24 * 60 * 60 * 1000000))%Z in
  (forall ns action r d, view_result (view_of (tables s')) ns action = Some r ->
     result_metadata r = Some d \/ output_root r = Some d ->
     view_blob (view_of (tables s')) ns d = true) /\
  (forall key row, namespace_blobs (tables s') !! key = Some row <->
     namespace_blobs (tables s) !! key = Some row /\ (cutoff <= created_at row)%Z) /\
  (forall key row, action_manifests (tables s') !! key = Some row <->
     action_manifests (tables s) !! key = Some row /\ (cutoff <= updated_at row)%Z) /\
  (forall key v, action_results (tables s') !! key = Some v <->
     action_results (tables s) !! key = Some v /\ dangling (tables s') key.1.1.1 v = Ok false) /\
  out = mkSweepOutcome
    (rows_gone (namespace_blobs (tables s)) (namespace_blobs (tables s')))
    (rows_gone (action_results (tables s)) (action_results (tables s')))
    (rows_gone (action_manifests (tables s)) (action_manifests (tables s'))).
Proof.
  pose proof (sweep_shrinks _ _ _ _ Hsweep) as Hshrink.
  apply sweep_spec in Hsweep as [[_ [e He]]|(db1 & db2 & n1 & n2 & n3 & E1 & E2 & E3 & Hout)];
    [done|]. cbv zeta in *. set (now := exec_now (execution (queries s))) in *.
  change (24 * 60 * 60 * 1000000)%Z with DAY.
  injection E1 as <- <-. pose proof (delete_dangling_counts _ _ _ _ E2) as Hn2.
  apply delete_dangling_spec in E2 as (Hb & Hm & Hr).
  assert (action_results (tables s') = action_results db2 /\
    namespace_blobs (tables s') = namespace_blobs db2) as [Hra Hba]
    by (by injection E3 as <- _).
  assert (action_manifests (tables s') = filter (fun kv => ~ (updated_at kv.2 < now - Z.of_N days * DAY)%Z)
      (action_manifests (tables s)) /\
    n3 = rows_gone (action_manifests (tables s)) (action_manifests (tables s'))) as [Hma Hn3].
  { change (action_manifests (tables s)) with (action_manifests (with_blobs (fun _ => filter (fun kv =>
      ~ (created_at kv.2 < now - Z.of_N days * DAY)%Z) (namespace_blobs (tables s))) (tables s))).
    rewrite <-Hm. by injection E3 as <- <-. }
  assert (forall ns v, dangling (tables s') ns v = Ok false <->
    dangling (with_blobs (fun _ => filter (fun kv => ~ (created_at kv.2 < now - Z.of_N days * DAY)%Z)
      (namespace_blobs (tables s))) (tables s)) ns v = Ok false) as Hd.
  { intros ns v. unfold dangling, blob_absent. rewrite Hba, Hb. done. }
  split; [|split; [|split; [|split]]].
  - intros ns action r d Hv Href. cbn in Hv. destruct (representable action); [|done].
    apply bind_Some in Hv as (v & Hv & Hdec).
    assert (action_results (tables s) !! key_of ns action = Some v) as Hv0
      by (eapply lookup_weaken; [exact Hv|apply Hshrink]).
    destruct Hwf as [Hwr _ _]. destruct (Hwr _ _ Hv0) as (_ & r' & Hr').
    rewrite (decoded_value_ok _ _ Hr') in Hdec. injection Hdec as <-.
    eapply dangling_field_spec; [exact Hr'| |exact Href].
    apply Hd. rewrite Hra in Hv. by apply Hr in Hv as [_ Hv].
  - intros key row. rewrite Hba, Hb. cbn. rewrite map_lookup_filter_Some. cbn. by rewrite Z.nlt_ge.
  - intros key row. rewrite Hma, map_lookup_filter_Some. cbn. by rewrite Z.nlt_ge.
  - intros key v. rewrite Hra, Hr, Hd. done.
  - destruct Hout as [[= ->]|[e [=]]]. rewrite Hn3, Hn2, Hra, Hba, Hb. done.
Qed.

(** A row's age follows the object's: an upload that wrote the object
    starts it at the time of the query, one that found it already there keeps
    the age the row had, and only a namespace's first row for an object that
    was already there starts young. Reads never change it. *)
Theorem register_blob_age ns d stored s s' :
  register_blob ns d stored s = (s', Ok tt) ->
  exists now row, namespace_blobs (tables s') !! key_of ns d = Some row /\
    last_accessed_at row = now /\
    created_at row =
      match stored, namespace_blobs (tables s) !! key_of ns d with
      | PutAlreadyExists, Some old => created_at old
      | _, _ => now
      end.
Proof.
  intros [[_ [e He]]|(now & tb & a & Ha & -> & _)]%execute_spec; [done|].
  unfold upsert_blob in Ha. apply result_bind_ok in Ha as (_ & _ & [= <- <-]).
  exists now. eexists. cbn. rewrite lookup_insert_eq. split; [done|].
  destruct (namespace_blobs (tables s) !! key_of ns d), stored; done.
Qed.

End Postgres.
