(* ===== verification/PostgresSessions.v ===== *)
(** * Operations on the database at the same time (src/metadata/postgres.rs)

    Replicas and their requests share one Postgres server. Each statement runs
    on its own, at READ COMMITTED, and others run between those of one
    operation: [commit] is two statements, [sweep] a transaction of three. What a
    transaction has deleted stays in everyone else's sight until it commits, and
    whoever would write such a row waits for it. A statement takes its rows at
    once; a deadlock between the rows of two statements, which the server ends by
    failing one of them, is one of its faults. *)
From S2P Require Import Prelude Str Protocol Api Json Records Metadata PostgresMetadata.

Local Open Scope string_scope.
Local Open Scope mbx_scope.

Module Sessions.
Section Sessions.
Context `{Records} `{!Database}.
Import PostgresMetadata.

(** A sweep's open transaction: its [now()], and the rows it has deleted. *)
Record Transaction := mkTransaction {
  begun : Z;
  gone_results : gset Key;
  gone_blobs : gset Key;
  gone_manifests : gset Key;
}.

Definition keep_out {V : Type} (gone : gset Key) (rows : gmap Key V) : gmap Key V :=
  filter (fun kv => kv.1 ∉ gone) rows.

(** The tables as the transaction itself sees them, and leaves them. *)
Definition without (tx : Transaction) (db : Tables) : Tables :=
  mkTables (keep_out (gone_results tx) (action_results db)) (keep_out (gone_blobs tx) (namespace_blobs db))
    (keep_out (gone_manifests tx) (action_manifests db)).

(** After one more of its statements left it [work]. *)
Definition deleted (tx : Transaction) (db work : Tables) : Transaction :=
  mkTransaction (begun tx)
    (gone_results tx ∪ (dom (action_results (without tx db)) ∖ dom (action_results work)))
    (gone_blobs tx ∪ (dom (namespace_blobs (without tx db)) ∖ dom (namespace_blobs work)))
    (gone_manifests tx ∪ (dom (action_manifests (without tx db)) ∖ dom (action_manifests work))).

(** How far an operation is. *)
Inductive Stage :=
  | Waiting
  | Conflicted (encoded : Value)
  | Deleting (tx : Transaction) (affected : list N)
  | Answered (r : result StoreError MetaAnswer)
  | Lost.

Record Session := mkSession { operation : MetaOp; stage : Stage }.

Record Server := mkServer { server : t; sessions : gmap N Session }.

(** ** Locks *)

(** Whether an open transaction has deleted the row. *)
Definition locked (gone : Transaction -> gset Key) (l : gmap N Session) (key : Key) : Prop :=
  map_Exists (fun _ s => match stage s with Deleting tx _ => key ∈ gone tx | _ => False end) l.

(** An operation waits as long as a row it would write is locked, and then takes
    all its rows at once. The server takes those of [OpTouch] one after another,
    so that two operations can come to wait for each other; it then fails one of
    them, which here is a statement's fault. *)
Definition waits (l : gmap N Session) (op : MetaOp) : Prop :=
  match op with
  | OpRegister namespace digest _ | OpForget namespace digest => locked gone_blobs l (key_of namespace digest)
  | OpTouch namespace digests =>
      Exists (fun row => let '(algorithm, hash, size) := row in
        locked gone_blobs l (namespace, algorithm, hash, size)) (requested_rows (representable_digests digests))
  | OpCommit namespace action _ => locked gone_results l (key_of namespace action)
  | OpCommitManifest namespace key _ _ _ => locked gone_manifests l (key_of namespace key)
  | _ => False
  end.

(** And a sweep waits as long as another has deleted a row it would delete
    next: its statement, too, takes its rows when all of them are free, and a
    deadlock over them is its fault. *)
Definition unlocked (l : gmap N Session) (tx tx' : Transaction) : Prop :=
  set_Forall (fun key => ~ locked gone_results l key) (gone_results tx' ∖ gone_results tx) /\
  set_Forall (fun key => ~ locked gone_blobs l key) (gone_blobs tx' ∖ gone_blobs tx) /\
  set_Forall (fun key => ~ locked gone_manifests l key) (gone_manifests tx' ∖ gone_manifests tx).

(** ** Statements *)

(** What an operation other than a sweep does first: all of it, but for a
    commit whose INSERT finds a row. *)
Definition first_statement (op : MetaOp) : M t StoreError (MetaAnswer + Value) :=
  match op with
  | OpCommit namespace action result =>
      encoded <~ m_lift (result_to_value result);
      inserted <~ execute (insert_result namespace action encoded);
      m_ret (if (inserted =? 1)%N then inl (AnsCommit CommitCreated) else inr encoded)
  | op => a <~ run_op op; m_ret (inl a)
  end.

(** [commit], after the conflict. *)
Definition compare_existing (namespace : string) (action : Digest) (encoded : Value)
  : M t StoreError CommitOutcome :=
  found <~ get namespace action;
  existing <~ m_lift (ok_or found (OtherError "action result disappeared after conflict"));
  existing_value <~ m_lift (result_to_value existing);
  m_ret (if decide (existing_value = encoded) then CommitAlreadyExists else CommitConflict).

Definition sweep_statements (older_than_days : N) : list (Statement N) :=
  [delete_old_blobs older_than_days; delete_dangling_results; delete_old_manifests older_than_days].

Definition after_first (r : result StoreError (MetaAnswer + Value)) : Stage :=
  match r with
  | Ok (inl a) => Answered (Ok a)
  | Ok (inr encoded) => Conflicted encoded
  | Err e => Answered (Err e)
  end.

Definition swept (affected : list N) : MetaAnswer :=
  match affected with
  | [blobs; results; manifests] => AnsSwept (mkSweepOutcome blobs results manifests)
  | _ => AnsSwept (mkSweepOutcome 0 0 0)
  end.

(** ** Steps

    A step in which an operation is done says so. *)
Definition Event : Type := N * MetaOp * result StoreError MetaAnswer.

Definition told (n : N) (op : MetaOp) (stage : Stage) : list Event :=
  match stage with Answered r => [(n, op, r)] | _ => [] end.

Definition is_sweep (op : MetaOp) : bool := match op with OpSweep _ => true | _ => false end.

Inductive session_step : list Event -> Server -> Server -> Prop :=
  | Ask n op s l :
      l !! n = None -> op_u64 op ->
      session_step [] (mkServer s l) (mkServer s (<[n := mkSession op Waiting]> l))
  | First n op s s' r l :
      l !! n = Some (mkSession op Waiting) -> is_sweep op = false -> ~ waits l op ->
      first_statement op s = (s', r) ->
      session_step (told n op (after_first r)) (mkServer s l)
        (mkServer s' (<[n := mkSession op (after_first r)]> l))
  | Compare n namespace action result encoded s s' r l :
      l !! n = Some (mkSession (OpCommit namespace action result) (Conflicted encoded)) ->
      answer AnsCommit (compare_existing namespace action encoded) s = (s', r) ->
      session_step [(n, OpCommit namespace action result, r)] (mkServer s l)
        (mkServer s' (<[n := mkSession (OpCommit namespace action result) (Answered r)]> l))
  | BeginSweep n days now tables s s' l :
      l !! n = Some (mkSession (OpSweep days) Waiting) -> begin_transaction s = (s', Ok (now, tables)) ->
      session_step [] (mkServer s l)
        (mkServer s' (<[n := mkSession (OpSweep days) (Deleting (mkTransaction now ∅ ∅ ∅) [])]> l))
  | BeginFails n days e s s' l :
      l !! n = Some (mkSession (OpSweep days) Waiting) -> begin_transaction s = (s', Err e) ->
      session_step [(n, OpSweep days, Err e)] (mkServer s l)
        (mkServer s' (<[n := mkSession (OpSweep days) (Answered (Err e))]> l))
  | Delete n days tx affected statement work rows s s' l :
      l !! n = Some (mkSession (OpSweep days) (Deleting tx affected)) ->
      sweep_statements days !! length affected = Some statement ->
      in_transaction (begun tx) statement (without tx (tables s)) s = (s', Ok (work, rows)) ->
      unlocked (delete n l) tx (deleted tx (tables s) work) ->
      session_step [] (mkServer s l)
        (mkServer s' (<[n := mkSession (OpSweep days)
          (Deleting (deleted tx (tables s) work) (affected ++ [rows]))]> l))
  | DeleteFails n days tx affected statement e s s' l :
      l !! n = Some (mkSession (OpSweep days) (Deleting tx affected)) ->
      sweep_statements days !! length affected = Some statement ->
      in_transaction (begun tx) statement (without tx (tables s)) s = (s', Err e) ->
      session_step [(n, OpSweep days, Err e)] (mkServer s l)
        (mkServer s' (<[n := mkSession (OpSweep days) (Answered (Err e))]> l))
  | CommitSweep n days tx affected s s' r l :
      l !! n = Some (mkSession (OpSweep days) (Deleting tx affected)) -> length affected = 3 ->
      (commit_transaction (without tx (tables s)) ;~ m_ret (swept affected)) s = (s', r) ->
      session_step [(n, OpSweep days, r)] (mkServer s l)
        (mkServer s' (<[n := mkSession (OpSweep days) (Answered r)]> l))
  | Abandon n op st s l :
      l !! n = Some (mkSession op st) -> (forall r, st <> Answered r) ->
      session_step [] (mkServer s l) (mkServer s (<[n := mkSession op Lost]> l)).

Inductive session_run : list Event -> Server -> Server -> Prop :=
  | RunEnds s : session_run [] s s
  | RunStep es es' s1 s2 s3 :
      session_step es s1 s2 -> session_run es' s2 s3 -> session_run (es ++ es') s1 s3.

Definition event_op (e : Event) : MetaOp := e.1.2.
Definition event_answer (e : Event) : result StoreError MetaAnswer := e.2.

(** What was said to operation [n]. *)
Definition said_to (n : N) (es : list Event) : list Event := filter (fun e => e.1.1 = n) es.

(** What a moment of it shows. *)
Definition said (n : N) (s : option Session) : list Event :=
  match s with Some s => told n (operation s) (stage s) | None => [] end.

(** ** A scheduler

    What is next of operation [n]: nothing, when it waits or is over. *)
#[export] Instance locked_dec gone l key : Decision (locked gone l key).
Proof. apply map_Exists_dec. intros n [op []]; cbn; apply _. Defined.

#[export] Instance waits_dec l op : Decision (waits l op).
Proof. destruct op; cbn; apply _. Defined.

#[export] Instance unlocked_dec l tx tx' : Decision (unlocked l tx tx').
Proof. unfold unlocked. apply _. Defined.

Definition next_of_sweep (n : N) (days : N) (tx : Transaction) (affected : list N) (s : t) (l : gmap N Session)
  : option (list Event * Server) :=
  let op := OpSweep days in
  match sweep_statements days !! length affected with
  | Some statement =>
      match in_transaction (begun tx) statement (without tx (tables s)) s with
      | (s', Ok (work, rows)) =>
          let tx' := deleted tx (tables s) work in
          if decide (unlocked (delete n l) tx tx')
          then Some ([], mkServer s' (<[n := mkSession op (Deleting tx' (affected ++ [rows]))]> l))
          else None
      | (s', Err e) => Some ([(n, op, Err e)], mkServer s' (<[n := mkSession op (Answered (Err e))]> l))
      end
  | None =>
      if (length affected =? 3)%nat
      then
        let '(s', r) := (commit_transaction (without tx (tables s)) ;~ m_ret (swept affected)) s in
        Some ([(n, op, r)], mkServer s' (<[n := mkSession op (Answered r)]> l))
      else None
  end.

Definition next (n : N) (server : Server) : option (list Event * Server) :=
  let '(mkServer s l) := server in
  match l !! n with
  | Some (mkSession (OpSweep days) Waiting) =>
      match begin_transaction s with
      | (s', Ok (now, _)) =>
          Some ([], mkServer s' (<[n := mkSession (OpSweep days) (Deleting (mkTransaction now ∅ ∅ ∅) [])]> l))
      | (s', Err e) =>
          Some ([(n, OpSweep days, Err e)], mkServer s' (<[n := mkSession (OpSweep days) (Answered (Err e))]> l))
      end
  | Some (mkSession op Waiting) =>
      if decide (waits l op) then None
      else
        let '(s', r) := first_statement op s in
        Some (told n op (after_first r), mkServer s' (<[n := mkSession op (after_first r)]> l))
  | Some (mkSession (OpCommit namespace action result) (Conflicted encoded)) =>
      let op := OpCommit namespace action result in
      let '(s', r) := answer AnsCommit (compare_existing namespace action encoded) s in
      Some ([(n, op, r)], mkServer s' (<[n := mkSession op (Answered r)]> l))
  | Some (mkSession (OpSweep days) (Deleting tx affected)) => next_of_sweep n days tx affected s l
  | _ => None
  end.

Lemma next_of_sweep_step n days tx affected s l es server' :
  l !! n = Some (mkSession (OpSweep days) (Deleting tx affected)) ->
  next_of_sweep n days tx affected s l = Some (es, server') -> session_step es (mkServer s l) server'.
Proof.
  intros Hn. unfold next_of_sweep. destruct (sweep_statements days !! length affected) as [statement|] eqn:Hst.
  - destruct (in_transaction _ _ _ s) as [s' [[work rows]|e]] eqn:Hin.
    + case_decide as Hun; [|done]. intros [= <- <-]. by eapply Delete.
    + intros [= <- <-]. by eapply DeleteFails.
  - destruct (Nat.eqb_spec (length affected) 3) as [Hlen|]; [|done].
    destruct ((commit_transaction _ ;~ _) s) as [s' r] eqn:Hc. intros [= <- <-]. by eapply CommitSweep.
Qed.

Lemma next_step n server es server' : next n server = Some (es, server') -> session_step es server server'.
Proof.
  destruct server as [s l]. cbn [next]. destruct (l !! n) as [[op st]|] eqn:Hn; [|done].
  assert (is_sweep op = false -> (if decide (waits l op) then None else
    let '(s', r) := first_statement op s in
    Some (told n op (after_first r), mkServer s' (<[n := mkSession op (after_first r)]> l))) = Some (es, server') ->
    st = Waiting -> session_step es (mkServer s l) server') as Hfirst.
  { intros Hsw Hf ->. case_decide as Hw; [done|]. destruct (first_statement op s) as [s' r] eqn:Hs.
    injection Hf as <- <-. by apply First. }
  destruct st as [|encoded|tx affected|r|]; [| | |by destruct op..].
  - destruct op as [| | | | | | | | |days]; intros Hnext; [by apply Hfirst..|].
    destruct (begin_transaction s) as [s' [[now work]|e]] eqn:Hb; injection Hnext as <- <-.
    + by eapply BeginSweep.
    + by eapply BeginFails.
  - destruct op; try done. destruct (answer _ _ s) as [s' q] eqn:Hc. intros [= <- <-]. by eapply Compare.
  - destruct op; try done. by apply next_of_sweep_step.
Qed.
End Sessions.
End Sessions.
