(* ===== verification/SessionsProofs.v ===== *)
(** * What interleaved operations on the database add up to

    However the statements of operations interleave, the operations are
    answered as if each had run at one moment between its beginning and its
    answer; and a sweep takes only what was old. *)
From S2P Require Import Prelude Str Protocol Api Json Records Metadata PostgresMetadata PostgresProofs PostgresSessions.

Local Open Scope string_scope.
Local Open Scope mbx_scope.

Import PostgresMetadata Sessions.

(** ** The machine does not tell equal contents apart *)

Section Machine.
Context `{Records}.

Lemma filter_visible (v v' : MetaView) ns ds :
  v ≡ v' -> List.filter (view_blob v ns) ds = List.filter (view_blob v' ns) ds.
Proof. intros (Hb & _ & _). apply List.filter_ext. intros d. apply Hb. Qed.

Lemma omap_results (v v' : MetaView) ns (ds : list Digest) :
  v ≡ v' -> omap (view_result v ns) ds = omap (view_result v' ns) ds.
Proof. intros (_ & Hr & _). induction ds as [|d ds IH]; [done|]. cbn. rewrite Hr. by destruct (view_result v' ns d); rewrite IH. Qed.

Lemma succeeds_equiv v v' op a v1 :
  v ≡ v' -> succeeds v op a v1 -> exists v1', succeeds v' op a v1' /\ v1 ≡ v1'.
Proof.
  intros Hv Hs. pose proof Hv as (Hb & Hr & Hm). destruct Hs.
  - rewrite (filter_visible _ v') by done. eexists. split; [constructor|done].
  - eexists. split; [constructor|by rewrite Hv].
  - eexists. split; [constructor|by rewrite Hv].
  - eexists. split; [constructor|done].
  - rewrite Hr. eexists. split; [constructor|done].
  - rewrite (omap_results _ v') by done. eexists. split; [constructor|done].
  - eexists. split; [constructor; by rewrite <-Hr|by rewrite Hv].
  - eexists. split; [constructor; by rewrite <-Hr|done].
  - eexists. split; [econstructor; [by rewrite <-Hr|done]|done].
  - rewrite Hm. eexists. split; [constructor|done].
  - eexists. split; [constructor; by rewrite <-Hm|by rewrite Hv].
  - eexists. split; [econstructor; by rewrite <-Hm|by rewrite Hv].
  - eexists. split; [constructor; by rewrite <-Hm|done].
  - eexists. split; [constructor|done]. match goal with Hs : view_shrinks _ _ |- _ => destruct Hs as (A & B & C) end.
    split_and!; intros; [rewrite <-Hb|rewrite <-Hr|rewrite <-Hm]; auto.
Qed.

Lemma spec_step_equiv v v' op r v1 : v ≡ v' -> spec_step v op r v1 -> spec_step v' op r v1.
Proof.
  intros Hv. destruct r as [a|e]; cbn.
  - intros (v2 & Hs & Hv2). apply (succeeds_equiv _ v') in Hs as (v3 & Hs & Hv3); [|done].
    exists v3. split; [done|by rewrite Hv2].
  - intros [Hsame|(a & v2 & Hs & Hv2)]; [left; by rewrite Hsame|right].
    apply (succeeds_equiv _ v') in Hs as (v3 & Hs & Hv3); [|done]. exists a, v3. split; [done|by rewrite Hv2].
Qed.

Lemma spec_run_equiv v v' ops rs v1 : v ≡ v' -> spec_run v ops rs v1 -> spec_run v' ops rs v1.
Proof.
  intros Hv Hrun. destruct Hrun as [v v1 Hend|v op r v2 ops rs v1 Hstep Hrun].
  - constructor. by rewrite Hend.
  - econstructor; [by eapply spec_step_equiv|done].
Qed.
End Machine.

Section Sessions.
Context `{RecordsLaws} `{!Database}.

(** ** Transactions *)

Lemma keep_out_subseteq {V : Type} (gone : gset Key) (rows : gmap Key V) : keep_out gone rows ⊆ rows.
Proof. apply map_filter_subseteq. Qed.

Lemma without_shrinks tx db : tables_shrink (without tx db) db.
Proof. split_and!; apply keep_out_subseteq. Qed.

(** ** One step *)

Definition view_of_server (s : Server) : MetaView := view_of (tables (server s)).

(** What an operation in progress remembers is true of it. *)
Definition session_ok (s : Session) : Prop :=
  op_u64 (operation s) /\
  match stage s with
  | Conflicted encoded =>
      exists ns d r, operation s = OpCommit ns d r /\ result_to_value r = Ok encoded
  | Deleting _ _ => is_sweep (operation s) = true
  | _ => True
  end.

Record server_inv (s : Server) : Prop := {
  server_wf : db_wf (tables (server s));
  server_sessions : map_Forall (fun _ => session_ok) (sessions s);
}.

(** The steps that say nothing change nothing to be seen, and the others do
    what their operation does. *)
Definition accounted (es : list Event) (v v' : MetaView) : Prop :=
  match es with
  | [] => v' ≡ v
  | [e] => spec_step v (event_op e) (event_answer e) v'
  | _ => False
  end.

Lemma first_other op s s' r :
  (forall ns d result, op <> OpCommit ns d result) -> first_statement op s = (s', r) ->
  exists q, run_op op s = (s', q) /\ r = match q with Ok a => Ok (inl a) | Err e => Err e end.
Proof.
  intros Hne Hf. assert ((a <~ run_op op; m_ret (inl a)) s = (s', r)) as Hrun.
  { destruct op; [..|by destruct (Hne ns d r0)|done|done|done]; exact Hf. }
  unfold m_bind, m_ret in Hrun. destruct (run_op op s) as [s1 [a|e]]; injection Hrun as <- <-; eauto.
Qed.

Lemma first_kept n op s s' r :
  db_wf (tables s) -> op_u64 op -> first_statement op s = (s', r) ->
  db_wf (tables s') /\ session_ok (mkSession op (after_first r)) /\
  accounted (told n op (after_first r)) (view_of (tables s)) (view_of (tables s')).
Proof.
  intros Hwf Hu Hf. assert ((exists ns d result, op = OpCommit ns d result) \/
    forall ns d result, op <> OpCommit ns d result) as [(ns & d & result & ->)|Hother]
    by (destruct op; naive_solver).
  - cbn [first_statement] in Hf. unfold m_bind, m_lift, m_ret in Hf.
    destruct (result_to_value result) as [v|e] eqn:Hv;
      [|injection Hf as <- <-; split; [done|]; split; [done|by left]].
    destruct (execute _ s) as [s1 q] eqn:Hx.
    pose proof (insert_result_spec _ _ _ _ _ _ _ Hwf Hu Hv Hx) as [Hwf1 Hq]. cbn zeta in Hq.
    destruct q as [rows|e].
    + destruct (rows =? 1)%N; injection Hf as <- <-; (split; [done|]).
      * destruct Hq as [Hn Hnew]. split; [done|]. cbn. eexists. split; [by constructor|done].
      * split; [split; [done|]; cbn; by eauto 10|]. apply Hq.
    + injection Hf as <- <-. split; [done|]. split; [done|]. cbn. destruct Hq as [Hsame|[Hn Hnew]]; [by left|right]. do 2 eexists. split; [by constructor|done].
  - apply first_other in Hf as (q & Hrun & ->); [|done].
    apply (run_op_refines op) in Hrun as [Hwf' Hs]; [|done..].
    split; [done|]. by destruct q as [a|e].
Qed.

Lemma compare_kept ns d result encoded s s' r :
  db_wf (tables s) -> digest_u64 d -> result_to_value result = Ok encoded ->
  answer AnsCommit (compare_existing ns d encoded) s = (s', r) ->
  tables s' = tables s /\ spec_step (view_of (tables s)) (OpCommit ns d result) r (view_of (tables s)).
Proof.
  intros Hwf Hu Hv (q & Hc & ->)%answer_inv. unfold compare_existing, m_bind, m_lift, m_ret in Hc.
  destruct (get ns d s) as [s1 g] eqn:Hg. apply get_row_spec in Hg as [Ht Hg]; [|done..].
  destruct g as [o|e]; [|injection Hc as <- <-; split; [done|by left]].
  specialize (Hg o eq_refl). destruct o as [other|]; cbn [ok_or] in Hc;
    [|injection Hc as <- <-; split; [done|by left]].
  destruct (result_to_value other) as [v'|e] eqn:Hv'; injection Hc as <- <-; (split; [done|]); [|by left].
  case_decide as Heq; (eexists; split; [|done]).
  - subst v'. constructor. rewrite <-Hg. apply result_value_roundtrip in Hv, Hv'. congruence.
  - econstructor; [by rewrite <-Hg|]. intros ->. congruence.
Qed.

Lemma begin_tables s s' r : begin_transaction s = (s', r) -> tables s' = tables s.
Proof. unfold begin_transaction. by intros [= <- _]. Qed.

Lemma sweep_committed tx affected s s' r :
  (commit_transaction (without tx (tables s)) ;~ m_ret (swept affected)) s = (s', r) ->
  (tables s' = tables s \/ tables s' = without tx (tables s)) /\
  forall a, r = Ok a -> a = swept affected /\ tables s' = without tx (tables s).
Proof.
  unfold commit_transaction, m_bind, m_ret. destruct (execute _ s) as [s1 q] eqn:Hx.
  apply execute_spec in Hx as [[Ht [e ->]]|(now & tb & [] & [= <-] & Ht & Hq)].
  - intros [= <- <-]. split; [by left|done].
  - destruct Hq as [-> | [e ->]]; intros [= <- <-]; (split; [by right|]); [by intros a [= <-]|done].
Qed.

Lemma swept_is affected : exists out, swept affected = AnsSwept out.
Proof. destruct affected as [|? [|? [|? [|]]]]; cbn; eauto. Qed.

Lemma sweep_spec_step days tx affected s s' r :
  (commit_transaction (without tx (tables s)) ;~ m_ret (swept affected)) s = (s', r) ->
  spec_step (view_of (tables s)) (OpSweep days) r (view_of (tables s')).
Proof.
  intros [Hor Hok]%sweep_committed. pose proof (shrink_view _ _ (without_shrinks tx (tables s))) as Hs.
  destruct r as [a|e].
  - destruct (Hok a eq_refl) as [-> ->]. destruct (swept_is affected) as [out ->].
    eexists. split; [by constructor|done].
  - destruct Hor as [-> | ->]; [by left|right]. exists (AnsSwept (mkSweepOutcome 0 0 0)), (view_of (without tx (tables s))).
    split; [by constructor|done].
Qed.

Lemma session_step_kept es s s' :
  session_step es s s' -> server_inv s ->
  server_inv s' /\ accounted es (view_of_server s) (view_of_server s').
Proof.
  intros Hstep [Hwf Hall]. unfold view_of_server.
  destruct Hstep as [n op s l Hn Hu|n op s s' r l Hn Hsw Hw Hf|n ns d result encoded s s' r l Hn Hc
    |n days now tb s s' l Hn Hb|n days e s s' l Hn Hb|n days tx affected statement work rows s s' l Hn Hst Hd Hun
    |n days tx affected statement e s s' l Hn Hst Hd|n days tx affected s s' r l Hn Hlen Hc|n op st s l Hn Hst];
    cbn [server sessions] in *; try (pose proof (map_Forall_lookup_1 _ _ _ _ Hall Hn) as [Hu Hok]; cbn in Hu, Hok).
  - split; [|done]. split; [done|]. by apply map_Forall_insert_2.
  - apply (first_kept n) in Hf as (Hwf' & Hs & Ha); [|done..]. split; [|done].
    split; [done|]. by apply map_Forall_insert_2.
  - destruct Hok as (? & ? & ? & [= <- <- <-] & Hv). eapply compare_kept in Hc as [Ht Hs]; [|done..].
    rewrite Ht. split; [|done]. split; cbn; [by rewrite Ht|]. by apply map_Forall_insert_2.
  - apply begin_tables in Hb as Ht. rewrite Ht. split; [|done]. split; cbn; [by rewrite Ht|].
    by apply map_Forall_insert_2.
  - apply begin_tables in Hb as Ht. rewrite Ht. split; [|by left]. split; cbn; [by rewrite Ht|].
    by apply map_Forall_insert_2.
  - apply in_transaction_spec in Hd as [Ht _]. rewrite Ht. split; [|done]. split; cbn; [by rewrite Ht|].
    by apply map_Forall_insert_2.
  - apply in_transaction_spec in Hd as [Ht _]. rewrite Ht. split; [|by left]. split; cbn; [by rewrite Ht|].
    by apply map_Forall_insert_2.
  - split; [|by eapply sweep_spec_step]. split; cbn; [|by apply map_Forall_insert_2].
    apply sweep_committed in Hc as [[-> | ->] _]; [done|]. eapply shrink_wf; [apply without_shrinks|done].
  - split; [|done]. split; [done|]. by apply map_Forall_insert_2.
Qed.

(** ** Runs *)

Lemma session_run_kept es s s' :
  session_run es s s' -> server_inv s ->
  server_inv s' /\ spec_run (view_of_server s) (map event_op es) (map event_answer es) (view_of_server s').
Proof.
  induction 1 as [s|es es' s1 s2 s3 Hstep Hrun IH]; intros Hinv; [split; [done|by constructor]|].
  apply session_step_kept in Hstep as [Hinv2 Ha]; [|done]. destruct (IH Hinv2) as [Hinv3 Hspec].
  split; [done|]. destruct es as [|e [|]]; cbn in *; [|by econstructor|done].
  by eapply spec_run_equiv; [symmetry|].
Qed.

Lemma said_step n es s s' :
  session_step es s s' -> said n (sessions s' !! n) = (said n (sessions s !! n) ++ said_to n es)%list.
Proof.
  intros Hstep.
  assert (forall m op st st' (l : gmap N Session) es',
    l !! m = Some (mkSession op st) -> told m op st = [] -> es' = told m op st' ->
    said n (<[m := mkSession op st']> l !! n) = (said n (l !! n) ++ said_to n es')%list) as Hgo.
  { intros m op st st' l es' Hm Hold ->. destruct (decide (m = n)) as [->|Hne].
    - rewrite lookup_insert_eq, Hm. cbn. rewrite Hold. cbn. unfold said_to, told.
      destruct st'; cbn; [done..| |done]. by rewrite decide_True.
    - rewrite lookup_insert_ne by done. unfold said_to, told.
      destruct st'; cbn; rewrite ?app_nil_r; [done..| |done]. rewrite decide_False by done. by rewrite app_nil_r. }
  destruct Hstep as [m op s l Hm Hu|m op s s' r l Hm Hsw Hw Hf|m ns d result encoded s s' r l Hm Hc
    |m days now tb s s' l Hm Hb|m days e s s' l Hm Hb|m days tx affected statement work rows s s' l Hm Hst Hd Hun
    |m days tx affected statement e s s' l Hm Hst Hd|m days tx affected s s' r l Hm Hlen Hc|m op st s l Hm Hst];
    cbn [sessions]; try (by eapply Hgo).
  - cbn. rewrite app_nil_r. destruct (decide (m = n)) as [->|Hne]; [by rewrite lookup_insert_eq, Hm|by rewrite lookup_insert_ne].
  - eapply Hgo; [exact Hm| |done]. destruct st; cbn; try done. by destruct (Hst r).
Qed.

Lemma said_run n es s s' :
  session_run es s s' -> said n (sessions s' !! n) = (said n (sessions s !! n) ++ said_to n es)%list.
Proof.
  induction 1 as [s|es es' s1 s2 s3 Hstep Hrun IH]; [by rewrite app_nil_r|].
  rewrite IH, (said_step n _ _ _ Hstep). unfold said_to. by rewrite filter_app, app_assoc.
Qed.

(** C27. However the statements of any operations interleave, those of commits and
    sweeps included, with any faults of the database and clients going away
    between any two: the operations are answered, and leave the tables, as if each
    had run in one piece at the moment it was done, a failed one having taken
    effect as a whole or not at all; each is done at most once, and what it was
    told is what was answered then. *)
Theorem operations_linearize es s s' (Hwf : db_wf (tables (server s))) (Hnone : sessions s = ∅)
    (Hrun : session_run es s s') :
  db_wf (tables (server s')) /\
  spec_run (view_of_server s) (map event_op es) (map event_answer es) (view_of_server s') /\
  forall n op st, sessions s' !! n = Some (mkSession op st) ->
    said_to n es = match st with Answered r => [(n, op, r)] | _ => [] end.
Proof.
  apply session_run_kept in Hrun as Hkept; [|split; [done|rewrite Hnone; apply map_Forall_empty]].
  destruct Hkept as [[Hwf' _] Hspec]. split; [done|]. split; [done|]. intros n op st Hs.
  pose proof (said_run n _ _ _ Hrun) as Hsaid. rewrite Hs, Hnone, lookup_empty in Hsaid. symmetry. exact Hsaid.
Qed.

(** ** With nobody beside it *)

Lemma keep_out_more {V : Type} (gone : gset Key) (rows work : gmap Key V) :
  work ⊆ keep_out gone rows -> keep_out (gone ∪ (dom (keep_out gone rows) ∖ dom work)) rows = work.
Proof.
  intros Hsub. apply map_eq. intros key. apply option_eq. intros v. unfold keep_out at 1.
  rewrite map_lookup_filter_Some. cbn [fst]. split.
  - intros [Hv Hgone]. destruct (work !! key) as [v'|] eqn:Hw.
    + eapply lookup_weaken in Hw; [|exact Hsub]. apply map_lookup_filter_Some in Hw as [Hw _]. congruence.
    + destruct Hgone. destruct (decide (key ∈ gone)); [set_solver|]. apply elem_of_union_r, elem_of_difference.
      split; [|by apply not_elem_of_dom]. apply elem_of_dom. exists v. by apply map_lookup_filter_Some.
  - intros Hw. eapply lookup_weaken in Hsub as Hk; [|exact Hw]. apply map_lookup_filter_Some in Hk as [Hv Hg].
    split; [done|]. apply elem_of_dom_2 in Hw. cbn in Hg. set_solver.
Qed.

Lemma without_deleted tx db work :
  tables_shrink work (without tx db) -> without (deleted tx db work) db = work.
Proof.
  intros (Hr & Hb & Hm). destruct work as [wr wb wm]. unfold without, deleted. cbn in *.
  by rewrite !keep_out_more.
Qed.

Lemma without_nothing now db : without (mkTransaction now ∅ ∅ ∅) db = db.
Proof.
  destruct db. unfold without, keep_out. cbn.
  f_equal; (apply map_filter_id; intros; apply not_elem_of_empty).
Qed.

Lemma sweep_statement_shrinks days n statement now db work rows :
  sweep_statements days !! n = Some statement -> statement now db = Ok (work, rows) -> tables_shrink work db.
Proof.
  destruct n as [|[|[|n]]]; intros [= <-].
  - intros [= <- _]. split_and!; [done|apply map_filter_subseteq|done].
  - intros (Hb & Hm & Hr)%delete_dangling_spec. unfold tables_shrink. rewrite Hb, Hm. split_and!; [|done..].
    apply map_subseteq_spec. intros key v [Hv _]%Hr. done.
  - intros [= <- _]. split_and!; [done..|apply map_filter_subseteq].
Qed.

Definition only (n : N) (op : MetaOp) (st : Stage) : gmap N Session := {[n := mkSession op st]}.

Lemma only_next n op st st' : <[n := mkSession op st']> (only n op st) = only n op st'.
Proof. apply insert_singleton_eq. Qed.

Lemma only_step n op st st' es s s' :
  session_step es (mkServer s (only n op st)) (mkServer s' (<[n := mkSession op st']> (only n op st))) ->
  session_step es (mkServer s (only n op st)) (mkServer s' (only n op st')).
Proof. by rewrite only_next. Qed.

Lemma only_at n op st : only n op st !! n = Some (mkSession op st).
Proof. apply lookup_singleton_eq. Qed.

Lemma only_unlocked gone n op key : ~ locked gone (only n op Waiting) key.
Proof. intros (m & s & Hm & Hs). unfold only in Hm. apply lookup_singleton_Some in Hm as [_ <-]. exact Hs. Qed.

Lemma only_free n op : ~ waits (only n op Waiting) op.
Proof.
  destruct op; cbn; try (apply only_unlocked); try tauto. intros (row & _ & Hrow)%Exists_exists.
  destruct row as [[a h] sz]. by apply only_unlocked in Hrow.
Qed.

Lemma nobody_unlocked n op st tx tx' : unlocked (delete n (only n op st)) tx tx'.
Proof.
  unfold only. rewrite delete_singleton_eq. split_and!; intros key _ (m & s & Hm & _); by rewrite lookup_empty in Hm.
Qed.

Lemma run_single es s1 s2 : session_step es s1 s2 -> session_run es s1 s2.
Proof. intros Hstep. rewrite <-(app_nil_r es). by eapply RunStep; [|constructor]. Qed.

Lemma commit_in_parts ns d result s :
  commit ns d result s =
  match first_statement (OpCommit ns d result) s with
  | (s1, Ok (inl _)) => (s1, Ok CommitCreated)
  | (s1, Ok (inr encoded)) => compare_existing ns d encoded s1
  | (s1, Err e) => (s1, Err e)
  end.
Proof.
  unfold commit, first_statement, compare_existing, m_bind, m_lift, m_ret.
  destruct (result_to_value result) as [v|e]; [|done].
  destruct (execute (insert_result ns d v) s) as [s1 [rows|e]]; [|done]. by destruct (rows =? 1)%N.
Qed.

Lemma delete_alone n days tx affected statement s s1 work rows :
  sweep_statements days !! length affected = Some statement ->
  in_transaction (begun tx) statement (without tx (tables s)) s = (s1, Ok (work, rows)) ->
  let tx' := deleted tx (tables s) work in
  session_step [] (mkServer s (only n (OpSweep days) (Deleting tx affected)))
    (mkServer s1 (only n (OpSweep days) (Deleting tx' (affected ++ [rows])))) /\
  without tx' (tables s1) = work /\ begun tx' = begun tx.
Proof.
  intros Hst Hin tx'. pose proof Hin as [Ht Hout]%in_transaction_spec. specialize (Hout _ eq_refl).
  split; [|split; [|done]].
  - apply only_step.
    eapply Delete; [apply only_at|exact Hst|exact Hin|apply nobody_unlocked].
  - rewrite Ht. by apply without_deleted; eapply sweep_statement_shrinks.
Qed.

Lemma delete_fails_alone n days tx affected statement s s1 e :
  sweep_statements days !! length affected = Some statement ->
  in_transaction (begun tx) statement (without tx (tables s)) s = (s1, Err e) ->
  session_run [(n, OpSweep days, Err e)] (mkServer s (only n (OpSweep days) (Deleting tx affected)))
    (mkServer s1 (only n (OpSweep days) (Answered (Err e)))).
Proof.
  intros Hst Hin. apply run_single. apply only_step.
  by eapply DeleteFails; [apply only_at|..].
Qed.

(** The rest of a sweep, from its [k]-th statement on. *)
Definition rest_of_sweep (k : nat) (days : N) (now : Z) (work : Tables) (affected : list N) : M t StoreError MetaAnswer :=
  let fix go statements work affected :=
    match statements with
    | [] => commit_transaction work ;~ m_ret (swept affected)
    | statement :: statements =>
        step <~ in_transaction now statement work;
        go statements step.1 (affected ++ [step.2])%list
    end in
  go (drop k (sweep_statements days)) work affected.

Lemma rest_alone n days tx affected s s' r :
  length affected <= 3 ->
  rest_of_sweep (length affected) days (begun tx) (without tx (tables s)) affected s = (s', r) ->
  session_run [(n, OpSweep days, r)] (mkServer s (only n (OpSweep days) (Deleting tx affected)))
    (mkServer s' (only n (OpSweep days) (Answered r))).
Proof.
  intros Hle. remember (3 - length affected) as k eqn:Hk.
  revert tx affected s Hle Hk. induction k as [|k IH]; intros tx affected s Hle Hk.
  - assert (length affected = 3) as Hlen by lia. rewrite Hlen. cbn [rest_of_sweep drop sweep_statements].
    intros Hc. apply run_single. apply only_step.
    by eapply CommitSweep; [apply only_at|..].
  - destruct (lookup_lt_is_Some_2 (sweep_statements days) (length affected)) as [statement Hst]; [cbn; lia|].
    unfold rest_of_sweep. rewrite (drop_S _ statement) by done. unfold m_bind at 1.
    destruct (in_transaction _ _ _ s) as [s1 [[work rows]|e]] eqn:Hin; cbn [fst snd].
    + intros Hrest. apply (delete_alone n days _ affected) in Hin as (Hstep & Hwork & Hnow); [|done].
      eapply (RunStep []); [exact Hstep|]. apply IH; rewrite ?length_app; cbn [length]; [lia..|].
      rewrite Hwork, Hnow. unfold rest_of_sweep. by rewrite Nat.add_1_r.
    + intros [= <- <-]. by eapply delete_fails_alone.
Qed.

Lemma sweep_in_parts days s :
  answer AnsSwept (sweep days) s =
  (begun <~ begin_transaction; rest_of_sweep 0 days begun.1 begun.2 []) s.
Proof.
  unfold answer, sweep, rest_of_sweep. cbn [drop sweep_statements]. unfold m_bind, m_ret.
  destruct (begin_transaction s) as [s0 [[now work]|e]]; [|done]. cbn [fst snd].
  destruct (in_transaction now _ work s0) as [s1 [[w1 n1]|e]]; [|done]. cbn [fst snd].
  destruct (in_transaction now _ w1 s1) as [s2 [[w2 n2]|e]]; [|done]. cbn [fst snd].
  destruct (in_transaction now _ w2 s2) as [s3 [[w3 n3]|e]]; [|done]. cbn [fst snd].
  by destruct (commit_transaction w3 s3) as [s4 [[]|e]].
Qed.

(** With nobody beside it, an operation whose statements are run one by one
    leaves the database and gives the answer of the operation in one piece:
    deletions that are set aside until the commit are those of a transaction on
    its own copy of the tables. *)
Theorem operations_alone n op s s' r (Hrun : run_op op s = (s', r)) :
  session_run [(n, op, r)] (mkServer s (only n op Waiting)) (mkServer s' (only n op (Answered r))).
Proof.
  assert ((exists days, op = OpSweep days) \/ (exists ns d result, op = OpCommit ns d result) \/
    is_sweep op = false /\ forall ns d result, op <> OpCommit ns d result)
    as [[days ->]|[(ns & d & result & ->)|[Hsw Hne]]] by (destruct op; naive_solver).
  - cbn [run_op store Records.sweep] in Hrun. rewrite sweep_in_parts in Hrun. unfold m_bind at 1 in Hrun.
    destruct (begin_transaction s) as [s0 [[now work]|e]] eqn:Hb.
    + assert (tables s0 = work) as Hw.
      { unfold begin_transaction in Hb. destruct (exec_fault _); [|done..]. by injection Hb as <- _ <-. }
      eapply (RunStep []); [by eapply BeginSweep; [apply only_at|]|]. rewrite only_next.
      apply rest_alone; [cbn; lia|]. by rewrite without_nothing, Hw.
    + injection Hrun as <- <-. apply run_single. apply only_step.
      by eapply BeginFails; [apply only_at|].
  - cbn [run_op store Records.commit] in Hrun. apply answer_inv in Hrun as (q & Hc & ->).
    rewrite commit_in_parts in Hc. destruct (first_statement _ s) as [s1 x] eqn:Hf.
    assert (session_step (told n (OpCommit ns d result) (after_first x))
      (mkServer s (only n (OpCommit ns d result) Waiting))
      (mkServer s1 (only n (OpCommit ns d result) (after_first x)))) as Hstep.
    { apply only_step. apply First; [apply only_at|done|apply only_free|done]. }
    destruct x as [[a|encoded]|e]; cbn [after_first told] in Hstep.
    + assert (a = AnsCommit CommitCreated) as ->.
      { clear -Hf. unfold first_statement, m_bind, m_lift, m_ret in Hf. destruct (result_to_value result); [|done].
        destruct (execute _ s) as [s2 [rows|e]]; [|done]. destruct (rows =? 1)%N; [by injection Hf as _ <-|discriminate Hf]. }
      injection Hc as <- <-. by apply run_single.
    + eapply (RunStep []); [exact Hstep|]. apply run_single. apply only_step.
      eapply Compare; [apply only_at|]. unfold answer, m_bind, m_ret. rewrite Hc. by destruct q.
    + injection Hc as <- <-. by apply run_single.
  - apply run_single. apply only_step.
    assert (first_statement op s = (s', match r with Ok a => Ok (inl a) | Err e => Err e end)) as Hf.
    { assert (first_statement op = (a <~ run_op op; m_ret (inl a))) as -> by (destruct op; try done; by destruct (Hne ns d r0)).
      unfold m_bind, m_ret. rewrite Hrun. by destruct r. }
    destruct r; exact (First n op s s' _ _ (only_at n op Waiting) Hsw (only_free n op) Hf).
Qed.

(** It has been answered, or its client is gone. *)
Definition over (st : Stage) : bool := match st with Answered _ | Lost => true | _ => false end.
End Sessions.
