(* ===== verification/SweepProofs.v ===== *)
(** * What a sweep takes while others write (src/metadata/postgres.rs, [sweep])

    The rows an open sweep has deleted are nobody else's to write, so what it
    takes when it commits is what it saw: blobs that were old, and none of a
    result it decided to keep. *)
From S2P Require Import Prelude Str Protocol Api Json Records Metadata PostgresMetadata PostgresProofs.
From S2P Require Import StoreRefinement PostgresSessions SessionsProofs.

Local Open Scope string_scope.
Local Open Scope mbx_scope.

Import PostgresMetadata Sessions.

Create HintDb leaves.

Section Leaves.
Context `{Records} `{!Database}.

(** An operation after which [f] of the tables is what it was. *)
Definition leaves {X A} (f : Tables -> X) (c : M t StoreError A) : Prop :=
  forall s s' r, c s = (s', r) -> f (tables s') = f (tables s).

Lemma leaves_ret {X A} (f : Tables -> X) (a : A) : leaves f (m_ret a).
Proof. by intros s s' r [= <- _]. Qed.

Lemma leaves_lift {X A} (f : Tables -> X) (r : result StoreError A) : leaves f (m_lift r).
Proof. by intros s s' r' [= <- _]. Qed.

Lemma leaves_bind {X A B} (f : Tables -> X) (c : M t StoreError A) (k : A -> M t StoreError B) :
  leaves f c -> (forall a, leaves f (k a)) -> leaves f (m_bind c k).
Proof.
  intros Hc Hk s s' r. unfold m_bind. destruct (c s) as [s1 [a|e]] eqn:E; apply Hc in E.
  - intros Ha%Hk. congruence.
  - by intros [= <- _].
Qed.

Lemma leaves_execute {X A} (f : Tables -> X) (st : Statement A) :
  (forall now db tb a, st now db = Ok (tb, a) -> f tb = f db) -> leaves f (execute st).
Proof.
  intros Hst s s' r [[-> _]|(now & tb & a & Ha & -> & _)]%execute_spec; [done|]. by eapply Hst.
Qed.

Lemma leaves_reading {X A} (f : Tables -> X) (st : Statement A) (g : Tables -> A) :
  (forall now db, st now db = Ok (db, g db)) -> leaves f (execute st).
Proof. intros Hst. apply leaves_execute. intros now db tb a. rewrite Hst. by intros [= <- _]. Qed.

Lemma leaves_begin {X} (f : Tables -> X) : leaves f begin_transaction.
Proof. intros s s' r Hb. unfold begin_transaction in Hb. by injection Hb as <- _. Qed.
End Leaves.
#[export] Hint Resolve leaves_ret leaves_lift leaves_bind : leaves.

Section Sweeps.
Context `{RecordsLaws} `{!Database}.

(** ** Rows that are not an operation's to write *)

Definition blob_row (key : Key) (db : Tables) : option BlobRow := namespace_blobs db !! key.

Definition writes_blob (op : MetaOp) (key : Key) : Prop :=
  match op with
  | OpRegister namespace digest _ | OpForget namespace digest => key = key_of namespace digest
  | OpTouch namespace digests =>
      Exists (fun row => let '(algorithm, hash, size) := row in key = (namespace, algorithm, hash, size))
        (requested_rows (representable_digests digests))
  | _ => False
  end.

Lemma waits_for_row l op key : ~ waits l op -> locked gone_blobs l key -> ~ writes_blob op key.
Proof.
  intros Hw Hl Hwr. destruct op; cbn in *; try done; [by subst..|].
  apply Hw. eapply Exists_impl; [exact Hwr|]. by intros [[a h] sz] <-.
Qed.

Lemma select_leaves {X} (f : Tables -> X) ns ds :
  leaves f (visible_blobs ns ds) /\ leaves f (get_batch ns ds).
Proof.
  unfold visible_blobs, get_batch. destruct (representable_digests ds) as [|d l]; [auto with leaves|].
  split; (apply leaves_bind; [by eapply leaves_reading|auto with leaves]).
Qed.

Lemma get_leaves {X} (f : Tables -> X) ns d : leaves f (get ns d) /\ leaves f (get_manifest ns d).
Proof. split; (apply leaves_bind; [by eapply leaves_reading|auto with leaves]). Qed.

Lemma touch_leaves ns ds key :
  ~ writes_blob (OpTouch ns ds) key -> leaves (blob_row key) (touch_blobs ns ds).
Proof.
  intros Hw. unfold touch_blobs. cbn in Hw. destruct (representable_digests ds) as [|d l]; [auto with leaves|].
  apply leaves_execute. intros now db tb a [= <- _]. unfold blob_row. cbn. rewrite map_lookup_imap.
  destruct (namespace_blobs db !! key) as [row|]; [|done]. cbn. destruct key as [[[ns' a'] h] sz].
  destruct (bool_decide (ns' = ns)) eqn:Hns; [|done]. destruct (bool_decide ((a', h, sz) ∈ _)) eqn:Hin; [|done].
  apply bool_decide_eq_true in Hns as ->. apply bool_decide_eq_true in Hin.
  destruct Hw. apply Exists_exists. by exists (a', h, sz).
Qed.

Lemma write_leaves key :
  (forall ns d created, key <> key_of ns d -> leaves (blob_row key) (execute (upsert_blob ns d created))) /\
  (forall ns d, key <> key_of ns d -> leaves (blob_row key) (forget_blob ns d)) /\
  (forall ns d v, leaves (blob_row key) (execute (insert_result ns d v))) /\
  (forall ns d expected etag m, leaves (blob_row key) (commit_manifest ns d expected etag m)).
Proof.
  unfold blob_row. split_and!.
  - intros ns d created Hne. apply leaves_execute. intros now db tb a Ha. unfold upsert_blob in Ha.
    apply result_bind_ok in Ha as (_ & _ & [= <- _]). cbn. by apply lookup_insert_ne.
  - intros ns d Hne. apply leaves_execute. intros now db tb a [= <- _]. cbn. by apply lookup_delete_ne.
  - intros ns d v. apply leaves_execute. intros now db tb a Ha. unfold insert_result in Ha.
    apply result_bind_ok in Ha as (_ & _ & Ha). by destruct (action_results db !! _); injection Ha as <- _.
  - intros ns d expected etag m. apply leaves_bind; [auto with leaves|]. intros v.
    apply leaves_bind; [|auto with leaves]. destruct expected as [e|]; apply leaves_execute; intros now db tb a Ha.
    + unfold update_manifest in Ha. destruct (action_manifests db !! _) as [row|]; [|by injection Ha as <- _].
      by destruct (String.eqb _ _); injection Ha as <- _.
    + unfold insert_manifest in Ha. apply result_bind_ok in Ha as (_ & _ & Ha).
      by destruct (action_manifests db !! _); injection Ha as <- _.
Qed.

Lemma first_leaves op key :
  is_sweep op = false -> ~ writes_blob op key -> leaves (blob_row key) (first_statement op).
Proof.
  intros Hsw Hw. destruct (write_leaves key) as (Hup & Hfo & Hin & Hma).
  destruct op as [ns ds|ns d stored|ns d|ns ds|ns d|ns ds|ns d result|ns d|ns d expected etag m|]; [..|done];
    cbn [first_statement run_op] in *; unfold answer;
    try (apply leaves_bind; [|auto with leaves]; apply leaves_bind; [|auto with leaves]).
  - apply select_leaves.
  - by apply Hup.
  - by apply Hfo.
  - by apply touch_leaves.
  - apply get_leaves.
  - apply select_leaves.
  - apply leaves_bind; [auto with leaves|]. intros v. apply leaves_bind; [apply Hin|auto with leaves].
  - apply get_leaves.
  - apply Hma.
Qed.

(** ** What a sweep has deleted is old *)

Definition too_old (days : N) (tx : Transaction) (row : BlobRow) : Prop :=
  (created_at row < begun tx - Z.of_N days * DAY)%Z.

Definition deletes_old (db : Tables) (s : Session) : Prop :=
  match operation s, stage s with
  | OpSweep days, Deleting tx _ =>
      forall key row, key ∈ gone_blobs tx -> blob_row key db = Some row -> too_old days tx row
  | _, _ => True
  end.

Definition deletions_old (s : Server) : Prop := map_Forall (fun _ => deletes_old (tables (server s))) (sessions s).

Lemma locked_here gone l n op tx affected key :
  l !! n = Some (mkSession op (Deleting tx affected)) -> key ∈ gone tx -> locked gone l key.
Proof. intros Hn Hk. exists n, (mkSession op (Deleting tx affected)). by split. Qed.

(** A locked row is not rewritten. *)
Lemma locked_row es s s' key row :
  session_step es s s' -> locked gone_blobs (sessions s) key ->
  blob_row key (tables (server s')) = Some row -> blob_row key (tables (server s)) = Some row.
Proof.
  intros Hstep Hl. destruct Hstep as [n op s l Hn Hu|n op s s' r l Hn Hsw Hw Hf|n ns d result encoded s s' r l Hn Hc
    |n days now tb s s' l Hn Hb|n days e s s' l Hn Hb|n days tx affected statement work rows s s' l Hn Hst Hd Hun
    |n days tx affected statement e s s' l Hn Hst Hd|n days tx affected s s' r l Hn Hlen Hc|n op st s l Hn Hst];
    cbn [server sessions] in *; [done|..|done].
  - apply first_leaves with (key := key) in Hf as ->; [done..|]. by eapply waits_for_row.
  - apply answer_inv in Hc as (q & Hc & _).
    assert (leaves (blob_row key) (compare_existing ns d encoded)) as Hleaves.
    { apply leaves_bind; [apply get_leaves|auto with leaves]. }
    by rewrite (Hleaves _ _ _ Hc).
  - by rewrite (leaves_begin _ _ _ _ Hb).
  - by rewrite (leaves_begin _ _ _ _ Hb).
  - by apply in_transaction_spec in Hd as [-> _].
  - by apply in_transaction_spec in Hd as [-> _].
  - apply sweep_committed in Hc as [[-> | ->] _]; [done|]. intros Hrow.
    eapply lookup_weaken; [exact Hrow|]. apply without_shrinks.
Qed.

Lemma keep_out_row {V : Type} (gone : gset Key) (rows : gmap Key V) key v :
  keep_out gone rows !! key = Some v <-> rows !! key = Some v /\ key ∉ gone.
Proof. unfold keep_out. by rewrite map_lookup_filter_Some. Qed.

(** The rows a statement takes. *)
Lemma statement_takes days k statement now db work n key row :
  sweep_statements days !! k = Some statement -> statement now db = Ok (work, n) ->
  namespace_blobs db !! key = Some row -> namespace_blobs work !! key = None ->
  (created_at row < now - Z.of_N days * DAY)%Z.
Proof.
  destruct k as [|[|[|k]]]; intros [= <-].
  - intros [= <- _] Hrow Hnone. cbn in Hnone. rewrite map_lookup_filter_None in Hnone.
    destruct Hnone as [Hnone|Hnone]; [congruence|]. specialize (Hnone row Hrow). cbn in Hnone. lia.
  - intros (-> & _)%delete_dangling_spec. congruence.
  - intros [= <- _]. cbn. congruence.
Qed.

Lemma deletions_old_step es s s' : session_step es s s' -> deletions_old s -> deletions_old s'.
Proof.
  intros Hstep Hall.
  assert (map_Forall (fun _ => deletes_old (tables (server s'))) (sessions s)) as Hold.
  { intros m [op st] Hm. pose proof (map_Forall_lookup_1 _ _ _ _ Hall Hm) as Hd. unfold deletes_old in *.
    cbn [operation stage] in *. destruct op; try done. destruct st; try done. intros key row Hk Hrow.
    eapply Hd; [exact Hk|]. eapply locked_row; [exact Hstep|by eapply locked_here|exact Hrow]. }
  destruct Hstep as [n op s l Hn Hu|n op s s' r l Hn Hsw Hw Hf|n ns d result encoded s s' r l Hn Hc
    |n days now tb s s' l Hn Hb|n days e s s' l Hn Hb|n days tx affected statement work rows s s' l Hn Hst Hd Hun
    |n days tx affected statement e s s' l Hn Hst Hd|n days tx affected s s' r l Hn Hlen Hc|n op st s l Hn Hst];
    unfold deletions_old in *; cbn [server sessions] in *; (apply map_Forall_insert_2; [|exact Hold]);
    unfold deletes_old; cbn [operation stage]; try (by destruct op); try done.
  pose proof (map_Forall_lookup_1 _ _ _ _ Hold Hn) as Hprev. cbn in Hprev.
  apply in_transaction_spec in Hd as [Ht Hout]. specialize (Hout _ eq_refl).
  intros key row Hk Hrow. cbn [gone_blobs deleted] in Hk. unfold too_old. cbn [begun deleted].
  apply elem_of_union in Hk as [Hk|[Hk Hgone]%elem_of_difference]; [by eapply Hprev|].
  apply elem_of_dom in Hk as [row' Hk]. apply not_elem_of_dom in Hgone.
  assert (row' = row) as ->.
  { cbn in Hk. apply keep_out_row in Hk as [Hk _]. unfold blob_row in Hrow. rewrite Ht in Hrow. congruence. }
  eapply statement_takes; [exact Hst|exact Hout|exact Hk|exact Hgone].
Qed.

Lemma deletions_old_run es s s' : session_run es s s' -> deletions_old s -> deletions_old s'.
Proof. induction 1 as [s|es es' s1 s2 s3 Hstep Hrun IH]; [done|]. intros Hold. by eapply IH, deletions_old_step. Qed.

Lemma sweep_ended es s s' n days tx affected r :
  session_step es s s' -> sessions s !! n = Some (mkSession (OpSweep days) (Deleting tx affected)) ->
  sessions s' !! n = Some (mkSession (OpSweep days) (Answered r)) ->
  tables (server s') = tables (server s) \/ tables (server s') = without tx (tables (server s)).
Proof.
  intros Hstep Hopen Hended. destruct Hstep as [m op s l Hn Hu|m op s s' q l Hn Hsw Hw Hf|m ns d result encoded s s' q l Hn Hc
    |m days' now tb s s' l Hn Hb|m days' e s s' l Hn Hb|m days' tx' affected' statement work rows s s' l Hn Hst Hd Hun
    |m days' tx' affected' statement e s s' l Hn Hst Hd|m days' tx' affected' s s' q l Hn Hlen Hc|m op st s l Hn Hst];
    cbn [server sessions] in *; (destruct (decide (m = n)) as [->|Hne];
      [rewrite lookup_insert_eq in Hended; rewrite Hopen in Hn; try (by simplify_eq)
      |rewrite lookup_insert_ne in Hended by done; congruence]).
  - apply in_transaction_spec in Hd as [-> _]. by left.
  - injection Hn as <- <- <-. by apply sweep_committed in Hc as [? _].
Qed.

(** C28. Whatever others write while a sweep is under way, its end takes only blobs
    that were older than its age when it began: a blob uploaded or stored anew
    since is left alone, and so is every other row. *)
Theorem sweeps_take_the_old es es' s0 s s' n days tx affected r key row
    (Hnone : sessions s0 = ∅) (Hrun : session_run es s0 s)
    (Hopen : sessions s !! n = Some (mkSession (OpSweep days) (Deleting tx affected)))
    (Hend : session_step es' s s') (Hended : sessions s' !! n = Some (mkSession (OpSweep days) (Answered r)))
    (Hrow : blob_row key (tables (server s)) = Some row) :
  blob_row key (tables (server s')) = Some row \/
  blob_row key (tables (server s')) = None /\ (created_at row < begun tx - Z.of_N days * DAY)%Z.
Proof.
  apply deletions_old_run in Hrun; [|unfold deletions_old; rewrite Hnone; apply map_Forall_empty].
  pose proof (map_Forall_lookup_1 _ _ _ _ Hrun Hopen) as Hold. cbn in Hold.
  destruct (sweep_ended _ _ _ _ _ _ _ _ Hend Hopen Hended) as [-> | ->]; [by left|].
  destruct (decide (key ∈ gone_blobs tx)) as [Hgone|Hkept].
  - right. split; [|by eapply Hold]. apply eq_None_not_Some. intros [row' [_ Hk]%keep_out_row]. done.
  - left. by apply keep_out_row.
Qed.

(** ** What a sweep keeps *)

(** From its second statement on a sweep deletes no more blobs, from its third
    on no more results. *)
Definition as_decided (tx tx' : Transaction) : Prop :=
  gone_blobs tx' = gone_blobs tx /\ gone_results tx' = gone_results tx.

Lemma later_statement days k statement now db tx work rows :
  sweep_statements days !! k = Some statement -> 2 <= k ->
  statement now (without tx db) = Ok (work, rows) -> as_decided tx (deleted tx db work).
Proof.
  destruct k as [|[|[|k]]]; intros [= <-] Hk; [lia..|]. intros [= <- _].
  unfold as_decided, deleted. cbn. split; set_solver.
Qed.

Lemma decided_step es s s' n days tx affected tx' affected' :
  session_step es s s' -> 2 <= length affected ->
  sessions s !! n = Some (mkSession (OpSweep days) (Deleting tx affected)) ->
  sessions s' !! n = Some (mkSession (OpSweep days) (Deleting tx' affected')) ->
  as_decided tx tx' /\ 2 <= length affected'.
Proof.
  intros Hstep Hlen Hopen Hopen'. destruct Hstep as [m op s l Hn Hu|m op s s' q l Hn Hsw Hw Hf|m ns d result encoded s s' q l Hn Hc
    |m days' now tb s s' l Hn Hb|m days' e s s' l Hn Hb|m days' tx1 affected1 statement work rows s s' l Hn Hst Hd Hun
    |m days' tx1 affected1 statement e s s' l Hn Hst Hd|m days' tx1 affected1 s s' q l Hn Hlen1 Hc|m op st s l Hn Hst];
    cbn [server sessions] in *; (destruct (decide (m = n)) as [->|Hne];
      [rewrite lookup_insert_eq in Hopen'; rewrite Hopen in Hn; try (by simplify_eq)
      |rewrite lookup_insert_ne in Hopen' by done; rewrite Hopen in Hopen'; by injection Hopen' as <- <-]).
  injection Hn as <- <- <-. injection Hopen' as <- <-. apply in_transaction_spec in Hd as [_ Hout].
  rewrite length_app. split; [|lia]. by eapply later_statement; [|exact Hlen|apply Hout].
Qed.

Definition deleting (st : Stage) : bool := match st with Deleting _ _ => true | _ => false end.

(** An open sweep stays one until it is over, and what is over stays so. *)
Lemma stage_step es s s' n op st :
  session_step es s s' -> sessions s !! n = Some (mkSession op st) ->
  exists st', sessions s' !! n = Some (mkSession op st') /\
    (over st = true -> over st' = true) /\ (deleting st = true -> deleting st' || over st' = true).
Proof.
  intros Hstep Hopen. destruct Hstep as [m op' s l Hn Hu|m op' s s' q l Hn Hsw Hw Hf|m ns d result encoded s s' q l Hn Hc
    |m days' now tb s s' l Hn Hb|m days' e s s' l Hn Hb|m days' tx1 affected1 statement work rows s s' l Hn Hst Hd Hun
    |m days' tx1 affected1 statement e s s' l Hn Hst Hd|m days' tx1 affected1 s s' q l Hn Hlen1 Hc|m op' st' s l Hn Hst];
    cbn [server sessions] in *; (destruct (decide (m = n)) as [->|Hne];
      [rewrite Hopen in Hn; first [done|injection Hn as -> ->; rewrite lookup_insert_eq; eexists; (split; [reflexivity|done])]
      |rewrite lookup_insert_ne by done; exists st; split; [done|]; split; [done|by intros ->]]).
Qed.

Lemma over_run es s s' n op st tx affected :
  session_run es s s' -> sessions s !! n = Some (mkSession op st) -> over st = true ->
  sessions s' !! n <> Some (mkSession op (Deleting tx affected)).
Proof.
  intros Hrun. revert st. induction Hrun as [s|es es' s1 s2 s3 Hstep Hrun IH]; intros st Hs Hov; [intros Heq; by simplify_eq|].
  destruct (stage_step _ _ _ _ _ _ Hstep Hs) as (st2 & Hs2 & Hov2 & _). eapply IH; [exact Hs2|]. by apply Hov2.
Qed.

Lemma decided_run es s s' n days tx affected tx' affected' :
  session_run es s s' -> 2 <= length affected ->
  sessions s !! n = Some (mkSession (OpSweep days) (Deleting tx affected)) ->
  sessions s' !! n = Some (mkSession (OpSweep days) (Deleting tx' affected')) -> as_decided tx tx'.
Proof.
  intros Hrun. revert tx affected. induction Hrun as [s|es es' s1 s2 s3 Hstep Hrun IH]; intros tx affected Hlen Hs Hs'.
  - rewrite Hs in Hs'. by injection Hs' as <- <-.
  - destruct (stage_step _ _ _ _ _ _ Hstep Hs) as (st2 & Hs2 & _ & Hst2). specialize (Hst2 eq_refl).
    destruct st2 as [| |tx2 affected2| |]; try done.
    + destruct (decided_step _ _ _ _ _ _ _ _ _ Hstep Hlen Hs Hs2) as [[Hb Hr] Hlen2].
      destruct (IH tx2 affected2 Hlen2 Hs2 Hs') as [Hb' Hr']. split; congruence.
    + by destruct (over_run _ _ _ _ _ _ tx' affected' Hrun Hs2).
    + by destruct (over_run _ _ _ _ _ _ tx' affected' Hrun Hs2).
Qed.

Context `{!ResultJsonLaws}.

Lemma look_step es s s' n days tx blobs tx' affected' :
  session_step es s s' -> sessions s !! n = Some (mkSession (OpSweep days) (Deleting tx [blobs])) ->
  sessions s' !! n = Some (mkSession (OpSweep days) (Deleting tx' affected')) -> affected' <> [blobs] ->
  length affected' = 2 /\ exists work m, tx' = deleted tx (tables (server s)) work /\
    delete_dangling_results (begun tx) (without tx (tables (server s))) = Ok (work, m).
Proof.
  intros Hstep Hopen Hopen' Hne'. destruct Hstep as [m op s l Hn Hu|m op s s' q l Hn Hsw Hw Hf|m ns d result encoded s s' q l Hn Hc
    |m days' now tb s s' l Hn Hb|m days' e s s' l Hn Hb|m days' tx1 affected1 statement work rows s s' l Hn Hst Hd Hun
    |m days' tx1 affected1 statement e s s' l Hn Hst Hd|m days' tx1 affected1 s s' q l Hn Hlen1 Hc|m op st s l Hn Hst];
    cbn [server sessions] in *; (destruct (decide (m = n)) as [->|Hne];
      [rewrite lookup_insert_eq in Hopen'; rewrite Hopen in Hn; try (by simplify_eq)
      |rewrite lookup_insert_ne in Hopen' by done; rewrite Hopen in Hopen'; injection Hopen' as <- <-; done]).
  injection Hn as <- <- <-. injection Hopen' as <- <-. apply in_transaction_spec in Hd as [_ Hout].
  specialize (Hout _ eq_refl). cbn in Hst. injection Hst as <-. split; [done|]. by exists work, rows.
Qed.

(** What the second statement keeps refers to blobs the transaction sees. *)
Lemma kept_refers db tx now work m ns action r d :
  db_wf db -> delete_dangling_results now (without tx db) = Ok (work, m) ->
  view_result (view_of db) ns action = Some r -> key_of ns action ∉ gone_results (deleted tx db work) ->
  result_metadata r = Some d \/ output_root r = Some d -> view_blob (view_of (without tx db)) ns d = true.
Proof.
  intros Hwf (_ & _ & Hspec)%delete_dangling_spec Hresult Hkept Href.
  cbn in Hresult. destruct (representable action); [|done]. apply bind_Some in Hresult as (v & Hv & Hdec).
  destruct (proj2 (results_wf _ Hwf _ _ Hv)) as [r' Hr'].
  rewrite (decoded_value_ok _ _ Hr') in Hdec. injection Hdec as ->.
  cbn in Hkept. apply not_elem_of_union in Hkept as [Hnot Hkept].
  assert (keep_out (gone_results tx) (action_results db) !! key_of ns action = Some v) as Hin by (by apply keep_out_row).
  destruct (action_results work !! key_of ns action) as [v'|] eqn:Hw.
  - pose proof Hw as [Hv' Hd]%Hspec. cbn in Hv'. rewrite Hin in Hv'. injection Hv' as <-.
    by eapply dangling_field_spec.
  - destruct Hkept. apply elem_of_difference. split; [by eapply elem_of_dom_2|by apply not_elem_of_dom].
Qed.

Lemma visible_without tx db ns d :
  view_blob (view_of (without tx db)) ns d = true <->
  view_blob (view_of db) ns d = true /\ key_of ns d ∉ gone_blobs tx.
Proof.
  cbn. rewrite !andb_true_iff, !bool_decide_eq_true. split.
  - intros [Hr [row [Hrow Hg]%keep_out_row]]. split; [split; [done|by exists row]|done].
  - intros [[Hr [row Hrow]] Hg]. split; [done|]. exists row. by apply keep_out_row.
Qed.

(** C29. A sweep takes nothing from a result it keeps: of the results that are there
    when it looks for dangling ones, those it does not delete lose none of the
    blobs they refer to, whatever others write before it commits. *)
Theorem sweeps_keep_whole es es1 es2 s1 s2 s3 s4 n days tx blobs tx2 affected tx3 affected3 q ns action r d
    (Hwf : db_wf (tables (server s1)))
    (Hopen : sessions s1 !! n = Some (mkSession (OpSweep days) (Deleting tx [blobs])))
    (Hlook : session_step es1 s1 s2)
    (Hlooked : sessions s2 !! n = Some (mkSession (OpSweep days) (Deleting tx2 affected)))
    (Hnext : affected <> [blobs])
    (Hrun : session_run es s2 s3)
    (Hstill : sessions s3 !! n = Some (mkSession (OpSweep days) (Deleting tx3 affected3)))
    (Hend : session_step es2 s3 s4) (Hended : sessions s4 !! n = Some (mkSession (OpSweep days) (Answered q)))
    (Hresult : view_result (view_of_server s1) ns action = Some r) (Hkept : key_of ns action ∉ gone_results tx3)
    (Href : result_metadata r = Some d \/ output_root r = Some d) :
  view_blob (view_of_server s1) ns d = true /\
  (view_blob (view_of_server s3) ns d = true -> view_blob (view_of_server s4) ns d = true).
Proof.
  destruct (look_step _ _ _ _ _ _ _ _ _ Hlook Hopen Hlooked Hnext) as (Hlen & work & m & -> & Hdel).
  destruct (decided_run _ _ _ _ _ _ _ _ _ Hrun (eq_ind_r (fun k => 2 <= k) (le_n 2) Hlen) Hlooked Hstill) as [Hb Hr].
  rewrite Hr in Hkept.
  pose proof (kept_refers _ _ _ _ _ _ _ _ _ Hwf Hdel Hresult Hkept Href) as [Hvis Hnot]%visible_without.
  split; [done|]. intros Hvis3. unfold view_of_server.
  destruct (sweep_ended _ _ _ _ _ _ _ _ Hend Hstill Hended) as [-> | ->]; [done|].
  apply visible_without. split; [done|]. rewrite Hb. cbn.
  apply delete_dangling_spec in Hdel as (-> & _ & _). set_solver.
Qed.
End Sweeps.
