(* ===== verification/ObjectStore.v ===== *)
(** * Object storage (the crate object_store, as src/storage/gcs.rs and azure.rs use it)

    A bucket behind an interface: its calls with the errors the stores tell
    apart, and the laws its documentation states. A call that fails may have
    taken effect. *)
From S2P Require Import Prelude Str Protocol Api Json Records Oidc.
From Stdlib Require Import Ascii.

Local Open Scope string_scope.
Local Open Scope mbx_scope.

(** [object_store::Error], by what the stores match on. *)
Inductive ObjectError :=
  | NotFound
  | AlreadyExists
  | Precondition
  | OtherObjectError (display : string).

(** [error.into()] *)
Definition object_error (e : ObjectError) : StoreError :=
  OtherError
    match e with
    | NotFound => "object not found"
    | AlreadyExists => "object already exists"
    | Precondition => "precondition failed"
    | OtherObjectError display => display
    end.

(** [object_store::path::Path], built [From] a string, and [Uuid::new_v4]. *)
Class ObjectPaths := {
  ObjectPath : Type;
  object_path : string -> ObjectPath;
  path_display : ObjectPath -> string;
  uuid : nat -> string;
}.

(** A digest's key names it, and the first components of a path are kept
    apart. *)
Class ObjectPathLaws `{Protocol} `{ObjectPaths} : Prop := {
  blob_path_inj prefix d d' :
    digest_validate d = Ok tt -> digest_validate d' = Ok tt ->
    object_path (prefix ++ "/blobs/" ++ digest_key d) =
    object_path (prefix ++ "/blobs/" ++ digest_key d') -> d = d';
  upload_path prefix n d :
    digest_validate d = Ok tt ->
    object_path (prefix ++ "/uploads/" ++ uuid n) <>
    object_path (prefix ++ "/blobs/" ++ digest_key d);
}.

(** The calls. [os_write] is a [BufWriter] that a source is copied to, up to
    its [shutdown]; its errors are those of the copy and of the shutdown. *)
Inductive WriteError := CopyFailed (e : StoreError) | ShutdownFailed (e : StoreError).

Class ObjectStore `{ObjectPaths} (S : Type) := {
  (** [get]: the size in the metadata, and the stream *)
  os_get : ObjectPath -> M S ObjectError Blob;
  (** [get_range], of which only the outcome is used *)
  os_get_range : ObjectPath -> N -> N -> M S ObjectError unit;
  (** [put_opts] with [PutMode::Create] *)
  os_put_create : ObjectPath -> bytes -> M S ObjectError unit;
  os_write : ObjectPath -> bytes -> M S WriteError unit;
  (** [BufWriter::abort] *)
  os_abort : ObjectPath -> M S ObjectError unit;
  (** [copy_opts] with [CopyMode::Create] *)
  os_copy_create : ObjectPath -> ObjectPath -> M S ObjectError unit;
  os_delete : ObjectPath -> M S ObjectError unit;
}.

(** An object of a bucket: its content, which a copy that was only accepted
    still has to bring. *)
Inductive Object := Committed (content : bytes) | Pending (content : bytes).

(** Time passes: a pending object may have become readable. *)
Definition settles (o o' : option Object) : Prop :=
  o' = o \/ exists c, o = Some (Pending c) /\ o' = Some (Committed c).

#[export] Instance settles_preorder : PreOrder settles.
Proof.
  split; [by left|]. intros o1 o2 o3 [->|(c & -> & ->)] [->|(c' & Hc & ->)].
  - by left.
  - right. by exists c'.
  - right. by exists c.
  - done.
Qed.

(** What a call does to the object at one path, by its outcome. *)
Definition created_if_absent (content : bytes) (o o' : option Object) : Prop :=
  o = None /\ exists x, (x = Committed content \/ x = Pending content) /\ o' = Some x.

Class ObjectLaws `{ObjectPaths} (S : Type) `{!ObjectStore S} := {
  contents : S -> ObjectPath -> option Object;

  os_get_law p s s' r :
    os_get p s = (s', r) ->
    (forall q, settles (contents s q) (contents s' q)) /\
    match r with
    | Ok blob => forall c, contents s' p = Some (Committed c) ->
        blob_size blob = N.of_nat (length c) /\ streams (blob_stream blob) c
    | Err NotFound => contents s' p = None
    | Err _ => True
    end /\
    (contents s' p = None -> is_ok r = false);

  os_get_range_law p first last s s' r :
    os_get_range p first last s = (s', r) ->
    (forall q, settles (contents s q) (contents s' q)) /\
    ((first < last)%N -> r = Ok tt -> exists c, contents s' p = Some (Committed c));

  os_put_create_law p content s s' r :
    os_put_create p content s = (s', r) ->
    (forall q, q <> p -> settles (contents s q) (contents s' q)) /\
    match r with
    | Ok _ => contents s p = None /\ contents s' p = Some (Committed content)
    | Err (AlreadyExists | Precondition) =>
        is_Some (contents s p) /\ settles (contents s p) (contents s' p)
    | Err _ => settles (contents s p) (contents s' p) \/
        (contents s p = None /\ contents s' p = Some (Committed content))
    end;

  os_write_law p content s s' r :
    os_write p content s = (s', r) ->
    (forall q, q <> p -> settles (contents s q) (contents s' q)) /\
    (r = Ok tt -> contents s' p = Some (Committed content));

  os_abort_law p s s' r :
    os_abort p s = (s', r) -> forall q, q <> p -> settles (contents s q) (contents s' q);

  os_copy_create_law from to c s s' r :
    from <> to -> contents s from = Some (Committed c) ->
    os_copy_create from to s = (s', r) ->
    (forall q, q <> to -> settles (contents s q) (contents s' q)) /\
    match r with
    | Ok _ => created_if_absent c (contents s to) (contents s' to)
    | Err (AlreadyExists | Precondition) =>
        is_Some (contents s to) /\ settles (contents s to) (contents s' to)
    | Err _ => settles (contents s to) (contents s' to) \/
        created_if_absent c (contents s to) (contents s' to)
    end;

  os_delete_law p s s' r :
    os_delete p s = (s', r) -> forall q, q <> p -> settles (contents s q) (contents s' q);
}.

(** A bucket whose copies are complete when they are answered, as Cloud
    Storage's are within a bucket. *)
Class PromptCopies `{ObjectPaths} (S : Type) `{!ObjectStore S} `{!ObjectLaws S} : Prop := {
  never_pending (s : S) p c : contents s p <> Some (Pending c);
}.

(** [str::trim_matches(c)] *)
Fixpoint trim_start_matches (c : Ascii.ascii) (s : string) : string :=
  match s with
  | EmptyString => ""
  | String a s' => if Ascii.eqb a c then trim_start_matches c s' else s
  end.
Definition trim_matches (c : Ascii.ascii) (s : string) : string :=
  trim_end_matches c (trim_start_matches c s).

(** What may keep the source of a put from being opened or read. *)
Class SourceFile := { source_fault : nat -> option StoreError }.

(** ** What the stores on a bucket share

    [GcsStore] and [AzureStore] are one struct, with the same keys, the same
    [get] and the same way to stage an upload. *)

Section Bucket.
Context `{Protocol} `{ObjectPaths} `{SourceFile} {S : Type} `{!ObjectStore S}.

(** [uploads] counts the keys and the source files used so far. *)
Record Bucket := mkBucket { store : S; prefix : string; uploads : nat }.

Definition from_store (store : S) (prefix : string) : Bucket :=
  mkBucket store (trim_matches "/"%char prefix) 0.

Definition blob_path (prefix : string) (d : Digest) : ObjectPath :=
  object_path (prefix ++ "/blobs/" ++ digest_key d).
Definition staging_path (prefix : string) (n : nat) : ObjectPath :=
  object_path (prefix ++ "/uploads/" ++ uuid n).

Definition key (self : Bucket) (digest : Digest) : ObjectPath := blob_path (prefix self) digest.

(** A call on the bucket. *)
Definition on_store {E A} (c : M S E A) : M Bucket E A :=
  fun self => let '(s, r) := c (store self) in (mkBucket s (prefix self) (uploads self), r).

(** [Uuid::new_v4()] *)
Definition upload_key : M Bucket StoreError ObjectPath :=
  fun self => (mkBucket (store self) (prefix self) (Datatypes.S (uploads self)),
               Ok (staging_path (prefix self) (uploads self))).

(** [tokio::fs::read(source)] or [File::open(source)]. *)
Definition open_source : M Bucket StoreError unit :=
  fun self => (mkBucket (store self) (prefix self) (Datatypes.S (uploads self)),
               match source_fault (uploads self) with Some e => Err e | None => Ok tt end).

Definition get_object_at (key : ObjectPath) : M Bucket StoreError (option Blob) :=
  fun self =>
    match on_store (os_get key) self with
    | (self, Ok blob) => (self, Ok (Some blob))
    | (self, Err NotFound) => (self, Ok None)
    | (self, Err error) => (self, Err (object_error error))
    end.

(** [let _ = ...] *)
Definition ignore {E A} (c : M Bucket E A) : M Bucket StoreError unit :=
  fun self => let '(self, _) := c self in (self, Ok tt).

(** [tokio::io::copy] into the writer and [shutdown]; what was staged is
    given up on a failure. *)
Definition stage (upload_key : ObjectPath) (source : bytes) : M Bucket StoreError unit :=
  fun self =>
    match on_store (os_write upload_key source) self with
    | (self, Ok _) => (self, Ok tt)
    | (self, Err (CopyFailed error)) =>
        (ignore (on_store (os_abort upload_key)) ;~ m_throw error) self
    | (self, Err (ShutdownFailed error)) =>
        (ignore (on_store (os_delete upload_key)) ;~ m_throw error) self
    end.

(** The outcome of a create-only request. *)
Definition create_outcome (r : result ObjectError unit) : result StoreError PutOutcome :=
  match r with
  | Ok _ => Ok PutCreated
  | Err (AlreadyExists | Precondition) => Ok PutAlreadyExists
  | Err error => Err (object_error error)
  end.
End Bucket.
Arguments Bucket : clear implicits.
