(* ===== verification/Gcs.v ===== *)
(** * The Cloud Storage blob store (src/storage/gcs.rs)

    A small blob goes up in one create-only request; a larger one is written
    under a key of its own, copied into place without replacing anything, and
    its staged object deleted. *)
From S2P Require Import Prelude Str Protocol Api Config Json Records Oidc ObjectStore.

Local Open Scope string_scope.
Local Open Scope mbx_scope.

Definition SINGLE_REQUEST_BYTES : N := 10 * 1024 * 1024.

Definition fits_one_request (size : N) : bool := (size <=? SINGLE_REQUEST_BYTES)%N.

(** [GoogleCloudStorageBuilder], with the options [new] sets, up to [build]. *)
Class GcsBuilder (S : Type) := {
  gcs_build (bucket : string) (timeout read_timeout : option string) : result StoreError S;
}.

Module GcsStore.
Section GcsStore.
Context `{Protocol} `{ObjectPaths} `{SourceFile} {S : Type} `{!ObjectStore S}.

Definition new `{Environment} `{!GcsBuilder S} (config : Config.t) : result StoreError (Bucket S) :=
  bucket <-? ok_or (Config.gcs_bucket config) (OtherError "--gcs-bucket is required with GCS storage");
  store <-? gcs_build bucket (unless_set "GOOGLE_TIMEOUT" "1h") (unless_set "GOOGLE_READ_TIMEOUT" "30s");
  Ok (from_store store (Config.gcs_prefix config)).

Definition get (digest : Digest) : M (Bucket S) StoreError (option Blob) :=
  fun self => get_object_at (key self digest) self.

Definition put (digest : Digest) (source : bytes) : M (Bucket S) StoreError PutOutcome :=
  fun self =>
    let destination_key := key self digest in
    if fits_one_request (digest_size digest)
    then
      (open_source ;~
       fun self =>
         let '(self, r) := on_store (os_put_create destination_key source) self in
         (self, create_outcome r)) self
    else
      (upload_key <~ upload_key;
       open_source ;~
       stage upload_key source ;~
       fun self =>
         let '(self, r) := on_store (os_copy_create upload_key destination_key) self in
         let '(self, _) := on_store (os_delete upload_key) self in
         (self, create_outcome r)) self.

Definition blob_store : BlobStore (Bucket S) := {| blob_get := get; blob_put := put |}.
End GcsStore.
End GcsStore.
