(* ===== verification/Azure.v ===== *)
(** * The Azure Blob Storage blob store (src/storage/azure.rs)

    Every blob but the empty one is staged and copied into place; Azure may
    answer before the copy is done, so a put waits until the last byte of the
    destination can be read. *)
From S2P Require Import Prelude Str Protocol Api Config Json Records Oidc ObjectStore.

Local Open Scope string_scope.
Local Open Scope mbx_scope.

(** The polls of [wait_until_readable], half a second apart. *)
Definition READABLE_ATTEMPTS : nat := 120.

(** [MicrosoftAzureBuilder], with the options [new] sets, up to [build]. *)
Class AzureBuilder (S : Type) := {
  azure_build (account container credential_type : string) (allow_http : bool)
    (timeout read_timeout endpoint : option string) : result StoreError S;
}.

Module AzureStore.
Section AzureStore.
Context `{Protocol} `{ObjectPaths} `{SourceFile} {S : Type} `{!ObjectStore S}.

Definition new `{Environment} `{!AzureBuilder S} (config : Config.t) : result StoreError (Bucket S) :=
  account <-? ok_or (Config.azure_account config)
                (OtherError "--azure-account is required with Azure storage");
  container <-? ok_or (Config.azure_container config)
                (OtherError "--azure-container is required with Azure storage");
  store <-? azure_build account container (Config.azure_credential_type config)
              (Config.azure_allow_http config) (unless_set "AZURE_TIMEOUT" "1h")
              (unless_set "AZURE_READ_TIMEOUT" "30s")
              (match Config.azure_endpoint config with Some "" => None | endpoint => endpoint end);
  Ok (from_store store (Config.azure_prefix config)).

Definition get (digest : Digest) : M (Bucket S) StoreError (option Blob) :=
  fun self => get_object_at (key self digest) self.

(** [wait_until_readable]: [for _ in 0..120]; what else happens in the half
    second between two polls is the next call's to settle. *)
Fixpoint poll (attempts : nat) (key : ObjectPath) (first last : N) : M (Bucket S) StoreError unit :=
  match attempts with
  | O => m_throw (OtherError ("Azure blob did not become readable after copy: " ++ path_display key))
  | Datatypes.S attempts =>
      fun self =>
        match on_store (os_get_range key first last) self with
        | (self, Ok _) => (self, Ok tt)
        | (self, Err _) => poll attempts key first last self
        end
  end.

Definition wait_until_readable (key : ObjectPath) (size : N) : M (Bucket S) StoreError unit :=
  poll READABLE_ATTEMPTS key (size - 1) size.

(** The copy into place: its source is kept when it was accepted, since Azure
    may still be reading it. *)
Definition publish (upload_key destination_key : ObjectPath) (size : N) : M (Bucket S) StoreError PutOutcome :=
  fun self =>
    match on_store (os_copy_create upload_key destination_key) self with
    | (self, Ok _) => (wait_until_readable destination_key size ;~ m_ret PutCreated) self
    | (self, Err (AlreadyExists | Precondition)) =>
        (ignore (on_store (os_delete upload_key)) ;~
         wait_until_readable destination_key size ;~
         m_ret PutAlreadyExists) self
    | (self, Err error) =>
        (ignore (on_store (os_delete upload_key)) ;~ m_throw (object_error error)) self
    end.

Definition put (digest : Digest) (source : bytes) : M (Bucket S) StoreError PutOutcome :=
  fun self =>
    let destination_key := key self digest in
    if (digest_size digest =? 0)%N
    then
      let '(self, r) := on_store (os_put_create destination_key []) self in
      (self, create_outcome r)
    else
      (upload_key <~ upload_key;
       open_source ;~
       stage upload_key source ;~
       publish upload_key destination_key (digest_size digest)) self.

Definition blob_store : BlobStore (Bucket S) := {| blob_get := get; blob_put := put |}.
End AzureStore.
End AzureStore.
