(* ===== verification/S3.v ===== *)
(** * The S3 blob store (src/storage/s3.rs)

    One conditional put, and a get that tells a missing object from a missing
    bucket. The SDK's client is a parameter, with the laws of the service. *)
From S2P Require Import Prelude Str Protocol Api Config Json Records Oidc ObjectStore.
From Stdlib Require Import Ascii.

Local Open Scope string_scope.
Local Open Scope mbx_scope.

(** [SdkError], by what the store asks of it. *)
Record S3Error := mkS3Error {
  (** [as_service_error().and_then(|e| e.code())] *)
  code : option string;
  is_no_such_key : bool;
  (** [raw_response().map(|response| response.status())] *)
  raw_status : option N;
  s3_display : string;
}.

Record S3Object := mkS3Object {
  content_length : option Z;
  s3_stream : list (result StoreError bytes);
}.

(** [get_object], and [put_object] with [if_none_match("*")], of one bucket. *)
Class S3Client (S : Type) := {
  get_object : string -> M S S3Error S3Object;
  put_object_if_none_match : string -> bytes -> M S S3Error unit;
}.

(** A digest's key names it. *)
Class S3KeyLaws `{Protocol} : Prop := {
  digest_key_inj d d' :
    digest_validate d = Ok tt -> digest_validate d' = Ok tt ->
    digest_key d = digest_key d' -> d = d';
}.

(** The errors that say there is no such object. *)
Definition object_missing (e : S3Error) : Prop :=
  code e <> Some "NoSuchBucket" /\ (is_no_such_key e = true \/ raw_status e = Some 404%N).

Class S3Laws (S : Type) `{!S3Client S} := {
  s3_objects : S -> string -> option bytes;

  get_object_law key s s' r :
    get_object key s = (s', r) ->
    (forall k, s3_objects s' k = s3_objects s k) /\
    match r with
    | Ok object => exists c, s3_objects s key = Some c /\
        (forall n, content_length object = Some n -> n = Z.of_nat (length c)) /\
        streams (s3_stream object) c
    | Err e => object_missing e -> s3_objects s key = None
    end;

  put_object_law key content s s' r :
    put_object_if_none_match key content s = (s', r) ->
    (forall k, k <> key -> s3_objects s' k = s3_objects s k) /\
    match r with
    | Ok _ => s3_objects s key = None /\ s3_objects s' key = Some content
    | Err e =>
        if bool_decide (raw_status e = Some 412%N)
        then is_Some (s3_objects s key) /\ s3_objects s' key = s3_objects s key
        else s3_objects s' key = s3_objects s key \/
          (s3_objects s key = None /\ s3_objects s' key = Some content)
    end;
}.

(** [Client::from_conf] with the region, endpoint and path style of [new], on
    one bucket. *)
Class S3Config (S : Type) := {
  s3_from_conf (bucket region : string) (endpoint : option string) (path_style : bool) : S;
}.

Module S3Store.
Section S3Store.
Context `{Protocol} `{SourceFile} {S : Type} `{!S3Client S}.

Record t := mk { client : S; prefix : string; uploads : nat }.

Definition new `{!S3Config S} (config : Config.t) : result StoreError t :=
  bucket <-? ok_or (Config.s3_bucket config) (OtherError "--s3-bucket is required with S3 storage");
  Ok (mk (s3_from_conf bucket (Config.s3_region config) (Config.s3_endpoint config)
            (Config.s3_path_style config))
         (trim_matches "/"%char (Config.s3_prefix config)) 0).

Definition key (self : t) (digest : Digest) : string := prefix self ++ "/blobs/" ++ digest_key digest.

Definition on_client {E A} (c : M S E A) : M t E A :=
  fun self => let '(s, r) := c (client self) in (mk s (prefix self) (uploads self), r).

Definition error_into (e : S3Error) : StoreError := OtherError (s3_display e).

(** [u64::try_from(size).ok()] *)
Definition u64_try_from (n : Z) : option N :=
  if (0 <=? n)%Z && (n <? 2 ^ 64)%Z then Some (Z.to_N n) else None.

Definition get (digest : Digest) : M t StoreError (option Blob) :=
  fun self =>
    match on_client (get_object (key self digest)) self with
    | (self, Ok output) =>
        (self,
         size <-? ok_or (content_length output ≫= u64_try_from)
           (OtherError "S3 object response is missing content length");
         Ok (Some (mkBlob size (s3_stream output))))
    | (self, Err error) =>
        if bool_decide (code error = Some "NoSuchBucket") then (self, Err (error_into error))
        else if is_no_such_key error || bool_decide (raw_status error = Some 404%N)
        then (self, Ok None)
        else (self, Err (error_into error))
    end.

(** [ByteStream::from_path(source)] *)
Definition open_source : M t StoreError unit :=
  fun self => (mk (client self) (prefix self) (Datatypes.S (uploads self)),
               match source_fault (uploads self) with Some e => Err e | None => Ok tt end).

Definition put (digest : Digest) (source : bytes) : M t StoreError PutOutcome :=
  open_source ;~
  fun self =>
    match on_client (put_object_if_none_match (key self digest) source) self with
    | (self, Ok _) => (self, Ok PutCreated)
    | (self, Err error) =>
        if bool_decide (raw_status error = Some 412%N) then (self, Ok PutAlreadyExists)
        else (self, Err (error_into error))
    end.

Definition blob_store : BlobStore t := {| blob_get := get; blob_put := put |}.
End S3Store.
Arguments t : clear implicits.
End S3Store.
