(* ===== verification/BlobMachine.v ===== *)
(** * The blob store as an abstract machine

    A create-only map from valid digests to contents: what a store may answer
    to a put or a get and leave behind, and sequences of them. Every store that
    keeps [BlobLaws] and [BlobReads] refines it, whichever way it keeps its
    objects. *)
From S2P Require Import Prelude Str Protocol Api Json Records.

Local Open Scope mbx_scope.

Section Machine.
Context `{Protocol}.

Inductive BlobOp := OpGetBlob (d : Digest) | OpPutBlob (d : Digest) (content : bytes).
Inductive BlobAnswer := AnsBlob (o : option Blob) | AnsPut (o : PutOutcome).

Definition run_blob_op {S} `{!BlobStore S} (op : BlobOp) : M S StoreError BlobAnswer :=
  match op with
  | OpGetBlob d => o <~ blob_get d; m_ret (AnsBlob o)
  | OpPutBlob d content => o <~ blob_put d content; m_ret (AnsPut o)
  end.

Fixpoint run_blob_ops {S} `{!BlobStore S} (ops : list BlobOp) (s : S)
  : S * list (result StoreError BlobAnswer) :=
  match ops with
  | [] => (s, [])
  | op :: ops =>
      let '(s, a) := run_blob_op op s in
      let '(s, rest) := run_blob_ops ops s in
      (s, a :: rest)
  end.

Definition op_digest (op : BlobOp) : Digest :=
  match op with OpGetBlob d | OpPutBlob d _ => d end.
Definition op_valid (op : BlobOp) : Prop :=
  digest_validate (op_digest op) = Ok tt /\
  match op with OpPutBlob d content => digest_size d = 0%N -> content = [] | OpGetBlob _ => True end.

(** ** The machine *)

Notation Objects := (Digest -> option bytes).

(** Two maps that agree on valid digests. *)
Definition agree (v v' : Objects) : Prop :=
  forall d, digest_validate d = Ok tt -> v' d = v d.

#[export] Instance agree_equivalence : Equivalence agree.
Proof.
  split; [by intros v d|by intros v v' Hv d Hd; rewrite Hv|].
  intros v1 v2 v3 H12 H23 d Hd. by rewrite H23, H12.
Qed.

Definition store_object (d : Digest) (content : bytes) (v : Objects) : Objects :=
  fun d' => if decide (d' = d) then Some content else v d'.

Inductive blob_succeeds (v : Objects) : BlobOp -> BlobAnswer -> Objects -> Prop :=
  | BMissing d : v d = None -> blob_succeeds v (OpGetBlob d) (AnsBlob None) v
  | BFound d blob content :
      v d = Some content -> blob_size blob = N.of_nat (length content) ->
      streams (blob_stream blob) content ->
      blob_succeeds v (OpGetBlob d) (AnsBlob (Some blob)) v
  | BCreated d content :
      v d = None ->
      blob_succeeds v (OpPutBlob d content) (AnsPut PutCreated) (store_object d content v)
  | BExists d content :
      is_Some (v d) -> blob_succeeds v (OpPutBlob d content) (AnsPut PutAlreadyExists) v.

(** A failing operation has done all of it or nothing. *)
Definition blob_step (v : Objects) (op : BlobOp) (r : result StoreError BlobAnswer) (v' : Objects)
  : Prop :=
  match r with
  | Ok a => exists v1, blob_succeeds v op a v1 /\ agree v1 v'
  | Err _ => agree v v' \/ exists a v1, blob_succeeds v op a v1 /\ agree v1 v'
  end.

Inductive blob_run : Objects -> list BlobOp -> list (result StoreError BlobAnswer) -> Objects -> Prop :=
  | BRunNil v v' : agree v v' -> blob_run v [] [] v'
  | BRunCons v op r v1 ops rs v' :
      blob_step v op r v1 -> blob_run v1 ops rs v' -> blob_run v (op :: ops) (r :: rs) v'.

(** ** Every lawful store refines the machine *)

Lemma run_blob_op_refines {S} `{!BlobStore S} `{!BlobLaws S} `{!BlobReads S} op (s s' : S) r :
  op_valid op -> run_blob_op op s = (s', r) -> blob_step (objects s) op r (objects s').
Proof.
  destruct op as [d|d content]; unfold op_valid; cbn [op_digest run_blob_op]; intros [Hd Hsized];
    unfold m_bind, m_ret.
  - destruct (blob_get d s) as [s1 q] eqn:E. apply blob_get_content in E as [Hsame Hq].
    assert (agree (objects s) (objects s1)) as Hag by (by intros d' _).
    destruct q as [[blob|]|e]; intros [= <- <-]; cbn.
    + destruct Hq as (c & Hc & Hsize & Hst). exists (objects s). split; [by econstructor|done].
    + exists (objects s). split; [by constructor|done].
    + by left.
  - destruct (blob_put d content s) as [s1 q] eqn:E. apply blob_put_law in E as [Hothers Hq]; [|done..].
    assert (objects s1 d = objects s d -> agree (objects s) (objects s1)) as Hkept.
    { intros Heq d' Hd'. destruct (decide (d' = d)) as [->|]; [done|by apply Hothers]. }
    assert (objects s1 d = Some content -> agree (store_object d content (objects s)) (objects s1)) as Hnew.
    { intros Heq d' Hd'. unfold store_object. case_decide; [by subst|by apply Hothers]. }
    destruct q as [[]|e]; intros [= <- <-]; cbn.
    + destruct Hq as [Hn Hs]. eexists. split; [by constructor|auto].
    + destruct Hq as [Hn Hs]. eexists. split; [by constructor|auto].
    + destruct Hq as [Hk|[Hn Hs]]; [left; auto|right].
      eexists _, _. split; [by constructor|auto].
Qed.

Lemma run_blob_ops_refines {S} `{!BlobStore S} `{!BlobLaws S} `{!BlobReads S} ops (s s' : S) rs :
  Forall op_valid ops -> run_blob_ops ops s = (s', rs) -> blob_run (objects s) ops rs (objects s').
Proof.
  intros Hv. revert s rs; induction Hv as [|op ops Hop Hv IH]; intros s rs; cbn.
  { intros [= <- <-]. by constructor. }
  destruct (run_blob_op op s) as [s1 a] eqn:E. destruct (run_blob_ops ops s1) as [s2 rest] eqn:E2.
  intros [= <- <-]. apply run_blob_op_refines in E; [|done]. apply IH in E2. by econstructor.
Qed.

(** ** Objects are immutable *)

Lemma blob_step_keeps v op r v' d c :
  blob_step v op r v' -> digest_validate d = Ok tt -> v d = Some c -> v' d = Some c.
Proof.
  intros Hstep Hd Hc.
  assert (forall a v1, blob_succeeds v op a v1 -> agree v1 v' -> v' d = Some c) as Hs.
  { intros a v1 Hs Hag. rewrite Hag by done. destruct Hs; try done.
    unfold store_object. case_decide; [congruence|done]. }
  destruct r as [a|e]; cbn in Hstep; [destruct Hstep as (v1 & ? & ?); by eapply Hs|].
  destruct Hstep as [Hag|(a & v1 & ? & ?)]; [by rewrite Hag|by eapply Hs].
Qed.

Lemma blob_run_immutable v ops rs v' d c :
  blob_run v ops rs v' -> digest_validate d = Ok tt -> v d = Some c ->
  v' d = Some c /\
  (forall i o, ops !! i = Some (OpGetBlob d) -> rs !! i = Some (Ok (AnsBlob o)) ->
     exists blob, o = Some blob /\ blob_size blob = N.of_nat (length c) /\ streams (blob_stream blob) c) /\
  (forall i content o, ops !! i = Some (OpPutBlob d content) -> rs !! i = Some (Ok (AnsPut o)) ->
     o = PutAlreadyExists).
Proof.
  intros Hrun Hd. induction Hrun as [v v' Hag|v op r v1 ops rs v' Hstep Hrun IH]; intros Hc.
  { split; [by rewrite Hag|]. split; by intros [|i]. }
  destruct (IH (blob_step_keeps _ _ _ _ _ _ Hstep Hd Hc)) as (Hend & Hgets & Hputs).
  split; [done|]. split.
  - intros [|i] o; [|by apply Hgets]. cbn. intros [= ->] [= ->]. cbn in Hstep.
    destruct Hstep as (v2 & Hs & _). inversion Hs; subst; [congruence|]. simplify_eq. eauto.
  - intros [|i] content o; [|by apply Hputs]. cbn. intros [= ->] [= ->]. cbn in Hstep.
    destruct Hstep as (v2 & Hs & _). inversion Hs; subst; [congruence|done].
Qed.
End Machine.
