(* ===== verification/CloudProofs.v ===== *)
(** * The cloud stores keep the laws of blob stores

    All three keep [BlobLaws], so that every theorem proved against it holds of
    them, counting a copy that is still pending as an object. Reads are whole
    ([BlobReads]) on S3, and on a bucket whose copies are prompt, as Cloud
    Storage's are. Azure may answer a copy that is pending; a put waits there
    until the blob can be read. *)
From S2P Require Import Prelude Str Protocol Api Json Records Oidc ObjectStore Gcs Azure S3.
From S2P Require Import BlobMachine.

Local Open Scope string_scope.
Local Open Scope mbx_scope.

Lemma settles_committed o o' c : settles o o' -> o = Some (Committed c) -> o' = Some (Committed c).
Proof. by intros [->|(c' & -> & ->)]. Qed.

Lemma settles_none o o' : settles o o' -> o' = None <-> o = None.
Proof. by intros [->|(c' & -> & ->)]. Qed.

(** The content of an object, to come or there. *)
Definition content_of (o : option Object) : option bytes :=
  match o with Some (Committed c) | Some (Pending c) => Some c | None => None end.

Lemma settles_content o o' : settles o o' -> content_of o' = content_of o.
Proof. by intros [->|(c & -> & ->)]. Qed.

Lemma created_content c o o' : created_if_absent c o o' -> content_of o = None /\ content_of o' = Some c.
Proof. by intros (-> & x & [-> | ->] & ->). Qed.

(** ** What the stores on a bucket share *)

Section Bucket.
Context `{ObjectPathLaws} `{SourceFile} {S : Type} `{!ObjectStore S} `{!ObjectLaws S}.
Implicit Types self : Bucket S.

(** All objects but the one staged are as they were, or settled. *)
Definition kept_but (staged : ObjectPath -> Prop) self self' : Prop :=
  prefix self' = prefix self /\
  forall q, ~ staged q -> settles (contents (store self) q) (contents (store self') q).

#[export] Instance kept_but_preorder staged : PreOrder (kept_but staged).
Proof.
  split; [by split|]. intros s1 s2 s3 [P12 K12] [P23 K23]. split; [congruence|].
  intros q Hq. etransitivity; [by apply K12|by apply K23].
Qed.

Lemma kept_but_weaken (P Q : ObjectPath -> Prop) self self' :
  (forall q, P q -> Q q) -> kept_but P self self' -> kept_but Q self self'.
Proof. intros HPQ [Hp Hk]. split; [done|]. intros q Hq. apply Hk. auto. Qed.

Lemma on_store_inv {E A} (c : M S E A) self self' r :
  on_store c self = (self', r) ->
  exists s, c (store self) = (s, r) /\ self' = mkBucket s (prefix self) (uploads self).
Proof. unfold on_store. destruct (c (store self)) as [s q]. intros [= <- <-]. eauto. Qed.

Lemma stage_ok up source self self' r :
  stage up source self = (self', r) ->
  kept_but (eq up) self self' /\ (r = Ok tt -> contents (store self') up = Some (Committed source)).
Proof.
  unfold stage, ignore, m_bind, m_throw.
  destruct (on_store (os_write up source) self) as [s1 q] eqn:E.
  apply on_store_inv in E as (b & Hw & ->). apply os_write_law in Hw as [Hk Hc].
  assert (forall b', (forall q, q <> up -> settles (contents b q) (contents b' q)) ->
    kept_but (eq up) self (mkBucket b' (prefix self) (uploads self))) as Hcleaned.
  { intros b' Hb'. split; [done|]. intros q' Hq'. cbn.
    etransitivity; [apply Hk|apply Hb']; congruence. }
  destruct q as [[]|[e|e]].
  - intros [= <- <-]. split; [by apply Hcleaned|auto].
  - destruct (on_store (os_abort up) _) as [s2 q2] eqn:E. apply on_store_inv in E as (b2 & Ha & ->).
    intros [= <- <-]. split; [|done]. apply Hcleaned. intros q' Hq'. by eapply os_abort_law.
  - destruct (on_store (os_delete up) _) as [s2 q2] eqn:E. apply on_store_inv in E as (b2 & Ha & ->).
    intros [= <- <-]. split; [|done]. apply Hcleaned. intros q' Hq'. by eapply os_delete_law.
Qed.

(** What became of the object at the destination of a put. *)
Definition put_effect (source : bytes) (o o' : option Object) (r : result StoreError PutOutcome) : Prop :=
  match r with
  | Ok PutCreated => created_if_absent source o o'
  | Ok PutAlreadyExists => is_Some o /\ settles o o'
  | Err _ => settles o o' \/ created_if_absent source o o'
  end.

Lemma put_create_effect source o o' (r : result ObjectError unit) :
  match r with
  | Ok _ => o = None /\ o' = Some (Committed source)
  | Err (AlreadyExists | Precondition) => is_Some o /\ settles o o'
  | Err _ => settles o o' \/ (o = None /\ o' = Some (Committed source))
  end -> put_effect source o o' (create_outcome r).
Proof.
  assert (o = None /\ o' = Some (Committed source) -> created_if_absent source o o') as Hc.
  { intros [-> ->]. split; [done|]. eexists. split; [by left|done]. }
  destruct r as [[]|[]]; cbn; tauto.
Qed.

Lemma copy_create_effect source o o' (r : result ObjectError unit) :
  match r with
  | Ok _ => created_if_absent source o o'
  | Err (AlreadyExists | Precondition) => is_Some o /\ settles o o'
  | Err _ => settles o o' \/ created_if_absent source o o'
  end -> put_effect source o o' (create_outcome r).
Proof. by destruct r as [[]|[]]. Qed.

Lemma put_effect_after source o1 o2 o3 r :
  settles o2 o3 -> put_effect source o1 o2 r -> put_effect source o1 o3 r.
Proof.
  assert (forall x, created_if_absent source x o2 -> settles o2 o3 -> created_if_absent source x o3) as Hc.
  { intros x (-> & y & Hy & ->) Hs. split; [done|]. destruct Hs as [->|(c & [= ->] & ->)].
    - by exists y.
    - destruct Hy as [|[= ->]]; [done|]. eexists. split; [by left|done]. }
  intros Hs. destruct r as [[]|e]; cbn.
  - auto.
  - intros [? ?]. split; [done|by etransitivity].
  - intros [?|?]; [left; by etransitivity|right; auto].
Qed.

Lemma put_effect_before source o1 o2 o3 r :
  settles o1 o2 -> put_effect source o2 o3 r -> put_effect source o1 o3 r.
Proof.
  intros Hs. assert (o2 = None -> o1 = None) as Hn by (by apply (settles_none _ _ Hs)).
  assert (is_Some o2 -> is_Some o1) as Hsome.
  { intros [x ->]. destruct Hs as [<-|(c & -> & _)]; by eexists. }
  destruct r as [[]|e]; cbn.
  - intros [? ?]. split; auto.
  - intros [? ?]. split; [auto|by etransitivity].
  - intros [?|[? ?]]; [left; by etransitivity|right; split; auto].
Qed.

Lemma get_object_at_spec p self self' r :
  get_object_at p self = (self', r) ->
  prefix self' = prefix self /\
  (forall q, settles (contents (store self) q) (contents (store self') q)) /\
  match r with
  | Ok (Some blob) => exists o, contents (store self') p = Some o /\
      forall c, o = Committed c -> blob_size blob = N.of_nat (length c) /\ streams (blob_stream blob) c
  | Ok None => contents (store self) p = None
  | Err _ => True
  end.
Proof.
  unfold get_object_at.
  destruct (on_store _ self) as [s1 q] eqn:E. apply on_store_inv in E as (b & Hg & ->).
  apply os_get_law in Hg as (Hk & Hq & Hn). cbn.
  destruct q as [blob|[]]; intros [= <- <-]; (split; [done|]); (split; [done|]); cbn; try done.
  - destruct (contents b p) as [o|]; [|by specialize (Hn eq_refl)].
    exists o. split; [done|]. intros c ->. by apply Hq.
  - by apply (settles_none _ _ (Hk _)).
Qed.

Lemma key_same self self' d : prefix self' = prefix self -> key self' d = key self d.
Proof. unfold key. by intros ->. Qed.

Lemma put_effect_content source o o' r :
  put_effect source o o' r ->
  match r with
  | Ok PutCreated => content_of o = None /\ content_of o' = Some source
  | Ok PutAlreadyExists => is_Some (content_of o) /\ content_of o' = content_of o
  | Err _ => content_of o' = content_of o \/ (content_of o = None /\ content_of o' = Some source)
  end.
Proof.
  destruct r as [[]|e]; cbn.
  - apply created_content.
  - intros [[x ->] Hs]. split; [|by apply settles_content]. destruct x; by eexists.
  - intros [Hs|Hc]; [left; by apply settles_content|right; by apply created_content].
Qed.

(** *** Objects: what is there, or is on its way *)

Definition bucket_objects self (d : Digest) : option bytes := content_of (contents (store self) (key self d)).

Lemma content_some o : is_Some (content_of o) <-> is_Some o.
Proof. split; intros [x Hx]; destruct o as [[]|]; try done; by eexists. Qed.

Lemma get_objects d self self' r :
  get_object_at (key self d) self = (self', r) ->
  (forall d', bucket_objects self' d' = bucket_objects self d') /\
  match r with
  | Ok found => is_Some found <-> is_Some (bucket_objects self d)
  | Err _ => True
  end.
Proof.
  unfold bucket_objects. intros (Hp & Hk & Hr)%get_object_at_spec. split.
  { intros d'. rewrite (key_same self self') by done. apply settles_content, Hk. }
  destruct r as [[blob|]|e]; [|by rewrite content_some, Hr|done]. destruct Hr as (o & Ho & _).
  rewrite <-(settles_content _ _ (Hk _)), content_some, Ho. split; intros _; by eexists.
Qed.

(** Where copies are prompt, a read gets the content. *)
Lemma get_content `{!PromptCopies S} d self self' blob :
  get_object_at (key self d) self = (self', Ok (Some blob)) ->
  exists content, bucket_objects self d = Some content /\
    blob_size blob = N.of_nat (length content) /\ streams (blob_stream blob) content.
Proof.
  unfold bucket_objects. intros (Hp & Hk & o & Ho & Hc)%get_object_at_spec.
  destruct o as [c|c]; [|by destruct (never_pending _ _ _ Ho)].
  exists c. split; [|by apply Hc]. rewrite <-(settles_content _ _ (Hk _)). by rewrite Ho.
Qed.

Lemma put_objects d content self self' r :
  digest_validate d = Ok tt ->
  kept_but (fun q => staging_path (prefix self) (uploads self) = q \/ key self d = q) self self' ->
  put_effect content (contents (store self) (key self d)) (contents (store self') (key self d)) r ->
  (forall d', d' <> d -> digest_validate d' = Ok tt -> bucket_objects self' d' = bucket_objects self d') /\
  match r with
  | Ok PutCreated => bucket_objects self d = None /\ bucket_objects self' d = Some content
  | Ok PutAlreadyExists => is_Some (bucket_objects self d) /\ bucket_objects self' d = bucket_objects self d
  | Err _ => bucket_objects self' d = bucket_objects self d \/
      (bucket_objects self d = None /\ bucket_objects self' d = Some content)
  end.
Proof.
  unfold bucket_objects. intros Hd [Hp Hk] Hr. split.
  - intros d' Hne Hd'. rewrite (key_same self self') by done. apply settles_content, Hk.
    intros [Heq|Heq].
    + by apply (upload_path (prefix self) (uploads self) d').
    + by apply Hne, (blob_path_inj (prefix self)).
  - rewrite (key_same self self') by done. by apply put_effect_content.
Qed.
End Bucket.

(** ** Cloud Storage *)

Section Gcs.
Context `{ObjectPathLaws} `{SourceFile} {S : Type} `{!ObjectStore S} `{!ObjectLaws S}.
Implicit Types self : Bucket S.

(** A put touches its staged object and its destination only, and the
    destination only where there was nothing. *)
Lemma gcs_put_spec d source self self' r :
  digest_validate d = Ok tt -> GcsStore.put d source self = (self', r) ->
  prefix self' = prefix self /\
  (forall q, q <> key self d -> q <> staging_path (prefix self) (uploads self) ->
     settles (contents (store self) q) (contents (store self') q)) /\
  put_effect source (contents (store self) (key self d)) (contents (store self') (key self d)) r.
Proof.
  intros Hval. unfold GcsStore.put. destruct (fits_one_request (digest_size d)); unfold m_bind at 1.
  - unfold open_source. destruct (source_fault _); [by intros [= <- <-]; split_and!; [..|left]|].
    destruct (on_store (os_put_create _ _) _) as [s1 q] eqn:E. apply on_store_inv in E as (b & Hp & ->).
    apply os_put_create_law in Hp as [Hk Hq]. intros [= <- <-]. split; [done|]. split; [auto|].
    by apply put_create_effect.
  - unfold upload_key at 1. unfold m_bind at 1, open_source. cbn [prefix uploads store].
    set (up := staging_path (prefix self) (uploads self)).
    assert (up <> key self d) as Hne by (by apply upload_path).
    destruct (source_fault _); [by intros [= <- <-]; split_and!; [..|left]|].
    unfold m_bind. destruct (stage up source _) as [s1 q] eqn:E. apply stage_ok in E as [[Hp1 Hk1] Hc].
    cbn in Hp1, Hk1. destruct q as [[]|e].
    2:{ intros [= <- <-]. split; [done|]. split; [auto|]. left. auto. }
    destruct (on_store (os_copy_create _ _) s1) as [s2 q2] eqn:E. apply on_store_inv in E as (b & Hp & ->).
    eapply os_copy_create_law in Hp as [Hk2 Hq2]; [|done|by apply Hc].
    destruct (on_store (os_delete up) _) as [s3 q3] eqn:E. apply on_store_inv in E as (b' & Hp & ->).
    pose proof (os_delete_law _ _ _ _ Hp) as Hk3. cbn in Hp, Hk3. intros [= <- <-]. cbn. split; [done|].
    split.
    + intros q Hq Hq'. etransitivity; [by apply Hk1|]. etransitivity; [by apply Hk2|by apply Hk3].
    + eapply put_effect_after; [by apply Hk3|]. eapply put_effect_before; [by apply Hk1|].
      by apply copy_create_effect.
Qed.

#[export] Instance gcs_laws : @BlobLaws _ (Bucket S) GcsStore.blob_store.
Proof.
  refine {| objects := bucket_objects |}; cbn [blob_get blob_put GcsStore.blob_store].
  - intros d s s' r Hg. by eapply get_objects.
  - intros d content s s' r Hd _ Hput. apply gcs_put_spec in Hput as (Hp & Hk & Hr); [|done].
    apply put_objects; [done| |done]. split; [done|]. intros q Hq. apply Hk; naive_solver.
Defined.

#[export] Instance gcs_reads `{!PromptCopies S} : @BlobReads _ (Bucket S) GcsStore.blob_store gcs_laws.
Proof. split. intros d s s' blob Hg. by eapply get_content. Qed.
End Gcs.

(** ** S3 *)

Section S3.
Context `{S3KeyLaws} `{SourceFile} {S : Type} `{!S3Client S} `{!S3Laws S}.
Implicit Types self : S3Store.t S.

Definition s3_blobs self (d : Digest) : option bytes := s3_objects (S3Store.client self) (S3Store.key self d).

Lemma s3_key_inj self d d' :
  digest_validate d = Ok tt -> digest_validate d' = Ok tt ->
  S3Store.key self d = S3Store.key self d' -> d = d'.
Proof.
  unfold S3Store.key. intros Hd Hd' Heq. apply digest_key_inj; [done..|].
  by apply (inj (String.append "/blobs/")), (inj (String.append (S3Store.prefix self))).
Qed.

Lemma s3_get d self self' r :
  S3Store.get d self = (self', r) ->
  (forall d', s3_blobs self' d' = s3_blobs self d') /\
  match r with
  | Ok None => s3_blobs self d = None
  | Ok (Some blob) => exists content, s3_blobs self d = Some content /\
      blob_size blob = N.of_nat (length content) /\ streams (blob_stream blob) content
  | Err _ => True
  end.
Proof.
  unfold s3_blobs, S3Store.get, S3Store.on_client.
  destruct (get_object _ _) as [b q] eqn:E. apply get_object_law in E as [Hk Hq].
  assert (forall d', s3_objects b (S3Store.key self d') = s3_objects (S3Store.client self) (S3Store.key self d'))
    as Hk' by done.
  destruct q as [output|error].
  - destruct Hq as (c & Hc & Hl & Hst). destruct (content_length output) as [n|]; cbn; last first.
    { by intros [= <- <-]. }
    destruct (S3Store.u64_try_from n) as [size|] eqn:Eu; cbn; intros [= <- <-]; [|done].
    split; [done|]. exists c. split; [done|]. split; [|done]. cbn.
    unfold S3Store.u64_try_from in Eu. case_match; [|done]. rewrite (Hl n) in Eu by done.
    injection Eu as <-. lia.
  - unfold object_missing in Hq. case_bool_decide as Hb; [by intros [= <- <-]|].
    destruct (is_no_such_key error || _) eqn:Em; intros [= <- <-]; [|done].
    split; [done|]. apply Hq. split; [done|]. apply orb_true_iff in Em as [Em|Em]; [by left|right].
    by apply bool_decide_eq_true in Em.
Qed.

#[export] Instance s3_laws : @BlobLaws _ (S3Store.t S) S3Store.blob_store.
Proof.
  refine {| objects := s3_blobs |}; cbn [blob_get blob_put S3Store.blob_store].
  - intros d s s' r [Hk Hr]%s3_get. split; [done|]. destruct r as [[blob|]|e]; [|by rewrite Hr|done].
    destruct Hr as (c & -> & _). split; intros _; by eexists.
  - unfold s3_blobs. intros d content s s' r Hd _. unfold S3Store.put, m_bind, S3Store.open_source, S3Store.on_client.
    destruct (source_fault _).
    { intros [= <- <-]. split; [done|]. by left. }
    cbn [S3Store.client S3Store.prefix S3Store.uploads]. unfold S3Store.key at 1. cbn [S3Store.prefix].
    destruct (put_object_if_none_match _ _ _) as [b q] eqn:E. apply put_object_law in E as [Hk Hq].
    assert (forall d', d' <> d -> digest_validate d' = Ok tt ->
      s3_objects b (S3Store.key s d') = s3_objects (S3Store.client s) (S3Store.key s d')) as Hothers.
    { intros d' Hne Hd'. apply Hk. intros Heq. by apply Hne, (s3_key_inj s). }
    destruct q as [[]|e]; [by intros [= <- <-]|].
    case_bool_decide; intros [= <- <-]; by split.
Defined.

#[export] Instance s3_reads : @BlobReads _ (S3Store.t S) S3Store.blob_store s3_laws.
Proof. split. intros d s s' blob Hg. by apply s3_get in Hg as [_ Hg]. Qed.
End S3.


(** ** Azure *)

Section Azure.
Context `{ObjectPathLaws} `{SourceFile} {S : Type} `{!ObjectStore S} `{!ObjectLaws S}.
Implicit Types self : Bucket S.

Definition nothing (q : ObjectPath) : Prop := False.
Definition committed_at self (p : ObjectPath) : Prop := exists c, contents (store self) p = Some (Committed c).

(** Whatever the polls see, they change nothing, and only a committed object
    ends them well. *)
Lemma poll_spec attempts key first last self self' r :
  (first < last)%N -> AzureStore.poll attempts key first last self = (self', r) ->
  kept_but nothing self self' /\ (r = Ok tt -> committed_at self' key).
Proof.
  intros Hr. revert self; induction attempts as [|n IH]; intros self; cbn.
  { by intros [= <- <-]. }
  destruct (on_store _ self) as [s1 q] eqn:E. apply on_store_inv in E as (b & Hg & ->).
  apply os_get_range_law in Hg as [Hk Hc].
  assert (kept_but nothing self (mkBucket b (prefix self) (uploads self))) as Hb by (by split; cbn).
  destruct q as [[]|e].
  - intros [= <- <-]. split; [done|]. by intros _; apply Hc.
  - intros Hp. apply IH in Hp as [Hk' Hc']. split; [by etransitivity|done].
Qed.

Lemma kept_nothing self self' q :
  kept_but nothing self self' -> settles (contents (store self) q) (contents (store self') q).
Proof. intros [_ Hk]. apply Hk; by intros []. Qed.

Lemma ignore_delete up self self' (r : result StoreError unit) :
  ignore (on_store (os_delete up)) self = (self', r) -> kept_but (eq up) self self' /\ r = Ok tt.
Proof.
  unfold ignore. destruct (on_store _ self) as [s1 q] eqn:E. apply on_store_inv in E as (b & Hd & ->).
  intros [= <- <-]. split; [|done]. split; [done|]. intros q' Hq'. eapply os_delete_law; [done|congruence].
Qed.

(** Waiting after the object is settled changes the outcome to a failure at
    most. *)
Lemma waited key size o source before self self' r :
  size <> 0%N ->
  (AzureStore.wait_until_readable key size ;~ m_ret o) self = (self', r) ->
  put_effect source before (contents (store self) key) (Ok o) ->
  kept_but nothing self self' /\
  put_effect source before (contents (store self') key) r /\ (is_ok r = true -> committed_at self' key).
Proof.
  intros Hsize. unfold m_bind, m_ret. destruct (AzureStore.wait_until_readable key size self) as [s1 q] eqn:E.
  unfold AzureStore.wait_until_readable in E. apply poll_spec in E as [Hk Hc]; [|lia].
  intros Heq Hput. apply (put_effect_after _ _ _ _ _ (kept_nothing _ _ key Hk)) in Hput.
  destruct q as [[]|e]; simplify_eq; split_and!; try done.
  - intros _. by apply Hc.
  - destruct o; cbn in Hput |- *; [by right|left; apply Hput].
Qed.

Lemma publish_spec up dest size source self self' r :
  size <> 0%N -> up <> dest -> contents (store self) up = Some (Committed source) ->
  AzureStore.publish up dest size self = (self', r) ->
  kept_but (fun q => up = q \/ dest = q) self self' /\
  put_effect source (contents (store self) dest) (contents (store self') dest) r /\
  (is_ok r = true -> committed_at self' dest).
Proof.
  intros Hsize Hne Hup. unfold AzureStore.publish.
  destruct (on_store (os_copy_create up dest) self) as [s1 q] eqn:E.
  apply on_store_inv in E as (b & Hc & ->).
  eapply os_copy_create_law in Hc as [Hk Hq]; [|done..]. apply copy_create_effect in Hq.
  assert (kept_but (fun q => up = q \/ dest = q) self (mkBucket b (prefix self) (uploads self))) as Hb.
  { split; [done|]. intros q' Hq'. apply Hk. naive_solver. }
  assert (forall self2, kept_but (eq up) (mkBucket b (prefix self) (uploads self)) self2 ->
    settles (contents b dest) (contents (store self2) dest)) as Hdest by (intros self2 Hs; by apply Hs).
  destruct q as [[]|e]; cbn [create_outcome] in Hq.
  { intros Hw. eapply waited in Hw as (Hk' & Hr & Hok); [|done..]. split; [|done].
    etransitivity; [done|]. by eapply kept_but_weaken, Hk'. }
  assert (forall o, (ignore (on_store (os_delete up)) ;~ AzureStore.wait_until_readable dest size ;~ m_ret o)
            (mkBucket b (prefix self) (uploads self)) = (self', r) ->
    put_effect source (contents (store self) dest) (contents b dest) (Ok o) ->
    kept_but (fun q => up = q \/ dest = q) self self' /\
    put_effect source (contents (store self) dest) (contents (store self') dest) r /\
    (is_ok r = true -> committed_at self' dest)) as Hexists.
  { intros o. unfold m_bind at 1. destruct (ignore _ _) as [s2 q2] eqn:E.
    apply ignore_delete in E as [Hk2 ->]. intros Hw Hput.
    eapply waited in Hw as (Hk' & Hr & Hok); [|done|by eapply put_effect_after, Hput; apply Hdest].
    split; [|done]. etransitivity; [done|]. etransitivity.
    - eapply kept_but_weaken, Hk2. by left.
    - by eapply kept_but_weaken, Hk'. }
  destruct e; try (intros Hw; by apply Hexists in Hw);
    (unfold m_bind, m_throw; destruct (ignore _ _) as [s2 q2] eqn:E; apply ignore_delete in E as [Hk2 ->];
     intros [= <- <-]; split_and!;
     [etransitivity; [done|]; eapply kept_but_weaken, Hk2; by left
     |eapply put_effect_after, Hq; by apply Hdest|done]).
Qed.

(** A put that is answered well has made the object readable: its content is
    the source where there was nothing. *)
Lemma azure_put_spec d source self self' r :
  digest_validate d = Ok tt -> (digest_size d = 0%N -> source = []) ->
  AzureStore.put d source self = (self', r) ->
  kept_but (fun q => staging_path (prefix self) (uploads self) = q \/ key self d = q) self self' /\
  put_effect source (contents (store self) (key self d)) (contents (store self') (key self d)) r /\
  (is_ok r = true -> digest_size d <> 0%N -> committed_at self' (key self d)) /\
  (digest_size d = 0%N -> settles (contents (store self) (key self d)) (contents (store self') (key self d)) \/
     contents (store self') (key self d) = Some (Committed [])).
Proof.
  intros Hval Hempty. unfold AzureStore.put. destruct (N.eqb_spec (digest_size d) 0) as [Hz|Hz].
  { rewrite (Hempty Hz). destruct (on_store _ self) as [s1 q] eqn:E. apply on_store_inv in E as (b & Hp & ->).
    apply os_put_create_law in Hp as [Hk Hq]. intros [= <- <-]. split_and!.
    - split; [done|]. intros q' Hq'. apply Hk. naive_solver.
    - by apply put_create_effect.
    - by intros _ [].
    - intros _. destruct q as [[]|[]]; cbn; naive_solver. }
  unfold upload_key at 1, m_bind at 1, open_source, m_bind at 1. cbn [prefix uploads store].
  set (up := staging_path (prefix self) (uploads self)).
  assert (up <> key self d) as Hne by (by apply upload_path).
  destruct (source_fault _); [by intros [= <- <-]; split; [by split|split_and!; [by left|..]]|].
  unfold m_bind. destruct (stage up source _) as [s1 q] eqn:E. apply stage_ok in E as [[Hp1 Hk1] Hc].
  cbn in Hp1, Hk1. assert (kept_but (fun q => up = q \/ key self d = q) self s1) as Hs1.
  { split; [done|]. intros q' Hq'. apply Hk1. naive_solver. }
  destruct q as [[]|e].
  2:{ intros [= <- <-]. split; [done|]. split_and!; [|done..]. left. by apply Hk1. }
  intros Hpub. apply (publish_spec _ _ _ source) in Hpub as (Hk2 & Hr & Hok); [|by auto..].
  split; [by etransitivity|]. split_and!; [|intros Hr' _; by apply Hok|done]. eapply put_effect_before, Hr. by apply Hk1.
Qed.

#[local] Existing Instance AzureStore.blob_store.

Lemma put_effect_keeps source o o' r c :
  put_effect source o o' r -> o = Some (Committed c) -> o' = Some (Committed c).
Proof.
  intros Hp ->. assert (created_if_absent source (Some (Committed c)) o' -> False) as Hc by (by intros [? _]).
  destruct r as [[]|e]; cbn in Hp.
  - by destruct (Hc Hp).
  - destruct Hp as [_ Hs]. by eapply settles_committed.
  - destruct Hp as [Hs|Hp]; [by eapply settles_committed|by destruct (Hc Hp)].
Qed.

Lemma azure_op_kept d c op self self' r :
  op_valid op -> digest_validate d = Ok tt ->
  contents (store self) (key self d) = Some (Committed c) -> run_blob_op op self = (self', r) ->
  contents (store self') (key self' d) = Some (Committed c) /\
  (forall o, op = OpGetBlob d -> r = Ok (AnsBlob o) ->
     exists blob, o = Some blob /\ blob_size blob = N.of_nat (length c) /\ streams (blob_stream blob) c).
Proof.
  unfold op_valid. destruct op as [d1|d1 content]; cbn; intros [Hval Hsize] Hd Hc; unfold m_bind, m_ret.
  - destruct (AzureStore.get d1 self) as [s1 q] eqn:E. unfold AzureStore.get in E.
    apply get_object_at_spec in E as (Hp & Hk & Hq).
    assert (contents (store s1) (key self d) = Some (Committed c)) as Hc'
      by (eapply settles_committed, Hc; apply Hk).
    intros Heq. assert (s1 = self') as -> by (by destruct q; injection Heq).
    split; [by rewrite (key_same self self') by done|]. intros o [= ->] ->.
    destruct q as [[blob|]|]; simplify_eq.
    destruct Hq as (o & Ho & Hb). assert (o = Committed c) as -> by congruence. eauto.
  - destruct (AzureStore.put d1 content self) as [s1 q] eqn:E. apply azure_put_spec in E as ([Hp Hk] & Hq & _ & _); [|done..].
    intros Heq. assert (s1 = self') as -> by (by destruct q; injection Heq).
    split; [|done]. rewrite (key_same self self') by done. destruct (decide (d = d1)) as [<-|Hne].
    { by eapply put_effect_keeps. }
    eapply settles_committed, Hc. apply Hk. intros [Heq'|Heq'].
    + by apply (upload_path (prefix self) (uploads self) d).
    + by apply Hne, (blob_path_inj (prefix self)).
Qed.

Lemma azure_ops_kept d c ops self self' rs :
  Forall op_valid ops -> digest_validate d = Ok tt ->
  contents (store self) (key self d) = Some (Committed c) -> run_blob_ops ops self = (self', rs) ->
  contents (store self') (key self' d) = Some (Committed c) /\
  (forall i o, ops !! i = Some (OpGetBlob d) -> rs !! i = Some (Ok (AnsBlob o)) ->
     exists blob, o = Some blob /\ blob_size blob = N.of_nat (length c) /\ streams (blob_stream blob) c).
Proof.
  intros Hv Hd. revert self rs. induction Hv as [|op ops Hop Hv IH]; intros self rs Hc; cbn.
  { intros [= <- <-]. split; [done|]. by intros [|i]. }
  destruct (run_blob_op op self) as [s1 a] eqn:E. destruct (run_blob_ops ops s1) as [s2 rest] eqn:E2.
  intros [= <- <-]. eapply azure_op_kept in E as [Hc' Hget]; [|done..].
  eapply IH in E2 as [Hend Hrest]; [|done..]. split; [done|]. intros [|i] o; [|by apply Hrest].
  cbn. intros [= ->] [= ->]. by apply Hget.
Qed.

(** The empty blob is written, never copied: it is never pending. *)
Definition empty_whole self : Prop :=
  forall d c, digest_validate d = Ok tt -> digest_size d = 0%N ->
    contents (store self) (key self d) <> Some (Pending c).

Lemma settles_whole o o' : settles o o' -> (forall c, o <> Some (Pending c)) -> forall c, o' <> Some (Pending c).
Proof. by intros [->|(c & -> & ->)]. Qed.

Lemma azure_op_whole op self self' r :
  op_valid op -> run_blob_op op self = (self', r) -> empty_whole self -> empty_whole self'.
Proof.
  intros [Hval Hempty] Hop Hw d c Hd Hz. pose proof (fun c => Hw d c Hd Hz) as Hd'. clear Hw. revert c.
  destruct op as [d1|d1 content]; cbn in *; unfold m_bind, m_ret in Hop.
  - destruct (AzureStore.get d1 self) as [s1 q] eqn:E. apply get_object_at_spec in E as (Hp & Hk & _).
    assert (s1 = self') as -> by (by destruct q; injection Hop). rewrite (key_same self self') by done.
    exact (settles_whole _ _ (Hk _) Hd').
  - destruct (AzureStore.put d1 content self) as [s1 q] eqn:E.
    apply azure_put_spec in E as ([Hp Hk] & _ & _ & Hdone); [|done..].
    assert (s1 = self') as -> by (by destruct q; injection Hop). rewrite (key_same self self') by done.
    destruct (decide (d = d1)) as [<-|Hne].
    + destruct (Hdone Hz) as [Hs| ->]; [exact (settles_whole _ _ Hs Hd')|done].
    + refine (settles_whole _ _ (Hk _ _) Hd'). intros [Heq|Heq].
      * by apply (upload_path (prefix self) (uploads self) d).
      * by apply Hne, (blob_path_inj (prefix self)).
Qed.

Lemma azure_ops_whole ops self self' rs :
  Forall op_valid ops -> run_blob_ops ops self = (self', rs) -> empty_whole self -> empty_whole self'.
Proof.
  intros Hv. revert self rs. induction Hv as [|op ops Hop Hv IH]; intros self rs; cbn; [by intros [= <- <-]|].
  destruct (run_blob_op op self) as [s1 a] eqn:E. destruct (run_blob_ops ops s1) as [s2 rest] eqn:E2.
  intros [= <- <-] Hw. eapply IH; [exact E2|]. by eapply azure_op_whole.
Qed.

(** C36. What an Azure put answered is readable from then on, the empty blob and any
    other: every later get that answers finds it, with the source as its content
    where the put created it, whatever is put meanwhile. (The empty blob is not
    waited for: it is written, not copied, so that it is never a pending copy;
    that is so of an empty bucket and stays so.) *)
Theorem azure_reads_what_was_put d source self self1 o ops self' rs :
  op_valid (OpPutBlob d source) -> empty_whole self ->
  Forall op_valid ops ->
  AzureStore.put d source self = (self1, Ok o) -> run_blob_ops ops self1 = (self', rs) ->
  empty_whole self' /\
  exists content,
    (o = PutCreated -> contents (store self) (key self d) = None /\ content = source) /\
    (o = PutAlreadyExists -> content_of (contents (store self) (key self d)) = Some content) /\
    contents (store self') (key self' d) = Some (Committed content) /\
    (forall i a, ops !! i = Some (OpGetBlob d) -> rs !! i = Some (Ok (AnsBlob a)) ->
       exists blob, a = Some blob /\ blob_size blob = N.of_nat (length content) /\
         streams (blob_stream blob) content).
Proof.
  intros Hvalid Hw Hv Hput Hrun. assert (empty_whole self1) as Hw1.
  { eapply (azure_op_whole (OpPutBlob d source) self); [done| |done]. cbn. unfold m_bind. by rewrite Hput. }
  split; [by eapply azure_ops_whole|]. destruct Hvalid as [Hd Hempty].
  apply azure_put_spec in Hput as ([Hp Hk] & Hq & Hc & _); [|done..].
  assert (committed_at self1 (key self d)) as [c Hcom].
  { destruct (N.eq_dec (digest_size d) 0%N) as [Hz|Hz]; [|by apply Hc]. cbn in Hd.
    pose proof (fun c => Hw1 d c Hd Hz) as Hwd. rewrite (key_same self self1) in Hwd by done.
    pose proof (put_effect_content _ _ _ _ Hq) as Hq'. unfold committed_at.
    destruct (contents (store self1) (key self d)) as [[c|c]|]; [by exists c|by destruct (Hwd c)|].
    destruct o; cbn in Hq'; [by destruct Hq'|]. by destruct Hq' as [[? ?] ?]; congruence. }
  exists c. rewrite <-(key_same self self1) in Hcom by done.
  destruct (azure_ops_kept d c ops self1 self' rs) as [Hend Hgets]; try done.
  rewrite (key_same self self1) in Hcom by done. pose proof (put_effect_content _ _ _ _ Hq) as Hq'.
  rewrite Hcom in Hq'. split; [|split; [|done]]; intros ->; cbn in Hq, Hq'.
  - destruct Hq as [Hn _]. destruct Hq' as [_ [= ->]]. done.
  - by destruct Hq' as [_ <-].
Qed.

(** Azure Storage keeps the laws of what is stored, counting a copy that is
    still pending; where none is, its reads are whole as well. *)
#[export] Instance azure_laws : @BlobLaws _ (Bucket S) AzureStore.blob_store.
Proof.
  refine {| objects := bucket_objects |}; cbn [blob_get blob_put AzureStore.blob_store].
  - intros d s s' r Hg. by eapply get_objects.
  - intros d content s s' r Hd Hempty Hput. apply azure_put_spec in Hput as (Hk & Hr & _ & _); [|done..].
    by apply put_objects.
Defined.

#[export] Instance azure_reads `{!PromptCopies S} : @BlobReads _ (Bucket S) AzureStore.blob_store azure_laws.
Proof. split. intros d s s' blob Hg. by eapply get_content. Qed.
End Azure.

(** ** Refinement *)

Section Refinement.
Context `{Protocol} `{SourceFile}.

(** C35. Runs of puts and gets on Cloud Storage are runs of the abstract machine,
    on the objects under the keys of the digests. *)
Theorem gcs_refines `{!ObjectPaths} `{!ObjectPathLaws} {S : Type} `{!ObjectStore S} `{!ObjectLaws S}
    `{!PromptCopies S} ops (self self' : Bucket S) rs :
  Forall op_valid ops -> @run_blob_ops _ GcsStore.blob_store ops self = (self', rs) ->
  blob_run (bucket_objects self) ops rs (bucket_objects self').
Proof. exact (@run_blob_ops_refines _ _ _ gcs_laws gcs_reads ops self self' rs). Qed.

(** C37. The same of S3. *)
Theorem s3_refines `{!S3KeyLaws} {S : Type} `{!S3Client S} `{!S3Laws S} ops (self self' : S3Store.t S) rs :
  Forall op_valid ops -> @run_blob_ops _ S3Store.blob_store ops self = (self', rs) ->
  blob_run (s3_blobs self) ops rs (s3_blobs self').
Proof. exact (@run_blob_ops_refines _ _ _ s3_laws s3_reads ops self self' rs). Qed.
End Refinement.
