(* ===== verification/Filesystem.v ===== *)
(** * The filesystem blob store (src/storage/filesystem.rs)

    Files by their path below the store's root. A put copies into a staging
    file beside the destination and renames it into place without replacing
    anything; the disk may fail at any call. The second half models puts that
    run at the same time. *)
From S2P Require Import Prelude Str Protocol Api Json Records.
From Stdlib Require Import Ascii DecimalString DecimalN.

Local Open Scope string_scope.
Local Open Scope mbx_scope.

(** A path below the root, by its components. *)
Notation Path := (list string).

(** [u64::to_string] *)
Definition u64_to_string (n : N) : string := NilEmpty.string_of_uint (N.to_uint n).

(** The disk: whether its n-th call fails, the names [NamedTempFile] makes up,
    and how [ReaderStream] cuts a file, or breaks off. *)
Class Disk := {
  disk_fault : nat -> option StoreError;
  staging_name : nat -> string;
  read_stream : nat -> bytes -> list (result StoreError bytes);
}.

(** [create_dir_all], and the files there are below a directory. *)
Class Directories := {
  create_dir_all : string -> result StoreError unit;
  files_below : string -> gmap Path bytes;
}.

Class DiskLaws `{Disk} : Prop := {
  staging_prefix n : exists r, staging_name n = ".tmp" ++ r;
  read_stream_law n content : streams (read_stream n content) content;
}.

Module FilesystemStore.
Section FilesystemStore.
Context `{Protocol} `{!Disk}.

Record t := mk { files : gmap Path bytes; calls : nat }.

Definition new `{Directories} (root : string) : result StoreError t :=
  _ <-? create_dir_all (root ++ "/blobs");
  Ok (mk (files_below root) 0).

Definition path (digest : Digest) : result StoreError Path :=
  _ <-? map_err OtherError (digest_validate digest);
  algorithm <-? map_err OtherError (algorithm_kind digest);
  Ok ["blobs"; algorithm_as_str algorithm; String.substring 0 2 (digest_hash digest);
      digest_hash digest; u64_to_string (digest_size digest)].

(** One call of the disk. *)
Definition call : M t StoreError nat :=
  fun self =>
    (mk (files self) (S (calls self)),
     match disk_fault (calls self) with Some e => Err e | None => Ok (calls self) end).

Definition set_files (f : gmap Path bytes -> gmap Path bytes) : M t StoreError unit :=
  fun self => (mk (f (files self)) (calls self), Ok tt).

Definition read_files : M t StoreError (gmap Path bytes) := fun self => (self, Ok (files self)).

(** [open], [metadata], and the stream that reads on. *)
Definition get (digest : Digest) : M t StoreError (option Blob) :=
  file <~ m_lift (path digest);
  call ;~
  found <~ read_files;
  match found !! file with
  | None => m_ret None
  | Some content =>
      n <~ call;
      m_ret (Some (mkBlob (N.of_nat (length content)) (read_stream n content)))
  end.

(** The staging file is removed when its handle drops on the way out. *)
Definition or_remove {A} (staging : Path) (c : M t StoreError A) : M t StoreError A :=
  fun self =>
    match c self with
    | (self', Err e) => (mk (delete staging (files self')) (calls self'), Err e)
    | ok => ok
    end.

(** [persist_noclobber] *)
Definition persist_noclobber (staging destination : Path) : M t StoreError PutOutcome :=
  call ;~
  found <~ read_files;
  match found !! destination with
  | Some _ => set_files (delete staging) ;~ m_ret PutAlreadyExists
  | None =>
      set_files (fun fs => <[destination := default [] (fs !! staging)]> (delete staging fs)) ;~
      m_ret PutCreated
  end.

Definition put (digest : Digest) (source : bytes) : M t StoreError PutOutcome :=
  destination <~ m_lift (path digest);
  call ;~
  found <~ read_files;
  match found !! destination with
  | Some _ => m_ret PutAlreadyExists
  | None =>
      let parent := take 4 destination in
      call ;~
      n <~ call;
      let staging := (parent ++ [staging_name n])%list in
      set_files (<[staging := []]>) ;~
      or_remove staging
        (call ;~
         set_files (<[staging := source]>) ;~
         call ;~
         persist_noclobber staging destination)
  end.

#[export] Instance store : BlobStore t := { blob_get := get; blob_put := put }.

(** ** Puts at the same time

    Each task runs the calls of [put]; between two calls of one, any other may
    run, and a task may fail or be dropped at any point. Staging files have
    names of their own, so what matters is the content each task holds. *)

Inductive Task :=
  | Checked (d : Digest) (content : bytes)
  | Staged (d : Digest) (content : bytes)
  | Done (d : Digest) (content : bytes) (outcome : PutOutcome).

Record Puts := mkPuts { blob_files : gmap Path bytes; tasks : gmap nat Task }.

Inductive put_step : Puts -> Puts -> Prop :=
  | PutFound fs ts i d content dest :
      ts !! i = None -> path d = Ok dest -> is_Some (fs !! dest) ->
      put_step (mkPuts fs ts) (mkPuts fs (<[i := Done d content PutAlreadyExists]> ts))
  | PutChecked fs ts i d content dest :
      ts !! i = None -> path d = Ok dest -> fs !! dest = None ->
      put_step (mkPuts fs ts) (mkPuts fs (<[i := Checked d content]> ts))
  | PutStaged fs ts i d content :
      ts !! i = Some (Checked d content) ->
      put_step (mkPuts fs ts) (mkPuts fs (<[i := Staged d content]> ts))
  | PutPersisted fs ts i d content dest :
      ts !! i = Some (Staged d content) -> path d = Ok dest -> fs !! dest = None ->
      put_step (mkPuts fs ts)
        (mkPuts (<[dest := content]> fs) (<[i := Done d content PutCreated]> ts))
  | PutLost fs ts i d content dest :
      ts !! i = Some (Staged d content) -> path d = Ok dest -> is_Some (fs !! dest) ->
      put_step (mkPuts fs ts) (mkPuts fs (<[i := Done d content PutAlreadyExists]> ts))
  | PutFailed fs ts i task :
      ts !! i = Some task -> (forall d c o, task <> Done d c o) ->
      put_step (mkPuts fs ts) (mkPuts fs (delete i ts)).

End FilesystemStore.
End FilesystemStore.
