(* ===== verification/FilesystemProofs.v ===== *)
(** * What the filesystem store guarantees

    Paths stay below the root and tell digests apart; the store keeps the
    contract of a blob store; and of puts at the same time exactly one wins. *)
From S2P Require Import Prelude Str Protocol Api Json Records Filesystem.
From Stdlib Require Import Ascii DecimalString DecimalN.

Local Open Scope string_scope.
Local Open Scope mbx_scope.

Import FilesystemStore.

Lemma u64_to_string_inj n1 n2 : u64_to_string n1 = u64_to_string n2 -> n1 = n2.
Proof.
  unfold u64_to_string. intros Heq. rewrite <-(Unsigned.of_to n1), <-(Unsigned.of_to n2). f_equal.
  assert (Some (N.to_uint n1) = Some (N.to_uint n2)) as [= ->]; [|done].
  rewrite <-(NilEmpty.usu (N.to_uint n1)), <-(NilEmpty.usu (N.to_uint n2)). by rewrite Heq.
Qed.

Lemma string_of_uint_digits d : str_all is_ascii_digit (NilEmpty.string_of_uint d) = true.
Proof. by induction d. Qed.

Lemma u64_to_string_nonempty n : u64_to_string n <> "".
Proof.
  unfold u64_to_string. intros Heq. pose proof (NilEmpty.usu (N.to_uint n)) as Hu.
  rewrite Heq in Hu. injection Hu as Hu. pose proof (Unsigned.of_to n) as Hn. rewrite <-Hu in Hn.
  cbn in Hn. subst n. discriminate.
Qed.

Lemma substring_prefix n s : exists r, s = String.substring 0 n s ++ r.
Proof.
  revert n; induction s as [|a s IH]; intros [|n]; cbn; [by exists ""..|by eexists|].
  destruct (IH n) as [r Hr]. exists r. by rewrite <-Hr.
Qed.

Lemma str_all_no_char f c s : str_all f s = true -> f c = false -> contains_char c s = false.
Proof.
  intros Hs Hc. apply contains_char_false. revert Hs. apply str_all_impl. intros a Ha.
  destruct (Ascii.eqb_spec a c) as [->|]; [congruence|done].
Qed.

Section Path.
Context `{ProtocolLaws} `{!Disk}.

Lemma path_ok d p :
  path d = Ok p <-> digest_validate d = Ok tt /\
    p = ["blobs"; digest_algorithm d; String.substring 0 2 (digest_hash d); digest_hash d;
         u64_to_string (digest_size d)].
Proof.
  unfold path. rewrite result_bind_ok. split.
  - intros ([] & Hv & (a & Ha & [= <-])%result_bind_ok).
    destruct (digest_validate d) as [[]|]; [|done]. split; [done|].
    destruct (algorithm_kind d) as [a'|] eqn:Hk; [|done]. injection Ha as ->.
    by rewrite (algorithm_kind_name _ _ Hk).
  - intros [Hv ->]. exists tt. rewrite Hv. split; [done|].
    destruct (validate_kind _ Hv) as [a Ha]. rewrite Ha. cbn. by rewrite (algorithm_kind_name _ _ Ha).
Qed.

Lemma path_inj d1 d2 p : path d1 = Ok p -> path d2 = Ok p -> d1 = d2.
Proof.
  rewrite !path_ok. intros [_ ->] [_ Heq]. destruct d1, d2; cbn in *.
  injection Heq as -> _ -> Hs. apply u64_to_string_inj in Hs as ->. done.
Qed.

(** A component that names a file or directory of its own, and no other. *)
Definition plain_component (c : string) : Prop :=
  c <> "" /\ c <> "." /\ c <> ".." /\ contains_char "/" c = false /\ contains_char NUL c = false.

Lemma hex_component s :
  str_all is_lower_hex s = true -> s <> "" -> plain_component s.
Proof.
  intros Hs Hne. split; [done|]. split; [by intros ->|]. split; [by intros ->|].
  split; by eapply str_all_no_char.
Qed.

(** C33. The path of a digest is only built for a valid one, has five plain
    components and so stays below the store's root whatever a client sends,
    and no two digests share it. *)
Theorem path_safe d p :
  path d = Ok p ->
  digest_validate d = Ok tt /\ length p = 5 /\ Forall plain_component p /\
  forall d', path d' = Ok p -> d' = d.
Proof.
  intros Hp. pose proof Hp as [Hv ->]%path_ok. split; [done|]. split; [done|].
  split; [|intros d' Hd'; by eapply path_inj].
  destruct (validate_hash _ Hv) as [Hlen Hhex]. destruct (validate_kind _ Hv) as [a Ha].
  apply algorithm_kind_name in Ha. destruct (substring_prefix 2 (digest_hash d)) as [r Hr].
  apply Forall_cons; split; [by vm_compute|]. apply Forall_cons; split.
  { rewrite Ha. by destruct a; [rewrite as_str_blake3|rewrite as_str_sha256]; vm_compute. }
  apply Forall_cons; split; [|apply Forall_cons; split; [|apply Forall_singleton]].
  - apply hex_component.
    + rewrite Hr, str_all_app in Hhex. by apply andb_true_iff in Hhex as [Hhex _].
    + destruct (digest_hash d) as [|b s]; [done|]. cbn. by destruct s.
  - apply hex_component; [done|]. by destruct (digest_hash d).
  - pose proof (string_of_uint_digits (N.to_uint (digest_size d))) as Hd.
    split; [apply u64_to_string_nonempty|]. unfold u64_to_string in *.
    split; [by intros Heq; rewrite Heq in Hd|]. split; [by intros Heq; rewrite Heq in Hd|].
    split; by eapply str_all_no_char.
Qed.

(** A staging name is no size. *)
Lemma staging_not_blob `{!DiskLaws} n d p dest :
  path d = Ok p -> p <> (take 4 dest ++ [staging_name n])%list \/ length dest < 4.
Proof.
  intros [_ ->]%path_ok. destruct (Nat.lt_ge_cases (length dest) 4) as [|Hge]; [by right|left].
  destruct dest as [|a [|b [|c [|e dest]]]]; cbn in Hge; try lia. cbn. intros [= _ _ _ _ Hs].
  destruct (staging_prefix n) as [r Hr]. rewrite Hr in Hs.
  pose proof (string_of_uint_digits (N.to_uint (digest_size d))) as Hd. unfold u64_to_string in Hs.
  rewrite Hs in Hd. done.
Qed.
End Path.

(** ** The contract *)

Section Store.
Context `{ProtocolLaws} `{!Disk} `{!DiskLaws}.

(** The content under a digest: that of the file at its path. *)
Definition fs_objects (s : t) (d : Digest) : option bytes :=
  match path d with Ok p => files s !! p | Err _ => None end.

Lemma call_inv s s' r :
  call s = (s', r) -> files s' = files s /\ (forall n, r = Ok n -> n = calls s).
Proof.
  unfold call. intros [= <- <-]. split; [done|]. intros n. destruct (disk_fault _); [done|].
  by intros [= <-].
Qed.

Lemma get_spec d s s' r :
  get d s = (s', r) ->
  files s' = files s /\
  match r with
  | Ok None => fs_objects s d = None
  | Ok (Some blob) =>
      exists content, fs_objects s d = Some content /\
        blob_size blob = N.of_nat (length content) /\ streams (blob_stream blob) content
  | Err _ => True
  end.
Proof.
  unfold get, m_bind, m_lift, read_files, m_ret, fs_objects.
  destruct (path d) as [p|]; [|by intros [= <- <-]].
  destruct (call s) as [s1 [n|e]] eqn:E; apply call_inv in E as [Hf _]; [|by intros [= <- <-]].
  destruct (files s1 !! p) as [content|] eqn:Hp.
  - destruct (call s1) as [s2 [n'|e]] eqn:E; apply call_inv in E as [Hf' _]; intros [= <- <-];
      (split; [congruence|]); [|done].
    exists content. rewrite <-Hf. split; [done|]. split; [done|]. apply read_stream_law.
  - intros [= <- <-]. split; [done|]. by rewrite <-Hf.
Qed.

(** What [put] leaves: nothing else is touched but its own staging file, which
    is gone. *)
Lemma put_spec d content s s' r :
  put d content s = (s', r) ->
  match path d with
  | Err _ => files s' = files s /\ exists e, r = Err e
  | Ok dest =>
      (exists n, files s' = delete (take 4 dest ++ [staging_name n])%list (files s) \/
         files s' = files s) /\
        (r = Ok PutAlreadyExists /\ is_Some (files s !! dest) \/ exists e, r = Err e) \/
      exists n, r = Ok PutCreated /\ files s !! dest = None /\
        files s' = <[dest := content]> (delete (take 4 dest ++ [staging_name n])%list (files s))
  end.
Proof.
  unfold put, m_bind at 1, m_lift. destruct (path d) as [dest|e] eqn:Hpath;
    [|intros [= <- <-]; eauto].
  unfold m_bind at 1. destruct (call s) as [s1 [n1|e]] eqn:E; apply call_inv in E as [Hf1 _];
    [|intros [= <- <-]; left; split; [exists 0; by right|eauto]].
  unfold m_bind at 1, read_files. destruct (files s1 !! dest) as [old|] eqn:Hdest.
  { intros [= <- <-]. left. rewrite <-Hf1. split; [by exists 0; right|]. left. split; [done|]. eauto. }
  unfold m_bind at 1. destruct (call s1) as [s2 [n2|e]] eqn:E; apply call_inv in E as [Hf2 _];
    [|intros [= <- <-]; left; split; [exists 0; right; congruence|eauto]].
  unfold m_bind at 1. destruct (call s2) as [s3 [n|e]] eqn:E; apply call_inv in E as [Hf3 _];
    [|intros [= <- <-]; left; split; [exists 0; right; congruence|eauto]].
  set (staging := (take 4 dest ++ [staging_name n])%list).
  assert (files s3 = files s) as Hf by congruence. rewrite Hf1 in Hdest.
  unfold m_bind at 1, set_files at 1. unfold or_remove, persist_noclobber, m_bind, set_files, read_files.
  destruct (call (mk _ _)) as [s4 [n4|e]] eqn:E; apply call_inv in E as [Hf4 _]; cbn in Hf4.
  2: { intros [= <- <-]. left. split; [|eauto]. exists n. left. cbn. fold staging.
       rewrite Hf4, Hf. by rewrite delete_insert_eq. }
  cbn [files]. destruct (call (mk (<[staging:=content]> (files s4)) _)) as [s5 [n5|e]] eqn:E;
    apply call_inv in E as [Hf5 _]; cbn in Hf5; rewrite Hf4, Hf, insert_insert_eq in Hf5.
  2: { intros [= <- <-]. left. split; [|eauto]. exists n. left. cbn. fold staging.
       rewrite Hf5. by rewrite delete_insert_eq. }
  destruct (call s5) as [s6 [n6|e]] eqn:E; apply call_inv in E as [Hf6 _].
  2: { intros [= <- <-]. left. split; [|eauto]. exists n. left. cbn. fold staging.
       rewrite Hf6, Hf5. by rewrite delete_insert_eq. }
  assert (staging <> dest) as Hne.
  { apply not_eq_sym. destruct (staging_not_blob n d dest dest Hpath) as [Hn|Hn]; [exact Hn|].
    apply path_ok in Hpath as [_ ->]. cbn in Hn. lia. }
  rewrite Hf6, Hf5, lookup_insert_ne, Hdest by done. intros [= <- <-]. right. exists n.
  split; [done|]. split; [done|]. cbn. fold staging.
  by rewrite Hf6, Hf5, lookup_insert_eq, delete_insert_eq.
Qed.

(** A put touches the object of its digest only, and never replaces it. *)
Lemma fs_put_ok d content s s' r :
  put d content s = (s', r) ->
  (forall d', d' <> d -> fs_objects s' d' = fs_objects s d') /\
  match r with
  | Ok PutCreated => fs_objects s d = None /\ fs_objects s' d = Some content
  | Ok PutAlreadyExists => is_Some (fs_objects s d) /\ fs_objects s' d = fs_objects s d
  | Err _ => fs_objects s' d = fs_objects s d \/
      (fs_objects s d = None /\ fs_objects s' d = Some content)
  end.
Proof.
  intros Hp. apply put_spec in Hp.
  assert (forall n dest d', path d' = Ok dest -> forall dest', path d = Ok dest' ->
    delete (take 4 dest' ++ [staging_name n])%list (files s) !! dest = files s !! dest) as Hdel.
  { intros n dest d' Hd' dest' Hd. apply lookup_delete_ne.
    destruct (staging_not_blob n d' dest dest' Hd') as [Hn|Hn]; [congruence|].
    apply path_ok in Hd as [_ ->]. cbn in Hn. lia. }
  unfold fs_objects. destruct (path d) as [dest|e] eqn:Hpath.
  - specialize (fun n p d' Hd' => Hdel n p d' Hd' dest eq_refl).
    destruct Hp as [[(n & Hf) Hr]|(n & -> & Hnone & Hf)].
    + assert (forall d', match path d' with Ok p => files s' !! p | Err _ => None end =
        match path d' with Ok p => files s !! p | Err _ => None end) as Hsame.
      { intros d'. destruct (path d') as [p|] eqn:Hd'; [|done].
        destruct Hf as [-> | ->]; [by eapply Hdel|done]. }
      split; [intros; apply Hsame|]. pose proof (Hsame d) as Hd. rewrite Hpath in Hd.
      destruct Hr as [[-> Hs]|[e ->]]; [done|by left].
    + rewrite Hf. split; [|by rewrite lookup_insert_eq].
      intros d' Hne. destruct (path d') as [p|] eqn:Hd'; [|done].
      rewrite lookup_insert_ne; [by eapply Hdel|]. intros ->. apply Hne. by eapply path_inj.
  - destruct Hp as [Hf [e' ->]]. rewrite Hf. split; [done|by left].
Qed.

#[global] Program Instance fs_laws : BlobLaws t := { objects := fs_objects }.
Next Obligation.
  intros d s s' r Hg. apply get_spec in Hg as [Hf Hg]. split.
  - intros d'. unfold fs_objects. by rewrite Hf.
  - destruct r as [[blob|]|e]; [|by rewrite Hg|done]. destruct Hg as (c & -> & _). split; intros _; by eexists.
Qed.
Next Obligation.
  intros d content s s' r _ _ Hp. apply fs_put_ok in Hp as [Ho Hr]. by split; [auto|].
Qed.

#[global] Instance fs_reads : BlobReads t.
Proof. split. intros d s s' blob Hg. by apply get_spec in Hg as [_ Hg]. Qed.

(** What a successful put leaves is read back whole: the object is there
    under its own digest with the bytes of the source, a stream that ends has
    yielded exactly those bytes, and no other object changed. A put never
    replaces an object. *)
Theorem put_then_get d content s s1 s2 out blob
    (Hput : put d content s = (s1, Ok out)) (Hget : get d s1 = (s2, Ok (Some blob))) :
  (forall d', d' <> d -> fs_objects s1 d' = fs_objects s d') /\
  exists stored, fs_objects s1 d = Some stored /\
    (fs_objects s d = None -> stored = content /\ out = PutCreated) /\
    (forall old, fs_objects s d = Some old -> stored = old /\ out = PutAlreadyExists) /\
    blob_size blob = N.of_nat (length stored) /\
    (collect_stream (blob_stream blob)).1 `prefix_of` stored /\
    ((collect_stream (blob_stream blob)).2 = Ok tt ->
     (collect_stream (blob_stream blob)).1 = stored).
Proof.
  pose proof (fs_put_ok d content s s1 (Ok out) Hput) as [Hother Hp].
  apply get_spec in Hget as [_ (stored & Hs & Hsize & Hstream)]. split; [exact Hother|].
  exists stored. split; [done|]. split.
  { intros Hn. destruct out; [|rewrite Hn in Hp; by destruct Hp as [[] _]].
    destruct Hp as [_ Hp]. split; [congruence|done]. }
  split.
  { intros old Hold. destruct out; [destruct Hp; congruence|]. destruct Hp as [_ Hp].
    split; [congruence|done]. }
  split; [done|]. unfold streams in Hstream. destruct (collect_stream _) as [bs [[]|e]]; cbn.
  - by subst.
  - by split.
Qed.
End Store.

(** ** Puts at the same time *)

Section Concurrent.
Context `{ProtocolLaws}.

Definition created (s : Puts) (i : nat) (d : Digest) (content : bytes) : Prop :=
  tasks s !! i = Some (Done d content PutCreated).

Record puts_inv (start s : Puts) : Prop := {
  inv_kept : blob_files start ⊆ blob_files s;
  inv_created : forall i d content, created s i d content ->
    exists p, path d = Ok p /\ blob_files s !! p = Some content /\ blob_files start !! p = None;
  inv_unique : forall i j d c1 c2, created s i d c1 -> created s j d c2 -> i = j;
  inv_exists : forall i d content, tasks s !! i = Some (Done d content PutAlreadyExists) ->
    exists p, path d = Ok p /\ is_Some (blob_files s !! p);
}.

(** A task that changes without being created anew keeps the invariant. *)
Lemma puts_inv_task start fs ts i task :
  puts_inv start (mkPuts fs ts) ->
  (forall d c, task <> Done d c PutCreated) ->
  (forall d c, task = Done d c PutAlreadyExists -> exists p, path d = Ok p /\ is_Some (fs !! p)) ->
  puts_inv start (mkPuts fs (<[i := task]> ts)).
Proof.
  intros [Hk Hc Hu He] Hnc Hex. unfold created in *. cbn in *.
  assert (forall j d c, <[i:=task]> ts !! j = Some (Done d c PutCreated) ->
    ts !! j = Some (Done d c PutCreated)) as Hold.
  { intros j d c. rewrite lookup_insert_Some. intros [[_ Ht]|[_ Hj]]; [by apply Hnc in Ht|done]. }
  split; cbn; unfold created; cbn; eauto.
  intros j d c. rewrite lookup_insert_Some. intros [[_ Ht]|[_ Hj]]; eauto.
Qed.

Lemma puts_inv_step start s s' : puts_inv start s -> put_step s s' -> puts_inv start s'.
Proof.
  intros Hinv Hstep. inv Hstep; try (apply puts_inv_task; [done|done|];
    intros d' c' Heq; injection Heq as <- <-; eauto; fail);
    try (apply puts_inv_task; done).
  - destruct Hinv as [Hk Hc Hu He]. unfold created in *. cbn in *.
    split; cbn; unfold created; cbn.
    + etransitivity; [exact Hk|]. by apply insert_subseteq.
    + intros j d' c. rewrite lookup_insert_Some. intros [[-> [= -> ->]]|[Hne Hj]].
      * exists dest. rewrite lookup_insert_eq. split; [done|]. split; [done|].
        destruct (blob_files start !! dest) eqn:E; [|done]. eapply lookup_weaken in Hk; [|exact E].
        congruence.
      * destruct (Hc _ _ _ Hj) as (p & Hp & Hfs & Hstart). exists p. split; [done|].
        rewrite lookup_insert_ne by congruence. done.
    + assert (forall j d' c, ts !! j = Some (Done d' c PutCreated) -> d' <> d) as Hnew.
      { intros j d' c Hj ->. destruct (Hc _ _ _ Hj) as (p & Hp & Hfs & _). congruence. }
      intros j k d' c1 c2. rewrite !lookup_insert_Some.
      intros [[Hij Heq1]|[_ Hj]] [[Hik Heq2]|[_ Hk']].
      * congruence.
      * injection Heq1 as <- _. by apply Hnew in Hk'.
      * injection Heq2 as <- _. by apply Hnew in Hj.
      * eauto.
    + intros j d' c. rewrite lookup_insert_Some. intros [[_ Heq]|[_ Hj]]; [done|].
      destruct (He _ _ _ Hj) as (p & Hp & Hs). exists p. split; [done|].
      destruct (decide (dest = p)) as [->|]; [by rewrite lookup_insert_eq|].
      by rewrite lookup_insert_ne.
  - destruct Hinv as [Hk Hc Hu He]. unfold created in *. cbn in *.
    assert (forall j t, delete i ts !! j = Some t -> ts !! j = Some t) as Hd
      by (intros j t Hj; by apply lookup_delete_Some in Hj as [_ Hj]).
    split; cbn; unfold created; cbn; eauto.
Qed.

(** C34. However puts interleave, fail or are dropped: of the uploads of one
    digest at most one answers that it created the object; the file then holds
    exactly the content of that upload, whole, and keeps holding it; and
    whoever answers that it already exists is right. *)
Theorem concurrent_puts fs s
    (Hrun : rtc put_step (mkPuts fs ∅) s) :
  (forall i j d c1 c2, created s i d c1 -> created s j d c2 -> i = j /\ c1 = c2) /\
  (forall i d content, created s i d content ->
     exists p, path d = Ok p /\ fs !! p = None /\ blob_files s !! p = Some content) /\
  (forall i d content, tasks s !! i = Some (Done d content PutAlreadyExists) ->
     exists p, path d = Ok p /\ is_Some (blob_files s !! p)) /\
  fs ⊆ blob_files s.
Proof.
  assert (puts_inv (mkPuts fs ∅) s) as [Hk Hc Hu He].
  { eapply rtc_invariant; [apply puts_inv_step|exact Hrun|by split]. }
  split_and!; [|naive_solver|done|done].
  intros i j d c1 c2 Hi Hj. pose proof (Hu _ _ _ _ _ Hi Hj) as <-. split; [done|].
  unfold created in *. congruence.
Qed.
End Concurrent.
