(* ===== verification/Dispatch.v ===== *)
(** * The stores a process may run on (src/metadata/mod.rs, src/storage/mod.rs)

    [Arc<dyn MetadataStore>] and [Arc<dyn BlobStore>] as sums of their
    implementations: each call goes to the one that was configured, so the sum
    keeps the laws that all of them keep. *)
From S2P Require Import Prelude Str Protocol Api Config Json Records Oidc Metadata MetadataProofs.
From S2P Require Import MemoryMetadata PostgresMetadata PostgresProofs Filesystem FilesystemProofs.
From S2P Require Import ObjectStore Gcs Azure S3 CloudProofs.

Local Open Scope string_scope.
Local Open Scope mbx_scope.

(** A call on a part, as a call on the whole. *)
Definition within {S T E A} (wrap : S -> T) (c : M S E A) (s : S) : T * result E A :=
  let '(s, r) := c s in (wrap s, r).

Lemma within_inv {S T E A} (wrap : S -> T) (c : M S E A) s s' r :
  within wrap c s = (s', r) -> exists s1, c s = (s1, r) /\ s' = wrap s1.
Proof. unfold within. destruct (c s) as [s1 q]. intros [= <- <-]. eauto. Qed.

(** ** Metadata *)

Module AnyMetadata.
Section AnyMetadata.
Context `{Records} `{!Database}.

Inductive t := Memory (s : MemoryMetadata.t) | Postgres (s : PostgresMetadata.t).

Definition dispatch {A} (c : forall S, MetadataStore S -> M S StoreError A) : M t StoreError A :=
  fun self =>
    match self with
    | Memory s => within Memory (c _ MemoryMetadata.store) s
    | Postgres s => within Postgres (c _ PostgresMetadata.store) s
    end.

#[global] Instance store : MetadataStore t := {
  visible_blobs ns ds := dispatch (fun _ _ => visible_blobs ns ds);
  register_blob ns d stored := dispatch (fun _ _ => register_blob ns d stored);
  forget_blob ns d := dispatch (fun _ _ => forget_blob ns d);
  touch_blobs ns ds := dispatch (fun _ _ => touch_blobs ns ds);
  meta_get ns d := dispatch (fun _ _ => meta_get ns d);
  meta_get_batch ns ds := dispatch (fun _ _ => meta_get_batch ns ds);
  commit ns d result := dispatch (fun _ _ => commit ns d result);
  get_manifest ns d := dispatch (fun _ _ => get_manifest ns d);
  commit_manifest ns d expected etag m := dispatch (fun _ _ => commit_manifest ns d expected etag m);
  sweep days := dispatch (fun _ _ => sweep days);
  pool_stats self := match self with Memory s => pool_stats s | Postgres s => pool_stats s end;
}.

(** [from_url] *)
Definition from_url `{!PostgresMetadata.PgPool} (url : string) (max_connections acquire_timeout : N)
  : result StoreError t :=
  if String.eqb url "memory://" then Ok (Memory MemoryMetadata.default_store)
  else
    s <-? PostgresMetadata.connect url max_connections acquire_timeout;
    Ok (Postgres s).
End AnyMetadata.

Section Laws.
Context `{RecordsLaws} `{!Database}.

Ltac each :=
  intros;
  match goal with Hc : _ ?s = (_, _) |- _ => destruct s; apply within_inv in Hc as (? & Hc & ->) end.

#[global] Instance laws : MetadataLaws t.
Proof.
  refine {|
    view self := match self with Memory s => view s | Postgres s => view s end;
    meta_wf self := match self with Memory s => meta_wf s | Postgres s => meta_wf s end;
  |}.
  - each; by eapply visible_blobs_law.
  - each; by eapply register_blob_law.
  - each; by eapply forget_blob_law.
  - each; by eapply touch_blobs_law.
  - each; by eapply meta_get_law.
  - each; by eapply meta_get_batch_law.
  - each; by eapply commit_law.
  - each; by eapply get_manifest_law.
  - each; by eapply commit_manifest_law.
  - each; by eapply sweep_law.
Defined.

(** C32. Updates of a manifest are never lost, on either store. Over any run of
    operations on it, from any state in order, the manifest of a key is a
    register written by compare-and-swap: a write is accepted exactly when it
    names the entity tag that is there (or requires that there be none, when
    there is none), and then it is what is there; one that names another is
    refused and changes nothing; every read returns the last write; and nothing
    else touches it but a sweep, which may take it. A write whose answer was lost
    was made, if at all, under the same condition. *)
Theorem manifests_linear (s s' : t) ops rs ns d
    (Hwf : meta_wf s) (Hu64 : Forall op_u64 ops) (Hrun : run_ops ops s = (s', rs)) :
  register_run ns d (view_manifest (view s) ns d) ops rs (view_manifest (view s') ns d).
Proof. by eapply manifest_register. Qed.
End Laws.
End AnyMetadata.

(** ** Blobs *)

Module AnyBlobs.
Section AnyBlobs.
Context `{Protocol} `{!Disk} `{ObjectPaths} `{SourceFile} {A G T : Type}.
Context `{!ObjectStore A} `{!ObjectStore G} `{!S3Client T}.

Inductive t :=
  | AzureBlobs (s : Bucket A)
  | FilesystemBlobs (s : FilesystemStore.t)
  | GcsBlobs (s : Bucket G)
  | S3Blobs (s : S3Store.t T).

Definition dispatch {X} (c : forall S, BlobStore S -> M S StoreError X) : M t StoreError X :=
  fun self =>
    match self with
    | AzureBlobs s => within AzureBlobs (c _ AzureStore.blob_store) s
    | FilesystemBlobs s => within FilesystemBlobs (c _ FilesystemStore.store) s
    | GcsBlobs s => within GcsBlobs (c _ GcsStore.blob_store) s
    | S3Blobs s => within S3Blobs (c _ S3Store.blob_store) s
    end.

#[global] Instance store : BlobStore t := {
  blob_get d := dispatch (fun _ _ => blob_get d);
  blob_put d content := dispatch (fun _ _ => blob_put d content);
}.

(** [from_config] *)
Definition from_config `{!Environment} `{!Directories} `{!AzureBuilder A} `{!GcsBuilder G} `{!S3Config T}
    (config : Config.t) : result StoreError t :=
  match Config.storage config with
  | Azure => s <-? AzureStore.new config; Ok (AzureBlobs s)
  | Filesystem => s <-? FilesystemStore.new (Config.data_dir config); Ok (FilesystemBlobs s)
  | Gcs => s <-? GcsStore.new config; Ok (GcsBlobs s)
  | S3 => s <-? S3Store.new config; Ok (S3Blobs s)
  end.
End AnyBlobs.
Arguments t : clear implicits.

Section Laws.
Context `{ProtocolLaws} `{!Disk} `{!DiskLaws} `{!ObjectPaths} `{!ObjectPathLaws} `{!S3KeyLaws} `{SourceFile} {A G T : Type}.
Context `{!ObjectStore A} `{!ObjectLaws A} `{!ObjectStore G} `{!ObjectLaws G}.
Context `{!S3Client T} `{!S3Laws T}.

#[global] Instance laws : BlobLaws (t A G T).
Proof.
  refine {| objects self :=
    match self with
    | AzureBlobs s | GcsBlobs s => bucket_objects s
    | FilesystemBlobs s => fs_objects s
    | S3Blobs s => s3_blobs s
    end |}.
  - intros d [s|s|s|s] s' r (s1 & Hg & ->)%within_inv; by eapply blob_get_law in Hg.
  - intros d content [s|s|s|s] s' r Hd Hempty (s1 & Hp & ->)%within_inv; by eapply blob_put_law in Hp.
Defined.

#[global] Instance reads `{!PromptCopies A} `{!PromptCopies G} : BlobReads (t A G T).
Proof. split. intros d [s|s|s|s] s' blob (s1 & Hg & ->)%within_inv; by eapply blob_read_law in Hg. Qed.
End Laws.
End AnyBlobs.
