(* ===== verification/Spool.v ===== *)
(** * The upload spool budget (src/server.rs, [SpoolBudget])

    Permits of one KiB, taken before an upload writes and given back when it
    ends. Uploads come and go in any order; [spool_step] is what they do to the
    budget together. *)
From S2P Require Import Prelude Str Protocol Api.

Local Open Scope string_scope.
Local Open Scope mbx_scope.

(** [tokio::sync::Semaphore::MAX_PERMITS]. *)
Class Tokio := { MAX_PERMITS : N }.

(** [u64::div_ceil] *)
Definition div_ceil (a b : N) : N := (a + b - 1) / b.

Definition u32_max : N := 2 ^ 32 - 1.
Definition usize_max : N := u64_max.

Module SpoolBudget.
Section SpoolBudget.
Context `{Tokio}.

(** The permits left in the semaphore, if there is one. *)
Definition t : Type := option N.

Definition new (max_bytes : N) : t :=
  if (0 <? max_bytes)%N then
    let permits := div_ceil max_bytes 1024 in
    Some (N.min (if (permits <=? usize_max)%N then permits else usize_max) MAX_PERMITS)
  else None.

(** [reserve]: the budget left, and the permits held until they drop. *)
Definition reserve (self : t) (size : N) : t * result ApiError (option N) :=
  match self with
  | None => (None, Ok None)
  | Some available =>
      let permits := div_ceil size 1024 in
      if (u32_max <? permits)%N then (self, Err (too_large "blob exceeds the upload spool"))
      else if (permits <=? available)%N then (Some (available - permits)%N, Ok (Some permits))
      else (self, Err (unavailable "upload spool is full, retry later"))
  end.

(** [Drop] of an [OwnedSemaphorePermit]. *)
Definition release (self : t) (held : option N) : t :=
  match self, held with
  | Some available, Some permits => Some (available + permits)%N
  | _, _ => self
  end.

(** The uploads that are spooled, each with its size and its permit. *)
Record Uploads := mkUploads { budget : t; spooled : list (N * option N) }.

Inductive spool_step : Uploads -> Uploads -> Prop :=
  | Reserve b b' size held l :
      reserve b size = (b', Ok held) -> spool_step (mkUploads b l) (mkUploads b' ((size, held) :: l))
  | Release b size held l1 l2 :
      spool_step (mkUploads b (l1 ++ (size, held) :: l2)) (mkUploads (release b held) (l1 ++ l2)).

(** ** Lemmas *)

Lemma div_ceil_covers a : (a <= 1024 * div_ceil a 1024)%N.
Proof.
  unfold div_ceil. pose proof (N.Div0.div_mod (a + 1024 - 1) 1024).
  pose proof (N.mod_lt (a + 1024 - 1) 1024). lia.
Qed.

Lemma div_ceil_mono a b : (a <= b)%N -> (div_ceil a 1024 <= div_ceil b 1024)%N.
Proof. intros Hab. unfold div_ceil. apply N.Div0.div_le_mono. lia. Qed.

Definition total_permits (l : list (N * option N)) : N :=
  foldr (fun u acc => default 0 u.2 + acc)%N 0%N l.
Definition total_bytes (l : list (N * option N)) : N := foldr (fun u acc => u.1 + acc)%N 0%N l.

Lemma total_permits_cons u l : total_permits (u :: l) = (default 0 u.2 + total_permits l)%N.
Proof. done. Qed.

Lemma total_bytes_cons u l : total_bytes (u :: l) = (u.1 + total_bytes l)%N.
Proof. done. Qed.

Lemma total_permits_app l1 l2 :
  total_permits (l1 ++ l2) = (total_permits l1 + total_permits l2)%N.
Proof.
  induction l1 as [|u l1 IH]; [done|]. cbn [app]. by rewrite !total_permits_cons, IH, N.add_assoc.
Qed.

#[local] Arguments total_permits : simpl never.
#[local] Arguments total_bytes : simpl never.

(** Every permit is either in the semaphore or with an upload, which holds
    enough of them for its bytes. *)
Definition spool_inv (permits : N) (s : Uploads) : Prop :=
  exists available, budget s = Some available /\
    (available + total_permits (spooled s) = permits)%N /\
    Forall (fun u => exists k, u.2 = Some k /\ k = div_ceil u.1 1024) (spooled s).

Lemma spool_inv_step permits s s' : spool_inv permits s -> spool_step s s' -> spool_inv permits s'.
Proof.
  intros (available & Hb & Ht & Hall) Hstep. inv Hstep; cbn in *; subst.
  - unfold reserve in H0. destruct (N.ltb_spec u32_max (div_ceil size 1024)); [done|].
    destruct (N.leb_spec (div_ceil size 1024) available); [|done]. injection H0 as <- <-.
    eexists. split; [done|]. cbn. rewrite total_permits_cons. cbn. split; [lia|].
    constructor; [|done]. eauto.
  - apply Forall_app in Hall as [H1 [(k & Hk & Hc) H2]%Forall_cons]. cbn in Hk. subst held. cbn.
    exists (available + k)%N. rewrite total_permits_app, total_permits_cons. cbn.
    rewrite (total_permits_app l1 l2).
    split; [done|]. split; [lia|].
    by apply Forall_app.
Qed.

(** With a budget, whatever uploads come and go, the bytes spooled at once
    never exceed it (rounded up to a KiB), and when all have ended the whole
    budget is there again. *)
Theorem spool_bounded max_bytes s
    (Hbudget : (0 < max_bytes < u64_modulus)%N)
    (Hrun : rtc spool_step (mkUploads (new max_bytes) []) s) :
  (total_bytes (spooled s) <= 1024 * div_ceil max_bytes 1024)%N /\
  (spooled s = [] -> budget s = new max_bytes).
Proof.
  unfold new in *. destruct (N.ltb_spec 0 max_bytes); [|lia].
  set (permits := N.min _ _) in *.
  assert (spool_inv permits s) as (available & Hb & Ht & Hall).
  { eapply rtc_invariant; [apply spool_inv_step|exact Hrun|]. exists permits. split; [done|].
    split; [apply N.add_0_r|constructor]. }
  split; [|intros Hnil; rewrite Hb; f_equal; rewrite Hnil in Ht;
    unfold total_permits in Ht; cbn in Ht; lia].
  assert (total_bytes (spooled s) <= 1024 * total_permits (spooled s))%N as Hle.
  { clear Ht Hb. induction Hall as [|u l (k & Hk & Hc) Hall IH]; [done|].
    rewrite total_bytes_cons, total_permits_cons, Hk. cbn [default from_option id].
    pose proof (div_ceil_covers u.1). rewrite <-Hc in *. lia. }
  assert (permits <= div_ceil max_bytes 1024)%N as Hp.
  { unfold permits. etransitivity; [apply N.le_min_l|].
    destruct (N.leb_spec (div_ceil max_bytes 1024) usize_max); lia. }
  lia.
Qed.

(** The budget main() insists on never starves an upload: when nothing else
    is spooled, a blob of any admissible size gets its permits at once, if its
    size in KiB fits in 32 bits. *)
Theorem largest_upload_fits max_spool max_blob size
    (Hmain : max_spool = 0%N \/ (max_blob <= max_spool)%N)
    (Hu64 : (max_spool < u64_modulus)%N) (Hsize : (size <= max_blob)%N)
    (Hu32 : (div_ceil size 1024 <= u32_max)%N) (Hmax : (u32_max <= MAX_PERMITS)%N) :
  exists b held, reserve (new max_spool) size = (b, Ok held) /\ release b held = new max_spool.
Proof.
  unfold new. destruct (N.ltb_spec 0 max_spool) as [Hpos|]; [|by exists None, None].
  destruct Hmain as [->|Hmain]; [lia|].
  assert (div_ceil size 1024 <= div_ceil max_spool 1024)%N as Hmono by (apply div_ceil_mono; lia).
  set (permits := N.min _ _).
  assert (div_ceil size 1024 <= permits)%N as Hfits.
  { unfold permits. apply N.min_glb; [|lia].
    assert (u32_max <= usize_max)%N by (vm_compute; discriminate).
    destruct (N.leb_spec (div_ceil max_spool 1024) usize_max); lia. }
  unfold reserve. destruct (N.ltb_spec u32_max (div_ceil size 1024)); [lia|].
  destruct (N.leb_spec (div_ceil size 1024) permits); [|lia].
  eexists _, _. split; [done|]. cbn. f_equal. lia.
Qed.

End SpoolBudget.
End SpoolBudget.

(** ** Runs *)

Definition concrete_tokio : Tokio := {| MAX_PERMITS := 2 ^ 61 - 1 |}.

Lemma spool_bounded_witness :
  (SpoolBudget.total_bytes [(2000, Some 2); (1024, Some 1)] <= 1024 * div_ceil 4000 1024)%N.
Proof.
  refine (proj1 (@SpoolBudget.spool_bounded concrete_tokio 4000
    (SpoolBudget.mkUploads (Some 1%N) [(2000, Some 2); (1024, Some 1)]%N) _ _)).
  - vm_compute. split; reflexivity.
  - eapply rtc_l; [apply (SpoolBudget.Reserve _ (Some 3%N) 1024 (Some 1%N)); reflexivity|].
    eapply rtc_once, (SpoolBudget.Reserve _ (Some 1%N) 2000 (Some 2%N)). reflexivity.
Defined.

Lemma largest_upload_fits_witness :
  exists b held, @SpoolBudget.reserve (@SpoolBudget.new concrete_tokio 5000) 4500 = (b, Ok held) /\
    SpoolBudget.release b held = @SpoolBudget.new concrete_tokio 5000.
Proof.
  apply (@SpoolBudget.largest_upload_fits concrete_tokio 5000 5000 4500);
    [right|..]; vm_compute; first [reflexivity|discriminate].
Defined.
