(* ===== verification/Access.v ===== *)
(** * Pending blob accesses (src/server.rs, [PendingAccess])

    Reads note the digests they served; a background task writes them, one
    statement per namespace and batch, and forgets them. *)
From S2P Require Import Prelude Str Protocol Api Json Records.

Local Open Scope mbx_scope.

Definition MAX_PENDING_ACCESSES : N := 100000.

(** [slice::chunks(n)], the first of them first. *)
Fixpoint chunks_fuel {A} (fuel : nat) (n : nat) (l : list A) : list (list A) :=
  match fuel, l with
  | _, [] => []
  | O, _ => []
  | S fuel, _ => take n l :: chunks_fuel fuel n (drop n l)
  end.
Definition chunks {A} (n : nat) (l : list A) : list (list A) := chunks_fuel (length l) n l.

Module PendingAccess.

Record Pending := mk {
  namespaces : gmap string (gset Digest);
  len : N;
}.

(** [Pending::default()] *)
Definition empty : Pending := mk ∅ 0.

(** The loop over the digests of one read: what is held and its length. *)
Fixpoint record_digests (digests : list Digest) (held : gset Digest) (len : N) : gset Digest * N :=
  match digests with
  | [] => (held, len)
  | digest :: digests =>
      if (MAX_PENDING_ACCESSES <=? len)%N then (held, len)
      else if decide (digest ∈ held) then record_digests digests held len
      else record_digests digests ({[digest]} ∪ held) (len + 1)
  end.

Definition record (namespace : string) (digests : list Digest) (pending : Pending) : Pending :=
  match digests with
  | [] => pending
  | _ =>
      if (MAX_PENDING_ACCESSES <=? len pending)%N then pending
      else
        let held := default ∅ (namespaces pending !! namespace) in
        let '(held, len) := record_digests digests held (len pending) in
        mk (<[namespace := held]> (namespaces pending)) len
  end.

Section Flush.
Context `{Protocol} `{Records} {S : Type} `{!MetadataStore S}.

(** The calls a flush makes, in the order the maps are iterated. *)
Definition flush_calls (pending : Pending) : list (string * list Digest) :=
  flat_map (fun kv => map (pair kv.1) (chunks (N.to_nat MAX_BATCH_ITEMS) (elements kv.2)))
    (map_to_list (namespaces pending)).

(** The calls in turn; a failure is counted and the next call made. *)
Fixpoint touch_all (calls : list (string * list Digest)) (failed : N) : M S StoreError N :=
  match calls with
  | [] => m_ret failed
  | (namespace, chunk) :: calls =>
      fun s =>
        match touch_blobs namespace chunk s with
        | (s, Ok _) => touch_all calls failed s
        | (s, Err _) => touch_all calls (failed + 1) s
        end
  end.

(** [flush]: [std::mem::take] leaves nothing pending; the result is how many
    calls failed, which is only logged. *)
Definition flush (w : Pending * S) : (Pending * S) * N :=
  let '(pending, s) := w in
  match touch_all (flush_calls pending) 0 s with
  | (s, Ok failed) => ((empty, s), failed)
  | (s, Err _) => ((empty, s), 0%N)
  end.
End Flush.

(** ** The invariant *)

Definition total (m : gmap string (gset Digest)) : nat :=
  sum_list (map (fun kv => size kv.2) (map_to_list m)).

Record inv (p : Pending) : Prop := {
  len_exact : N.of_nat (total (namespaces p)) = len p;
  len_bound : (len p <= MAX_PENDING_ACCESSES)%N;
  no_empty : map_Forall (fun _ held => held <> ∅) (namespaces p);
}.

Lemma sum_list_permutation l1 l2 : l1 ≡ₚ l2 -> sum_list l1 = sum_list l2.
Proof. induction 1; cbn; lia. Qed.

Lemma total_insert_new ns held m :
  m !! ns = None -> total (<[ns := held]> m) = size held + total m.
Proof.
  intros Hn. unfold total.
  rewrite (sum_list_permutation _ (map (fun kv => size kv.2) ((ns, held) :: map_to_list m))); [done|].
  by rewrite map_to_list_insert.
Qed.

Lemma total_insert ns held m :
  total (<[ns := held]> m) + size (default ∅ (m !! ns)) = size held + total m.
Proof.
  destruct (m !! ns) as [old|] eqn:E; cbn [default from_option id].
  - pose proof (total_insert_new ns held (delete ns m) (lookup_delete_eq m ns)) as Hnew.
    pose proof (total_insert_new ns old (delete ns m) (lookup_delete_eq m ns)) as Hold.
    rewrite insert_delete_eq in Hnew. rewrite insert_delete_id in Hold by done. lia.
  - rewrite total_insert_new by done. rewrite size_empty. lia.
Qed.

Lemma record_digests_spec ds held n held' n' :
  record_digests ds held n = (held', n') -> (n <= MAX_PENDING_ACCESSES)%N ->
  held ⊆ held' /\ held' ⊆ held ∪ list_to_set ds /\
  (n' + N.of_nat (size held) = n + N.of_nat (size held'))%N /\ (n' <= MAX_PENDING_ACCESSES)%N /\
  (n' < MAX_PENDING_ACCESSES -> list_to_set ds ⊆ held')%N.
Proof.
  revert held n; induction ds as [|d ds IH]; intros held n; cbn [record_digests].
  { intros [= <- <-] Hn. split_and!; [set_solver..|lia|done|set_solver]. }
  destruct (N.leb_spec MAX_PENDING_ACCESSES n) as [Hfull|Hroom].
  { intros [= <- <-] Hn. split_and!; [set_solver..|lia|done|lia]. }
  destruct (decide (d ∈ held)) as [Hin|Hnew]; intros Hrec Hn.
  - destruct (IH _ _ Hrec Hn) as (H1 & H2 & H3 & H4 & H5). split_and!; [set_solver..|done|done|].
    intros Hlt. specialize (H5 Hlt). set_solver.
  - destruct (IH _ _ Hrec ltac:(lia)) as (H1 & H2 & H3 & H4 & H5).
    rewrite size_union, size_singleton in H3 by set_solver.
    split_and!; [set_solver..|lia|done|]. intros Hlt. specialize (H5 Hlt). set_solver.
Qed.

(** Whatever reads are served, the count kept beside the map is exact and
    never exceeds the limit, no namespace is held without a digest, and a
    read's digests are all noted unless the limit is reached; nothing else is
    noted, and nothing noted is dropped. *)
Theorem record_keeps_inv ns ds p (Hinv : inv p) :
  inv (record ns ds p) /\
  (forall ns', ns' <> ns -> namespaces (record ns ds p) !! ns' = namespaces p !! ns') /\
  let before := default ∅ (namespaces p !! ns) in
  let after := default ∅ (namespaces (record ns ds p) !! ns) in
  before ⊆ after /\ after ⊆ before ∪ list_to_set ds /\
  (len (record ns ds p) = MAX_PENDING_ACCESSES \/ list_to_set ds ⊆ after).
Proof.
  destruct Hinv as [Hlen Hbound Hne]. unfold record.
  destruct ds as [|d ds]; [split; [by split|]; split; [done|]; cbn; set_solver|].
  destruct (N.leb_spec MAX_PENDING_ACCESSES (len p)) as [Hfull|Hroom].
  { split; [by split|]. split; [done|]. cbn zeta. split; [done|]. split; [set_solver|]. left. lia. }
  destruct (record_digests (d :: ds) _ _) as [held n] eqn:E.
  pose proof (record_digests_spec _ _ _ _ _ E Hbound) as (H1 & H2 & H3 & H4 & H5).
  pose proof (total_insert ns held (namespaces p)) as Htot. cbn [namespaces len].
  split; [|split; [intros ns' Hns; by apply lookup_insert_ne|]].
  - split; cbn [namespaces len]; [lia|done|]. apply map_Forall_insert_2; [|done].
    intros ->. cbn [record_digests] in E.
    destruct (N.leb_spec MAX_PENDING_ACCESSES (len p)); [lia|]. revert E.
    case_decide; intros E; apply record_digests_spec in E as (Hsub & _); set_solver || lia.
  - cbn zeta. rewrite lookup_insert_eq. cbn [default from_option id]. split_and!; [done..|].
    destruct (N.lt_ge_cases n MAX_PENDING_ACCESSES); [right; auto|left; lia].
Qed.

(** ** Flushing *)

Lemma chunks_fuel_spec {A} fuel n (l : list A) :
  0 < n -> length l <= fuel ->
  concat (chunks_fuel fuel n l) = l /\
  Forall (fun c => c <> [] /\ length c <= n) (chunks_fuel fuel n l).
Proof.
  intros Hn. revert l; induction fuel as [|fuel IH]; intros l Hl.
  { destruct l; [|cbn in Hl; lia]. by split. }
  destruct l as [|x l]; [by split|]. cbn [chunks_fuel].
  destruct (IH (drop n (x :: l))) as [H1 H2].
  { rewrite length_drop. cbn [length] in *. lia. }
  split.
  - cbn [concat]. by rewrite H1, take_drop.
  - constructor; [|done]. split; [|rewrite length_take; lia]. destruct n; [lia|done].
Qed.

Lemma chunks_spec {A} n (l : list A) :
  0 < n -> concat (chunks n l) = l /\ Forall (fun c => c <> [] /\ length c <= n) (chunks n l).
Proof. intros Hn. by apply chunks_fuel_spec. Qed.

(** The digests a list of calls names for one namespace. *)
Definition touched (ns : string) (calls : list (string * list Digest)) : list Digest :=
  flat_map snd (List.filter (fun c => bool_decide (c.1 = ns)) calls).

Lemma touched_app ns c1 c2 : touched ns (c1 ++ c2) = (touched ns c1 ++ touched ns c2)%list.
Proof. unfold touched. by rewrite List.filter_app, flat_map_app. Qed.

Lemma touched_pairs ns ns' cs :
  touched ns (map (pair ns') cs) = if decide (ns' = ns) then concat cs else [].
Proof.
  unfold touched. induction cs as [|c cs IH]; cbn; [by case_decide|].
  destruct (decide (ns' = ns)) as [->|Hne].
  - rewrite bool_decide_eq_true_2 by done. cbn. by rewrite IH.
  - rewrite bool_decide_eq_false_2 by done. exact IH.
Qed.

Lemma touched_namespaces `{Protocol} ns (l : list (string * gset Digest)) n :
  0 < n -> NoDup l.*1 ->
  touched ns (flat_map (fun kv => map (pair kv.1) (chunks n (elements kv.2))) l) =
  match list_find (fun kv => kv.1 = ns) l with
  | Some (_, kv) => elements kv.2
  | None => []
  end.
Proof.
  intros Hn. induction l as [|[ns' held] l IH]; [done|]. intros Hnd.
  apply NoDup_cons in Hnd as [Hfresh Hnd]. specialize (IH Hnd).
  cbn [flat_map list_find fst snd]. rewrite touched_app, touched_pairs, IH.
  destruct (chunks_spec n (elements held) Hn) as [-> _].
  destruct (decide (ns' = ns)) as [->|Hne]; cbn.
  - assert (list_find (fun kv : string * gset Digest => kv.1 = ns) l = None) as ->.
    { apply list_find_None, Forall_forall. intros [k h] Hin Hk. cbn in Hk. subst k.
      apply Hfresh. apply list_elem_of_fmap. by exists (ns, h). }
    by rewrite app_nil_r.
  - by destruct (list_find _ l) as [[i kv]|].
Qed.

(** A flush names every pending access once, under its own namespace, in
    statements of at most MAX_BATCH_ITEMS digests and none of them empty, and
    leaves nothing pending whatever the database answers. *)
Theorem flush_complete `{Protocol} `{Records} {S} `{!MetadataStore S} (p : Pending) (s : S)
    (Hbatch : (0 < MAX_BATCH_ITEMS)%N) :
  (flush (p, s)).1.1 = empty /\
  (forall ns, touched ns (flush_calls p) = elements (default ∅ (namespaces p !! ns))) /\
  Forall (fun c => c.2 <> [] /\ (N.of_nat (length c.2) <= MAX_BATCH_ITEMS)%N) (flush_calls p).
Proof.
  split; [unfold flush; by destruct (touch_all _ _ _) as [s' [?|?]]|]. split.
  - intros ns. unfold flush_calls. rewrite touched_namespaces; [|lia|apply NoDup_fst_map_to_list].
    destruct (list_find _ _) as [[i [k held]]|] eqn:E.
    + apply list_find_Some in E as (Hin & Hk & _). cbn in Hk. subst k.
      apply list_elem_of_lookup_2, elem_of_map_to_list in Hin. by rewrite Hin.
    + apply list_find_None in E. destruct (namespaces p !! ns) as [held|] eqn:Hns; [|done].
      rewrite Forall_forall in E. apply elem_of_map_to_list in Hns. by specialize (E _ Hns).
  - unfold flush_calls. apply List.Forall_forall. intros [ns c] ((k, held) & _ & Hc)%in_flat_map.
    apply in_map_iff in Hc as (c' & [= <- <-] & Hc).
    destruct (chunks_spec (N.to_nat MAX_BATCH_ITEMS) (elements held)) as [_ Hall]; [lia|].
    rewrite List.Forall_forall in Hall. destruct (Hall _ Hc) as [Hne Hle]. cbn. split; [done|lia].
Qed.

End PendingAccess.
