(* ===== verification/Metrics.v ===== *)
(** * Metrics (src/metrics.rs)

    Counters, gauges and histograms as what has been counted and observed;
    [PackGuard] as the life of one pack response. Encoding them as text belongs
    to the metrics crate. *)
From S2P Require Import Prelude Str Protocol Api Json Records.

Local Open Scope string_scope.

(** A family of metrics by the value of its one label: [get_or_create] starts
    a missing one at its default. *)
Notation Family A := (gmap string A).
(** A histogram, by its observations, latest first. *)
Notation Histogram := (list N).

Definition family_update {A} (d : A) (label : string) (f : A -> A) (m : Family A) : Family A :=
  <[label := f (default d (m !! label))]> m.

Module Metrics.

Record t := mk {
  blob_hits : N;
  blob_uploads : N;
  blob_pack_uploads : N;
  action_hits : N;
  action_batches : N;
  action_misses : N;
  action_commits : N;
  pack_requests : Family N;
  pack_in_flight : Z;
  pack_blobs : Family N;
  pack_bytes : Family N;
  pack_duration : Family Histogram;
  pack_time_to_first_byte : Histogram;
  pack_metadata_query_duration : Family Histogram;
  pack_storage_gets : Family N;
  pack_storage_get_duration : Family Histogram;
  database_pool_connections : Family Z;
  database_pool_max_connections : Z;
}.

Definition new : t := mk 0 0 0 0 0 0 0 ∅ 0 ∅ ∅ ∅ [] ∅ ∅ ∅ ∅ 0.

(** A counter is an atomic [u64], which wraps. *)
Definition inc_by (n : N) (counter : N) : N := u64_add counter n.
Definition count (label : string) (n : N) : Family N -> Family N :=
  family_update 0%N label (inc_by n).
Definition observe (label : string) (duration : N) : Family Histogram -> Family Histogram :=
  family_update [] label (cons duration).

Definition inc_blob_hit (m : t) : t :=
  mk (inc_by 1 (blob_hits m)) (blob_uploads m) (blob_pack_uploads m) (action_hits m)
    (action_batches m) (action_misses m) (action_commits m) (pack_requests m) (pack_in_flight m)
    (pack_blobs m) (pack_bytes m) (pack_duration m) (pack_time_to_first_byte m)
    (pack_metadata_query_duration m) (pack_storage_gets m) (pack_storage_get_duration m)
    (database_pool_connections m) (database_pool_max_connections m).

Definition inc_blob_upload (m : t) : t :=
  mk (blob_hits m) (inc_by 1 (blob_uploads m)) (blob_pack_uploads m) (action_hits m)
    (action_batches m) (action_misses m) (action_commits m) (pack_requests m) (pack_in_flight m)
    (pack_blobs m) (pack_bytes m) (pack_duration m) (pack_time_to_first_byte m)
    (pack_metadata_query_duration m) (pack_storage_gets m) (pack_storage_get_duration m)
    (database_pool_connections m) (database_pool_max_connections m).

Definition inc_action_batch (hits misses : N) (m : t) : t :=
  mk (blob_hits m) (blob_uploads m) (blob_pack_uploads m) (inc_by hits (action_hits m))
    (inc_by 1 (action_batches m)) (inc_by misses (action_misses m)) (action_commits m)
    (pack_requests m) (pack_in_flight m)
    (pack_blobs m) (pack_bytes m) (pack_duration m) (pack_time_to_first_byte m)
    (pack_metadata_query_duration m) (pack_storage_gets m) (pack_storage_get_duration m)
    (database_pool_connections m) (database_pool_max_connections m).

Definition inc_blob_pack_upload (blobs : N) (m : t) : t :=
  mk (blob_hits m) (blob_uploads m) (inc_by 1 (blob_pack_uploads m)) (action_hits m)
    (action_batches m) (action_misses m) (action_commits m) (pack_requests m) (pack_in_flight m)
    (count "uploaded" blobs (pack_blobs m)) (pack_bytes m) (pack_duration m)
    (pack_time_to_first_byte m) (pack_metadata_query_duration m) (pack_storage_gets m)
    (pack_storage_get_duration m) (database_pool_connections m) (database_pool_max_connections m).

Definition inc_action_hit (m : t) : t :=
  mk (blob_hits m) (blob_uploads m) (blob_pack_uploads m) (inc_by 1 (action_hits m))
    (action_batches m) (action_misses m) (action_commits m) (pack_requests m) (pack_in_flight m)
    (pack_blobs m) (pack_bytes m) (pack_duration m) (pack_time_to_first_byte m)
    (pack_metadata_query_duration m) (pack_storage_gets m) (pack_storage_get_duration m)
    (database_pool_connections m) (database_pool_max_connections m).

Definition inc_action_miss (m : t) : t :=
  mk (blob_hits m) (blob_uploads m) (blob_pack_uploads m) (action_hits m)
    (action_batches m) (inc_by 1 (action_misses m)) (action_commits m) (pack_requests m)
    (pack_in_flight m) (pack_blobs m) (pack_bytes m) (pack_duration m) (pack_time_to_first_byte m)
    (pack_metadata_query_duration m) (pack_storage_gets m) (pack_storage_get_duration m)
    (database_pool_connections m) (database_pool_max_connections m).

Definition inc_action_commit (m : t) : t :=
  mk (blob_hits m) (blob_uploads m) (blob_pack_uploads m) (action_hits m)
    (action_batches m) (action_misses m) (inc_by 1 (action_commits m)) (pack_requests m)
    (pack_in_flight m) (pack_blobs m) (pack_bytes m) (pack_duration m) (pack_time_to_first_byte m)
    (pack_metadata_query_duration m) (pack_storage_gets m) (pack_storage_get_duration m)
    (database_pool_connections m) (database_pool_max_connections m).

Definition observe_pack_metadata_query (outcome : string) (duration : N) (m : t) : t :=
  mk (blob_hits m) (blob_uploads m) (blob_pack_uploads m) (action_hits m)
    (action_batches m) (action_misses m) (action_commits m) (pack_requests m) (pack_in_flight m)
    (pack_blobs m) (pack_bytes m) (pack_duration m) (pack_time_to_first_byte m)
    (observe outcome duration (pack_metadata_query_duration m)) (pack_storage_gets m)
    (pack_storage_get_duration m) (database_pool_connections m) (database_pool_max_connections m).

Definition observe_pack_storage_get (outcome : string) (duration : N) (m : t) : t :=
  mk (blob_hits m) (blob_uploads m) (blob_pack_uploads m) (action_hits m)
    (action_batches m) (action_misses m) (action_commits m) (pack_requests m) (pack_in_flight m)
    (pack_blobs m) (pack_bytes m) (pack_duration m) (pack_time_to_first_byte m)
    (pack_metadata_query_duration m) (count outcome 1 (pack_storage_gets m))
    (observe outcome duration (pack_storage_get_duration m))
    (database_pool_connections m) (database_pool_max_connections m).

(** ** The connection pool *)

Definition i64_max : Z := 2 ^ 63 - 1.

(** [i64::saturating_sub] *)
Definition i64_saturating_sub (a b : Z) : Z := Z.max (- 2 ^ 63) (Z.min i64_max (a - b)).

Definition set_database_pool (stats : PoolStats) (m : t) : t :=
  let idle := if (Z.of_N (pool_idle stats) <=? i64_max)%Z then Z.of_N (pool_idle stats)
              else i64_max in
  let in_use := Z.max (i64_saturating_sub (Z.of_N (pool_open stats)) idle) 0 in
  mk (blob_hits m) (blob_uploads m) (blob_pack_uploads m) (action_hits m)
    (action_batches m) (action_misses m) (action_commits m) (pack_requests m) (pack_in_flight m)
    (pack_blobs m) (pack_bytes m) (pack_duration m) (pack_time_to_first_byte m)
    (pack_metadata_query_duration m) (pack_storage_gets m) (pack_storage_get_duration m)
    (<["in_use" := in_use]> (<["idle" := idle]> (database_pool_connections m)))
    (Z.of_N (pool_max stats)).

(** ** Pack responses *)

Definition set_packs (requests : Family N) (in_flight : Z) (blobs bytes : Family N)
    (duration : Family Histogram) (first_byte : Histogram) (m : t) : t :=
  mk (blob_hits m) (blob_uploads m) (blob_pack_uploads m) (action_hits m)
    (action_batches m) (action_misses m) (action_commits m) requests in_flight
    blobs bytes duration first_byte
    (pack_metadata_query_duration m) (pack_storage_gets m) (pack_storage_get_duration m)
    (database_pool_connections m) (database_pool_max_connections m).

(** [PackGuard]; the metrics it points to are the state. *)
Record PackGuard := mkPackGuard {
  started : N;
  finished : bool;
  first_byte_recorded : bool;
}.

Definition start_pack (started requested_blobs requested_bytes missing_blobs : N) (m : t)
  : t * PackGuard :=
  (set_packs (pack_requests m) (pack_in_flight m + 1)
     (count "missing" missing_blobs (count "requested" requested_blobs (pack_blobs m)))
     (count "requested" requested_bytes (pack_bytes m)) (pack_duration m)
     (pack_time_to_first_byte m) m,
   mkPackGuard started false false).

Definition record_first_byte (now : N) (w : t * PackGuard) : t * PackGuard :=
  let '(m, g) := w in
  if first_byte_recorded g then (m, g)
  else
    (set_packs (pack_requests m) (pack_in_flight m) (pack_blobs m) (pack_bytes m)
       (pack_duration m) ((now - started g)%N :: pack_time_to_first_byte m) m,
     mkPackGuard (started g) (finished g) true).

Definition add_served_bytes (n : N) (w : t * PackGuard) : t * PackGuard :=
  let '(m, g) := w in
  (set_packs (pack_requests m) (pack_in_flight m) (pack_blobs m)
     (count "served" n (pack_bytes m)) (pack_duration m) (pack_time_to_first_byte m) m, g).

Definition blob_served (w : t * PackGuard) : t * PackGuard :=
  let '(m, g) := w in
  (set_packs (pack_requests m) (pack_in_flight m) (count "served" 1 (pack_blobs m))
     (pack_bytes m) (pack_duration m) (pack_time_to_first_byte m) m, g).

Definition finish (outcome : string) (now : N) (w : t * PackGuard) : t * PackGuard :=
  let '(m, g) := w in
  if finished g then (m, g)
  else
    (set_packs (count outcome 1 (pack_requests m)) (pack_in_flight m - 1) (pack_blobs m)
       (pack_bytes m) (observe outcome (now - started g)%N (pack_duration m))
       (pack_time_to_first_byte m) m,
     mkPackGuard (started g) true (first_byte_recorded g)).

Definition complete (now : N) (w : t * PackGuard) : t * PackGuard := finish "completed" now w.
Definition error (now : N) (w : t * PackGuard) : t * PackGuard := finish "error" now w.

(** [Drop for PackGuard] *)
Definition drop (now : N) (w : t * PackGuard) : t :=
  (if finished w.2 then w else finish "cancelled" now w).1.

(** What a response stream may do with its guard. *)
Inductive GuardOp :=
  | RecordFirstByte (now : N) | AddServedBytes (n : N) | BlobServed
  | CompleteAt (now : N) | ErrorAt (now : N).

Definition guard_op (op : GuardOp) (w : t * PackGuard) : t * PackGuard :=
  match op with
  | RecordFirstByte now => record_first_byte now w
  | AddServedBytes n => add_served_bytes n w
  | BlobServed => blob_served w
  | CompleteAt now => complete now w
  | ErrorAt now => error now w
  end.

(** ** Theorems *)

(** The outcome that counts: the first one reported, or the drop. *)
Fixpoint outcome (ops : list GuardOp) : string :=
  match ops with
  | [] => "cancelled"
  | CompleteAt _ :: _ => "completed"
  | ErrorAt _ :: _ => "error"
  | _ :: ops => outcome ops
  end.

Definition reports (op : GuardOp) : bool :=
  match op with CompleteAt _ | ErrorAt _ => true | _ => false end.

(** The fields an outcome is counted in. *)
Definition outcomes (m : t) : Z * Family N * Family Histogram :=
  (pack_in_flight m, pack_requests m, pack_duration m).

Lemma guard_op_quiet op w :
  finished w.2 = true \/ reports op = false ->
  finished (guard_op op w).2 = finished w.2 /\ outcomes (guard_op op w).1 = outcomes w.1.
Proof.
  destruct w as [m g]. cbn. intros Hq. destruct op; cbn in *; try done;
    unfold record_first_byte, complete, error, finish;
    [by destruct (first_byte_recorded g)|..]; (destruct Hq as [Hf|]; [|done]); rewrite Hf; cbn; by rewrite Hf.
Qed.

Lemma guard_finished ops w :
  finished w.2 = true ->
  let w' := fold_left (fun w op => guard_op op w) ops w in
  finished w'.2 = true /\ outcomes w'.1 = outcomes w.1.
Proof.
  revert w; induction ops as [|op ops IH]; intros w Hf; [done|]. cbn [fold_left].
  destruct (guard_op_quiet op w) as [Hf' Ho]; [by left|]. rewrite Hf in Hf'.
  destruct (IH _ Hf') as [H1 H2]. cbn zeta in *. by rewrite H2.
Qed.

Lemma guard_unfinished ops w now :
  finished w.2 = false ->
  exists duration,
    outcomes (drop now (fold_left (fun w op => guard_op op w) ops w)) =
      (pack_in_flight w.1 - 1, count (outcome ops) 1 (pack_requests w.1),
       observe (outcome ops) duration (pack_duration w.1))%Z.
Proof.
  revert w; induction ops as [|op ops IH]; intros w Hf.
  { destruct w as [m g]. cbn in *. unfold drop, finish. cbn. rewrite Hf. by eexists. }
  cbn [fold_left]. destruct (reports op) eqn:Hr.
  - assert (exists duration, finished (guard_op op w).2 = true /\
      outcomes (guard_op op w).1 =
        (pack_in_flight w.1 - 1, count (outcome (op :: ops)) 1 (pack_requests w.1),
         observe (outcome (op :: ops)) duration (pack_duration w.1))%Z) as (duration & Hf' & Ho).
    { destruct w as [m g]. cbn in Hf. destruct op; try done; cbn;
        unfold complete, error, finish; rewrite Hf; by eexists. }
    exists duration. destruct (guard_finished ops _ Hf') as [H1 H2]. cbn zeta in *.
    unfold drop. by rewrite H1, H2.
  - destruct (guard_op_quiet op w) as [Hf' Ho]; [by right|]. rewrite Hf in Hf'.
    destruct (IH _ Hf') as [duration Hd]. exists duration. rewrite Hd.
    unfold outcomes in Ho. injection Ho as -> -> ->. by destruct op.
Qed.

(** Whatever a pack response does before its stream ends or is dropped, it
    is counted exactly once: under the first outcome it reports, or as
    cancelled if it reports none, with one duration; and the number of packs in
    flight is back to what it was before it started. *)
Theorem pack_counted_once m started_at blobs requested missing ops now :
  exists duration,
    let m' := drop now (fold_left (fun w op => guard_op op w) ops
                (start_pack started_at blobs requested missing m)) in
    pack_in_flight m' = pack_in_flight m /\
    pack_requests m' = count (outcome ops) 1 (pack_requests m) /\
    pack_duration m' = observe (outcome ops) duration (pack_duration m).
Proof.
  destruct (guard_unfinished ops (start_pack started_at blobs requested missing m) now eq_refl)
    as [duration Hd].
  exists duration. cbn zeta. unfold outcomes in Hd. injection Hd as -> -> ->. cbn.
  split; [lia|done].
Qed.

(** The pool gauges never go negative or past an [i64], whatever the two
    counts read apart say, and when they agree idle and in-use connections add
    up to the open ones. *)
Theorem database_pool_gauges stats m
    (Hopen : (pool_open stats < 2 ^ 32)%N) :
  exists idle in_use,
    database_pool_connections (set_database_pool stats m) !! "idle" = Some idle /\
    database_pool_connections (set_database_pool stats m) !! "in_use" = Some in_use /\
    (0 <= idle <= i64_max)%Z /\ (0 <= in_use <= Z.of_N (pool_open stats))%Z /\
    ((pool_idle stats <= pool_open stats)%N -> (idle + in_use = Z.of_N (pool_open stats))%Z).
Proof.
  unfold set_database_pool. cbn [database_pool_connections].
  eexists _, _. rewrite lookup_insert_ne, !lookup_insert_eq by done. split; [done|]. split; [done|].
  unfold i64_saturating_sub, i64_max in *. change (2 ^ 63)%Z with 9223372036854775808%Z.
  change (2 ^ 32)%N with 4294967296%N in Hopen.
  destruct (Z.leb_spec (Z.of_N (pool_idle stats)) (9223372036854775808 - 1)); lia.
Qed.

End Metrics.

Lemma database_pool_gauges_witness :
  exists idle in_use,
    Metrics.database_pool_connections (Metrics.set_database_pool (mkPoolStats 10 7 3) Metrics.new)
      !! "idle" = Some idle /\ (idle + in_use = 7)%Z.
Proof.
  destruct (Metrics.database_pool_gauges (mkPoolStats 10 7 3) Metrics.new)
    as (idle & in_use & Hidle & _ & _ & _ & Hsum); [reflexivity|].
  exists idle, in_use. split; [exact Hidle|]. apply Hsum. vm_compute. discriminate.
Defined.
