(* ===== verification/App.v ===== *)
(** * The state of the service (src/server.rs, [AppState])

    What every request handler shares, as the world of the state-error monad,
    and the calls handlers make on its parts. *)
From S2P Require Import Prelude Str Protocol Api Json Model Records Oidc Auth Spool Access.
From S2P Require Import Metrics.

Local Open Scope string_scope.
Local Open Scope mbx_scope.

(** ** Constants of the protocol crate *)

Class Constants := {
  PROTOCOL_VERSION : N;
  PACK_BLOBS_HEADER : string;
  PACK_BYTES_HEADER : string;
  ACTION_RESULT_BATCH_MEDIA_TYPE : string;
  BLOB_PACK_MEDIA_TYPE : string;
  BLOB_PACK_RECEIPT_MEDIA_TYPE : string;
  TASK_ACTION_MANIFEST_MEDIA_TYPE : string;
}.

(** Response headers have names of their own. *)
Class ConstantsLaws `{Constants} : Prop := {
  header_names : NoDup [PACK_BLOBS_HEADER; PACK_BYTES_HEADER; "content-length"; "content-type"];
}.

(** ** Documents

    The decoders serde derives for the records of src/ and of the protocol
    crate, with their errors as they are displayed. *)

(** [CcMetadata] and [RustcMetadata], by what src/ reads of them. *)
Record CompilerMetadata := mkCompilerMetadata {
  metadata_stdout : Digest;
  metadata_stderr : Digest;
}.

Class Documents `{JsonText} := {
  directory_from_slice : bytes -> result string Directory;
  directory_to_vec : Directory -> result string bytes;
  task_action_from_value : Value -> result string TaskAction.t;
  rustc_action_from_value : Value -> result string RustcAction.t;
  cc_action_from_value : Value -> result string CcAction.t;
  build_script_action_from_value : Value -> result string BuildScriptAction.t;
  task_metadata_from_value : Value -> result string TaskMetadata.t;
  build_script_metadata_from_value : Value -> result string BuildScriptMetadata.t;
  cc_metadata_from_value : Value -> result string CompilerMetadata;
  cc_metadata_validate : CompilerMetadata -> bool;
  rustc_metadata_from_value : Value -> result string CompilerMetadata;
  rustc_metadata_validate : CompilerMetadata -> bool;
}.

Section App.
Context `{Protocol} `{Records} `{!Jwt} `{!Tokio}.
Context {MS BS : Type} `{!MetadataStore MS} `{!BlobStore BS}.

Record AppState := mkAppState {
  blobs : BS;
  metadata : MS;
  auth : Authorizer;
  max_blob_bytes : N;
  pack_store_concurrency : N;
  spool : SpoolBudget.t;
  metrics : Metrics.t;
  access : PendingAccess.Pending;
}.

(** [AppState::new] *)
Definition new_app_state (blobs : BS) (metadata : MS) (auth : Authorizer)
    (max_blob_bytes pack_store_concurrency max_spool_bytes : N) : AppState :=
  mkAppState blobs metadata auth max_blob_bytes pack_store_concurrency
    (SpoolBudget.new max_spool_bytes) Metrics.new PendingAccess.empty.

Definition set_blobs (b : BS) (w : AppState) : AppState :=
  mkAppState b (metadata w) (auth w) (max_blob_bytes w) (pack_store_concurrency w) (spool w)
    (metrics w) (access w).
Definition set_metadata (m : MS) (w : AppState) : AppState :=
  mkAppState (blobs w) m (auth w) (max_blob_bytes w) (pack_store_concurrency w) (spool w)
    (metrics w) (access w).
Definition set_auth (a : Authorizer) (w : AppState) : AppState :=
  mkAppState (blobs w) (metadata w) a (max_blob_bytes w) (pack_store_concurrency w) (spool w)
    (metrics w) (access w).
Definition set_spool (s : SpoolBudget.t) (w : AppState) : AppState :=
  mkAppState (blobs w) (metadata w) (auth w) (max_blob_bytes w) (pack_store_concurrency w) s
    (metrics w) (access w).
Definition set_metrics (m : Metrics.t) (w : AppState) : AppState :=
  mkAppState (blobs w) (metadata w) (auth w) (max_blob_bytes w) (pack_store_concurrency w)
    (spool w) m (access w).
Definition set_access (p : PendingAccess.Pending) (w : AppState) : AppState :=
  mkAppState (blobs w) (metadata w) (auth w) (max_blob_bytes w) (pack_store_concurrency w)
    (spool w) (metrics w) p.

(** A handler, and its calls on the parts of the state; [internal] is the
    [map_err(ApiError::internal)] of every store call. *)
Definition Handler (A : Type) : Type := M AppState ApiError A.

Definition get_state : Handler AppState := fun w => (w, Ok w).

Definition on_metadata {A} (c : M MS StoreError A) : Handler A :=
  fun w => let '(m, r) := c (metadata w) in (set_metadata m w, map_err internal r).
Definition on_blobs {A} (c : M BS StoreError A) : Handler A :=
  fun w => let '(b, r) := c (blobs w) in (set_blobs b w, map_err internal r).
Definition on_auth {A} (c : M Authorizer ApiError A) : Handler A :=
  fun w => let '(a, r) := c (auth w) in (set_auth a w, r).
Definition on_metrics (f : Metrics.t -> Metrics.t) : Handler unit :=
  fun w => (set_metrics (f (metrics w)) w, Ok tt).
Definition on_access (f : PendingAccess.Pending -> PendingAccess.Pending) : Handler unit :=
  fun w => (set_access (f (access w)) w, Ok tt).

(** [forget_missing_blob]: a failure is only logged. *)
Definition forget_missing_blob (namespace : string) (digest : Digest) : Handler unit :=
  fun w => let '(m, _) := forget_blob namespace digest (metadata w) in (set_metadata m w, Ok tt).

(** [authorize] of the state's authorizer. *)
Definition authorized `{!JsonText} `{!AuthJson} (m : Moment) (headers : HeaderMap)
    (access : Access) : Handler string :=
  on_auth (authorize m headers access).

(** The loop that gathers a stream: [bytes.extend_from_slice(&chunk?)]. *)
Definition gather (stream : list (result StoreError bytes)) : Handler bytes :=
  match collect_stream stream with
  | (bs, Ok _) => m_ret bs
  | (_, Err e) => m_throw (internal e)
  end.

(** [require_blob] *)
Definition require_blob (namespace : string) (digest : Digest) (label : string) : Handler unit :=
  m_lift (validate_digest digest) ;~
  visible <~ on_metadata (blob_visible namespace digest);
  if (visible : bool) then m_ret tt else m_throw (unprocessable (label ++ " is missing")).

(** ** What handlers see and leave of the stores *)

Context `{!MetadataLaws MS} `{!BlobLaws BS}.

(** Two states whose stores hold the same. *)
Definition same_stores (w w' : AppState) : Prop :=
  view (metadata w') ≡ view (metadata w) /\
  (forall d, objects (blobs w') d = objects (blobs w) d).

#[export] Instance same_stores_preorder : PreOrder same_stores.
Proof.
  split; [intros w; split; done|]. intros w1 w2 w3 [H12 O12] [H23 O23].
  split; [etransitivity; [exact H23|exact H12]|intros; by rewrite O23].
Qed.

Lemma on_metadata_inv {A} (c : M MS StoreError A) w w' r :
  on_metadata c w = (w', r) ->
  exists m q, c (metadata w) = (m, q) /\ w' = set_metadata m w /\ r = map_err internal q.
Proof. unfold on_metadata. destruct (c (metadata w)) as [m q]. intros [= <- <-]. eauto. Qed.

Lemma on_blobs_inv {A} (c : M BS StoreError A) w w' r :
  on_blobs c w = (w', r) ->
  exists b q, c (blobs w) = (b, q) /\ w' = set_blobs b w /\ r = map_err internal q.
Proof. unfold on_blobs. destruct (c (blobs w)) as [b q]. intros [= <- <-]. eauto. Qed.

Lemma blob_visible_spec ns d (m m' : MS) r :
  meta_wf m -> blob_visible ns d m = (m', r) ->
  meta_wf m' /\ view m' ≡ view m /\ forall b, r = Ok b -> b = view_blob (view m) ns d.
Proof.
  intros Hwf. unfold blob_visible, m_bind, m_ret.
  destruct (visible_blobs ns [d] m) as [m1 q] eqn:E.
  apply visible_blobs_law in E as (Hwf1 & Hv & Hq); [|done].
  destruct q as [l|e]; intros [= <- <-]; split_and!; try done.
  intros b [= <-]. rewrite (Hq l eq_refl). cbn. by destruct (view_blob _ _ _).
Qed.

Lemma visible_ok ns d w w' r :
  meta_wf (metadata w) -> on_metadata (blob_visible ns d) w = (w', r) ->
  meta_wf (metadata w') /\ same_stores w w' /\
  forall b, r = Ok b -> b = view_blob (view (metadata w)) ns d.
Proof.
  intros Hwf Hv. apply on_metadata_inv in Hv as (m & q & Hc & -> & ->).
  apply blob_visible_spec in Hc as (Hwf' & Hv & Hb); [|done]. split; [done|].
  split; [by split|]. intros b Hq. apply Hb.
  destruct q; [|done]. by injection Hq as ->.
Qed.

(** A read leaves the stores; what it finds is stored, and is read as it is
    stored where reads are whole. *)
Lemma get_seen d w w' r :
  on_blobs (blob_get d) w = (w', r) ->
  metadata w' = metadata w /\ same_stores w w' /\
  match r with
  | Ok None => objects (blobs w) d = None
  | Ok (Some blob) =>
      exists content, objects (blobs w) d = Some content /\
        (BlobReads BS -> blob_size blob = N.of_nat (length content) /\ streams (blob_stream blob) content)
  | Err _ => True
  end.
Proof.
  intros Hg. apply on_blobs_inv in Hg as (b & q & Hc & -> & ->).
  pose proof Hc as [Ho Hr]%blob_get_law. split; [done|]. split; [by split|]. destruct q as [[blob|]|e]; cbn; [| |done].
  - destruct (objects (blobs w) d) as [content|] eqn:Hd; [|by destruct (proj1 Hr (ex_intro _ blob eq_refl))].
    exists content. split; [done|]. intros Hreads. apply blob_get_content in Hc as (_ & c & Hc & ?).
    rewrite Hc in Hd. by injection Hd as <-.
  - destruct (objects (blobs w) d) as [content|]; [|done]. by destruct (proj2 Hr (ex_intro _ content eq_refl)).
Qed.

Lemma get_ok `{!BlobReads BS} d w w' r :
  on_blobs (blob_get d) w = (w', r) ->
  metadata w' = metadata w /\ same_stores w w' /\
  match r with
  | Ok None => objects (blobs w) d = None
  | Ok (Some blob) =>
      exists content, objects (blobs w) d = Some content /\
        blob_size blob = N.of_nat (length content) /\ streams (blob_stream blob) content
  | Err _ => True
  end.
Proof.
  intros (? & ? & Hr)%get_seen. split_and!; [done..|]. destruct r as [[blob|]|e]; [|done..].
  destruct Hr as (content & ? & Hc). exists content. auto.
Qed.

Lemma gather_ok stream content w w' bs :
  streams stream content -> gather stream w = (w', Ok bs) -> w' = w /\ bs = content.
Proof.
  unfold streams, gather. destruct (collect_stream stream) as [b [[]|e]]; [|done].
  intros -> [= <- <-]. done.
Qed.

Lemma require_blob_ok ns d label w w' :
  meta_wf (metadata w) -> require_blob ns d label w = (w', Ok tt) ->
  meta_wf (metadata w') /\ same_stores w w' /\ digest_validate d = Ok tt /\
  view_blob (view (metadata w)) ns d = true.
Proof.
  intros Hwf. unfold require_blob. intros (w1 & [] & [= <- Hd] & Hk)%m_bind_ok.
  apply validate_digest_ok in Hd. m_step Hk as w2 b Hv.
  apply visible_ok in Hv as (Hwf2 & Hs & Hb); [|done]. specialize (Hb b eq_refl).
  destruct b; [|done]. injection Hk as <-. done.
Qed.
End App.
