(* ===== verification/Future.v ===== *)
(** * Requests in progress

    A handler is an async function: it runs from one await to the next, and
    other tasks run between. A [Future] is what is left of it: an answer, or the
    next call on the shared state with what follows for each of its results.
    [held] is what the future owns meanwhile, which dropping it gives back. *)
From S2P Require Import Prelude.

Local Open Scope mbx_scope.

Inductive Future (W H R : Type) : Type :=
  | Done (r : R)
  | Call {X : Type} (held : H) (c : W -> W * X) (k : X -> Future W H R).
Arguments Done {W H R} r.
Arguments Call {W H R X} held c k.

Section Future.
Context {W H : Type}.

(** Nobody else runs: the calls one after another. *)
Fixpoint run {R} (t : Future W H R) (w : W) : W * R :=
  match t with
  | Done r => (w, r)
  | Call _ c k => let '(w, x) := c w in run (k x) w
  end.

(** One step of a task: its next call, on the state as it is then. *)
Definition turn {R} (t : Future W H R) (w : W) : option (W * Future W H R) :=
  match t with
  | Done _ => None
  | Call _ c k => let '(w, x) := c w in Some (w, k x)
  end.

Fixpoint bind_all {R R'} (t : Future W H R) (k : R -> Future W H R') : Future W H R' :=
  match t with
  | Done r => k r
  | Call held c k' => Call held c (fun x => bind_all (k' x) k)
  end.

(** One call, and nothing more. *)
Definition await {R} (held : H) (c : W -> W * R) : Future W H R := Call held c Done.

(** Something is held until the task ends, and then given back. *)
Fixpoint holding {R} (held : H) (release : W -> W) (t : Future W H R) : Future W H R :=
  match t with
  | Done r => Call held (fun w => (release w, tt)) (fun _ => Done r)
  | Call _ c k => Call held c (fun x => holding held release (k x))
  end.

(** ** Fallible tasks: the notations of the handlers *)

Context {E : Type}.

Definition future_bind {A B} (t : Future W H (result E A)) (k : A -> Future W H (result E B))
  : Future W H (result E B) :=
  bind_all t (fun r => match r with Ok a => k a | Err e => Done (Err e) end).
Definition future_ret {A} (a : A) : Future W H (result E A) := Done (Ok a).
Definition future_throw {A} (e : E) : Future W H (result E A) := Done (Err e).
Definition future_lift {A} (r : result E A) : Future W H (result E A) := Done r.

(** ** Run alone, tasks are state-error functions *)

Lemma run_bind_all {R R'} (t : Future W H R) (k : R -> Future W H R') w :
  run (bind_all t k) w = let '(w, r) := run t w in run (k r) w.
Proof. revert w; induction t as [r|X held c k' IH]; intros w; cbn; [done|]. destruct (c w) as [w1 x]. apply IH. Qed.

(** The task does what the handler does. *)
Definition runs_as {R} (t : Future W H R) (c : W -> W * R) : Prop := forall w, run t w = c w.

Lemma runs_ret {A} (a : A) : runs_as (future_ret a) (m_ret a).
Proof. done. Qed.
Lemma runs_throw {A} (e : E) : runs_as (@future_throw A e) (m_throw e).
Proof. done. Qed.
Lemma runs_lift {A} (r : result E A) : runs_as (future_lift r) (m_lift r).
Proof. done. Qed.
Lemma runs_await {R} held (c : W -> W * R) : runs_as (await held c) c.
Proof. intros w. cbn. by destruct (c w). Qed.

Lemma runs_bind {A B} (t : Future W H (result E A)) (k : A -> Future W H (result E B)) (c : M W E A)
    (k' : A -> M W E B) :
  runs_as t c -> (forall a, runs_as (k a) (k' a)) -> runs_as (future_bind t k) (m_bind c k').
Proof.
  intros Hc Hk w. unfold future_bind, m_bind. rewrite run_bind_all, Hc.
  destruct (c w) as [w1 [a|e]]; [apply Hk|done].
Qed.

Lemma runs_if {R} (b : bool) (t1 t2 : Future W H R) c1 c2 :
  runs_as t1 c1 -> runs_as t2 c2 -> runs_as (if b then t1 else t2) (if b then c1 else c2).
Proof. by destruct b. Qed.

Lemma run_holding {R} held release (t : Future W H R) w :
  run (holding held release t) w = let '(w, r) := run t w in (release w, r).
Proof. revert w; induction t as [r|X h c k IH]; intros w; cbn; [done|]. destruct (c w) as [w1 x]. apply IH. Qed.

(** ** Tasks come to an end *)

Definition next_future {R} (t' t : Future W H R) : Prop := exists w w', turn t w = Some (w', t').

(** However the state changes between its calls, a task has finitely many. *)
Lemma next_task_wf {R} : well_founded (@next_future R).
Proof.
  intros t. induction t as [r|X held c k IH]; constructor; intros t' (w & w' & Hturn); cbn in Hturn; [done|].
  destruct (c w) as [w1 x]. injection Hturn as _ <-. apply IH.
Qed.

(** Until it is answered it can go on. *)
Lemma turn_or_done {R} (t : Future W H R) w : (exists r, t = Done r) \/ is_Some (turn t w).
Proof. destruct t as [r|X held c k]; [left; by eexists|right]. cbn. destruct (c w). by eexists. Qed.
(** ** How many calls *)

(** At most [n] calls, whatever each of them returns. *)
Inductive at_most {R} : nat -> Future W H R -> Prop :=
  | AtMostDone n r : at_most n (Done r)
  | AtMostCall n {X} held (c : W -> W * X) k : (forall x, at_most n (k x)) -> at_most (S n) (Call held c k).

Lemma at_most_le {R} m n (t : Future W H R) : at_most m t -> m <= n -> at_most n t.
Proof.
  intros Hm. revert n; induction Hm as [m r|m X held c k _ IH]; intros n Hn; [constructor|].
  destruct n as [|n]; [lia|]. constructor. intros x. apply IH. lia.
Qed.

Lemma at_most_await {R} held (c : W -> W * R) : at_most 1 (await held c).
Proof. constructor. intros x. constructor. Qed.

Lemma at_most_bind_all {R R'} m n (t : Future W H R) (k : R -> Future W H R') :
  at_most m t -> (forall r, at_most n (k r)) -> at_most (m + n) (bind_all t k).
Proof.
  intros Hm Hk. induction Hm as [m r|m X held c k' _ IH]; cbn; [eapply at_most_le; [apply Hk|lia]|].
  constructor. exact IH.
Qed.

Lemma at_most_bind {A B} m n (t : Future W H (result E A)) (k : A -> Future W H (result E B)) :
  at_most m t -> (forall a, at_most n (k a)) -> at_most (m + n) (future_bind t k).
Proof. intros Hm Hk. apply at_most_bind_all; [done|]. intros [a|e]; [apply Hk|constructor]. Qed.

Lemma at_most_holding {R} n held release (t : Future W H R) :
  at_most n t -> at_most (S n) (holding held release t).
Proof.
  induction 1 as [n r|n X h c k _ IH]; cbn; [|by constructor]. constructor. intros x. constructor.
Qed.

(** It goes on with one call fewer to make. *)
Lemma at_most_next {R} n (t' t : Future W H R) : at_most n t -> next_future t' t -> exists m, n = S m /\ at_most m t'.
Proof.
  intros Hn (w & w' & Hturn). destruct Hn as [n r|n X held c k Hk]; cbn in Hturn; [done|].
  destruct (c w) as [w1 x]. injection Hturn as _ <-. by exists n.
Qed.

(** The same calls with the same answers, whatever they return. *)
Inductive same_task {R} : Future W H R -> Future W H R -> Prop :=
  | SameDone r : same_task (Done r) (Done r)
  | SameCall {X} held (c : W -> W * X) k k' :
      (forall x, same_task (k x) (k' x)) -> same_task (Call held c k) (Call held c k').

Lemma same_task_refl {R} (t : Future W H R) : same_task t t.
Proof. induction t; by constructor. Qed.

Lemma same_bind {A B} (t : Future W H (result E A)) (k k' : A -> Future W H (result E B)) :
  (forall a, same_task (k a) (k' a)) -> same_task (future_bind t k) (future_bind t k').
Proof.
  intros Hk. unfold future_bind. induction t as [[a|e]|X held c k0 IH]; cbn; [apply Hk|constructor|].
  constructor. exact IH.
Qed.
End Future.

Notation "x <~~ t ; k" := (future_bind t (fun x => k))
  (at level 100, t at next level, right associativity) : mbx_scope.
Notation "t ;~~ k" := (future_bind t (fun _ => k))
  (at level 100, right associativity) : mbx_scope.

Create HintDb runs.
#[export] Hint Resolve runs_ret runs_throw runs_lift runs_await runs_bind runs_if : runs.
