(* ===== verification/Tree.v ===== *)
(** * Output trees (src/server.rs, [validate_tree])

    Before an action result may name a tree, every directory object below its
    root is read, checked and walked, depth first, on a stack of visits.
    [walk] is the loop: structural on the stack, with one unit of fuel for each
    directory that is expanded. *)
From S2P Require Import Prelude Str Protocol Api Json Model Records Oidc Auth Spool Access.
From S2P Require Import Metrics App.
From Stdlib Require Import Ascii.

Local Open Scope string_scope.
Local Open Scope mbx_scope.

(** ** Entries *)

(** [name.contains(['/', '\\', '\0'])] *)
Definition contains_separator (name : string) : bool :=
  contains_char "/" name || contains_char "\" name || contains_char NUL name.

(** The names met so far, when the entry is valid. *)
Definition validate_entry (names : gset string) (name : string) (mode : N)
  : result ApiError (gset string) :=
  if str_is_empty name || String.eqb name "." || String.eqb name ".." || contains_separator name
     || (4095 <? mode)%N
  then Err (unprocessable "invalid directory entry")
  else if decide (name ∈ names) then Err (unprocessable "duplicate directory entry")
  else Ok ({[name]} ∪ names).

Fixpoint validate_directory_nodes (names : gset string) (nodes : list DirectoryNode)
  : result ApiError (gset string) :=
  match nodes with
  | [] => Ok names
  | node :: nodes =>
      names <-? validate_entry names (directory_name node) (directory_mode node);
      validate_directory_nodes names nodes
  end.

Fixpoint validate_file_nodes (names : gset string) (nodes : list FileNode)
  : result ApiError (gset string) :=
  match nodes with
  | [] => Ok names
  | node :: nodes =>
      names <-? validate_entry names (file_name node) (file_mode node);
      validate_file_nodes names nodes
  end.

Fixpoint validate_symlink_nodes (names : gset string) (nodes : list SymlinkNode)
  : result ApiError (gset string) :=
  match nodes with
  | [] => Ok names
  | node :: nodes =>
      names <-? validate_entry names (symlink_name node) (symlink_mode node);
      if str_is_empty (symlink_target node) || contains_char NUL (symlink_target node)
      then Err (unprocessable "invalid symlink target")
      else validate_symlink_nodes names nodes
  end.

Definition validate_directory_entries (directory : Directory) : result ApiError unit :=
  names <-? validate_directory_nodes ∅ (directories directory);
  names <-? validate_file_nodes names (files directory);
  _ <-? validate_symlink_nodes names (symlinks directory);
  Ok tt.

Section Tree.
Context `{Protocol} `{Records} `{!JsonText} `{!Documents} `{!Jwt} `{!Tokio}.
Context {MS BS : Type} `{!MetadataStore MS} `{!BlobStore BS}.

(** ** Directory objects *)

Fixpoint validate_file_digests (nodes : list FileNode) (set : gset Digest)
  : result ApiError (gset Digest) :=
  match nodes with
  | [] => Ok set
  | file :: nodes =>
      _ <-? validate_digest (file_digest file);
      validate_file_digests nodes ({[file_digest file]} ∪ set)
  end.

Definition MAX_DIRECTORY_BYTES : N := 16 * 1024 * 1024.
Definition MAX_DIRECTORIES : nat := Z.to_nat 100000.

(** The part of one turn of the loop between the size check and the pushes:
    read the directory object and check what it lists. *)
Definition read_directory (namespace : string) (digest : Digest) : Handler (MS:=MS) (BS:=BS) Directory :=
  if (MAX_DIRECTORY_BYTES <? digest_size digest)%N
  then m_throw (unprocessable "directory object is too large")
  else
    visible <~ on_metadata (blob_visible namespace digest);
    if negb visible then m_throw (unprocessable "directory object is missing")
    else
      found <~ on_blobs (blob_get digest);
      match found with
      | None =>
          forget_missing_blob namespace digest ;~
          m_throw (unprocessable "directory object is missing")
      | Some blob =>
          content <~ gather (blob_stream blob);
          directory <~ m_lift (map_err (fun _ => unprocessable "directory object is invalid")
                                (directory_from_slice content));
          canonical <~ m_lift (map_err (fun e => internal (OtherError e))
                                (directory_to_vec directory));
          if negb (bool_decide (canonical = content))
          then m_throw (unprocessable "directory object is not canonical JSON")
          else if negb (directory_version directory =? 1)%N
          then m_throw (unprocessable "unsupported directory object version")
          else
            m_lift (validate_directory_entries directory) ;~
            file_set <~ m_lift (validate_file_digests (files directory) ∅);
            let file_list := elements file_set in
            visible <~ on_metadata (visible_blobs namespace file_list);
            if negb (length visible =? length file_list)%nat
            then m_throw (unprocessable "file blob is missing")
            else m_ret directory
      end.

Inductive Visit := Enter (d : Digest) | Exit (d : Digest).

(** The stack, top first, after a directory's exit and its children are
    pushed: the last child is on top. *)
Definition push_children (d : Digest) (directory : Directory) (pending : list Visit) : list Visit :=
  foldl (fun stack node => Enter (directory_digest node) :: stack) (Exit d :: pending)
    (directories directory).

(** [while let Some(visit) = pending.pop()] *)
Fixpoint walk (fuel : nat) (namespace : string) {struct fuel}
  : list Visit -> gset Digest -> gset Digest -> Handler (MS:=MS) (BS:=BS) unit :=
  fix turns (pending : list Visit) (visiting seen : gset Digest) {struct pending} :=
    match pending with
    | [] => m_ret tt
    | Exit digest :: pending =>
        turns pending (visiting ∖ {[digest]}) ({[digest]} ∪ seen)
    | Enter digest :: pending =>
        if decide (digest ∈ seen) then turns pending visiting seen
        else if decide (digest ∈ visiting)
        then m_throw (unprocessable "directory graph contains a cycle")
        else
          let visiting := {[digest]} ∪ visiting in
          if (MAX_DIRECTORIES <? size seen + size visiting)%nat
          then m_throw (unprocessable "directory graph is too large")
          else
            directory <~ read_directory namespace digest;
            match fuel with
            | O => m_throw (unprocessable "directory graph is too large")
            | S fuel => walk fuel namespace (push_children digest directory pending) visiting seen
            end
    end.

Definition validate_tree (namespace : string) (root : Digest) : Handler (MS:=MS) (BS:=BS) unit :=
  walk MAX_DIRECTORIES namespace [Enter root] ∅ ∅.

(** ** The loop, one turn at a time *)

Lemma walk_nil fuel ns visiting seen : walk fuel ns [] visiting seen = m_ret tt.
Proof. by destruct fuel. Qed.

Lemma walk_exit fuel ns d pending visiting seen :
  walk fuel ns (Exit d :: pending) visiting seen =
  walk fuel ns pending (visiting ∖ {[d]}) ({[d]} ∪ seen).
Proof. by destruct fuel. Qed.

Lemma walk_enter fuel ns d pending visiting seen :
  walk fuel ns (Enter d :: pending) visiting seen =
    if decide (d ∈ seen) then walk fuel ns pending visiting seen
    else if decide (d ∈ visiting)
    then m_throw (unprocessable "directory graph contains a cycle")
    else if (MAX_DIRECTORIES <? size seen + size ({[d]} ∪ visiting : gset Digest))%nat
    then m_throw (unprocessable "directory graph is too large")
    else
      directory <~ read_directory ns d;
      match fuel with
      | O => m_throw (unprocessable "directory graph is too large")
      | S fuel => walk fuel ns (push_children d directory pending) ({[d]} ∪ visiting) seen
      end.
Proof. by destruct fuel. Qed.

#[local] Opaque MAX_DIRECTORIES walk.

Lemma size_union_le (X Y : gset Digest) : size (X ∪ Y) <= size X + size Y.
Proof.
  rewrite size_union_alt. apply Nat.add_le_mono_l, subseteq_size. set_solver.
Qed.

Lemma size_expand (d : Digest) (visiting seen : gset Digest) :
  d ∉ seen -> d ∉ visiting ->
  size (seen ∪ ({[d]} ∪ visiting)) = S (size (seen ∪ visiting)).
Proof.
  intros Hs Hv. replace (seen ∪ ({[d]} ∪ visiting)) with ({[d]} ∪ (seen ∪ visiting)) by set_solver.
  rewrite size_union, size_singleton by set_solver. done.
Qed.

Lemma size_exit (d : Digest) (visiting seen : gset Digest) :
  size (seen ∪ visiting) <= size (({[d]} ∪ seen) ∪ (visiting ∖ {[d]})).
Proof.
  apply subseteq_size. intros x Hx. destruct (decide (x = d)) as [->|]; set_solver.
Qed.

(** Fuel left for every directory that the size check may still admit: more
    fuel changes nothing, so the check in [walk] for none left never decides. *)
Lemma walk_enough fuel1 fuel2 ns pending visiting seen w :
  MAX_DIRECTORIES <= fuel1 + size (seen ∪ visiting) ->
  MAX_DIRECTORIES <= fuel2 + size (seen ∪ visiting) ->
  walk fuel1 ns pending visiting seen w = walk fuel2 ns pending visiting seen w.
Proof.
  revert fuel2 pending visiting seen w; induction fuel1 as [|fuel1 IHf]; intros fuel2 pending;
    induction pending as [|[d|d] pending IHp]; intros visiting seen w Hf1 Hf2.
  1, 4: by rewrite !walk_nil.
  2, 4: rewrite !walk_exit; pose proof (size_exit d visiting seen); apply IHp; lia.
  all: rewrite !walk_enter; destruct (decide (d ∈ seen)) as [|Hseen]; [by apply IHp|].
  all: destruct (decide (d ∈ visiting)) as [|Hvis]; [done|].
  all: pose proof (size_expand d visiting seen Hseen Hvis) as Hs.
  all: pose proof (size_union_le seen ({[d]} ∪ visiting)) as Hle.
  all: destruct (Nat.ltb_spec MAX_DIRECTORIES (size seen + size ({[d]} ∪ visiting : gset Digest)));
    [done|].
  { lia. }
  destruct fuel2 as [|fuel2]; [lia|]. unfold m_bind.
  destruct (read_directory ns d w) as [w1 [directory|e]]; [|done]. apply IHf; lia.
Qed.

(** ** What an accepted tree is *)

Context `{!MetadataLaws MS} `{!BlobLaws BS}.

(** The directory object a digest names, as the stores hold it: visible to the
    namespace, small enough, parsed and canonical, with valid entries whose
    files are all visible too. *)
Record directory_at (w : AppState (MS:=MS) (BS:=BS)) (ns : string) (d : Digest) (dir : Directory)
  : Prop := {
  dir_size : (digest_size d <= MAX_DIRECTORY_BYTES)%N;
  dir_visible : view_blob (view (metadata w)) ns d = true;
  dir_content : exists content, objects (blobs w) d = Some content /\
    directory_from_slice content = Ok dir /\ directory_to_vec dir = Ok content;
  dir_version : directory_version dir = 1%N;
  dir_entries : validate_directory_entries dir = Ok tt;
  dir_files : Forall (fun f => digest_validate (file_digest f) = Ok tt /\
    view_blob (view (metadata w)) ns (file_digest f) = true) (files dir);
}.

Lemma directory_at_same w w' ns d dir :
  same_stores w w' -> directory_at w ns d dir -> directory_at w' ns d dir.
Proof.
  intros [[Hb _] Ho] [D1 D2 D3 D4 D5 D6]. split; try done.
  - by rewrite Hb.
  - by setoid_rewrite Ho.
  - eapply Forall_impl; [exact D6|]. intros f [Hv Hf]. by rewrite Hb.
Qed.

Lemma directory_at_unique w ns d dir1 dir2 :
  directory_at w ns d dir1 -> directory_at w ns d dir2 -> dir1 = dir2.
Proof.
  intros [_ _ (c1 & Hc1 & Hd1 & _) _ _ _] [_ _ (c2 & Hc2 & Hd2 & _) _ _ _]. congruence.
Qed.

Lemma validate_file_digests_ok nodes acc out :
  validate_file_digests nodes acc = Ok out ->
  Forall (fun f => digest_validate (file_digest f) = Ok tt /\ file_digest f ∈ out) nodes /\ acc ⊆ out.
Proof.
  revert acc; induction nodes as [|f nodes IH]; intros acc; cbn [validate_file_digests].
  { intros [= <-]. done. }
  intros ([] & Hv & Hn)%result_bind_ok. apply validate_digest_ok in Hv.
  destruct (IH _ Hn) as [Hall Hsub]. split; [|set_solver]. constructor; [|done].
  split; [done|set_solver].
Qed.

(** A list filtered to its own length lost nothing. *)
Lemma filter_length_all {A} (f : A -> bool) l :
  length (List.filter f l) = length l -> Forall (fun x => f x = true) l.
Proof.
  induction l as [|x l IH]; cbn; [done|]. destruct (f x) eqn:E; cbn; intros Hl.
  - constructor; [done|]. apply IH. lia.
  - pose proof (filter_length_le f l). lia.
Qed.

Lemma read_directory_ok `{!BlobReads BS} ns d w w' dir :
  meta_wf (metadata w) -> read_directory ns d w = (w', Ok dir) ->
  meta_wf (metadata w') /\ same_stores w w' /\ directory_at w ns d dir.
Proof.
  intros Hwf. unfold read_directory. destruct (N.ltb_spec MAX_DIRECTORY_BYTES (digest_size d)); [done|].
  intros (w1 & visible & Hv & Hk)%m_bind_ok. apply visible_ok in Hv as (Hwf1 & S1 & Hb); [|done].
  specialize (Hb visible eq_refl). destruct visible; [|done]. cbn [negb] in Hk.
  m_step Hk as w2 found Hg. apply get_ok in Hg as (Hm2 & S2 & Hg).
  destruct found as [blob|]; [|by m_step Hk as ? ? _].
  destruct Hg as (content & Hobj & _ & Hstream).
  m_step Hk as w3 bs Hga. apply (gather_ok _ content) in Hga as [-> ->]; [|done].
  m_step Hk as w3 dir' [= <- Hdir].
  m_step Hk as w3 canonical [= <- Hcan].
  destruct (bool_decide_reflect (canonical = content)) as [->|]; [|done]. cbn [negb] in Hk.
  destruct (N.eqb_spec (directory_version dir') 1) as [Hver|]; [|done]. cbn [negb] in Hk.
  m_step Hk as w3 [] [= <- Hent].
  m_step Hk as w3 file_set [= <- Hset]. cbn zeta in Hk.
  m_step Hk as w3 vis Hvis.
  apply on_metadata_inv in Hvis as (m & q & Hq & -> & Hqr).
  apply visible_blobs_law in Hq as (Hwf3 & V3 & Hq); [|by rewrite Hm2].
  destruct q as [l|]; [|done]. injection Hqr as ->. specialize (Hq l eq_refl).
  destruct (Nat.eqb_spec (length l) (length (elements file_set))) as [Hlen|]; [|done].
  injection Hk as <- <-. split; [done|].
  assert (same_stores w2 (set_metadata m w2)) as S3 by (by split).
  split; [by etransitivity; [|etransitivity]|].
  destruct (directory_from_slice content) as [dir0|] eqn:Hfs; [|done]. injection Hdir as ->.
  destruct (directory_to_vec dir') as [c0|] eqn:Htv; [|done]. injection Hcan as ->.
  destruct S1 as [[B1 _] O1], S2 as [[B2 _] O2].
  split; [done|by rewrite <-Hb|exists content; by rewrite <-O1|done|done|].
  apply validate_file_digests_ok in Hset as [Hfiles _].
  subst l. apply filter_length_all in Hlen. rewrite List.Forall_forall in Hlen.
  eapply Forall_impl; [exact Hfiles|]. intros f [Hval Hin]. split; [done|].
  rewrite <-elem_of_elements, list_elem_of_In in Hin. specialize (Hlen _ Hin).
  by rewrite B2, B1 in Hlen.
Qed.

(** The directories a directory lists. *)
Definition child (w : AppState (MS:=MS) (BS:=BS)) (ns : string) (c d : Digest) : Prop :=
  exists dir, directory_at w ns d dir /\ c ∈ map directory_digest (directories dir).

Lemma push_children_alt d dir pending :
  push_children d dir pending =
  (rev (map (fun node => Enter (directory_digest node)) (directories dir)) ++ Exit d :: pending)%list.
Proof.
  unfold push_children. generalize (Exit d :: pending) as acc.
  induction (directories dir) as [|node nodes IH]; intros acc; cbn; [done|].
  rewrite IH, <-app_assoc. done.
Qed.

(** The state of the walk: what was left is well-formed and closed but for
    what is still on the stack above it. [order] lists the directories that
    were left, latest first. *)
Record walk_inv (w : AppState (MS:=MS) (BS:=BS)) (ns : string) (root : Digest)
    (pending : list Visit) (seen : gset Digest) (order : list Digest) : Prop := {
  inv_order : seen = list_to_set order;
  inv_left : forall o1 d o2, order = (o1 ++ d :: o2)%list ->
    (exists dir, directory_at w ns d dir) /\ forall c, child w ns c d -> c ∈ o2;
  inv_exit : forall p1 d p2, pending = (p1 ++ Exit d :: p2)%list ->
    (exists dir, directory_at w ns d dir) /\
    forall c, child w ns c d -> c ∈ order \/ Enter c ∈ p1 \/ Exit c ∈ p1;
  inv_root : root ∈ order \/ Enter root ∈ pending \/ Exit root ∈ pending;
}.

Lemma child_same w w' ns c d : same_stores w w' -> child w ns c d -> child w' ns c d.
Proof. intros Hs (dir & Hd & Hc). exists dir. split; [by eapply directory_at_same|done]. Qed.

Lemma same_stores_sym (w w' : AppState (MS:=MS) (BS:=BS)) : same_stores w w' -> same_stores w' w.
Proof. intros [Hv Ho]. split; [by symmetry|by intros d]. Qed.

(** Directories that stay as they are keep the walk where it is. *)
Lemma walk_inv_stays w w' ns root pending seen order :
  (forall d dir, directory_at w ns d dir -> directory_at w' ns d dir) ->
  walk_inv w ns root pending seen order -> walk_inv w' ns root pending seen order.
Proof.
  intros Hs [I1 I2 I3 I4].
  assert (forall d c dir, directory_at w ns d dir -> child w' ns c d -> child w ns c d) as Hchild.
  { intros d c dir Hd (dir' & Hd' & Hc). exists dir. split; [done|].
    by rewrite <-(directory_at_unique _ _ _ _ _ Hd' (Hs _ _ Hd)). }
  split; [done| | |done].
  - intros o1 d o2 Ho. destruct (I2 _ _ _ Ho) as [[dir Hd] Hc]. split; [exists dir; auto|].
    intros c Hcd. eauto.
  - intros p1 d p2 Hp. destruct (I3 _ _ _ Hp) as [[dir Hd] Hc]. split; [exists dir; auto|].
    intros c Hcd. eauto.
Qed.

Lemma walk_inv_same w w' ns root pending seen order :
  same_stores w w' -> walk_inv w ns root pending seen order ->
  walk_inv w' ns root pending seen order.
Proof. intros Hs. apply walk_inv_stays. intros d dir. by apply directory_at_same. Qed.

Lemma walk_inv_exit w ns root d pending seen order :
  walk_inv w ns root (Exit d :: pending) seen order ->
  walk_inv w ns root pending ({[d]} ∪ seen) (d :: order).
Proof.
  intros [-> I2 I3 I4]. destruct (I3 [] d pending eq_refl) as [Hdir Hch]. split; [done|..].
  - intros [|x o1] d' o2 Heq; cbn in Heq; injection Heq as <- Heq; [subst o2|by eapply I2].
    split; [done|]. intros c Hc. destruct (Hch c Hc) as [?|[?|?]]; set_solver.
  - intros p1 d' p2 ->. destruct (I3 (Exit d :: p1) d' p2 eq_refl) as [Hd Hc]. split; [done|].
    intros c Hcd. specialize (Hc c Hcd). set_solver.
  - set_solver.
Qed.

Lemma walk_inv_skip w ns root d pending seen order :
  d ∈ seen -> walk_inv w ns root (Enter d :: pending) seen order ->
  walk_inv w ns root pending seen order.
Proof.
  intros Hin [-> I2 I3 I4]. apply elem_of_list_to_set in Hin. split; [done|done|..].
  - intros p1 d' p2 ->. destruct (I3 (Enter d :: p1) d' p2 eq_refl) as [Hd Hc]. split; [done|].
    intros c Hcd. specialize (Hc c Hcd). set_solver.
  - set_solver.
Qed.

(** Where an exit lies in a stack that was pushed on. *)
Lemma pushed_exit children d pending p1 d' p2 :
  (map Enter children ++ Exit d :: pending = p1 ++ Exit d' :: p2)%list ->
  (p1 = map Enter children /\ d' = d /\ p2 = pending) \/
  exists q, p1 = (map Enter children ++ Exit d :: q)%list /\ pending = (q ++ Exit d' :: p2)%list.
Proof.
  revert p1; induction children as [|c children IH]; intros p1; cbn.
  - destruct p1 as [|v p1]; cbn; intros [= <- Heq]; [by left|]. right. by exists p1.
  - destruct p1 as [|v p1]; cbn; [done|]. intros [= <- Heq].
    destruct (IH _ Heq) as [(-> & -> & ->)|(q & -> & ->)]; [by left|]. right. by exists q.
Qed.

Lemma walk_inv_push w ns root d dir pending seen order :
  directory_at w ns d dir -> walk_inv w ns root (Enter d :: pending) seen order ->
  walk_inv w ns root (push_children d dir pending) seen order.
Proof.
  intros Hdir [I1 I2 I3 I4]. rewrite push_children_alt.
  assert (rev (map (fun node => Enter (directory_digest node)) (directories dir)) =
    map Enter (rev (map directory_digest (directories dir)))) as ->
    by (by rewrite map_rev, map_map).
  split; [done|done| |set_solver].
  intros p1 d' p2 Heq. apply pushed_exit in Heq as [(-> & -> & ->)|(q & -> & ->)].
  - split; [by exists dir|]. intros c (dir' & Hdir' & Hc).
    rewrite (directory_at_unique _ _ _ _ _ Hdir' Hdir) in Hc. right. left.
    apply list_elem_of_fmap. exists c. split; [done|]. apply list_elem_of_In, in_rev. rewrite rev_involutive.
    by apply list_elem_of_In.
  - destruct (I3 (Enter d :: q) d' p2 eq_refl) as [Hd Hc]. split; [done|].
    intros c Hcd. specialize (Hc c Hcd). set_solver.
Qed.

Lemma walk_ok `{!BlobReads BS} fuel ns root pending visiting seen w w' order :
  meta_wf (metadata w) -> walk_inv w ns root pending seen order ->
  walk fuel ns pending visiting seen w = (w', Ok tt) ->
  meta_wf (metadata w') /\ same_stores w w' /\
  exists seen' order', walk_inv w ns root [] seen' order'.
Proof.
  revert pending visiting seen w order; induction fuel as [|fuel IHf]; intros pending;
    induction pending as [|[d|d] pending IHp]; intros visiting seen w order Hwf Hinv.
  1, 4: rewrite walk_nil; intros [= <-]; split; [done|split; [reflexivity|by exists seen, order]].
  2, 4: rewrite walk_exit; eapply IHp; [done|by apply walk_inv_exit].
  all: rewrite walk_enter; destruct (decide (d ∈ seen)) as [|Hseen];
    [eapply IHp; [done|by eapply walk_inv_skip]|].
  all: destruct (decide (d ∈ visiting)) as [|Hvis]; [done|].
  all: destruct (_ <? _)%nat; [done|].
  all: intros (w1 & dir & Hr & Hk)%m_bind_ok.
  { done. }
  apply read_directory_ok in Hr as (Hwf1 & S1 & Hdir); [|done].
  eapply IHf in Hk as (Hwf' & S2 & seen' & order' & Hfin); [|done|].
  - split; [done|]. split; [by etransitivity|]. exists seen', order'.
    eapply walk_inv_same; [by apply same_stores_sym|exact Hfin].
  - eapply walk_inv_same; [exact S1|]. by eapply walk_inv_push.
Qed.

(** A complete and finite tree of directories below a root. *)
Definition complete_tree (w : AppState (MS:=MS) (BS:=BS)) (ns : string) (root : Digest) : Prop :=
  exists tree : gset Digest, root ∈ tree /\
    (forall d, d ∈ tree -> exists dir, directory_at w ns d dir) /\
    (forall d c, d ∈ tree -> child w ns c d -> c ∈ tree) /\
    (forall d, d ∈ tree -> Acc (child w ns) d).

Lemma complete_tree_same w w' ns root :
  same_stores w w' -> complete_tree w ns root -> complete_tree w' ns root.
Proof.
  intros Hs (tree & Hroot & Hdir & Hch & Hacc). pose proof (same_stores_sym _ _ Hs) as Hs'.
  exists tree. split_and!; [done|..].
  - intros d Hd. destruct (Hdir d Hd) as [dir ?]. exists dir. by eapply directory_at_same.
  - intros d c Hd Hc. eapply Hch; [exact Hd|]. by eapply child_same.
  - intros d Hd. induction (Hacc d Hd) as [d _ IH]. constructor. intros c Hc.
    assert (child w ns c d) as Hc' by (by eapply child_same). eauto.
Qed.

Lemma walk_inv_start w ns root : walk_inv w ns root [Enter root] ∅ [].
Proof.
  split; [done|..].
  - intros o1 d o2 Heq. by destruct o1.
  - intros [|v p1] d p2 Heq; [done|]. injection Heq as _ Heq. by destruct p1.
  - set_solver.
Qed.

(** When nothing is left to visit, what was visited is the tree. *)
Lemma walk_inv_complete w ns root seen order : walk_inv w ns root [] seen order -> complete_tree w ns root.
Proof.
  intros [-> I2 _ I4]. exists (list_to_set order).
  assert (root ∈ order) as Hroot by set_solver. clear I4.
  split; [set_solver|]. setoid_rewrite elem_of_list_to_set. split_and!.
  - intros d (o1 & o2 & ->)%list_elem_of_split. by eapply I2.
  - intros d c (o1 & o2 & ->)%list_elem_of_split Hc. destruct (I2 _ _ _ eq_refl) as [_ Hch].
    apply Hch in Hc. set_solver.
  - clear Hroot. induction order as [|d order IH]; [set_solver|]. intros d' Hd'.
    assert (forall x, x ∈ order -> Acc (child w ns) x) as Hacc.
    { apply IH. intros o1 x o2 ->. apply (I2 (d :: o1)). done. }
    apply elem_of_cons in Hd' as [->|Hd']; [|by apply Hacc]. constructor. intros c Hc.
    apply Hacc. by apply (I2 [] d order).
Qed.

Lemma validate_tree_ok `{!BlobReads BS} ns root w w' :
  meta_wf (metadata w) -> validate_tree ns root w = (w', Ok tt) ->
  meta_wf (metadata w') /\ same_stores w w' /\ complete_tree w ns root.
Proof.
  intros Hwf Hok. unfold validate_tree in Hok.
  apply (walk_ok _ _ root _ _ _ _ _ []) in Hok as (Hwf' & Hs & seen & order & Hinv);
    [|done|apply walk_inv_start].
  split; [done|]. split; [done|]. by eapply walk_inv_complete.
Qed.

(** C38. A tree that is accepted is complete and finite: there is a set of
    directories that holds the root and every subdirectory of its members,
    each of them a well-formed, canonical, visible directory object whose files
    are all visible to the namespace; and no directory contains itself, at any
    depth. *)
Theorem validate_tree_sound `{!BlobReads BS} ns root w w'
    (Hwf : meta_wf (metadata w)) (Hok : validate_tree ns root w = (w', Ok tt)) :
  same_stores w w' /\
  exists tree : gset Digest, root ∈ tree /\
    (forall d, d ∈ tree -> exists dir, directory_at w ns d dir) /\
    (forall d c, d ∈ tree -> child w ns c d -> c ∈ tree) /\
    (forall d, d ∈ tree -> Acc (child w ns) d).
Proof. by apply validate_tree_ok in Hok as (_ & ? & ?). Qed.

(** ** Only real cycles are refused as cycles *)

Definition cycle_error : ApiError := unprocessable "directory graph contains a cycle".

Lemma internal_not_cycle e : internal e <> cycle_error.
Proof. by destruct e. Qed.

Lemma on_metadata_not_cycle {A} (c : M MS StoreError A) w w' e :
  on_metadata (BS:=BS) c w = (w', Err e) -> e <> cycle_error.
Proof.
  intros (m & [a|q] & _ & _ & He)%on_metadata_inv; [done|]. injection He as ->.
  apply internal_not_cycle.
Qed.

Lemma validate_entry_not_cycle names name mode e :
  validate_entry names name mode = Err e -> e <> cycle_error.
Proof.
  unfold validate_entry. destruct (_ || _); [by intros [= <-]|]. case_decide; [|done].
  by intros [= <-].
Qed.

Lemma bind_not_cycle {A B} (c : result ApiError A) (k : A -> result ApiError B) e :
  result_bind c k = Err e -> (forall e, c = Err e -> e <> cycle_error) ->
  (forall a e, k a = Err e -> e <> cycle_error) -> e <> cycle_error.
Proof. destruct c; cbn; naive_solver. Qed.

Lemma entries_not_cycle dir e : validate_directory_entries dir = Err e -> e <> cycle_error.
Proof.
  intros H'. apply (bind_not_cycle _ _ _ H'); clear H' e.
  { generalize (∅ : gset string) as names.
    induction (directories dir) as [|n l IH]; intros names e; cbn; [done|].
    intros H'. apply (bind_not_cycle _ _ _ H'); [apply validate_entry_not_cycle|apply IH]. }
  intros names e H'. apply (bind_not_cycle _ _ _ H'); clear H' e.
  { revert names. induction (files dir) as [|n l IH]; intros names e; cbn; [done|].
    intros H'. apply (bind_not_cycle _ _ _ H'); [apply validate_entry_not_cycle|apply IH]. }
  clear names. intros names e H'. apply (bind_not_cycle _ _ _ H'); [|done]. clear H' e.
  revert names. induction (symlinks dir) as [|n l IH]; intros names e; cbn; [done|].
  intros H'. apply (bind_not_cycle _ _ _ H'); [apply validate_entry_not_cycle|].
  intros names' e'. destruct (_ || _); [by intros [= <-]|apply IH].
Qed.

Lemma file_digests_not_cycle nodes acc e :
  validate_file_digests nodes acc = Err e -> e <> cycle_error.
Proof.
  revert acc e; induction nodes as [|n nodes IH]; intros acc e; cbn; [done|].
  intros H'. apply (bind_not_cycle _ _ _ H'); [|intros _; apply IH].
  unfold validate_digest. intros e'. destruct (is_ok _); [done|]. by intros [= <-].
Qed.

Lemma read_directory_not_cycle ns d w w' e :
  read_directory ns d w = (w', Err e) -> e <> cycle_error.
Proof.
  unfold read_directory. destruct (_ <? _)%N; [by intros [= _ <-]|]. unfold m_bind at 1.
  destruct (on_metadata _ w) as [w1 [visible|e1]] eqn:E1;
    [|intros [= _ <-]; by eapply on_metadata_not_cycle]. destruct (negb visible); [by intros [= _ <-]|].
  unfold m_bind at 1. destruct (on_blobs _ w1) as [w2 [[blob|]|e2]] eqn:E2.
  3: { apply on_blobs_inv in E2 as (b & [a|q] & _ & _ & He); [done|]. injection He as ->.
       intros [= _ <-]. apply internal_not_cycle. }
  2: { unfold m_bind, forget_missing_blob. destruct (forget_blob _ _ _) as [m r].
       by intros [= _ <-]. }
  unfold m_bind at 1, gather. destruct (collect_stream _) as [bs [u|e3]];
    [|intros [= _ <-]; apply internal_not_cycle].
  unfold m_bind at 1, m_lift, m_ret. destruct (directory_from_slice bs) as [dir|]; [|by intros [= _ <-]].
  cbn [map_err]. unfold m_bind at 1.
  destruct (directory_to_vec dir) as [c|]; [|by intros [= _ <-]]. cbn [map_err].
  destruct (negb _); [by intros [= _ <-]|]. destruct (negb _); [by intros [= _ <-]|].
  unfold m_bind at 1. destruct (validate_directory_entries dir) as [u'|e4] eqn:E4;
    [|intros [= _ <-]; by eapply entries_not_cycle].
  unfold m_bind at 1. destruct (validate_file_digests _ _) as [set|e5] eqn:E5;
    [|intros [= _ <-]; by eapply file_digests_not_cycle].
  unfold m_bind at 1. destruct (on_metadata _ w2) as [w3 [vis|e6]] eqn:E6;
    [|intros [= _ <-]; by eapply on_metadata_not_cycle].
  destruct (negb _); [by intros [= _ <-]|]. done.
Qed.

(** The directories being visited are the exits on the stack, each below what
    it contains. *)
Fixpoint exits (pending : list Visit) : list Digest :=
  match pending with
  | [] => []
  | Enter _ :: pending => exits pending
  | Exit d :: pending => d :: exits pending
  end.
Definition visit_digest (v : Visit) : Digest := match v with Enter d | Exit d => d end.

Fixpoint nested (w : AppState (MS:=MS) (BS:=BS)) (ns : string) (pending : list Visit) : Prop :=
  match pending with
  | [] => True
  | v :: rest =>
      (forall e, head (exits rest) = Some e -> child w ns (visit_digest v) e) /\ nested w ns rest
  end.

Lemma nested_chain w ns v pending e :
  nested w ns (v :: pending) -> e ∈ exits pending -> tc (child w ns) (visit_digest v) e.
Proof.
  revert v; induction pending as [|v' pending IH]; intros v [Hhead Hnest] Hin; [by apply not_elem_of_nil in Hin|].
  destruct v' as [d|d]; cbn in Hin, Hhead.
  - apply IH; [|done]. split; [done|]. by destruct Hnest.
  - apply elem_of_cons in Hin as [->|Hin]; [by apply tc_once, Hhead|].
    eapply tc_l; [by apply Hhead|]. by apply (IH (Exit d)).
Qed.

Lemma nested_same w w' ns pending : same_stores w w' -> nested w ns pending -> nested w' ns pending.
Proof.
  intros Hs. induction pending as [|v pending IH]; [done|]. intros [Hh Hn]. split; [|auto].
  intros e He. eapply child_same; [exact Hs|auto].
Qed.

Lemma exits_enters children pending : exits (map Enter children ++ pending) = exits pending.
Proof. by induction children. Qed.

Lemma nested_enters w ns children d pending :
  (forall c, c ∈ children -> child w ns c d) -> nested w ns (Exit d :: pending) ->
  nested w ns (map Enter children ++ Exit d :: pending).
Proof.
  intros Hch Hn. induction children as [|c children IH]; [done|]. split.
  - intros e He. fold (map Enter children) in He. rewrite exits_enters in He. cbn in He.
    injection He as <-. apply Hch. set_solver.
  - apply IH. set_solver.
Qed.

Lemma push_children_enters d dir pending :
  push_children d dir pending =
  (map Enter (rev (map directory_digest (directories dir))) ++ Exit d :: pending)%list.
Proof. by rewrite push_children_alt, <-map_map, <-map_rev. Qed.

Lemma walk_cycle `{!BlobReads BS} fuel ns pending visiting seen w w' :
  meta_wf (metadata w) -> nested w ns pending ->
  visiting = list_to_set (exits pending) -> NoDup (exits pending) ->
  walk fuel ns pending visiting seen w = (w', Err cycle_error) ->
  exists d, tc (child w ns) d d.
Proof.
  revert pending visiting seen w; induction fuel as [|fuel IHf]; intros pending;
    induction pending as [|[d|d] pending IHp]; intros visiting seen w Hwf Hn Hvis Hnd.
  1, 4: by rewrite walk_nil.
  2, 4: rewrite walk_exit; cbn in Hvis, Hnd; apply NoDup_cons in Hnd as [Hd Hnd];
    apply IHp; [done|by destruct Hn| |done]; rewrite Hvis;
    assert (d ∉@{gset Digest} list_to_set (exits pending)) by (by rewrite elem_of_list_to_set);
    set_solver.
  all: rewrite walk_enter; destruct (decide (d ∈ seen)) as [|Hseen];
    [apply IHp; [done|by destruct Hn|done|done]|].
  all: destruct (decide (d ∈ visiting)) as [Hin|Hnew];
    [intros _; exists d; apply (nested_chain _ _ _ _ _ Hn); subst visiting;
     by apply elem_of_list_to_set in Hin|].
  all: destruct (_ <? _)%nat; [done|].
  all: unfold m_bind; destruct (read_directory ns d w) as [w1 [dir|e]] eqn:Hr;
    [|intros [= _ ->]; by apply read_directory_not_cycle in Hr].
  { done. }
  apply read_directory_ok in Hr as (Hwf1 & S1 & Hdir); [|done]. intros Hk.
  eapply IHf in Hk as [x Hx]; [|done|..].
  - exists x. refine (tc_congruence (fun d => d) (child w ns) x x _ Hx).
    intros c d'. apply child_same. by apply same_stores_sym.
  - rewrite push_children_enters. eapply nested_same; [exact S1|]. apply nested_enters; [|exact Hn].
    intros c Hc. exists dir. split; [done|]. apply list_elem_of_In, in_rev, list_elem_of_In. exact Hc.
  - rewrite push_children_enters, exits_enters. cbn. by rewrite Hvis.
  - rewrite push_children_enters, exits_enters. cbn. apply NoDup_cons. split; [|done].
    subst visiting. by rewrite elem_of_list_to_set in Hnew.
Qed.

(** A tree refused for containing a cycle contains one: some directory is
    below itself. *)
Theorem validate_tree_cycle `{!BlobReads BS} ns root w w'
    (Hwf : meta_wf (metadata w)) (Herr : validate_tree ns root w = (w', Err cycle_error)) :
  exists d, tc (child w ns) d d.
Proof.
  eapply walk_cycle; [exact Hwf| | | |exact Herr]; [by split|done|constructor].
Qed.

End Tree.

(** ** Entries *)

Definition safe_name (name : string) : Prop :=
  name <> "" /\ name <> "." /\ name <> ".." /\ contains_char "/" name = false /\
  contains_char "\" name = false /\ contains_char NUL name = false.

Lemma validate_entry_ok names name mode names' :
  validate_entry names name mode = Ok names' <->
  safe_name name /\ (mode <= 4095)%N /\ name ∉ names /\ names' = {[name]} ∪ names.
Proof.
  unfold validate_entry, safe_name, contains_separator.
  destruct (_ || _) eqn:E.
  - split; [done|]. intros ((H1 & H2 & H3 & H4 & H5 & H6) & Hm & _). exfalso. revert E.
    apply eq_true_false_abs || idtac. rewrite H4, H5, H6.
    destruct (str_is_empty name) eqn:He; [by apply str_is_empty_spec in He|].
    apply String.eqb_neq in H2, H3. rewrite H2, H3. destruct (N.ltb_spec 4095 mode); [lia|done].
  - rewrite !orb_false_iff, N.ltb_ge, !String.eqb_neq in E.
    destruct E as [[[[H1 H2] H3] [[H4 H5] H6]] Hm].
    assert (name <> "") by (intros ->; done). case_decide as Hin.
    + split; [done|]. by intros (_ & _ & Hn & _).
    + split; [intros [= <-]|intros (_ & _ & _ & ->)]; done.
Qed.

(** All the names of a directory, in the order they are checked. *)
Definition entry_names (dir : Directory) : list string :=
  (map directory_name (directories dir) ++ map file_name (files dir)
   ++ map symlink_name (symlinks dir))%list.

(** A fold of [validate_entry] over named nodes. *)
Fixpoint fresh_entries (names : gset string) (nodes : list (string * N)) : option (gset string) :=
  match nodes with
  | [] => Some names
  | (name, mode) :: nodes =>
      match validate_entry names name mode with
      | Ok names => fresh_entries names nodes
      | Err _ => None
      end
  end.

Lemma fresh_entries_spec names nodes names' :
  fresh_entries names nodes = Some names' <->
  Forall (fun n => safe_name n.1 /\ (n.2 <= 4095)%N) nodes /\ NoDup (map fst nodes) /\
  Forall (fun n => n.1 ∉ names) nodes /\ names' = list_to_set (map fst nodes) ∪ names.
Proof.
  revert names; induction nodes as [|[name mode] nodes IH]; intros names; cbn.
  { split; [intros [= <-]|intros (_ & _ & _ & ->)]; [|f_equal; set_solver].
    split_and!; [constructor..|set_solver]. }
  rewrite !Forall_cons, NoDup_cons. cbn.
  destruct (validate_entry names name mode) as [names1|e] eqn:E.
  - apply validate_entry_ok in E as (Hs & Hm & Hn & ->). rewrite IH.
    assert (Forall (fun n : string * N => n.1 ∉ {[name]} ∪ names) nodes <->
      name ∉ map fst nodes /\ Forall (fun n => n.1 ∉ names) nodes) as ->.
    { rewrite !Forall_forall, list_elem_of_fmap. split.
      - intros Hf. split; [intros (y & -> & Hy)|intros y Hy]; specialize (Hf y Hy); set_solver.
      - intros [Hnew Hf] y Hy. specialize (Hf y Hy). assert (y.1 <> name) by naive_solver.
        set_solver. }
    assert (list_to_set (map fst nodes) ∪ ({[name]} ∪ names) =
      ({[name]} ∪ list_to_set (map fst nodes) ∪ names : gset string)) as -> by set_solver.
    tauto.
  - split; [done|]. intros ([[Hs Hm] _] & _ & [Hn _] & _). exfalso.
    assert (validate_entry names name mode = Ok ({[name]} ∪ names)) by (by apply validate_entry_ok).
    congruence.
Qed.

(** The checks of the three kinds of nodes are that fold over the nodes' names
    and modes. *)
Definition entry_nodes (dir : Directory) : list (string * N) :=
  (map (fun n => (directory_name n, directory_mode n)) (directories dir)
   ++ map (fun n => (file_name n, file_mode n)) (files dir)
   ++ map (fun n => (symlink_name n, symlink_mode n)) (symlinks dir))%list.

Definition valid_target (target : string) : Prop :=
  target <> "" /\ contains_char NUL target = false.

Lemma fresh_entries_app names l1 l2 :
  fresh_entries names (l1 ++ l2) = fresh_entries names l1 ≫= fun names => fresh_entries names l2.
Proof.
  revert names; induction l1 as [|[name mode] l1 IH]; intros names; [done|]. cbn.
  by destruct (validate_entry names name mode).
Qed.

Lemma validate_directory_nodes_ok names nodes names' :
  validate_directory_nodes names nodes = Ok names' <->
  fresh_entries names (map (fun n => (directory_name n, directory_mode n)) nodes) = Some names'.
Proof.
  revert names; induction nodes as [|n nodes IH]; intros names; cbn; [naive_solver|].
  by destruct (validate_entry _ _ _); cbn.
Qed.

Lemma validate_file_nodes_ok names nodes names' :
  validate_file_nodes names nodes = Ok names' <->
  fresh_entries names (map (fun n => (file_name n, file_mode n)) nodes) = Some names'.
Proof.
  revert names; induction nodes as [|n nodes IH]; intros names; cbn; [naive_solver|].
  by destruct (validate_entry _ _ _); cbn.
Qed.

Lemma validate_symlink_nodes_ok names nodes names' :
  validate_symlink_nodes names nodes = Ok names' <->
  fresh_entries names (map (fun n => (symlink_name n, symlink_mode n)) nodes) = Some names' /\
  Forall (fun n => valid_target (symlink_target n)) nodes.
Proof.
  revert names; induction nodes as [|n nodes IH]; intros names; cbn; [naive_solver|].
  rewrite Forall_cons. destruct (validate_entry _ _ _) as [names1|]; cbn; [|naive_solver].
  destruct (_ || _) eqn:E.
  - split; [done|]. intros (_ & [Hne Hnul] & _). rewrite Hnul in E.
    destruct (str_is_empty _) eqn:He; [by apply str_is_empty_spec in He|done].
  - apply orb_false_iff in E as [He Hnul]. rewrite IH.
    assert (valid_target (symlink_target n)); [|tauto].
    split; [|done]. intros Heq. by rewrite Heq in He.
Qed.

(** The entries of a directory are accepted exactly when every name is a
    single path component other than the two dots, every mode fits in twelve
    bits, no name occurs twice, be it as a directory, a file or a link, and
    every link has a target without NUL. *)
Theorem validate_directory_entries_spec dir :
  validate_directory_entries dir = Ok tt <->
  Forall safe_name (entry_names dir) /\ NoDup (entry_names dir) /\
  Forall (fun n => (n.2 <= 4095)%N) (entry_nodes dir) /\
  Forall (fun n => valid_target (symlink_target n)) (symlinks dir).
Proof.
  transitivity ((exists names, fresh_entries ∅ (entry_nodes dir) = Some names) /\
    Forall (fun n => valid_target (symlink_target n)) (symlinks dir)).
  - unfold validate_directory_entries, entry_nodes. rewrite result_bind_ok.
    setoid_rewrite result_bind_ok. setoid_rewrite result_bind_ok.
    setoid_rewrite validate_directory_nodes_ok. setoid_rewrite validate_file_nodes_ok.
    setoid_rewrite validate_symlink_nodes_ok. rewrite !fresh_entries_app. split.
    + intros (n1 & -> & n2 & Hf & n3 & [Hs Ht] & _). cbn. rewrite fresh_entries_app, Hf. cbn. eauto.
    + intros [[names Hn] Ht]. apply bind_Some in Hn as (n1 & Hd & Hn).
      rewrite fresh_entries_app in Hn. apply bind_Some in Hn as (n2 & Hf & Hs). eauto 10.
  - setoid_rewrite fresh_entries_spec.
    assert (map fst (entry_nodes dir) = entry_names dir) as Hnames.
    { unfold entry_nodes, entry_names. by rewrite !map_app, !map_map. }
    rewrite Hnames, <-Hnames, Forall_map, Hnames. split.
    + intros [(names & Hall & Hnd & _ & _) Ht]. apply Forall_and in Hall. tauto.
    + intros (Hs & Hnd & Hm & Ht). split; [|done]. eexists. split_and!; [by apply Forall_and|done| |done].
      apply Forall_forall. set_solver.
Qed.
