(* ===== verification/Actions.v ===== *)
(** * Action descriptors and client metadata (src/server.rs)

    The JSON objects an action result rests on: [read_canonical_object] reads
    one, the validators of each kind decode and check it. *)
From stdpp Require Import pretty.
From S2P Require Import Prelude Str Protocol Api Json Model Records Oidc Auth Spool Access.
From S2P Require Import Metrics App.
From Stdlib Require Import Ascii.

Local Open Scope string_scope.
Local Open Scope mbx_scope.

Inductive ActionKind := BuildScript | Cc | Rustc | Task.

#[export] Instance ActionKind_eq_dec : EqDecision ActionKind.
Proof. solve_decision. Defined.

(** The [{:?}] of a string. *)
Class DebugFormat := { debug_str : string -> string }.

(** [path.split('/').any(..)] and what precedes it *)
Definition validate_task_root (root : string) : result ApiError unit :=
  if str_is_empty root || starts_with "/" root
     || (contains_char "\" root || contains_char NUL root)
     || existsb (fun component => str_is_empty component || String.eqb component "."
                                  || String.eqb component "..") (split "/" root)
  then Err (unprocessable "task metadata root must be a safe relative path")
  else Ok tt.

Fixpoint validate_task_roots (roots : list string) : result ApiError unit :=
  match roots with
  | [] => Ok tt
  | root :: roots => _ <-? validate_task_root root; validate_task_roots roots
  end.

Definition validate_action_result_shape (r : ActionResult) (action_kind : ActionKind)
  : result ApiError unit :=
  if bool_decide (action_kind <> Task)
     && (bool_decide (result_metadata r = None) || bool_decide (output_root r = None))
  then Err (unprocessable "compiler action results require metadata and an output root")
  else Ok tt.

(** The fields a task action must spell out, even where they have a default. *)
Definition TASK_ACTION_FIELDS : list string :=
  ["version"; "kind"; "task"; "phase"; "run"; "args"; "shell"; "outputs"; "root"; "source_hash";
   "environment"; "vars"; "tools"; "os"; "arch"].

Definition MAX_OBJECT_BYTES : N := 16 * 1024 * 1024.

Section Actions.
Context `{Protocol} `{Records} `{!JsonText} `{!Documents} `{!Jwt} `{!Tokio} `{!DebugFormat}.

(** ** Descriptors *)

Definition validate_build_script_action (value : Value) (version : N)
  : result ApiError ActionKind :=
  if negb ((version <? 256)%N && range_contains BUILD_SCRIPT_ACTION_SCHEMAS version)
  then Err (unprocessable ("unsupported build-script action schema " ++ pretty version))
  else
    action <-? map_err (fun error => unprocessable ("invalid build-script action: " ++ error))
      (build_script_action_from_value value);
    if negb (BuildScriptAction.validate action)
    then Err (unprocessable "invalid build-script action values")
    else Ok BuildScript.

Definition validate_cc_action (value : Value) (version : N) : result ApiError ActionKind :=
  if negb (version =? 1)%N
  then Err (unprocessable ("unsupported cc action schema " ++ pretty version))
  else
    action <-? map_err (fun error => unprocessable ("invalid cc action: " ++ error))
      (cc_action_from_value value);
    if negb (CcAction.validate action) then Err (unprocessable "invalid cc action values")
    else Ok Cc.

Fixpoint require_fields (object : list (string * Value)) (fields : list string)
  : result ApiError unit :=
  match fields with
  | [] => Ok tt
  | field :: fields =>
      if negb (contains_key object field)
      then Err (unprocessable ("task action field " ++ debug_str field ++ " is required"))
      else require_fields object fields
  end.

(** Its caller has checked that the value is an object. *)
Definition validate_task_action (value : Value) (version : N) : result ApiError ActionKind :=
  if negb (version =? 1)%N
  then Err (unprocessable ("unsupported task action schema " ++ pretty version))
  else
    _ <-? require_fields (default [] (as_object value)) TASK_ACTION_FIELDS;
    action <-? map_err (fun error => unprocessable ("invalid task action: " ++ error))
      (task_action_from_value value);
    if negb (TaskAction.validate action) then Err (unprocessable "invalid task action values")
    else Ok Task.

Definition validate_rustc_action (value : Value) (version : N) : result ApiError ActionKind :=
  if negb (version =? 1)%N
  then Err (unprocessable ("unsupported rustc action schema " ++ pretty version))
  else
    action <-? map_err (fun error => unprocessable ("invalid rustc action: " ++ error))
      (rustc_action_from_value value);
    if negb (RustcAction.validate action) then Err (unprocessable "invalid rustc action values")
    else Ok Rustc.

(** What [validate_action_descriptor] does with the object it has read. *)
Definition dispatch_action (value : Value) : result ApiError ActionKind :=
  object <-? ok_or (as_object value) (unprocessable "action descriptor must be a JSON object");
  kind <-? ok_or (entries_get "kind" object ≫= as_str)
    (unprocessable "action descriptor kind is required");
  version <-? ok_or (entries_get "version" object ≫= as_u64)
    (unprocessable "action descriptor version is required");
  if String.eqb kind "build-script" then validate_build_script_action value version
  else if String.eqb kind "cc" then validate_cc_action value version
  else if String.eqb kind "task" then validate_task_action value version
  else if String.eqb kind "rustc" then validate_rustc_action value version
  else Err (unprocessable ("unsupported action kind " ++ debug_str kind)).

Context {MS BS : Type} `{!MetadataStore MS} `{!BlobStore BS}.

Definition read_canonical_object (namespace : string) (digest : Digest) (label : string)
  : Handler (MS:=MS) (BS:=BS) Value :=
  m_lift (validate_digest digest) ;~
  if (MAX_OBJECT_BYTES <? digest_size digest)%N
  then m_throw (unprocessable (label ++ " is too large"))
  else
    visible <~ on_metadata (blob_visible namespace digest);
    if negb visible then m_throw (unprocessable (label ++ " blob is missing"))
    else
      found <~ on_blobs (blob_get digest);
      match found with
      | None =>
          forget_missing_blob namespace digest ;~
          m_throw (unprocessable (label ++ " blob is missing"))
      | Some blob =>
          content <~ gather (blob_stream blob);
          value <~ m_lift (map_err (fun _ => unprocessable (label ++ " is invalid JSON"))
                            (value_from_slice content));
          if negb (is_object value)
          then m_throw (unprocessable (label ++ " is not canonical JSON"))
          else
            canonical <~ m_lift (map_err (fun e => internal (OtherError e)) (value_to_vec value));
            if negb (bool_decide (canonical = content))
            then m_throw (unprocessable (label ++ " is not canonical JSON"))
            else m_ret value
      end.

Definition validate_action_descriptor (namespace : string) (digest : Digest)
  : Handler (MS:=MS) (BS:=BS) ActionKind :=
  value <~ read_canonical_object namespace digest "action descriptor";
  m_lift (dispatch_action value).

(** ** Client metadata *)

Definition require_output_blobs (namespace : string) (stdout stderr : Digest) (kind : string)
  : Handler (MS:=MS) (BS:=BS) unit :=
  require_blob namespace stdout (kind ++ " stdout blob") ;~
  require_blob namespace stderr (kind ++ " stderr blob").

Definition validate_build_script_metadata (namespace : string) (value : Value) (version : N)
  : Handler (MS:=MS) (BS:=BS) unit :=
  if negb (version =? 1)%N
  then m_throw (unprocessable ("unsupported build-script metadata schema " ++ pretty version))
  else
    metadata <~ m_lift (map_err
      (fun error => unprocessable ("invalid build-script metadata: " ++ error))
      (build_script_metadata_from_value value));
    if negb (BuildScriptMetadata.validate metadata)
    then m_throw (unprocessable "invalid build-script metadata values")
    else require_output_blobs namespace (BuildScriptMetadata.stdout metadata)
      (BuildScriptMetadata.stderr metadata) "build-script".

Definition validate_cc_metadata (namespace : string) (value : Value) (version : N)
  : Handler (MS:=MS) (BS:=BS) unit :=
  if negb (version =? 1)%N
  then m_throw (unprocessable ("unsupported cc metadata schema " ++ pretty version))
  else
    metadata <~ m_lift (map_err (fun error => unprocessable ("invalid cc metadata: " ++ error))
      (cc_metadata_from_value value));
    if negb (cc_metadata_validate metadata)
    then m_throw (unprocessable "invalid cc metadata values")
    else require_output_blobs namespace (metadata_stdout metadata) (metadata_stderr metadata) "cc".

Definition validate_task_metadata (value : Value) (version : N) : result ApiError unit :=
  if negb (version =? 1)%N
  then Err (unprocessable ("unsupported task metadata schema " ++ pretty version))
  else
    metadata <-? map_err (fun error => unprocessable ("invalid task metadata: " ++ error))
      (task_metadata_from_value value);
    if negb (TaskMetadata.validate metadata)
    then Err (unprocessable "invalid task metadata values")
    else validate_task_roots (TaskMetadata.roots metadata).

Definition validate_rustc_metadata (namespace : string) (value : Value) (version : N)
  : Handler (MS:=MS) (BS:=BS) unit :=
  if negb (version =? 1)%N
  then m_throw (unprocessable ("unsupported rustc metadata schema " ++ pretty version))
  else
    metadata <~ m_lift (map_err (fun error => unprocessable ("invalid rustc metadata: " ++ error))
      (rustc_metadata_from_value value));
    if negb (rustc_metadata_validate metadata)
    then m_throw (unprocessable "invalid rustc metadata values")
    else require_output_blobs namespace (metadata_stdout metadata) (metadata_stderr metadata)
      "rustc".

Definition expected_kind (action_kind : ActionKind) : string :=
  match action_kind with
  | BuildScript => "build-script"
  | Cc => "cc"
  | Rustc => "rustc"
  | Task => "task"
  end.

Definition validate_client_metadata (namespace : string) (digest : Digest)
    (action_kind : ActionKind) : Handler (MS:=MS) (BS:=BS) unit :=
  value <~ read_canonical_object namespace digest "client metadata";
  object <~ m_lift (ok_or (as_object value)
    (unprocessable "client metadata must be a JSON object"));
  kind <~ m_lift (ok_or (entries_get "kind" object ≫= as_str)
    (unprocessable "client metadata kind is required"));
  version <~ m_lift (ok_or (entries_get "version" object ≫= as_u64)
    (unprocessable "client metadata version is required"));
  if negb (String.eqb kind (expected_kind action_kind))
  then m_throw (unprocessable "client metadata kind does not match action kind")
  else
    match action_kind with
    | Task => m_lift (validate_task_metadata value version)
    | BuildScript => validate_build_script_metadata namespace value version
    | Cc => validate_cc_metadata namespace value version
    | Rustc => validate_rustc_metadata namespace value version
    end.

End Actions.
