(* ===== verification/ActionsProofs.v ===== *)
(** * What accepted descriptors and metadata are *)
From stdpp Require Import pretty.
From S2P Require Import Prelude Str Protocol Api Json Model Records Oidc Auth Spool Access.
From S2P Require Import Metrics App Actions ModelProofs.
From Stdlib Require Import Ascii.

Local Open Scope string_scope.
Local Open Scope mbx_scope.

(** ** Task roots *)

Definition safe_path_component (component : string) : Prop :=
  component <> "" /\ component <> "." /\ component <> "..".

Lemma existsb_false {A} (f : A -> bool) l : existsb f l = false <-> Forall (fun x => f x = false) l.
Proof.
  induction l as [|x l IH]; cbn; [split; [constructor|done]|].
  by rewrite orb_false_iff, Forall_cons, IH.
Qed.

Lemma empty_component_unsafe l : ~ Forall safe_path_component ("" :: l).
Proof. intros [[Hne _] _]%Forall_cons. done. Qed.

(** A task root is accepted exactly when it is a relative path that stays
    below the workspace: every component between slashes is non-empty and
    neither of the dots, and there is no backslash and no NUL. (The checks for
    the empty string and for a leading slash add nothing.) *)
Theorem validate_task_root_spec root :
  validate_task_root root = Ok tt <->
  Forall safe_path_component (split "/" root) /\
  contains_char "\" root = false /\ contains_char NUL root = false.
Proof.
  unfold validate_task_root.
  assert (existsb (fun component => str_is_empty component || String.eqb component "."
    || String.eqb component "..") (split "/" root) = false <->
    Forall safe_path_component (split "/" root)) as Hsplit.
  { rewrite existsb_false. apply Forall_proper; [|done]. intros component.
    rewrite !orb_false_iff, !String.eqb_neq. unfold safe_path_component.
    pose proof (str_is_empty_spec component). destruct (str_is_empty component); naive_solver. }
  destruct (str_is_empty root) eqn:Hempty.
  { apply str_is_empty_spec in Hempty as ->. split; [done|]. by intros [[]%empty_component_unsafe _]. }
  destruct (starts_with "/" root) eqn:Hslash; cbn [orb].
  { apply starts_with_spec in Hslash as [r ->]. split; [done|].
    by intros [[]%empty_component_unsafe _]. }
  rewrite <-Hsplit. destruct (contains_char "\" root), (contains_char NUL root), (existsb _ _);
    cbn; naive_solver.
Qed.

Lemma validate_task_roots_ok roots :
  validate_task_roots roots = Ok tt <-> Forall (fun root => validate_task_root root = Ok tt) roots.
Proof.
  induction roots as [|root roots IH]; cbn; [split; [constructor|done]|].
  rewrite Forall_cons, <-IH, result_bind_ok. split; [by intros ([] & ?)|by eauto].
Qed.

Section Proofs.
Context `{Protocol} `{Records} `{!JsonText} `{!Documents} `{!Jwt} `{!Tokio} `{!DebugFormat}.

(** ** Descriptors *)

Definition json_kind (value : Value) : option string := value_get value "kind" ≫= as_str.
Definition json_version (value : Value) : option N := value_get value "version" ≫= as_u64.

(** The object decodes as the record of its kind, in a schema the service
    knows, and its record is valid; a task spells out what else has a default. *)
Inductive valid_descriptor (value : Value) : ActionKind -> Prop :=
  | ValidBuildScript version action :
      json_kind value = Some "build-script" -> json_version value = Some version ->
      (2 <= version <= 5)%N ->
      build_script_action_from_value value = Ok action ->
      valid_build_script_action action -> valid_descriptor value BuildScript
  | ValidCc action :
      json_kind value = Some "cc" -> json_version value = Some 1%N ->
      cc_action_from_value value = Ok action ->
      valid_cc_action action -> valid_descriptor value Cc
  | ValidRustc action :
      json_kind value = Some "rustc" -> json_version value = Some 1%N ->
      rustc_action_from_value value = Ok action ->
      valid_rustc_action action -> valid_descriptor value Rustc
  | ValidTask action :
      json_kind value = Some "task" -> json_version value = Some 1%N ->
      Forall (fun field => is_Some (value_get value field))
        ["version"; "kind"; "task"; "phase"; "run"; "args"; "shell"; "outputs"; "root"; "source_hash";
         "environment"; "vars"; "tools"; "os"; "arch"] ->
      task_action_from_value value = Ok action ->
      valid_task_action action -> valid_descriptor value Task.

Lemma decode_ok {A} (decoded : result string A) (f : string -> ApiError) (valid : A -> bool) e kind kind' :
  (action <-? map_err f decoded;
   if negb (valid action) then Err e else Ok kind) = Ok (kind' : ActionKind) <->
  kind' = kind /\ exists action, decoded = Ok action /\ valid action = true.
Proof.
  destruct decoded as [a|]; cbn; [|by split; [|intros (_ & ? & ? & _)]].
  destruct (valid a) eqn:E; cbn.
  - split; [intros [= <-]; eauto|by intros [-> _]].
  - split; [done|]. intros (_ & ? & [= <-] & Hval). congruence.
Qed.

Lemma require_fields_ok object fields :
  require_fields object fields = Ok tt <->
  Forall (fun field => is_Some (value_get (Object object) field)) fields.
Proof.
  induction fields as [|field fields IH]; cbn; [split; [constructor|done]|].
  rewrite Forall_cons, <-IH. unfold contains_key. cbn.
  destruct (entries_get field object); cbn; [|split; [done|by intros [[] _]]].
  split; [by eauto|tauto].
Qed.

Lemma build_script_ok value version kind :
  validate_build_script_action value version = Ok kind <->
  (2 <= version <= 5)%N /\ kind = BuildScript /\
  exists action, build_script_action_from_value value = Ok action /\
    BuildScriptAction.validate action = true.
Proof.
  unfold validate_build_script_action, range_contains. cbn [fst snd BUILD_SCRIPT_ACTION_SCHEMAS].
  destruct (N.ltb_spec version 256), (N.leb_spec 2 version), (N.leb_spec version 5); cbn [andb negb];
    try (split; [done|lia]).
  rewrite decode_ok. naive_solver lia.
Qed.

Lemma version_one {A} (version : N) (e : ApiError) (r : result ApiError A) a :
  (if negb (version =? 1)%N then Err e else r) = Ok a <-> version = 1%N /\ r = Ok a.
Proof. destruct (N.eqb_spec version 1); cbn; naive_solver. Qed.

Lemma dispatch_ok value kind :
  dispatch_action value = Ok kind <-> is_object value = true /\ valid_descriptor value kind.
Proof.
  unfold dispatch_action. destruct value as [| | | | |object]; try (split; [done|by intros []]).
  cbn [as_object ok_or result_bind].
  setoid_rewrite result_bind_ok. setoid_rewrite ok_or_ok.
  setoid_rewrite result_bind_ok. setoid_rewrite ok_or_ok.
  change (entries_get "kind" object ≫= as_str) with (json_kind (Object object)).
  change (entries_get "version" object ≫= as_u64) with (json_version (Object object)).
  split.
  - intros (name & Hkind & version & Hversion & Hk). split; [done|].
    destruct (String.eqb_spec name "build-script") as [->|].
    { apply build_script_ok in Hk as (Hv & -> & action & Hdec & Hval%build_script_valid). by econstructor. }
    destruct (String.eqb_spec name "cc") as [->|].
    { apply version_one in Hk as [-> (-> & action & Hdec & Hval%cc_valid)%decode_ok]. by econstructor. }
    destruct (String.eqb_spec name "task") as [->|].
    { apply version_one in Hk as [-> ([] & Hf & (-> & action & Hdec & Hval%task_valid)%decode_ok)%result_bind_ok].
      apply require_fields_ok in Hf. by econstructor. }
    destruct (String.eqb_spec name "rustc") as [->|]; [|done].
    apply version_one in Hk as [-> (-> & action & Hdec & Hval%rustc_valid)%decode_ok]. by econstructor.
  - intros [_ Hvalid]. destruct Hvalid as [version action Hk Hv Hr Hdec Hval%build_script_valid|action Hk Hv Hdec Hval%cc_valid
      |action Hk Hv Hdec Hval%rustc_valid|action Hk Hv Hf Hdec Hval%task_valid];
      do 2 (eexists; split; [eassumption|]); cbn [String.eqb Ascii.eqb eqb].
    + apply build_script_ok. eauto.
    + apply version_one. split; [done|]. apply decode_ok. eauto.
    + apply version_one. split; [done|]. apply decode_ok. eauto.
    + apply version_one. split; [done|]. apply result_bind_ok. exists tt.
      split; [by apply require_fields_ok|]. apply decode_ok. eauto.
Qed.

(** C39. An object is taken for an action descriptor exactly when it names one of
    the four kinds and a schema the server accepts (2 to 5 of a build script, 1 of
    the others), decodes as an action of that kind, and the action is valid:
    digests that validate, inputs under distinct paths, normalized ones for rustc, no
    NUL in any text, names that are not empty, at most 64 links to an input of a
    build script. A task action must in addition spell out the fifteen fields
    listed in [valid_descriptor], although some have defaults. *)
Theorem dispatch_action_spec value kind :
  dispatch_action value = Ok kind <-> is_object value = true /\ valid_descriptor value kind.
Proof. apply dispatch_ok. Qed.

(** ** Canonical objects *)

Context {MS BS : Type} `{!MetadataStore MS} `{!BlobStore BS}.
Context `{!MetadataLaws MS} `{!BlobLaws BS} `{!BlobReads BS}.

(** The JSON object a namespace sees under a digest: stored byte for byte as
    the service itself would print it. *)
Record canonical_object (w : AppState (MS:=MS) (BS:=BS)) (ns : string) (d : Digest) (value : Value)
  : Prop := {
  object_digest : digest_validate d = Ok tt;
  object_size : (digest_size d <= MAX_OBJECT_BYTES)%N;
  object_visible : view_blob (view (metadata w)) ns d = true;
  object_content : exists content, objects (blobs w) d = Some content /\
    value_from_slice content = Ok value /\ value_to_vec value = Ok content;
  object_is_object : is_object value = true;
}.

Lemma canonical_object_unique w ns d value1 value2 :
  canonical_object w ns d value1 -> canonical_object w ns d value2 -> value1 = value2.
Proof. intros [_ _ _ (c1 & ? & ? & _) _] [_ _ _ (c2 & ? & ? & _) _]. congruence. Qed.

Lemma canonical_object_same w w' ns d value :
  same_stores w w' -> canonical_object w ns d value -> canonical_object w' ns d value.
Proof.
  intros [[Hb _] Ho] [C1 C2 C3 C4 C5]. split; try done; [by rewrite Hb|by setoid_rewrite Ho].
Qed.

Lemma read_canonical_object_ok ns d label w w' value :
  meta_wf (metadata w) -> read_canonical_object ns d label w = (w', Ok value) ->
  meta_wf (metadata w') /\ same_stores w w' /\ canonical_object w ns d value.
Proof.
  intros Hwf. unfold read_canonical_object.
  intros (w1 & [] & [= <- Hd%validate_digest_ok] & Hk)%m_bind_ok.
  destruct (N.ltb_spec MAX_OBJECT_BYTES (digest_size d)); [done|].
  m_step Hk as w1 visible Hv. apply visible_ok in Hv as (Hwf1 & S1 & Hb); [|done].
  specialize (Hb visible eq_refl). destruct visible; [|done]. cbn [negb] in Hk.
  m_step Hk as w2 found Hg. apply get_ok in Hg as (Hm2 & S2 & Hg).
  destruct found as [blob|]; [|by m_step Hk as ? ? _].
  destruct Hg as (content & Hobj & _ & Hstream).
  m_step Hk as w3 bs Hga. apply (gather_ok _ content) in Hga as [-> ->]; [|done].
  m_step Hk as w3 value' [= <- Hval].
  destruct (is_object value') eqn:Hio; [|done]. cbn [negb] in Hk.
  m_step Hk as w3 canonical [= <- Hcan].
  destruct (bool_decide_reflect (canonical = content)) as [->|]; [|done]. injection Hk as <- <-.
  split; [by rewrite Hm2|]. split; [by etransitivity|].
  destruct (value_from_slice content) as [v0|] eqn:Hfs; [|done]. injection Hval as ->.
  destruct (value_to_vec value') as [c0|] eqn:Htv; [|done]. injection Hcan as ->.
  destruct S1 as [_ O1]. split; try done. exists content. by rewrite <-O1.
Qed.

Lemma validate_action_descriptor_ok ns d w w' kind :
  meta_wf (metadata w) -> validate_action_descriptor ns d w = (w', Ok kind) ->
  meta_wf (metadata w') /\ same_stores w w' /\
  exists value, canonical_object w ns d value /\ valid_descriptor value kind.
Proof.
  intros Hwf. unfold validate_action_descriptor.
  intros (w1 & value & (Hwf1 & Hs & Hv)%read_canonical_object_ok & Hk)%m_bind_ok; [|done].
  injection Hk as <- Hdisp. apply dispatch_ok in Hdisp as [_ Hvalid]. eauto.
Qed.

(** An accepted action descriptor is a canonical JSON object the namespace
    sees, under a digest of at most 16 MiB, that decodes as a valid action of the kind
    that was found; accepting it changes nothing in the stores. *)
Theorem validate_action_descriptor_sound ns d w w' kind
    (Hwf : meta_wf (metadata w)) (Hok : validate_action_descriptor ns d w = (w', Ok kind)) :
  same_stores w w' /\
  exists value, canonical_object w ns d value /\ valid_descriptor value kind.
Proof. by apply validate_action_descriptor_ok in Hok as (_ & ? & ?). Qed.

(** ** Client metadata *)

(** The metadata decodes as the record of its kind, and what it refers to is
    there: the captured output of compilers and build scripts as visible
    blobs, the roots of a task as safe paths. *)
Inductive valid_metadata (w : AppState (MS:=MS) (BS:=BS)) (ns : string) (value : Value)
  : ActionKind -> Prop :=
  | MetaBuildScript md :
      build_script_metadata_from_value value = Ok md -> BuildScriptMetadata.validate md = true ->
      view_blob (view (metadata w)) ns (BuildScriptMetadata.stdout md) = true ->
      view_blob (view (metadata w)) ns (BuildScriptMetadata.stderr md) = true ->
      valid_metadata w ns value BuildScript
  | MetaCc md :
      cc_metadata_from_value value = Ok md -> cc_metadata_validate md = true ->
      view_blob (view (metadata w)) ns (metadata_stdout md) = true ->
      view_blob (view (metadata w)) ns (metadata_stderr md) = true ->
      valid_metadata w ns value Cc
  | MetaRustc md :
      rustc_metadata_from_value value = Ok md -> rustc_metadata_validate md = true ->
      view_blob (view (metadata w)) ns (metadata_stdout md) = true ->
      view_blob (view (metadata w)) ns (metadata_stderr md) = true ->
      valid_metadata w ns value Rustc
  | MetaTask md :
      task_metadata_from_value value = Ok md -> TaskMetadata.validate md = true ->
      Forall (fun root => validate_task_root root = Ok tt) (TaskMetadata.roots md) ->
      valid_metadata w ns value Task.

Lemma valid_metadata_same w w' ns value kind :
  same_stores w w' -> valid_metadata w ns value kind -> valid_metadata w' ns value kind.
Proof. intros [[Hb _] _] Hv. destruct Hv; econstructor; eauto; by rewrite Hb. Qed.

Lemma require_output_blobs_ok ns out err kind w w' :
  meta_wf (metadata w) -> require_output_blobs ns out err kind w = (w', Ok tt) ->
  meta_wf (metadata w') /\ same_stores w w' /\
  view_blob (view (metadata w)) ns out = true /\ view_blob (view (metadata w)) ns err = true.
Proof.
  intros Hwf. unfold require_output_blobs.
  intros (w1 & [] & (Hwf1 & S1 & _ & H1')%require_blob_ok & (Hwf2 & S2 & _ & H2')%require_blob_ok)%m_bind_ok;
    [|done..].
  split; [done|]. split; [by etransitivity|]. split; [done|]. destruct S1 as [[B1 _] _]. by rewrite <-B1.
Qed.

(** The three validators of captured output have one shape. *)
Lemma output_metadata_ok {A} (decoded : result string A) (valid : A -> bool) (out err : A -> Digest)
    (f : string -> ApiError) ev e ns kind version w w' :
  meta_wf (metadata w) ->
  (if negb (version =? 1)%N then m_throw ev
   else
     md <~ m_lift (map_err f decoded);
     if negb (valid md) then m_throw e
     else require_output_blobs ns (out md) (err md) kind) w = (w', Ok tt) ->
  meta_wf (metadata w') /\ same_stores w w' /\ version = 1%N /\
  exists md, decoded = Ok md /\ valid md = true /\
    view_blob (view (metadata w)) ns (out md) = true /\
    view_blob (view (metadata w)) ns (err md) = true.
Proof.
  intros Hwf. destruct (N.eqb_spec version 1) as [->|]; [|done]. cbn [negb].
  intros (w1 & md & [= <- Hd] & Hk)%m_bind_ok. destruct decoded as [md'|]; [|done].
  injection Hd as ->. destruct (valid md) eqn:E; [|done]. cbn [negb] in Hk.
  apply require_output_blobs_ok in Hk as (Hwf' & Hs & Ho & He); [|done]. eauto 10.
Qed.

Lemma validate_task_metadata_ok value version :
  validate_task_metadata value version = Ok tt <->
  version = 1%N /\ exists md, task_metadata_from_value value = Ok md /\
    TaskMetadata.validate md = true /\
    Forall (fun root => validate_task_root root = Ok tt) (TaskMetadata.roots md).
Proof.
  unfold validate_task_metadata. rewrite version_one, result_bind_ok.
  destruct (task_metadata_from_value value) as [md|]; cbn.
  - split.
    + intros (-> & md' & [= <-] & Hk). destruct (TaskMetadata.validate md) eqn:E; [|done].
      split; [done|]. exists md. split_and!; [done..|]. by apply validate_task_roots_ok.
    + intros (-> & md' & [= <-] & Hv & Hr). split; [done|]. exists md. split; [done|]. rewrite Hv.
      by apply validate_task_roots_ok.
  - split; [intros (_ & ? & ? & _)|intros (_ & ? & ? & _)]; done.
Qed.

Lemma validate_client_metadata_ok ns d kind w w' :
  meta_wf (metadata w) -> validate_client_metadata ns d kind w = (w', Ok tt) ->
  meta_wf (metadata w') /\ same_stores w w' /\
  exists value, canonical_object w ns d value /\ json_kind value = Some (expected_kind kind) /\
    json_version value = Some 1%N /\ valid_metadata w ns value kind.
Proof.
  intros Hwf. unfold validate_client_metadata.
  intros (w1 & value & (Hwf1 & S1 & Hv)%read_canonical_object_ok & Hk)%m_bind_ok; [|done].
  apply m_bind_ok in Hk as (w2 & object & [= <- Ho%ok_or_ok] & Hk).
  apply m_bind_ok in Hk as (w2 & name & [= <- Hkind%ok_or_ok] & Hk).
  apply m_bind_ok in Hk as (w2 & version & [= <- Hversion%ok_or_ok] & Hk).
  destruct (String.eqb_spec name (expected_kind kind)) as [->|]; [|done]. cbn [negb] in Hk.
  assert (meta_wf (metadata w') /\ same_stores w1 w' /\ version = 1%N /\
    valid_metadata w1 ns value kind) as (Hwf' & S2 & -> & Hvalid).
  { destruct kind; cbn [expected_kind] in Hk.
    - apply output_metadata_ok in Hk as (? & ? & ? & md & ? & ? & ? & ?); [|done].
      split_and!; [done..|]. by econstructor.
    - apply output_metadata_ok in Hk as (? & ? & ? & md & ? & ? & ? & ?); [|done].
      split_and!; [done..|]. by econstructor.
    - apply output_metadata_ok in Hk as (? & ? & ? & md & ? & ? & ? & ?); [|done].
      split_and!; [done..|]. by econstructor.
    - injection Hk as <- Hk. apply validate_task_metadata_ok in Hk as (-> & md & ? & ? & ?).
      split_and!; [done..|]. by econstructor. }
  split; [done|]. split; [by etransitivity|]. exists value. split; [done|].
  destruct value; try done. cbn in Ho. injection Ho as ->. split_and!; [done..|].
  eapply valid_metadata_same; [|done]. destruct S1 as [V O]. by split.
Qed.

(** Accepted client metadata is a canonical JSON object of the action's own
    kind, in schema 1, whose record is valid; the captured output it names is
    visible to the namespace, and every task root stays below the workspace. *)
Theorem validate_client_metadata_sound ns d kind w w'
    (Hwf : meta_wf (metadata w)) (Hok : validate_client_metadata ns d kind w = (w', Ok tt)) :
  same_stores w w' /\
  exists value, canonical_object w ns d value /\ json_kind value = Some (expected_kind kind) /\
    json_version value = Some 1%N /\ valid_metadata w ns value kind.
Proof. by apply validate_client_metadata_ok in Hok as (_ & ? & ?). Qed.

End Proofs.
