(* ===== verification/Blobs.v ===== *)
(** * The blob endpoints (src/server.rs, [get_blob], [put_blob], [missing_blobs])

    An upload is spooled to a file and hashed as its chunks arrive; only what
    matches its digest reaches the store. *)
From stdpp Require Import pretty.
From S2P Require Import Prelude Str Protocol Api Json Model Records Oidc Auth Spool Access.
From S2P Require Import Metrics App.

Local Open Scope string_scope.
Local Open Scope mbx_scope.

(** A response: its status, the headers the handler sets, and its body. *)
Record Response (B : Type) := mkResponse {
  response_code : N;
  header_map : gmap string string;
  response_body : B;
}.
Arguments mkResponse {B} _ _ _.
Arguments response_code {B} _.
Arguments header_map {B} _.
Arguments response_body {B} _.

(** The chunks of a request body, or why it broke off. *)
Notation RequestBody := (list (result string bytes)).

(** A [NamedTempFile] opened for writing: what was written, and the errors its
    next calls meet. *)
Record SpoolFile := mkSpoolFile {
  written : bytes;
  faults : list (option StoreError);
}.

(** One call on the file, with what it writes when it succeeds. *)
Definition file_call (data : bytes) (file : SpoolFile) : result ApiError SpoolFile :=
  match faults file with
  | Some e :: _ => Err (internal e)
  | None :: rest => Ok (mkSpoolFile (written file ++ data)%list rest)
  | [] => Ok (mkSpoolFile (written file ++ data)%list [])
  end.

(** [NamedTempFile::new()] and [File::create]. *)
Definition file_create (faults : list (option StoreError)) : result ApiError SpoolFile :=
  file <-? file_call [] (mkSpoolFile [] faults);
  file_call [] file.
Definition write_all (chunk : bytes) (file : SpoolFile) : result ApiError SpoolFile :=
  file_call chunk file.
Definition flush_file (file : SpoolFile) : result ApiError SpoolFile := file_call [] file.

Section Hashers.
Context `{Protocol} `{Hashes} `{Hex}.

(** The two hashers an upload keeps, of which its digest feeds one. *)
Record Hashers := mkHashers { blake3 : blake3_state; sha256 : sha256_state }.
Definition new_hashers : Hashers := mkHashers blake3_new sha256_new.

Definition update_hashers (algorithm : Algorithm) (chunk : bytes) (h : Hashers) : Hashers :=
  match algorithm with
  | Blake3 => mkHashers (blake3_update (blake3 h) chunk) (sha256 h)
  | Sha256 => mkHashers (blake3 h) (sha256_update (sha256 h) chunk)
  end.

Definition finalize_hashers (algorithm : Algorithm) (h : Hashers) : string :=
  match algorithm with
  | Blake3 => blake3_to_hex (blake3 h)
  | Sha256 => hex_encode (sha256_finalize (sha256 h))
  end.

(** What [put_blob] has of its body so far. *)
Record Upload := mkUpload { upload_size : N; upload_hashers : Hashers; upload_file : SpoolFile }.

(** [while let Some(chunk) = stream.next().await] *)
Fixpoint receive (digest : Digest) (max_blob_bytes : N) (body : RequestBody) (u : Upload)
  : result ApiError Upload :=
  match body with
  | [] => Ok u
  | chunk :: body =>
      chunk <-? map_err bad_request chunk;
      size <-? ok_or (checked_add (upload_size u) (N.of_nat (length chunk)))
        (too_large "blob is too large");
      if (digest_size digest <? size)%N || (max_blob_bytes <? size)%N
      then Err (too_large "blob exceeds declared or configured size")
      else
        algorithm <-? map_err bad_request (algorithm_kind digest);
        file <-? write_all chunk (upload_file u);
        receive digest max_blob_bytes body
          (mkUpload size (update_hashers algorithm chunk (upload_hashers u)) file)
  end.

(** The file is created, filled and checked: what [put_blob] does between
    reserving its spool and storing. The content, once it matches. *)
Definition spool_upload (digest : Digest) (max_blob_bytes : N) (body : RequestBody)
    (faults : list (option StoreError)) : result ApiError bytes :=
  file <-? file_create faults;
  u <-? receive digest max_blob_bytes body (mkUpload 0 new_hashers file);
  file <-? flush_file (upload_file u);
  algorithm <-? map_err bad_request (algorithm_kind digest);
  if negb (upload_size u =? digest_size digest)%N
     || negb (String.eqb (finalize_hashers algorithm (upload_hashers u)) (digest_hash digest))
  then Err (bad_request "content does not match the requested digest")
  else Ok (written file).
End Hashers.

Section Blobs.
Context `{Protocol} `{Hashes} `{Hex} `{Records} `{!JsonText} `{!Documents} `{!Jwt} `{!AuthJson} `{!Tokio}.
Context {MS BS : Type} `{!MetadataStore MS} `{!BlobStore BS}.
Notation Handler := (Handler (MS:=MS) (BS:=BS)).

(** A permit held while a computation runs, however it ends. *)
Definition with_spool {A} (size : N) (c : Handler A) : Handler A :=
  fun w =>
    match SpoolBudget.reserve (spool w) size with
    | (b, Err e) => (set_spool b w, Err e)
    | (b, Ok held) =>
        let '(w, r) := c (set_spool b w) in
        (set_spool (SpoolBudget.release (spool w) held) w, r)
    end.

(** Put, then register: the last part of an upload. *)
Definition store_upload (namespace : string) (digest : Digest) (content : bytes)
  : Handler PutOutcome :=
  outcome <~ on_blobs (blob_put digest content);
  on_metadata (register_blob namespace digest outcome) ;~
  on_metrics Metrics.inc_blob_upload ;~
  m_ret outcome.

Definition put_blob (m : Moment) (headers : HeaderMap) (parts : string * string * N)
    (body : RequestBody) (faults : list (option StoreError)) : Handler N :=
  namespace <~ authorized m headers Write;
  m_lift (require_immutable_precondition headers) ;~
  digest <~ m_lift (parse_digest parts);
  state <~ get_state;
  if (max_blob_bytes state <? digest_size digest)%N
  then m_throw (too_large "blob exceeds configured limit")
  else
    with_spool (digest_size digest)
      (content <~ m_lift (spool_upload digest (max_blob_bytes state) body faults);
       outcome <~ store_upload namespace digest content;
       m_ret match outcome with PutCreated => CREATED | PutAlreadyExists => NO_CONTENT end).

Definition get_blob (m : Moment) (headers : HeaderMap) (parts : string * string * N)
  : Handler (Response (list (result StoreError bytes))) :=
  namespace <~ authorized m headers Read;
  digest <~ m_lift (parse_digest parts);
  visible <~ on_metadata (blob_visible namespace digest);
  if negb visible then m_throw (not_found "blob not found")
  else
    on_access (PendingAccess.record namespace [digest]) ;~
    found <~ on_blobs (blob_get digest);
    match found with
    | None =>
        forget_missing_blob namespace digest ;~
        m_throw (not_found "blob not found")
    | Some blob =>
        on_metrics Metrics.inc_blob_hit ;~
        m_ret (mkResponse OK
          (<["content-length" := pretty (blob_size blob)]>
           (<["content-type" := "application/octet-stream"]>
            (<["etag" := DQUOTE ++ digest_hash digest ++ DQUOTE]>
             {["digest" := digest_algorithm digest ++ "=" ++ digest_hash digest]})))
          (blob_stream blob))
    end.

(** The first digest that is not valid ends the request. *)
Fixpoint validate_digests (digests : list Digest) : result ApiError unit :=
  match digests with
  | [] => Ok tt
  | digest :: digests => _ <-? validate_digest digest; validate_digests digests
  end.

Definition missing_blobs (m : Moment) (headers : HeaderMap) (digests : list Digest)
  : Handler (list Digest) :=
  namespace <~ authorized m headers Read;
  if (MAX_BATCH_ITEMS <? N.of_nat (length digests))%N
  then m_throw (bad_request "at most 10000 digests may be checked")
  else
    m_lift (validate_digests digests) ;~
    visible <~ on_metadata (visible_blobs namespace digests);
    let visible : gset Digest := list_to_set visible in
    m_ret (List.filter (fun digest => negb (bool_decide (digest ∈ visible))) digests).

End Blobs.
