(* ===== verification/BlobsProofs.v ===== *)
(** * What the blob endpoints store and serve *)
From stdpp Require Import pretty.
From S2P Require Import Prelude Str Protocol Api Json Model Records Oidc Auth Spool Access.
From S2P Require Import Metrics App Blobs.

Local Open Scope string_scope.
Local Open Scope mbx_scope.

(** ** Spooling and hashing *)

Section Spooling.
Context `{Protocol} `{HashLaws} `{Hex}.

Lemma file_call_ok data file file' :
  file_call data file = Ok file' ->
  written file' = (written file ++ data)%list /\ faults file' = tail (faults file).
Proof. unfold file_call. destruct (faults file) as [|[e|] rest] eqn:E; [|done|]; by intros [= <-]. Qed.

Lemma file_call_total data file :
  Forall (eq None) (faults file) -> exists file', file_call data file = Ok file' /\
    Forall (eq None) (faults file').
Proof.
  unfold file_call. destruct (faults file) as [|f rest]; [by eauto|].
  intros [<- Hrest]%Forall_cons. by eauto.
Qed.

Lemma map_ok_inj (l1 l2 : list bytes) : map (@Ok string bytes) l1 = map Ok l2 -> l1 = l2.
Proof. revert l2; induction l1 as [|x l1 IH]; intros [|y l2]; try done. intros [= -> Hl]. f_equal. auto. Qed.

Lemma hashers_streaming a chunks :
  finalize_hashers a (foldl (fun h c => update_hashers a c h) new_hashers chunks) =
  content_hash a (concat chunks).
Proof.
  assert (forall s1 s2, foldl (fun h c => update_hashers a c h) (mkHashers s1 s2) chunks =
    match a with
    | Blake3 => mkHashers (foldl blake3_update s1 chunks) s2
    | Sha256 => mkHashers s1 (foldl sha256_update s2 chunks)
    end) as Hfold.
  { induction chunks as [|c chunks IH]; intros s1 s2; destruct a; cbn; [done..|apply IH|apply IH]. }
  unfold new_hashers. rewrite Hfold. destruct a; cbn; [apply blake3_streaming|].
  by rewrite sha256_streaming.
Qed.

Lemma receive_ok d max body u u' :
  receive d max body u = Ok u' ->
  exists chunks, body = map Ok chunks /\
    upload_size u' = (upload_size u + N.of_nat (length (concat chunks)))%N /\
    written (upload_file u') = (written (upload_file u) ++ concat chunks)%list /\
    forall a, algorithm_kind d = Ok a ->
      upload_hashers u' = foldl (fun h c => update_hashers a c h) (upload_hashers u) chunks.
Proof.
  revert u; induction body as [|chunk body IH]; intros u; cbn [receive].
  { intros [= <-]. exists []. cbn. rewrite app_nil_r, N.add_0_r. done. }
  intros (c & Hc & Hk)%result_bind_ok. destruct chunk as [c'|]; [|done]. injection Hc as ->.
  apply result_bind_ok in Hk as (sz & Hsz%ok_or_ok & Hk).
  apply checked_add_some in Hsz as [-> _].
  destruct (_ || _); [done|].
  ok_step Hk as a Ha. destruct (algorithm_kind d) as [a'|] eqn:Hkind; [|done].
  injection Ha as ->. apply result_bind_ok in Hk as (file & [Hw _]%file_call_ok & Hk).
  apply IH in Hk as (chunks & -> & Hsz' & Hw' & Hh). cbn in *. exists (c :: chunks). cbn.
  split; [done|]. split; [rewrite Hsz', length_app; lia|].
  split; [by rewrite Hw', Hw, app_assoc|]. intros a0 [= <-]. by apply Hh.
Qed.

(** Without a fault of the file, a body no longer than declared is received. *)
Lemma receive_total d max chunks a u :
  algorithm_kind d = Ok a -> (digest_size d <= max)%N -> (digest_size d < u64_modulus)%N ->
  Forall (eq None) (faults (upload_file u)) ->
  (upload_size u + N.of_nat (length (concat chunks)) <= digest_size d)%N ->
  exists u', receive d max (map Ok chunks) u = Ok u' /\ Forall (eq None) (faults (upload_file u')).
Proof.
  intros Ha Hmax Hu64. revert u; induction chunks as [|c chunks IH]; intros u Hf Hlen; cbn.
  { eauto. }
  cbn in Hlen. rewrite length_app in Hlen.
  assert (checked_add (upload_size u) (N.of_nat (length c)) =
    Some (upload_size u + N.of_nat (length c))%N) as -> by (apply checked_add_some; lia).
  cbn. destruct (N.ltb_spec (digest_size d) (upload_size u + N.of_nat (length c))); [lia|].
  destruct (N.ltb_spec max (upload_size u + N.of_nat (length c))); [lia|]. cbn. rewrite Ha. cbn.
  destruct (file_call_total c (upload_file u) Hf) as (file & Hcall & Hf').
  unfold write_all. rewrite Hcall. cbn. apply IH; cbn; [done|lia].
Qed.

Lemma spool_upload_ok d max body fs content :
  spool_upload d max body fs = Ok content ->
  exists chunks, body = map Ok chunks /\ content = concat chunks /\ content_matches d content.
Proof.
  unfold spool_upload.
  intros (file & (f0 & [Hw0 _]%file_call_ok & [Hw1 _]%file_call_ok)%result_bind_ok & Hk)%result_bind_ok.
  apply result_bind_ok in Hk as (u & (chunks & -> & Hsz & Hw & Hh)%receive_ok & Hk).
  apply result_bind_ok in Hk as (f2 & [Hw2 _]%file_call_ok & Hk).
  ok_step Hk as a Ha. destruct (algorithm_kind d) as [a'|] eqn:Hkind; [|done].
  injection Ha as ->. specialize (Hh a eq_refl).
  destruct (N.eqb_spec (upload_size u) (digest_size d)) as [Hsize|]; [|done].
  destruct (String.eqb_spec (finalize_hashers a (upload_hashers u)) (digest_hash d)) as [Hhash|]; [|done].
  injection Hk as <-. exists chunks. cbn in *. rewrite Hw2, Hw, Hw1, Hw0, app_nil_r. cbn.
  split; [done|]. split; [done|]. split; [by rewrite <-Hsize, Hsz|]. exists a. split; [done|].
  by rewrite <-Hhash, Hh, hashers_streaming.
Qed.

(** An upload passes its checks exactly when its chunks, put together, are
    the content its digest names: wherever the body is cut, with no error on
    the way, and with the declared size and hash. *)
Theorem spool_upload_spec d max body content
    (Hmax : (digest_size d <= max)%N) (Hu64 : digest_u64 d) :
  spool_upload d max body [] = Ok content <->
  exists chunks, body = map Ok chunks /\ content = concat chunks /\ content_matches d content.
Proof.
  split; [apply spool_upload_ok|]. intros (chunks & -> & -> & Hsize & a & Ha & Hhash).
  unfold spool_upload. cbn [file_create file_call faults result_bind].
  destruct (receive_total d max chunks a (mkUpload 0 new_hashers (mkSpoolFile [] [])))
    as (u & Hu & Hf); [done..|constructor|cbn; lia|].
  change (written _ ++ [])%list with (@nil Byte.byte). rewrite Hu. cbn [result_bind].
  destruct (file_call_total [] (upload_file u) Hf) as (file & Hcall & _).
  unfold flush_file. rewrite Hcall. cbn [result_bind]. rewrite Ha. cbn [result_bind map_err].
  apply receive_ok in Hu as (chunks' & Hchunks & Hsz & Hw & Hh).
  apply map_ok_inj in Hchunks as <-.
  rewrite (Hh a Ha), hashers_streaming, Hhash, String.eqb_refl.
  cbn in Hsz. rewrite Hsz, Hsize, N.eqb_refl. cbn.
  apply file_call_ok in Hcall as [-> _]. by rewrite Hw, app_nil_r.
Qed.
End Spooling.

(** ** Stores that hold what their digests promise *)

(** Whether the object store retains what it was given. It does not where a
    lifecycle rule expires objects (README.md, "Bounding storage"). *)
Class Retention := retains : Prop.

Section Endpoints.
Context `{Protocol} `{HashLaws} `{Hex} `{Records} `{!JsonText} `{!Documents} `{!Jwt} `{!AuthJson} `{!Tokio}.
Context {MS BS : Type} `{!MetadataStore MS} `{!BlobStore BS}.
Context `{!MetadataLaws MS} `{!BlobLaws BS} `{!BlobReads BS}.
Notation AppState := (AppState (MS:=MS) (BS:=BS)).
Implicit Types w : AppState.

Context {retention : Retention}.

(** The invariant of the service: every object has the content its digest
    names, and every blob a namespace sees has a valid digest and, where objects
    are retained, is stored. An object belongs to a valid digest; what a store
    answers for any other is left open. *)
Record store_inv w : Prop := {
  inv_wf : meta_wf (metadata w);
  inv_content : forall d c, digest_validate d = Ok tt -> objects (blobs w) d = Some c ->
    content_matches d c;
  inv_valid : forall ns d, view_blob (view (metadata w)) ns d = true -> digest_validate d = Ok tt;
  inv_u64 : forall ns d, view_blob (view (metadata w)) ns d = true -> digest_u64 d;
  inv_stored : retains -> forall ns d, view_blob (view (metadata w)) ns d = true ->
    is_Some (objects (blobs w) d);
}.

(** What is new matches; and nothing the stores hold was changed or lost, unless
    they expire objects. *)
Definition objects_grow w w' : Prop :=
  forall d, digest_validate d = Ok tt -> objects (blobs w') d = objects (blobs w) d \/
    (objects (blobs w) d = None /\
     exists c, objects (blobs w') d = Some c /\ content_matches d c) \/
    ((retains -> False) /\ forall c, objects (blobs w') d = Some c -> content_matches d c).

(** An object that is retained is there for good. *)
Lemma grow_kept w w' d c :
  objects_grow w w' -> retains -> digest_validate d = Ok tt -> objects (blobs w) d = Some c ->
  objects (blobs w') d = Some c.
Proof. intros Hg Hk Hval Hc. destruct (Hg d Hval) as [->|[[Hn _]|[Hno _]]]; [done|congruence|by destruct Hno]. Qed.

Lemma grow_some w w' d :
  objects_grow w w' -> retains -> digest_validate d = Ok tt -> is_Some (objects (blobs w) d) ->
  is_Some (objects (blobs w') d).
Proof. intros Hg Hk Hval [c Hc]. exists c. by eapply grow_kept. Qed.

(** The metadata another namespace sees is untouched. *)
Definition same_elsewhere (ns : string) w w' : Prop :=
  forall ns' d, ns' <> ns ->
    view_blob (view (metadata w')) ns' d = view_blob (view (metadata w)) ns' d /\
    view_result (view (metadata w')) ns' d = view_result (view (metadata w)) ns' d /\
    view_manifest (view (metadata w')) ns' d = view_manifest (view (metadata w)) ns' d.

Lemma same_stores_grow w w' : same_stores w w' -> objects_grow w w'.
Proof. intros [_ Ho] d _. by left. Qed.

Lemma same_stores_elsewhere ns w w' : same_stores w w' -> same_elsewhere ns w w'.
Proof. intros [(Hb & Hr & Hm) _] ns' d _. auto. Qed.

#[export] Instance objects_grow_preorder : PreOrder objects_grow.
Proof.
  split; [by intros w d; left|]. intros w1 w2 w3 H12 H23 d Hval.
  destruct (H23 d Hval) as [Heq|[[Hn (c & Hc & Hm)]|[Hno Hm]]]; [rewrite Heq; by apply H12| |by right; right].
  destruct (H12 d Hval) as [Heq|[[Hn' (c' & Hc' & _)]|[Hno _]]]; [|congruence|].
  - right; left. rewrite <-Heq. eauto.
  - right; right. split; [done|]. intros c2. rewrite Hc. by intros [= <-].
Qed.

#[export] Instance same_elsewhere_preorder ns : PreOrder (same_elsewhere ns).
Proof.
  split; [by intros w ns' d|]. intros w1 w2 w3 H12 H23 ns' d Hne.
  destruct (H12 ns' d Hne) as (? & ? & ?), (H23 ns' d Hne) as (? & ? & ?). split_and!; congruence.
Qed.

Lemma store_inv_step w w' :
  store_inv w -> meta_wf (metadata w') -> objects_grow w w' ->
  (forall ns d, view_blob (view (metadata w')) ns d = true ->
     view_blob (view (metadata w)) ns d = true \/
     (digest_validate d = Ok tt /\ digest_u64 d /\ (retains -> is_Some (objects (blobs w') d)))) ->
  store_inv w'.
Proof.
  intros [_ Hc Hval Hu Hs] Hwf Hg Hv. split; [done|..].
  - intros d c Hd Ho. destruct (Hg d Hd) as [Heq|[[_ (c' & Hc' & Hm)]|[_ Hm]]]; [|naive_solver|auto].
    apply Hc; [done|]. by rewrite <-Heq.
  - intros ns d [Hold|[? _]]%Hv; [by eapply Hval|done].
  - intros ns d [Hold|(_ & ? & _)]%Hv; [by eapply Hu|done].
  - intros Hk ns d [Hold|(_ & _ & ?)]%Hv; [|auto]. eapply grow_some; [done..|by eapply Hval|by eapply Hs].
Qed.

(** The configuration, and the permits that are left. *)
Definition config w : N * N * SpoolBudget.t := (max_blob_bytes w, pack_store_concurrency w, spool w).

(** ** Calls *)

Lemma authorized_inv m headers access w w' r :
  authorized m headers access w = (w', r) -> exists a, w' = set_auth a w.
Proof.
  unfold authorized, on_auth. destruct (authorize _ _ _ _) as [a q]. intros [= <- _]. eauto.
Qed.

Lemma register_ok ns d stored w w' r :
  meta_wf (metadata w) -> digest_u64 d ->
  on_metadata (register_blob ns d stored) w = (w', r) ->
  meta_wf (metadata w') /\ blobs w' = blobs w /\ config w' = config w /\
  match r with
  | Ok _ => view (metadata w') ≡ view_set_blob ns d true (view (metadata w))
  | Err _ => view (metadata w') ≡ view (metadata w) \/
      view (metadata w') ≡ view_set_blob ns d true (view (metadata w))
  end.
Proof.
  intros Hwf Hu Hr. apply on_metadata_inv in Hr as (s & q & Hc & -> & ->).
  apply register_blob_law in Hc as [Hwf' He]; [|done..]. split_and!; [done..|].
  destruct q as [[]|e]; cbn in *; [done|]. destruct He as [|[_ ?]]; auto.
Qed.

Lemma put_ok d content w w' r :
  digest_validate d = Ok tt -> (digest_size d = 0%N -> content = []) ->
  on_blobs (blob_put d content) w = (w', r) ->
  metadata w' = metadata w /\ config w' = config w /\
  (forall d', d' <> d -> digest_validate d' = Ok tt -> objects (blobs w') d' = objects (blobs w) d') /\
  match r with
  | Ok PutCreated => objects (blobs w) d = None /\ objects (blobs w') d = Some content
  | Ok PutAlreadyExists =>
      is_Some (objects (blobs w) d) /\ objects (blobs w') d = objects (blobs w) d
  | Err _ => objects (blobs w') d = objects (blobs w) d \/
      (objects (blobs w) d = None /\ objects (blobs w') d = Some content)
  end.
Proof.
  intros Hval Hempty Hp. apply on_blobs_inv in Hp as (b & q & Hc & -> & ->).
  apply blob_put_law in Hc as [Ho Hr]; [|done..]. split_and!; [done..|]. by destruct q as [[]|].
Qed.

Lemma forget_missing_ok ns d w w' r :
  meta_wf (metadata w) -> digest_u64 d -> forget_missing_blob ns d w = (w', r) ->
  meta_wf (metadata w') /\ blobs w' = blobs w /\ config w' = config w /\ r = Ok tt /\
  (view (metadata w') ≡ view (metadata w) \/
   view (metadata w') ≡ view_set_blob ns d false (view (metadata w))) /\
  exists q, forget_blob ns d (metadata w) = (metadata w', q) /\
    (is_ok q = true -> view (metadata w') ≡ view_set_blob ns d false (view (metadata w))).
Proof.
  intros Hwf Hu. unfold forget_missing_blob.
  destruct (forget_blob ns d (metadata w)) as [s q] eqn:E. intros [= <- <-].
  apply forget_blob_law in E as [Hwf' He]; [|done..]. split_and!; [done..|cbn|cbn].
  - destruct q as [[]|e]; cbn in He; [by right|]. destruct He as [|[_ ?]]; auto.
  - exists q. split; [done|]. by destruct q as [[]|e].
Qed.

(** What an upload leaves behind, whether it is answered or not. *)
Record uploaded (ns : string) (d : Digest) (content : bytes) w w' : Prop := {
  up_wf : meta_wf (metadata w');
  up_others : forall d', d' <> d -> digest_validate d' = Ok tt ->
    objects (blobs w') d' = objects (blobs w) d';
  up_object : objects (blobs w') d = objects (blobs w) d \/
    (objects (blobs w) d = None /\ objects (blobs w') d = Some content);
  up_view : view (metadata w') ≡ view (metadata w) \/
    (is_Some (objects (blobs w') d) /\
     view (metadata w') ≡ view_set_blob ns d true (view (metadata w)));
}.

Lemma uploaded_same ns d content w w' :
  meta_wf (metadata w') -> same_stores w w' -> uploaded ns d content w w'.
Proof. intros Hwf [Hv Ho]. split; auto. Qed.

Lemma uploaded_grow ns d content w w' :
  content_matches d content -> uploaded ns d content w w' -> objects_grow w w'.
Proof.
  intros Hm [_ Ho Hd _] d' Hval. destruct (decide (d' = d)) as [->|]; [|left; by apply Ho].
  destruct Hd as [|[Hn Hs]]; [by left|right; left; eauto].
Qed.

Lemma view_set_blob_elsewhere ns d b v ns' d' :
  ns' <> ns -> view_blob (view_set_blob ns d b v) ns' d' = view_blob v ns' d'.
Proof. intros Hne. cbn. unfold upd. case_decide; [naive_solver|done]. Qed.

Lemma set_blob_same_elsewhere ns d b w w' :
  view (metadata w') ≡ view_set_blob ns d b (view (metadata w)) -> same_elsewhere ns w w'.
Proof.
  intros (Hb & Hr & Hm) ns' d' Hne. rewrite Hb, Hr, Hm. cbn. split_and!; [|done..].
  by apply view_set_blob_elsewhere.
Qed.

Lemma uploaded_elsewhere ns d content w w' :
  uploaded ns d content w w' -> same_elsewhere ns w w'.
Proof.
  intros [_ _ _ [(Hb & Hr & Hm)|[_ Hv]]]; [by intros ns' d' _; auto|].
  by eapply set_blob_same_elsewhere.
Qed.

Lemma uploaded_inv ns d content w w' :
  digest_validate d = Ok tt -> digest_u64 d -> content_matches d content -> uploaded ns d content w w' -> store_inv w -> store_inv w'.
Proof.
  intros Hval Hu Hm Hup Hinv. pose proof (uploaded_grow _ _ _ _ _ Hm Hup) as Hg. destruct Hup as [Hwf Ho Hd Hv].
  apply (store_inv_step w); [done..|]. intros ns' d' Hvis.
  destruct Hv as [(Hb & _)|[Hs (Hb & _)]]; rewrite Hb in Hvis; [by left|].
  cbn in Hvis. unfold upd in Hvis. case_decide as Heq; [injection Heq as -> ->; by right|by left].
Qed.

Lemma store_upload_ok ns d content w w' r :
  meta_wf (metadata w) -> digest_validate d = Ok tt -> (digest_size d = 0%N -> content = []) -> digest_u64 d ->
  store_upload ns d content w = (w', r) ->
  uploaded ns d content w w' /\ config w' = config w /\
  match r with
  | Ok PutCreated => objects (blobs w) d = None /\ objects (blobs w') d = Some content
  | Ok PutAlreadyExists =>
      is_Some (objects (blobs w) d) /\ objects (blobs w') d = objects (blobs w) d
  | Err _ => True
  end /\
  (is_ok r = true -> view (metadata w') ≡ view_set_blob ns d true (view (metadata w))).
Proof.
  intros Hwf Hval Hempty Hu. unfold store_upload, m_bind.
  destruct (on_blobs (blob_put d content) w) as [w1 [out|e]] eqn:Hp;
    apply put_ok in Hp as (Hm1 & Hs1 & Ho1 & Hd1); try done.
  2:{ intros [= <- <-]. split_and!; [|done..]. split; rewrite ?Hm1; auto. }
  destruct (on_metadata (register_blob ns d out) w1) as [w2 q] eqn:Hr.
  apply register_ok in Hr as (Hwf2 & Hb2 & Hs2 & Hv2); [|by rewrite ?Hm1..].
  rewrite Hm1 in Hv2.
  assert (objects (blobs w1) d = objects (blobs w) d \/
    (objects (blobs w) d = None /\ objects (blobs w1) d = Some content)) as Hobj.
  { destruct out; naive_solver. }
  assert (is_Some (objects (blobs w1) d)) as Hsome.
  { destruct out; destruct Hd1 as [Hx Hy]; rewrite Hy; [by eexists|done]. }
  assert (forall w3, metadata w3 = metadata w2 -> blobs w3 = blobs w2 ->
    uploaded ns d content w w3) as Hup.
  { intros w3 Hm3 Hb3. split; rewrite ?Hm3, ?Hb3, ?Hb2; try done.
    destruct q as [[]|e]; [by right|]. destruct Hv2; [by left|by right]. }
  destruct q as [[]|e].
  - unfold on_metrics, m_ret. intros [= <- <-]. split; [by apply Hup|].
    split; [transitivity (config w2); [done|by rewrite Hs2, Hs1]|]. cbn. rewrite Hb2. split; [by destruct out|done].
  - intros [= <- <-]. split; [by apply Hup|]. split; [by rewrite Hs2, Hs1|]. done.
Qed.

(** ** Uploads *)

Lemma reserve_release b size b' held :
  SpoolBudget.reserve b size = (b', Ok held) -> SpoolBudget.release b' held = b.
Proof.
  unfold SpoolBudget.reserve. destruct b as [available|]; [|by intros [= <- <-]].
  destruct (_ <? _)%N; [done|]. destruct (N.leb_spec (div_ceil size 1024) available); [|done].
  intros [= <- <-]. cbn. f_equal. lia.
Qed.

Lemma reserve_refused b size b' e : SpoolBudget.reserve b size = (b', Err e) -> b' = b.
Proof.
  unfold SpoolBudget.reserve. destruct b as [available|]; [|done].
  destruct (_ <? _)%N; [by intros [= <- <-]|]. destruct (_ <=? _)%N; [done|by intros [= <- <-]].
Qed.

(** What ran before an upload's permits were taken, and the upload itself. *)
Lemma put_blob_inv m headers parts body fs w w' r :
  meta_wf (metadata w) -> (parts.2 < u64_modulus)%N ->
  put_blob m headers parts body fs w = (w', r) ->
  config w' = config w /\
  ((metadata w' = metadata w /\ blobs w' = blobs w /\ is_ok r = false) \/
   exists w1 ns d content,
     authorized m headers Write w = (w1, Ok ns) /\
     require_immutable_precondition headers = Ok tt /\ parse_digest parts = Ok d /\
     (digest_size d <= max_blob_bytes w)%N /\
     spool_upload d (max_blob_bytes w) body fs = Ok content /\
     uploaded ns d content w w' /\
     match r with
     | Ok code =>
         view (metadata w') ≡ view_set_blob ns d true (view (metadata w)) /\
         ((code = CREATED /\ objects (blobs w) d = None /\ objects (blobs w') d = Some content) \/
          (code = NO_CONTENT /\ is_Some (objects (blobs w) d) /\
           objects (blobs w') d = objects (blobs w) d))
     | Err _ => True
     end).
Proof.
  intros Hwf Hu64. unfold put_blob. unfold m_bind at 1.
  destruct (authorized m headers Write w) as [w1 [ns|e]] eqn:Hauth;
    destruct (authorized_inv _ _ _ _ _ _ Hauth) as [a ->];
    [|intros [= <- <-]; split; [done|by left]].
  unfold m_bind at 1, m_lift at 1.
  destruct (require_immutable_precondition headers) as [[]|e] eqn:Hpre;
    [|intros [= <- <-]; split; [done|by left]].
  unfold m_bind at 1, m_lift at 1.
  destruct (parse_digest parts) as [d|e] eqn:Hd; [|intros [= <- <-]; split; [done|by left]].
  unfold m_bind at 1, get_state. cbn [max_blob_bytes set_auth].
  destruct (N.ltb_spec (max_blob_bytes w) (digest_size d)); [intros [= <- <-]; split; [done|by left]|].
  unfold with_spool. cbn [spool set_auth].
  destruct (SpoolBudget.reserve (spool w) (digest_size d)) as [b [held|e]] eqn:Hres.
  2:{ apply reserve_refused in Hres as ->. intros [= <- <-]. split; [by destruct w|by left]. }
  apply reserve_release in Hres. unfold m_bind at 1, m_lift at 1.
  destruct (spool_upload d (max_blob_bytes w) body fs) as [content|e] eqn:Hspool.
  2:{ intros [= <- <-]. unfold config. cbn. rewrite Hres. split; [done|by left]. }
  unfold m_bind. destruct (store_upload ns d content _) as [w2 q] eqn:Hst.
  pose proof (parse_digest_u64 _ _ Hu64 Hd) as Hu.
  pose proof (parsed_valid _ _ Hd) as Hval.
  pose proof (spool_upload_ok _ _ _ _ _ Hspool) as (chunks & _ & _ & Hmatch).
  apply store_upload_ok in Hst as ([Hwf2 Ho2 Hd2 Hv2] & Hs2 & Hq & Hreg); [|done|done|by eapply matches_empty|done]. cbn in *.
  assert (uploaded ns d content w (set_spool (SpoolBudget.release (spool w2) held) w2)) as Hup
    by (by split).
  destruct q as [out|e]; intros [= <- <-]; cbn;
    (split; [injection Hs2 as Hmax Hcon Hsp; unfold config; cbn; congruence|]); right;
    exists (set_auth a w), ns, d, content; do 6 (split; [done|]); [|done].
  split; [by apply Hreg|]. destruct out; [left|right]; naive_solver.
Qed.

(** C15. An accepted upload was authorized for writing and immutable; its body,
    put together, is the content its digest names; the namespace sees the blob,
    which is stored. A first upload is answered 201 and stores exactly these
    bytes; a later one is answered 204 and leaves the object as it was. No other
    object and no other metadata changes. *)
Theorem put_blob_stores m headers parts body fs w w' code
    (Hwf : meta_wf (metadata w)) (Hu64 : (parts.2 < u64_modulus)%N)
    (Hok : put_blob m headers parts body fs w = (w', Ok code)) :
  exists w1 ns d chunks,
    authorized m headers Write w = (w1, Ok ns) /\ headers !! "if-none-match" = Some "*" /\
    parse_digest parts = Ok d /\ (digest_size d <= max_blob_bytes w)%N /\
    body = map Ok chunks /\ content_matches d (concat chunks) /\
    view (metadata w') ≡ view_set_blob ns d true (view (metadata w)) /\
    (forall d', d' <> d -> digest_validate d' = Ok tt ->
       objects (blobs w') d' = objects (blobs w) d') /\
    ((code = CREATED /\ objects (blobs w) d = None /\
      objects (blobs w') d = Some (concat chunks)) \/
     (code = NO_CONTENT /\ is_Some (objects (blobs w) d) /\
      objects (blobs w') d = objects (blobs w) d)).
Proof.
  apply put_blob_inv in Hok as [_ Hok]; [|done..].
  destruct Hok as [(_ & _ & Hno)|(w1 & ns & d & content & Hauth & Hpre & Hd & Hle & Hspool & Hup & Hv & Hc)];
    [done|].
  apply spool_upload_ok in Hspool as (chunks & -> & -> & Hmatch).
  exists w1, ns, d, chunks. split_and!; try done.
  - unfold require_immutable_precondition in Hpre. by destruct (bool_decide_reflect (headers !! "if-none-match" = Some "*")).
  - by destruct Hup.
Qed.

Lemma put_blob_any m headers parts body fs w w' r :
  store_inv w -> (parts.2 < u64_modulus)%N -> put_blob m headers parts body fs w = (w', r) ->
  store_inv w' /\ objects_grow w w' /\ config w' = config w /\
  (same_stores w w' \/ exists w1 ns d, authorized m headers Write w = (w1, Ok ns) /\
     (view (metadata w') ≡ view (metadata w) \/
      view (metadata w') ≡ view_set_blob ns d true (view (metadata w)))).
Proof.
  intros Hinv Hu64 Hput. pose proof (inv_wf _ Hinv) as Hwf.
  apply put_blob_inv in Hput as [Hcfg Hput]; [|done..].
  destruct Hput as [(Hm & Hb & _)|(w1 & ns & d & content & Hauth & _ & Hd & _ & Hspool & Hup & _)].
  - assert (same_stores w w') as Hs by (split; by rewrite ?Hm, ?Hb).
    split; [|split; [by apply same_stores_grow|split; [done|by left]]].
    apply (store_inv_step w); [done|by rewrite Hm|by apply same_stores_grow|].
    intros ns d. rewrite Hm. by left.
  - apply spool_upload_ok in Hspool as (chunks & _ & _ & Hmatch).
    split; [eapply uploaded_inv; [by eapply parsed_valid|by eapply parse_digest_u64|done..]|].
    split; [by eapply uploaded_grow|]. split; [done|].
    right. exists w1, ns, d. split; [done|]. destruct Hup as [_ _ _ [|[_ ?]]]; auto.
Qed.

(** However an upload ends, refused, failed halfway or answered, the stores
    keep their invariant, no stored object changes, other namespaces see what
    they saw, and the permits it took are back. *)
Theorem put_blob_safe m headers parts body fs w w' r
    (Hinv : store_inv w) (Hu64 : (parts.2 < u64_modulus)%N)
    (Hput : put_blob m headers parts body fs w = (w', r)) :
  store_inv w' /\ objects_grow w w' /\ spool w' = spool w /\
  forall ns w1, authorized m headers Write w = (w1, Ok ns) -> same_elsewhere ns w w'.
Proof.
  apply put_blob_any in Hput as (Hi & Hg & Hcfg & Hv); [|done..]. split; [done|]. split; [done|].
  split; [by injection Hcfg|]. intros ns w1 Hauth.
  destruct Hv as [Hs|(w1' & ns' & d & Hauth' & Hv)]; [by apply same_stores_elsewhere|].
  rewrite Hauth in Hauth'. injection Hauth' as <- <-.
  destruct Hv as [(Hb & Hr & Hm)|Hv]; [by intros ns' d' _|by eapply set_blob_same_elsewhere].
Qed.

(** ** Downloads *)

(** What a read that finds no object for a row does to the metadata: the row is
    forgotten, if the metadata store answers. *)
Definition row_forgotten (ns : string) (d : Digest) w w' : Prop :=
  exists s q, view s ≡ view (metadata w) /\ forget_blob ns d s = (metadata w', q) /\
    (is_ok q = true -> view (metadata w') ≡ view_set_blob ns d false (view (metadata w))) /\
    (is_ok q = false -> view (metadata w') ≡ view (metadata w) \/
       view (metadata w') ≡ view_set_blob ns d false (view (metadata w))).

Lemma forget_missing_forgotten ns d w w1 w' r :
  meta_wf (metadata w1) -> digest_u64 d -> same_stores w w1 -> forget_missing_blob ns d w1 = (w', r) ->
  r = Ok tt /\ meta_wf (metadata w') /\ (forall d', objects (blobs w') d' = objects (blobs w) d') /\
  row_forgotten ns d w w'.
Proof.
  intros Hwf Hu [V1 O1] (Hwf' & Hb & _ & Hr & Hv & q & Hq & Hok)%forget_missing_ok; [|done..].
  split; [done|]. split; [done|]. split; [intros d'; by rewrite Hb|]. exists (metadata w1), q.
  split; [done|]. split; [done|]. split; [|intros _]; [intros Hv'%Hok|destruct Hv as [Hv|Hv]; [left|right]];
    rewrite ?Hv', ?Hv; by rewrite V1.
Qed.

Lemma get_blob_inv m headers parts w w' r w1 ns d :
  meta_wf (metadata w) -> (parts.2 < u64_modulus)%N ->
  authorized m headers Read w = (w1, Ok ns) -> parse_digest parts = Ok d ->
  get_blob m headers parts w = (w', r) ->
  meta_wf (metadata w') /\ (forall d', objects (blobs w') d' = objects (blobs w) d') /\
  match r with
  | Ok resp =>
      view (metadata w') ≡ view (metadata w) /\ view_blob (view (metadata w)) ns d = true /\
      exists content, objects (blobs w) d = Some content /\
        response_code resp = OK /\
        header_map resp !! "content-length" = Some (pretty (N.of_nat (length content))) /\
        header_map resp !! "etag" = Some (DQUOTE ++ digest_hash d ++ DQUOTE) /\
        streams (response_body resp) content
  | Err e =>
      (e = not_found "blob not found" /\ view_blob (view (metadata w)) ns d = false /\
       view (metadata w') ≡ view (metadata w)) \/
      (e = not_found "blob not found" /\ view_blob (view (metadata w)) ns d = true /\
       objects (blobs w) d = None /\ row_forgotten ns d w w') \/
      (exists error, e = internal error /\ view (metadata w') ≡ view (metadata w))
  end.
Proof.
  intros Hwf Hu64 Hauth Hd. unfold get_blob. unfold m_bind at 1. rewrite Hauth.
  pose proof (parse_digest_u64 _ _ Hu64 Hd) as Hu.
  destruct (authorized_inv _ _ _ _ _ _ Hauth) as [a ->].
  unfold m_bind at 1, m_lift. rewrite Hd.
  unfold m_bind at 1. destruct (on_metadata (blob_visible ns d) _) as [w2 [visible|e]] eqn:Hv.
  2:{ intros [= <- <-]. pose proof Hv as Hv'. apply visible_ok in Hv as (? & [V2 O2] & _); [|done].
      split; [done|]. split; [exact O2|]. apply on_metadata_inv in Hv' as (? & [|q] & _ & _ & He); [done|].
      injection He as ->. eauto 10. }
  apply visible_ok in Hv as (Hwf2 & S2 & Hb); [|done]. specialize (Hb visible eq_refl). pose proof S2 as [V2 O2].
  destruct visible; cbn [negb].
  2:{ intros [= <- <-]. split; [done|]. split; [exact O2|]. by left. }
  unfold m_bind at 1, on_access at 1. unfold m_bind at 1.
  destruct (on_blobs (blob_get d) _) as [w3 [found|e]] eqn:Hg.
  2:{ intros [= <- <-]. pose proof Hg as Hg'. apply get_ok in Hg as (Hm3 & [_ O3] & _). rewrite Hm3.
      split; [done|]. split; [intros d'; rewrite O3; apply O2|].
      apply on_blobs_inv in Hg' as (? & [|q] & _ & _ & He); [done|]. injection He as ->. eauto 10. }
  apply get_ok in Hg as (Hm3 & [_ O3] & Hf). assert (objects (blobs w2) d = objects (blobs w) d) as Hobj by apply O2.
  destruct found as [blob|].
  - intros [= <- <-]. split; [cbn; by rewrite Hm3|].
    split; [intros d'; etransitivity; [apply O3|apply O2]|]. cbn. rewrite Hm3.
    split; [done|]. split; [done|]. destruct Hf as (content & Hc & Hl & Hst). exists content.
    rewrite <-Hobj, <-Hl. by split_and!.
  - assert (same_stores w w3) as S3.
    { split; [by rewrite Hm3|]. intros d'. rewrite O3. apply O2. }
    unfold m_bind. destruct (forget_missing_blob ns d w3) as [w4 q] eqn:Hfg.
    apply (forget_missing_forgotten _ _ w) in Hfg as (-> & Hwf4 & O4 & Hrow); [|by rewrite Hm3|done..].
    intros [= <- <-]. split; [done|]. split; [done|]. right; left. split_and!; [done..| |done]. by rewrite <-Hobj.
Qed.

(** C17. An authorized download is answered from the store: 200 with the bytes
    the digest names, their length and the digest as entity tag, if the
    namespace sees the blob and its object is there; 404 if not; or a store's
    failure. It changes nothing, except that a row whose object is gone is
    forgotten, in this namespace only, so that the blob is reported missing and
    uploaded again; where objects are retained there is none. *)
Theorem get_blob_answers m headers parts w w' r w1 ns d
    (Hinv : store_inv w) (Hu64 : (parts.2 < u64_modulus)%N)
    (Hauth : authorized m headers Read w = (w1, Ok ns))
    (Hd : parse_digest parts = Ok d) (Hget : get_blob m headers parts w = (w', r)) :
  (forall d', objects (blobs w') d' = objects (blobs w) d') /\
  match r with
  | Ok resp =>
      view (metadata w') ≡ view (metadata w) /\ view_blob (view (metadata w)) ns d = true /\
      exists content, objects (blobs w) d = Some content /\ content_matches d content /\
        response_code resp = OK /\
        header_map resp !! "content-length" = Some (pretty (N.of_nat (length content))) /\
        header_map resp !! "etag" = Some (DQUOTE ++ digest_hash d ++ DQUOTE) /\
        streams (response_body resp) content
  | Err e =>
      (e = not_found "blob not found" /\ view_blob (view (metadata w)) ns d = false /\
       view (metadata w') ≡ view (metadata w)) \/
      (e = not_found "blob not found" /\ view_blob (view (metadata w)) ns d = true /\
       objects (blobs w) d = None /\ (retains -> False) /\ row_forgotten ns d w w') \/
      (exists error, e = internal error /\ view (metadata w') ≡ view (metadata w))
  end.
Proof.
  eapply get_blob_inv in Hget as (_ & Ho & Hr); [|by apply Hinv|done..]. split; [done|]. destruct r as [resp|e].
  - destruct Hr as (Hv & Hvis & content & Hc & ?). split; [done|]. split; [done|]. exists content.
    split; [done|]. split; [|done]. eapply inv_content; [done|by eapply parsed_valid|done].
  - destruct Hr as [?|[(? & Hvis & Hgone & ?)|?]]; [auto|right; left|auto]. split_and!; try done.
    intros Hk. destruct (inv_stored _ Hinv Hk _ _ Hvis) as [c Hc]. congruence.
Qed.

Lemma put_created m m' headers headers' parts body fs w w' w1 w2 w3 ns r :
  store_inv w -> (parts.2 < u64_modulus)%N -> put_blob m headers parts body fs w = (w', Ok CREATED) ->
  authorized m headers Write w = (w1, Ok ns) -> authorized m' headers' Read w' = (w2, Ok ns) ->
  get_blob m' headers' parts w' = (w3, r) ->
  (exists resp chunks, r = Ok resp /\ body = map Ok chunks /\
     streams (response_body resp) (concat chunks)) \/
  exists error, r = Err (internal error).
Proof.
  intros Hinv Hu64 Hput Hwrite Hread Hget. apply put_blob_inv in Hput as [_ Hput]; [|apply Hinv|done].
  destruct Hput as [(_ & _ & Hno)|(w0 & ns' & d & content & Hauth & _ & Hd & _ & Hspool & Hup & Hv & Hc)];
    [done|].
  rewrite Hwrite in Hauth. injection Hauth as <- <-.
  apply spool_upload_ok in Hspool as (chunks & -> & -> & Hmatch).
  assert (store_inv w') as Hinv' by (eapply uploaded_inv; [by eapply parsed_valid|by eapply parse_digest_u64|done..]).
  eapply get_blob_inv in Hget as (_ & _ & Hr); [|by apply Hinv'|done..].
  destruct Hc as [(_ & _ & Hobj)|(Hno & _)]; [|done].
  destruct r as [resp|e].
  - destruct Hr as (_ & _ & content & Hc' & _ & _ & _ & Hst). left. exists resp, chunks.
    split_and!; [done..|]. rewrite Hobj in Hc'. by injection Hc' as <-.
  - destruct Hr as [(_ & Hno & _)|[(_ & _ & Hno & _)|(error & -> & _)]]; [|congruence|by right; eauto]. exfalso.
    destruct Hv as (Hb & _). rewrite Hb in Hno. cbn in Hno. unfold upd in Hno.
    by rewrite decide_True in Hno.
Qed.

(** C16. Upload, then download in the same namespace: the bytes of a first
    upload, or of the first since the object expired, come back, however either
    body was cut into chunks; only a store's failure can come between. *)
Theorem put_then_get_blob m m' headers headers' parts body fs w w' w1 w2 w3 ns r
    (Hinv : store_inv w) (Hu64 : (parts.2 < u64_modulus)%N)
    (Hput : put_blob m headers parts body fs w = (w', Ok CREATED))
    (Hwrite : authorized m headers Write w = (w1, Ok ns))
    (Hread : authorized m' headers' Read w' = (w2, Ok ns))
    (Hget : get_blob m' headers' parts w' = (w3, r)) :
  (exists resp chunks, r = Ok resp /\ body = map Ok chunks /\
     streams (response_body resp) (concat chunks)) \/
  exists error, r = Err (internal error).
Proof. by eapply put_created. Qed.

(** ** Missing blobs *)

Lemma validate_digests_ok ds :
  validate_digests ds = Ok tt <-> Forall (fun d => digest_validate d = Ok tt) ds.
Proof.
  induction ds as [|d ds IH]; cbn; [split; [constructor|done]|].
  rewrite Forall_cons, <-IH, result_bind_ok, <-validate_digest_ok. split.
  - by intros ([] & ? & ?).
  - intros [? ?]. by exists tt.
Qed.

(** Asked which of up to [MAX_BATCH_ITEMS] valid digests are missing, the
    service names exactly those the namespace does not see, in the order they
    were asked for and as often, and changes nothing. *)
Theorem missing_blobs_spec m headers ds w w' missing
    (Hwf : meta_wf (metadata w)) (Hok : missing_blobs m headers ds w = (w', Ok missing)) :
  same_stores w w' /\
  (N.of_nat (length ds) <= MAX_BATCH_ITEMS)%N /\ Forall (fun d => digest_validate d = Ok tt) ds /\
  exists w1 ns, authorized m headers Read w = (w1, Ok ns) /\
    missing = List.filter (fun d => negb (view_blob (view (metadata w)) ns d)) ds.
Proof.
  unfold missing_blobs in Hok. apply m_bind_ok in Hok as (w1 & ns & Hauth & Hk).
  destruct (authorized_inv _ _ _ _ _ _ Hauth) as [a ->].
  destruct (N.ltb_spec MAX_BATCH_ITEMS (N.of_nat (length ds))); [done|].
  m_step Hk as w2 [] [= <- Hvalid]. m_step Hk as w3 vs Hv.
  apply on_metadata_inv in Hv as (s & q & Hc & -> & Hq). injection Hk as <- <-.
  destruct q as [vs'|]; [|done]. injection Hq as ->.
  apply visible_blobs_law in Hc as (_ & Hview & Hvs); [|done]. specialize (Hvs _ eq_refl).
  split; [by split|]. split; [done|]. split; [by apply validate_digests_ok|].
  eexists _, ns. split; [done|]. apply List.filter_ext_in. intros d Hin. f_equal.
  cbn in Hvs. subst vs'.
  destruct (view_blob (view (metadata w)) ns d) eqn:E.
  - apply bool_decide_eq_true_2, elem_of_list_to_set, list_elem_of_In, filter_In. done.
  - apply bool_decide_eq_false_2. rewrite elem_of_list_to_set, list_elem_of_In, filter_In. naive_solver congruence.
Qed.
End Endpoints.
