(* ===== verification/PackUpload.v ===== *)
(** * Uploading a pack (src/server.rs, [put_blob_pack])

    One request reads frames, spools and verifies each, and hands it to a task
    that stores it; tasks run while the request reads on, other requests run
    meanwhile, and the request may be dropped at any moment. [pack_step] is one
    step of any of them. *)
From stdpp Require Import pretty.
From S2P Require Import Prelude Str Protocol Api Json Model Records Oidc Auth Spool Access.
From S2P Require Import Metrics App Pack Blobs.

Local Open Scope string_scope.
Local Open Scope mbx_scope.

(** ** Errors *)

(** [Display for PackError] *)
Definition pack_error_display (error : PackError) : string :=
  match error with
  | ErrMagic => "blob pack does not start with the expected magic prefix"
  | ErrAlgorithm tag => "blob pack declares an unknown digest algorithm " ++ pretty tag
  | Truncated => "blob pack ended inside a frame"
  | BlobTooLarge size limit =>
      "blob pack declares a blob of " ++ pretty size ++ " bytes, over the " ++ pretty limit
        ++ " byte limit"
  | TooManyBlobs limit => "blob pack carries more than the declared " ++ pretty limit ++ " blobs"
  | TooManyBytes limit =>
      "blob pack carries more than the declared " ++ pretty limit ++ " payload bytes"
  end.

Definition pack_error (error : PackError) : ApiError :=
  match error with
  | BlobTooLarge _ _ | TooManyBytes _ | TooManyBlobs _ => too_large (pack_error_display error)
  | other => bad_request (pack_error_display other)
  end.

(** ** One frame *)

Module PackFrame.
Section PackFrame.
Context `{Protocol} `{Hashes} `{Hex}.

Record t := mk {
  digest : Digest;
  file : SpoolFile;
  size : N;
  hashers : Hashers;
  spool : option N;
}.

Definition new (digest : Digest) (spool : option N) (faults : list (option StoreError))
  : result ApiError t :=
  file <-? file_create faults;
  Ok (mk digest file 0 new_hashers spool).

Definition write (payload : bytes) (self : t) : result ApiError t :=
  let size := u64_add (size self) (N.of_nat (length payload)) in
  algorithm <-? map_err bad_request (algorithm_kind (digest self));
  file <-? write_all payload (file self);
  Ok (mk (digest self) file size (update_hashers algorithm payload (hashers self)) (spool self)).

Definition verify (self : t) : result ApiError unit :=
  _ <-? flush_file (file self);
  algorithm <-? map_err bad_request (algorithm_kind (digest self));
  if negb (size self =? digest_size (digest self))%N
     || negb (String.eqb (finalize_hashers algorithm (hashers self)) (digest_hash (digest self)))
  then Err (bad_request "packed blob does not match its declared digest")
  else Ok tt.
End PackFrame.
End PackFrame.

(** ** The request *)

Record BlobPackReceipt := mkReceipt { created : N; existing : N }.

Section PackUpload.
Context `{Protocol} `{Hashes} `{Hex} `{Records} `{!JsonText} `{!Documents} `{!Jwt} `{!AuthJson} `{!Tokio}
  `{!Constants}.
Context {MS BS : Type} `{!MetadataStore MS} `{!BlobStore BS}.
Notation Handler := (Handler (MS:=MS) (BS:=BS)).
Notation AppState := (AppState (MS:=MS) (BS:=BS)).

(** A spawned [PackFrame::store]: before its put, before its registration, or
    done. A task that panics is done with the error of its join. *)
Inductive Store :=
  | Storing (frame : PackFrame.t)
  | Registering (frame : PackFrame.t) (outcome : PutOutcome)
  | Stored (res : result ApiError PutOutcome).

Inductive Phase :=
  | Reading
  | Failed (error : ApiError)
  | Cancelled
  | Answered (res : result ApiError BlobPackReceipt).

Record PackRequest := mkRequest {
  reader : PackReader.t;
  body : RequestBody;
  (** the events of the last chunk that are still to be handled *)
  events : list PackEvent;
  frame : option PackFrame.t;
  stores : list Store;
  receipt : BlobPackReceipt;
  phase : Phase;
}.

Definition set_reader (r : PackReader.t) (body : RequestBody) (events : list PackEvent)
    (q : PackRequest) : PackRequest :=
  mkRequest r body events (frame q) (stores q) (receipt q) (phase q).
Definition set_events (events : list PackEvent) (q : PackRequest) : PackRequest :=
  mkRequest (reader q) (body q) events (frame q) (stores q) (receipt q) (phase q).
Definition set_frame (f : option PackFrame.t) (q : PackRequest) : PackRequest :=
  mkRequest (reader q) (body q) (events q) f (stores q) (receipt q) (phase q).
Definition set_stores (l : list Store) (q : PackRequest) : PackRequest :=
  mkRequest (reader q) (body q) (events q) (frame q) l (receipt q) (phase q).
Definition set_receipt (c : BlobPackReceipt) (q : PackRequest) : PackRequest :=
  mkRequest (reader q) (body q) (events q) (frame q) (stores q) c (phase q).
Definition set_phase (p : Phase) (q : PackRequest) : PackRequest :=
  mkRequest (reader q) (body q) (events q) (frame q) (stores q) (receipt q) p.

(** What [put_blob_pack] does before it reads: the namespace, what the headers
    declared, and the request. *)
Definition put_blob_pack (m : Moment) (headers : HeaderMap) (body : RequestBody)
  : Handler (string * N * N * PackRequest) :=
  namespace <~ authorized m headers Write;
  declared_blobs <~ m_lift (required_u64_header headers PACK_BLOBS_HEADER);
  declared_bytes <~ m_lift (required_u64_header headers PACK_BYTES_HEADER);
  state <~ get_state;
  if (MAX_BATCH_ITEMS <? declared_blobs)%N
  then m_throw (bad_request "blob pack declares more blobs than the supported batch size")
  else if (max_blob_bytes state <? declared_bytes)%N
  then m_throw (too_large "blob pack exceeds the configured size limit")
  else
    m_ret (namespace, declared_blobs, declared_bytes,
      mkRequest (PackReader.new (max_blob_bytes state) declared_blobs declared_bytes) body [] None []
        (mkReceipt 0 0) Reading).

(** Giving back permits. *)
Definition release_spool (held : option N) (w : AppState) : AppState :=
  set_spool (SpoolBudget.release (spool w) held) w.

(** [frame] going out of scope. *)
Definition drop_frame (w : AppState) (q : PackRequest) : AppState * PackRequest :=
  match frame q with
  | Some f => (release_spool (PackFrame.spool f) w, set_frame None q)
  | None => (w, q)
  end.

(** [BlobPackReceipt::count] *)
Definition count (res : result ApiError PutOutcome) (c : BlobPackReceipt)
  : result ApiError BlobPackReceipt :=
  outcome <-? res;
  Ok match outcome with
     | PutCreated => mkReceipt (u64_add (created c) 1) (existing c)
     | PutAlreadyExists => mkReceipt (created c) (u64_add (existing c) 1)
     end.

(** [PackEvent::Started] *)
Definition on_started (digest : Digest) (faults : list (option StoreError)) (w : AppState)
    (q : PackRequest) : AppState * PackRequest :=
  match SpoolBudget.reserve (spool w) (digest_size digest) with
  | (b, Err e) => (set_spool b w, set_phase (Failed e) q)
  | (b, Ok held) =>
      match PackFrame.new digest held faults with
      | Err e => (release_spool held (set_spool b w), set_phase (Failed e) q)
      | Ok f => let '(w, q) := drop_frame (set_spool b w) q in (w, set_frame (Some f) q)
      end
  end.

(** [PackEvent::Payload] *)
Definition on_payload (payload : bytes) (q : PackRequest) : PackRequest :=
  match frame q with
  | None => set_phase (Failed (internal (OtherError "payload outside a blob pack frame"))) q
  | Some f =>
      match PackFrame.write payload f with
      | Err e => set_phase (Failed e) q
      | Ok f => set_frame (Some f) q
      end
  end.

(** The task handed a verified frame. *)
Definition spawn (f : PackFrame.t) (q : PackRequest) : PackRequest :=
  set_stores (stores q ++ [Storing f])%list (set_frame None q).

(** One call of a task; its frame, and with it the permits, goes when it ends. *)
Definition run_store (namespace : string) (s : Store) (w : AppState) : AppState * Store :=
  match s with
  | Storing f =>
      match on_blobs (blob_put (PackFrame.digest f) (written (PackFrame.file f))) w with
      | (w, Ok outcome) => (w, Registering f outcome)
      | (w, Err e) => (release_spool (PackFrame.spool f) w, Stored (Err e))
      end
  | Registering f outcome =>
      match on_metadata (register_blob namespace (PackFrame.digest f) outcome) w with
      | (w, Ok _) =>
          (release_spool (PackFrame.spool f) (set_metrics (Metrics.inc_blob_upload (metrics w)) w),
           Stored (Ok outcome))
      | (w, Err e) => (release_spool (PackFrame.spool f) w, Stored (Err e))
      end
  | Stored res => (w, s)
  end.

(** The permits a task holds. *)
Definition store_spool (s : Store) : option N :=
  match s with
  | Storing f | Registering f _ => PackFrame.spool f
  | Stored _ => None
  end.

(** What comes after the last store of a request that met no error. *)
Definition answer_pack (declared_blobs declared_bytes : N) (q : PackRequest)
  : result ApiError BlobPackReceipt :=
  _ <-? map_err pack_error (PackReader.finish (reader q));
  if negb (PackReader.blobs (reader q) =? declared_blobs)%N
     || negb (PackReader.payload_bytes (reader q) =? declared_bytes)%N
  then Err (bad_request "blob pack does not carry what its headers declared")
  else Ok (receipt q).

Definition finish_request (declared_blobs declared_bytes : N) (w : AppState) (q : PackRequest)
  : AppState * PackRequest :=
  let '(w, q) := drop_frame w q in
  match answer_pack declared_blobs declared_bytes q with
  | Ok c =>
      (set_metrics (Metrics.inc_blob_pack_upload (PackReader.blobs (reader q)) (metrics w)) w,
       set_phase (Answered (Ok c)) q)
  | Err e => (w, set_phase (Answered (Err e)) q)
  end.

(** [env] is what other requests may do to the shared state between two steps
    of this one. *)
Inductive pack_step (env : relation AppState) (namespace : string) (declared_blobs declared_bytes : N)
  : AppState * PackRequest -> AppState * PackRequest -> Prop :=
  | StepEnv w w' q :
      env w w' -> pack_step env namespace declared_blobs declared_bytes (w, q) (w', q)
  | StepChunk w q chunk rest r evs :
      phase q = Reading -> events q = [] -> body q = Ok chunk :: rest ->
      PackReader.push (reader q) chunk = (r, Ok evs) ->
      pack_step env namespace declared_blobs declared_bytes (w, q) (w, set_reader r rest evs q)
  | StepBadChunk w q chunk rest r e :
      phase q = Reading -> events q = [] -> body q = Ok chunk :: rest ->
      PackReader.push (reader q) chunk = (r, Err e) ->
      pack_step env namespace declared_blobs declared_bytes (w, q)
        (w, set_phase (Failed (pack_error e)) (set_reader r rest [] q))
  | StepBrokenBody w q error rest :
      phase q = Reading -> events q = [] -> body q = Err error :: rest ->
      pack_step env namespace declared_blobs declared_bytes (w, q)
        (w, set_phase (Failed (bad_request error)) q)
  | StepStarted w q d evs faults :
      phase q = Reading -> events q = Started d :: evs ->
      pack_step env namespace declared_blobs declared_bytes (w, q)
        (on_started d faults w (set_events evs q))
  | StepPayload w q p evs :
      phase q = Reading -> events q = Payload p :: evs ->
      pack_step env namespace declared_blobs declared_bytes (w, q)
        (w, on_payload p (set_events evs q))
  | StepNoFrame w q evs :
      phase q = Reading -> events q = Complete :: evs -> frame q = None ->
      pack_step env namespace declared_blobs declared_bytes (w, q)
        (w, set_phase (Failed (internal (OtherError "blob pack frame ended before it began")))
              (set_events evs q))
  | StepUnverified w q evs f e :
      phase q = Reading -> events q = Complete :: evs -> frame q = Some f ->
      PackFrame.verify f = Err e ->
      pack_step env namespace declared_blobs declared_bytes (w, q)
        (release_spool (PackFrame.spool f) w, set_phase (Failed e) (set_frame None (set_events evs q)))
  | StepSpawn w q evs f :
      phase q = Reading -> events q = Complete :: evs -> frame q = Some f ->
      PackFrame.verify f = Ok tt ->
      (N.of_nat (length (stores q)) < pack_store_concurrency w)%N \/ stores q = [] ->
      pack_step env namespace declared_blobs declared_bytes (w, q) (w, spawn f (set_events evs q))
  | StepSpawnAfter w q evs f l1 res l2 c :
      phase q = Reading -> events q = Complete :: evs -> frame q = Some f ->
      PackFrame.verify f = Ok tt ->
      (pack_store_concurrency w <= N.of_nat (length (stores q)))%N ->
      stores q = (l1 ++ Stored res :: l2)%list -> count res (receipt q) = Ok c ->
      pack_step env namespace declared_blobs declared_bytes (w, q)
        (w, spawn f (set_receipt c (set_stores (l1 ++ l2)%list (set_events evs q))))
  | StepSpawnRefused w q evs f l1 res l2 e :
      phase q = Reading -> events q = Complete :: evs -> frame q = Some f ->
      PackFrame.verify f = Ok tt ->
      (pack_store_concurrency w <= N.of_nat (length (stores q)))%N ->
      stores q = (l1 ++ Stored res :: l2)%list -> count res (receipt q) = Err e ->
      pack_step env namespace declared_blobs declared_bytes (w, q)
        (release_spool (PackFrame.spool f) w,
         set_phase (Failed e) (set_frame None (set_stores (l1 ++ l2)%list (set_events evs q))))
  | StepStore w q l1 s l2 w' s' :
      stores q = (l1 ++ s :: l2)%list -> (forall res, s <> Stored res) ->
      run_store namespace s w = (w', s') ->
      pack_step env namespace declared_blobs declared_bytes (w, q)
        (w', set_stores (l1 ++ s' :: l2)%list q)
  | StepPanic w q l1 s l2 error :
      stores q = (l1 ++ s :: l2)%list -> (forall res, s <> Stored res) ->
      pack_step env namespace declared_blobs declared_bytes (w, q)
        (release_spool (store_spool s) w,
         set_stores (l1 ++ Stored (Err (internal (OtherError error))) :: l2)%list q)
  | StepCollect w q l1 res l2 c :
      phase q = Reading -> events q = [] -> body q = [] ->
      stores q = (l1 ++ Stored res :: l2)%list -> count res (receipt q) = Ok c ->
      pack_step env namespace declared_blobs declared_bytes (w, q)
        (w, set_receipt c (set_stores (l1 ++ l2)%list q))
  | StepCollectFailed w q l1 res l2 e :
      phase q = Reading -> events q = [] -> body q = [] ->
      stores q = (l1 ++ Stored res :: l2)%list -> count res (receipt q) = Err e ->
      pack_step env namespace declared_blobs declared_bytes (w, q)
        (w, set_phase (Failed e) (set_stores (l1 ++ l2)%list q))
  | StepDrain w q e l1 res l2 :
      phase q = Failed e -> stores q = (l1 ++ Stored res :: l2)%list ->
      pack_step env namespace declared_blobs declared_bytes (w, q)
        (w, set_stores (l1 ++ l2)%list q)
  | StepAnswerError w q e w' q' :
      phase q = Failed e -> stores q = [] -> drop_frame w q = (w', q') ->
      pack_step env namespace declared_blobs declared_bytes (w, q)
        (w', set_phase (Answered (Err e)) q')
  | StepFinish w q :
      phase q = Reading -> events q = [] -> body q = [] -> stores q = [] ->
      pack_step env namespace declared_blobs declared_bytes (w, q)
        (finish_request declared_blobs declared_bytes w q)
  | StepCancel w q w' q' :
      (phase q = Reading \/ exists e, phase q = Failed e) -> drop_frame w q = (w', q') ->
      pack_step env namespace declared_blobs declared_bytes (w, q) (w', set_phase Cancelled q').

End PackUpload.
