(* ===== verification/PackUploadProofs.v ===== *)
(** * What uploading a pack guarantees

    The reader hands out well-formed frames ([track]); the request and its
    tasks keep an invariant at every step, whatever runs beside them. *)
From S2P Require Import Prelude Str Protocol Api Json Model Records Oidc Auth Spool Access.
From S2P Require Import Metrics App Pack PackProofs Blobs BlobsProofs PackUpload.

Local Open Scope string_scope.
Local Open Scope mbx_scope.

(** ** Frames as the reader hands them out *)

(** The finished blobs, and the one that is open. *)
Notation Tracked := (list (Digest * bytes) * option (Digest * bytes))%type.

(** An event moves the open blob on, when it fits it. *)
Definition track (max_blob : N) (acc : option Tracked) (e : PackEvent) : option Tracked :=
  match acc, e with
  | Some (finished, None), Started d =>
      if (digest_size d <=? max_blob)%N then Some (finished, Some (d, [])) else None
  | Some (finished, Some (d, q)), Payload p =>
      if (N.of_nat (length (q ++ p)) <=? digest_size d)%N
      then Some (finished, Some (d, q ++ p)%list) else None
  | Some (finished, Some (d, q)), Complete =>
      if (N.of_nat (length q) =? digest_size d)%N
      then Some ((finished ++ [(d, q)])%list, None) else None
  | _, _ => None
  end.

Definition tracked_all (t : Tracked) : list (Digest * bytes) := (t.1 ++ option_list t.2)%list.

Lemma track_none mb evs : foldl (track mb) None evs = None.
Proof. by induction evs. Qed.

Lemma track_collect mb evs t t' :
  foldl (track mb) (Some t) evs = Some t' ->
  foldl PackReader.collect_event (Some (tracked_all t)) evs = Some (tracked_all t').
Proof.
  revert t; induction evs as [|e evs IH]; intros t; cbn [foldl]; [by intros [= <-]|].
  intros Ht. destruct (track mb (Some t) e) as [t1|] eqn:E; [|by rewrite track_none in Ht].
  rewrite <-(IH _ Ht). f_equal. clear IH Ht. destruct t as [fin [[d q]|]], e as [d'|p|]; cbn in E; try done;
    destruct (_ <=? _)%N || destruct (_ =? _)%N; try done; injection E as <-; unfold tracked_all; cbn [fst snd option_list].
  - apply collect_payload.
  - by rewrite app_nil_r.
  - by rewrite app_nil_r, collect_started.
Qed.

Section Reader.
Context `{Protocol} `{Hex}.

(** The open blob a reader is inside of. *)
Definition inside (r : PackReader.t) (open : option (Digest * bytes)) : Prop :=
  match PackReader.state r, open with
  | StPayload, Some (d, q) =>
      digest_size d = (N.of_nat (length q) + PackReader.remaining r)%N /\
      (0 < PackReader.remaining r)%N
  | StPayload, None => False
  | _, None => True
  | _, Some _ => False
  end.

Lemma inside_header r fin d q :
  (N.of_nat (length q) = digest_size d)%N ->
  foldl (track (PackReader.max_blob_bytes r)) (Some (fin, Some (d, q))) [Complete] =
  Some ((fin ++ [(d, q)])%list, None).
Proof. intros Hq. cbn. by rewrite (proj2 (N.eqb_eq _ _) Hq). Qed.

Lemma complete_tracked r rest evs d q fin r' rest' evs' :
  PackReader.state r = StPayload ->
  digest_size d = (N.of_nat (length q) + PackReader.remaining r)%N ->
  PackReader.complete_if_done r rest evs = PackReader.Continue r' rest' evs' ->
  exists new t', evs' = (evs ++ new)%list /\ inside r' t'.2 /\
    PackReader.max_blob_bytes r' = PackReader.max_blob_bytes r /\
    foldl (track (PackReader.max_blob_bytes r)) (Some (fin, Some (d, q))) new = Some t'.
Proof.
  intros Hst Hsz. unfold PackReader.complete_if_done.
  destruct (N.eqb_spec (PackReader.remaining r) 0) as [Hz|Hz]; intros [= <- <- <-].
  - exists [Complete], ((fin ++ [(d, q)])%list, None). split; [done|]. split; [done|]. split; [done|].
    apply inside_header. lia.
  - exists [], (fin, Some (d, q)). rewrite app_nil_r. split; [done|]. split; [|done].
    unfold inside. rewrite Hst. cbn. lia.
Qed.

Lemma push_step_tracked r rest evs t :
  inside r t.2 ->
  match PackReader.push_step r rest evs with
  | PackReader.Return r' (Ok evs') =>
      evs' = evs /\ inside r' t.2 /\
      PackReader.max_blob_bytes r' = PackReader.max_blob_bytes r
  | PackReader.Return _ (Err _) => True
  | PackReader.Continue r' rest' evs' =>
      exists new t', evs' = (evs ++ new)%list /\ inside r' t'.2 /\
        PackReader.max_blob_bytes r' = PackReader.max_blob_bytes r /\
        foldl (track (PackReader.max_blob_bytes r)) (Some t) new = Some t'
  end.
Proof.
  destruct t as [fin open]. unfold inside at 1. cbn [snd]. unfold PackReader.push_step.
  destruct (PackReader.state r) eqn:Hst.
  - destruct open as [[d q]|]; [done|]. intros _.
    destruct (PackReader.fill r rest _) as [[r1 rest1] full] eqn:Hf.
    apply fill_spec in Hf as (n & -> & -> & _ & _). destruct (negb full).
    { split; [done|]. split; [|done]. unfold inside. cbn. by rewrite Hst. }
    destruct (negb _); [done|]. exists [], (fin, None). by rewrite app_nil_r.
  - destruct open as [[d q]|]; [done|]. intros _.
    destruct (_ && _); [split; [done|]; split; [|done]; unfold inside; by rewrite Hst|].
    destruct (PackReader.fill r rest _) as [[r1 rest1] full] eqn:Hf.
    apply fill_spec in Hf as (n & -> & -> & _ & _). destruct (negb full).
    { split; [done|]. split; [|done]. unfold inside. cbn. by rewrite Hst. }
    destruct (PackReader.parse_header _) as [d|] eqn:Hp; [|done].
    assert (digest_size d <= PackReader.max_blob_bytes r)%N as Hle.
    { unfold PackReader.parse_header in Hp. ok_step Hp as a _.
      cbv beta zeta in Hp.
      match type of Hp with (if (?a <? ?b)%N then _ else _) = _ => destruct (N.ltb_spec a b) end; [done|].
      by injection Hp as <-. }
    destruct (_ <? _)%N; [done|].
    destruct (PackReader.complete_if_done _ _ _) as [r' rest' evs'|r' res] eqn:Hc;
      [|unfold PackReader.complete_if_done in Hc; by destruct (_ =? _)%N in Hc].
    apply (complete_tracked _ _ _ d [] fin) in Hc as (new & t' & -> & Hin & Hmb & Ht); [|done..].
    exists (Started d :: new), t'. rewrite <-app_assoc. split; [done|]. split; [done|].
    split; [done|]. cbn [foldl track]. by rewrite (proj2 (N.leb_le _ _) Hle).
  - destruct open as [[d q]|]; [|done]. intros [Hsz Hrem].
    destruct (_ =? _)%nat; [split; [done|]; split; [|done]; unfold inside; rewrite Hst; done|].
    cbn zeta. destruct (_ <? _)%N; [done|].
    set (n := N.to_nat (N.min (PackReader.remaining r) (N.of_nat (length rest)))).
    assert (length (take n rest) = n) as Hn by (rewrite length_take; lia).
    destruct (PackReader.complete_if_done _ _ _) as [r' rest' evs'|r' res] eqn:Hc;
      [|unfold PackReader.complete_if_done in Hc; by destruct (_ =? _)%N in Hc].
    apply (complete_tracked _ _ _ d (q ++ take n rest)%list fin) in Hc as (new & t' & -> & Hin & Hmb & Ht);
      [|done|cbn; rewrite length_app, Hn; lia].
    exists (Payload (take n rest) :: new), t'. rewrite <-app_assoc. split; [done|]. split; [done|].
    split; [done|]. cbn [foldl track].
    rewrite (proj2 (N.leb_le (N.of_nat (length (q ++ take n rest))) (digest_size d))); [done|].
    rewrite length_app, Hn. lia.
Qed.

(** Every accepted chunk is well-formed frames, from wherever the reader is. *)
Lemma push_tracked r chunk t r' evs :
  inside r t.2 -> PackReader.push r chunk = (r', Ok evs) ->
  exists t', inside r' t'.2 /\ PackReader.max_blob_bytes r' = PackReader.max_blob_bytes r /\
    foldl (track (PackReader.max_blob_bytes r)) (Some t) evs = Some t'.
Proof.
  unfold PackReader.push. intros Hin Hp.
  enough (exists new t', evs = ([] ++ new)%list /\ inside r' t'.2 /\
    PackReader.max_blob_bytes r' = PackReader.max_blob_bytes r /\
    foldl (track (PackReader.max_blob_bytes r)) (Some t) new = Some t') as (new & t' & -> & ?) by eauto.
  revert t r' evs Hin Hp. generalize (@nil PackEvent) as acc. intros acc.
  apply (drive_ind (fun r rest acc out => forall t r' evs, inside r t.2 -> out = (r', Ok evs) ->
    exists new t', evs = (acc ++ new)%list /\ inside r' t'.2 /\
      PackReader.max_blob_bytes r' = PackReader.max_blob_bytes r /\
      foldl (track (PackReader.max_blob_bytes r)) (Some t) new = Some t')); clear r chunk acc.
  - intros r rest acc r1 res Hstep t r' evs Hin [= <- ->].
    pose proof (push_step_tracked r rest acc t Hin) as Ht. rewrite Hstep in Ht.
    destruct Ht as (-> & Hin' & Hmb). exists [], t. by rewrite app_nil_r.
  - intros r rest acc r1 rest1 acc1 Hstep IH t r' evs Hin Hd.
    pose proof (push_step_tracked r rest acc t Hin) as Ht. rewrite Hstep in Ht.
    destruct Ht as (new & t1 & -> & Hin1 & Hmb1 & Ht1).
    destruct (IH t1 r' evs Hin1 Hd) as (new2 & t2 & -> & Hin2 & Hmb2 & Ht2).
    exists (new ++ new2)%list, t2. rewrite <-app_assoc, foldl_app, Ht1, <-Hmb1.
    split_and!; [done..|congruence|done].
Qed.
End Reader.

(** ** Frames *)

Section Frames.
Context `{Protocol} `{HashLaws} `{Hex}.

(** A frame holds exactly what it hashed, and no more than it declared. *)
Record frame_ok (f : PackFrame.t) : Prop := {
  frame_u64 : digest_u64 (PackFrame.digest f);
  frame_fits : (N.of_nat (length (written (PackFrame.file f))) <= digest_size (PackFrame.digest f))%N;
  frame_size : PackFrame.size f = N.of_nat (length (written (PackFrame.file f)));
  frame_hashed : exists chunks, written (PackFrame.file f) = concat chunks /\
    forall a, algorithm_kind (PackFrame.digest f) = Ok a ->
      PackFrame.hashers f = foldl (fun h c => update_hashers a c h) new_hashers chunks;
}.

Definition frame_entry (f : PackFrame.t) : Digest * bytes :=
  (PackFrame.digest f, written (PackFrame.file f)).

Lemma frame_new_ok d held fs f :
  digest_u64 d -> PackFrame.new d held fs = Ok f ->
  frame_ok f /\ frame_entry f = (d, []) /\ PackFrame.spool f = held.
Proof.
  intros Hu. unfold PackFrame.new.
  intros (file & (f0 & [Hw0 _]%file_call_ok & [Hw1 _]%file_call_ok)%result_bind_ok & [= <-])%result_bind_ok.
  assert (written file = []) as Hw by (by rewrite Hw1, Hw0).
  split; [|unfold frame_entry; cbn; by rewrite Hw].
  split; cbn; rewrite ?Hw; [done|cbn; lia|done|]. by exists [].
Qed.

Lemma frame_write_ok p f f' :
  frame_ok f -> (N.of_nat (length (written (PackFrame.file f) ++ p)) <= digest_size (PackFrame.digest f))%N ->
  PackFrame.write p f = Ok f' ->
  frame_ok f' /\ frame_entry f' = (PackFrame.digest f, written (PackFrame.file f) ++ p)%list /\
  PackFrame.spool f' = PackFrame.spool f.
Proof.
  intros [F1 F2 F3 (chunks & F4 & F5)] Hfit. unfold PackFrame.write.
  intros (a & Ha & (file & [Hw _]%file_call_ok & [= <-])%result_bind_ok)%result_bind_ok.
  destruct (algorithm_kind (PackFrame.digest f)) as [a'|] eqn:Hk; [|done]. injection Ha as ->.
  split; [|by unfold frame_entry; cbn; rewrite Hw].
  unfold digest_u64 in F1. split; cbn; rewrite ?Hw; [done..| |].
  - rewrite length_app in Hfit. rewrite F3, u64_add_small, length_app; lia.
  - exists (chunks ++ [p])%list. rewrite concat_app, F4. cbn. rewrite app_nil_r. split; [done|].
    rewrite Hk. intros a' [= <-]. rewrite foldl_app. cbn. by rewrite (F5 a eq_refl).
Qed.

(** A frame that verifies is the content its digest names. *)
Lemma frame_verified f :
  frame_ok f -> PackFrame.verify f = Ok tt ->
  content_matches (PackFrame.digest f) (written (PackFrame.file f)).
Proof.
  intros [_ _ F3 (chunks & F4 & F5)]. unfold PackFrame.verify.
  intros (f2 & _ & (a & Ha & Hk)%result_bind_ok)%result_bind_ok.
  destruct (algorithm_kind (PackFrame.digest f)) as [a'|] eqn:Hkind; [|done]. injection Ha as ->.
  destruct (N.eqb_spec (PackFrame.size f) (digest_size (PackFrame.digest f))) as [Hsz|]; [|done].
  destruct (String.eqb_spec (finalize_hashers a (PackFrame.hashers f)) (digest_hash (PackFrame.digest f)))
    as [Hh|]; [|done].
  split; [congruence|]. exists a. split; [done|].
  rewrite F4, <-Hh, (F5 a eq_refl). apply hashers_streaming.
Qed.
End Frames.

(** ** The request and its tasks *)

(** A budget with permits given back. *)
Definition give (n : N) (b : SpoolBudget.t) : SpoolBudget.t := N.add n <$> b.

Lemma give_give n m b : give n (give m b) = give (n + m) b.
Proof. destruct b; cbn; [|done]. f_equal. lia. Qed.

Lemma give_middle a n m b : give (a + (n + m)) b = give (a + m) (give n b).
Proof. rewrite give_give. f_equal. lia. Qed.

Lemma give_0 b : give 0 b = b.
Proof. by destruct b. Qed.

Lemma release_give b held : SpoolBudget.release b held = give (default 0%N held) b.
Proof. destruct b, held; cbn; f_equal; lia. Qed.

#[local] Arguments give : simpl never.
#[local] Arguments SpoolBudget.release : simpl never.

Section Requests.
Context `{Protocol} `{HashLaws} `{Hex} `{!ProtocolLaws} `{!HexLaws} `{Records} `{!JsonText} `{!Documents}
  `{!Jwt} `{!AuthJson} `{!Tokio} `{!Constants}.
Context {MS BS : Type} `{!MetadataStore MS} `{!BlobStore BS}.
Context `{!MetadataLaws MS} `{!BlobLaws BS} {retention : Retention}.
Notation AppState := (AppState (MS:=MS) (BS:=BS)).
Implicit Types w : AppState.

(** What a step may do to the state that other requests share; an expiry too,
    where objects are not retained. *)
Record shared_step w w' : Prop := {
  shared_inv : store_inv w -> store_inv w';
  shared_grow : objects_grow w w';
  shared_concurrency : pack_store_concurrency w' = pack_store_concurrency w;
}.

Lemma shared_refl w w' :
  metadata w' = metadata w -> blobs w' = blobs w ->
  pack_store_concurrency w' = pack_store_concurrency w -> shared_step w w'.
Proof.
  intros Hm Hb Hc. assert (same_stores w w') as Hs by (split; by rewrite ?Hm, ?Hb).
  split; [|by apply same_stores_grow|done]. intros Hinv.
  apply (store_inv_step w); [done|rewrite Hm; apply Hinv|by apply same_stores_grow|].
  intros ns d. rewrite Hm. by left.
Qed.

Lemma shared_trans w1 w2 w3 : shared_step w1 w2 -> shared_step w2 w3 -> shared_step w1 w3.
Proof. intros [A1 B1 C1] [A2 B2 C2]. split; [auto|by etransitivity|congruence]. Qed.

Definition store_entry (s : Store) : option (Digest * bytes) :=
  match s with Storing f | Registering f _ => Some (frame_entry f) | Stored _ => None end.

(** What a task holds has been verified; what it registers is stored, where
    objects are retained. *)
Definition store_ok w (s : Store) : Prop :=
  match s with
  | Storing f => content_matches (PackFrame.digest f) (written (PackFrame.file f)) /\
      digest_u64 (PackFrame.digest f)
  | Registering f _ => (retains -> is_Some (objects (blobs w) (PackFrame.digest f))) /\
      digest_validate (PackFrame.digest f) = Ok tt /\ digest_u64 (PackFrame.digest f)
  | Stored _ => True
  end.

Lemma store_ok_grow w w' s : objects_grow w w' -> store_ok w s -> store_ok w' s.
Proof. destruct s; cbn; [done| |done]. intros Hg (? & ? & ?). split; [intros Hk; eapply grow_some; eauto|done]. Qed.

(** An entry is stored, if it is retained, and, if nothing else takes it away,
    visible. *)
Definition settled (ns : string) (quiet : Prop) w (e : Digest * bytes) : Prop :=
  digest_validate e.1 = Ok tt /\ (retains -> is_Some (objects (blobs w) e.1)) /\
  (quiet -> view_blob (view (metadata w)) ns e.1 = true).

Lemma run_store_ok ns quiet s w w' s' :
  store_inv w -> store_ok w s -> run_store ns s w = (w', s') ->
  shared_step w w' /\ store_ok w' s' /\
  (forall d, view_blob (view (metadata w)) ns d = true -> view_blob (view (metadata w')) ns d = true) /\
  (forall e, store_entry s = Some e ->
     settled ns quiet w' e \/ store_entry s' = Some e \/ exists err, s' = Stored (Err err)).
Proof.
  intros Hinv Hok. destruct s as [f|f out|res]; cbn [run_store].
  - destruct Hok as [Hm Hu]. pose proof (matches_valid _ _ Hm) as Hval.
    destruct (on_blobs (blob_put _ _) w) as [w1 q] eqn:Hp.
    assert (pack_store_concurrency w1 = pack_store_concurrency w) as Hcon.
    { apply on_blobs_inv in Hp as (b & ? & _ & -> & _). done. }
    apply put_ok in Hp as (Hm1 & Hs1 & Ho1 & Hd1); [|done|by eapply matches_empty].
    assert (uploaded ns (PackFrame.digest f) (written (PackFrame.file f)) w w1) as Hup.
    { split; rewrite ?Hm1; [apply Hinv|done| |by left]. destruct q as [[]|]; naive_solver. }
    assert (shared_step w w1) as Hsh.
    { split; [intros; by eapply uploaded_inv|by eapply uploaded_grow|done]. }
    destruct q as [out|e]; intros [= <- <-]; cbn.
    + split; [done|]. split; [|split; [by rewrite Hm1|by eauto]].
      split; [|done]. destruct out; destruct Hd1 as [Hx Hy]; rewrite Hy; [by eexists|done].
    + split; [|split; [done|split; [by rewrite Hm1|by eauto]]].
      eapply shared_trans; [exact Hsh|]. by apply shared_refl.
  - destruct Hok as (Hstored & Hval & Hu).
    destruct (on_metadata (register_blob _ _ _) w) as [w1 q] eqn:Hr.
    assert (pack_store_concurrency w1 = pack_store_concurrency w) as Hcon.
    { apply on_metadata_inv in Hr as (b & ? & _ & -> & _). done. }
    apply register_ok in Hr as (Hwf1 & Hb1 & Hs1 & Hv1); [|apply Hinv|done].
    assert (view (metadata w1) ≡ view (metadata w) \/
      view (metadata w1) ≡ view_set_blob ns (PackFrame.digest f) true (view (metadata w))) as Hv
      by (destruct q as [[]|]; [by right|done]).
    assert (objects_grow w w1) as Hg by (intros d; rewrite Hb1; by left).
    assert (shared_step w w1) as Hsh.
    { split; [|done|done]. intros _. apply (store_inv_step w); [done..|]. intros ns' d' Hvis.
      destruct Hv as [(Hb & _)|(Hb & _)]; rewrite Hb in Hvis; [by left|].
      cbn in Hvis. unfold upd in Hvis. case_decide as Heq; [|by left].
      injection Heq as -> ->. right. by rewrite Hb1. }
    assert (forall d, view_blob (view (metadata w)) ns d = true ->
      view_blob (view (metadata w1)) ns d = true) as Hmono.
    { intros d Hd. destruct Hv as [(Hb & _)|(Hb & _)]; rewrite Hb; [done|].
      cbn. unfold upd. by case_decide. }
    destruct q as [[]|e]; intros [= <- <-]; cbn.
    + split; [eapply shared_trans; [exact Hsh|]; by apply shared_refl|].
      split; [done|]. split; [done|]. intros e [= <-]. left. split; [done|]. split; cbn.
      * by rewrite Hb1.
      * intros _. destruct Hv1 as (-> & _). cbn. unfold upd. by rewrite decide_True.
    + split; [eapply shared_trans; [exact Hsh|]; by apply shared_refl|].
      split; [done|]. split; [done|]. eauto.
  - intros [= <- <-]. split; [by apply shared_refl|]. done.
Qed.
End Requests.

(** ** The invariant *)

Section Steps.
Context `{Protocol} `{HashLaws} `{Hex} `{!ProtocolLaws} `{!HexLaws} `{Records} `{!JsonText} `{!Documents}
  `{!Jwt} `{!AuthJson} `{!Tokio} `{!Constants}.
Context {MS BS : Type} `{!MetadataStore MS} `{!BlobStore BS}.
Context `{!MetadataLaws MS} `{!BlobLaws BS} {retention : Retention}.
Notation AppState := (AppState (MS:=MS) (BS:=BS)).
Implicit Types w : AppState.

(** Other requests keep the stores' invariant; [quiet] says they take nothing
    from this namespace's sight. *)
Variable env : relation AppState.
Hypothesis env_shared : forall w w', env w w' -> shared_step w w'.

Variables (namespace : string) (declared_blobs declared_bytes : N).
Variables (w0 : AppState) (r0 : PackReader.t) (body0 : RequestBody).
Hypothesis limits : limits_ok r0.
Hypothesis new_reader : r0 = PackReader.new (PackReader.max_blob_bytes r0) (PackReader.max_blobs r0)
  (PackReader.max_payload_bytes r0).

Definition quiet : Prop := forall w w' d, env w w' ->
  view_blob (view (metadata w)) namespace d = true -> view_blob (view (metadata w')) namespace d = true.

Notation step := (pack_step env namespace declared_blobs declared_bytes).
Notation settled := (settled namespace quiet).

Fixpoint store_permits (l : list Store) : N :=
  match l with
  | [] => 0
  | s :: l => default 0 (store_spool s) + store_permits l
  end%N.
Definition permits (q : PackRequest) : N :=
  (default 0 (frame q ≫= PackFrame.spool) + store_permits (stores q))%N.

(** The open frame is the blob the reader is inside of. *)
Definition frame_tracks (f : option PackFrame.t) (open : option (Digest * bytes)) : Prop :=
  match f, open with
  | Some f, Some e => frame_ok f /\ frame_entry f = e
  | None, None => True
  | _, _ => False
  end.

#[local] Arguments frame_tracks : simpl never.

(** A finished blob is settled, in the hands of a task, or its task failed. *)
Definition accounted w (l : list Store) (e : Digest * bytes) : Prop :=
  settled w e \/ Exists (fun s => store_entry s = Some e \/ exists err, s = Stored (Err err)) l.

Record reading w (q : PackRequest) (finished : list (Digest * bytes)) : Prop := {
  read_so_far : exists consumed handled open t,
    body0 = (map Ok consumed ++ body q)%list /\
    PackReader.push_all r0 consumed = (reader q, Ok (handled ++ events q)%list) /\
    foldl (track (PackReader.max_blob_bytes r0)) (Some ([], None)) handled = Some (finished, open) /\
    foldl (track (PackReader.max_blob_bytes r0)) (Some (finished, open)) (events q) = Some t /\
    inside (reader q) t.2 /\ frame_tracks (frame q) open;
  finished_match : Forall (fun e => content_matches e.1 e.2) finished;
  finished_accounted : Forall (accounted w (stores q)) finished;
  finished_counted :
    N.of_nat (length finished) =
    (N.of_nat (length (stores q)) + created (receipt q) + existing (receipt q))%N;
}.

(** What the answer of an accepted pack says. *)
Record accepted w (c : BlobPackReceipt) : Prop := {
  accepted_pack : exists chunks entries,
    body0 = map Ok chunks /\ encode_pack entries = Ok (concat chunks) /\
    Forall (fun e => content_matches e.1 e.2) entries /\ Forall (settled w) entries /\
    (created c + existing c)%N = N.of_nat (length entries) /\
    N.of_nat (length entries) = declared_blobs /\ payload_total entries = declared_bytes;
}.

Record pack_inv w (q : PackRequest) : Prop := {
  pack_store : store_inv w;
  pack_grow : objects_grow w0 w;
  pack_concurrency : pack_store_concurrency w = pack_store_concurrency w0;
  pack_tasks : Forall (store_ok w) (stores q);
  pack_bound : (N.of_nat (length (stores q)) <= N.max 1 (pack_store_concurrency w0))%N;
  pack_phase :
    match phase q with
    | Reading => exists finished, reading w q finished
    | Failed _ => True
    | Cancelled => frame q = None
    | Answered res => frame q = None /\ stores q = [] /\ forall c, res = Ok c -> accepted w c
    end;
}.

(** *** The list of tasks *)

Lemma permits_mid s l1 l2 :
  store_permits (l1 ++ s :: l2) = (default 0 (store_spool s) + store_permits (l1 ++ l2))%N.
Proof. induction l1 as [|s1 l1 IH]; [done|]. cbn [app store_permits]. rewrite IH. lia. Qed.

Lemma exists_mid {A} (P : A -> Prop) x l1 l2 :
  Exists P (l1 ++ x :: l2) <-> P x \/ Exists P (l1 ++ l2).
Proof. rewrite !Exists_app, Exists_cons. tauto. Qed.

Lemma forall_mid {A} (P : A -> Prop) x l1 l2 :
  Forall P (l1 ++ x :: l2) <-> P x /\ Forall P (l1 ++ l2).
Proof. rewrite !Forall_app, Forall_cons. tauto. Qed.

Lemma length_mid {A} (x : A) l1 l2 : length (l1 ++ x :: l2) = S (length (l1 ++ l2)).
Proof. rewrite !length_app. cbn. lia. Qed.

Lemma forall_replace {A} (P Q : A -> Prop) x y l1 l2 :
  (forall z, P z -> Q z) -> Q y -> Forall P (l1 ++ x :: l2) -> Forall Q (l1 ++ y :: l2).
Proof. rewrite !forall_mid. intros HPQ Hy [_ Hl]. split; [done|]. by eapply Forall_impl. Qed.

Lemma settled_shared w w' e :
  objects_grow w w' ->
  (quiet -> forall d, view_blob (view (metadata w)) namespace d = true ->
     view_blob (view (metadata w')) namespace d = true) ->
  settled w e -> settled w' e.
Proof. intros Hg Hv (Hd & Hs & Hq). split_and!; [done|intros Hk; eapply grow_some; eauto|auto]. Qed.

(** What the world may do without the request. *)
Lemma pack_inv_shared w w' q :
  shared_step w w' ->
  (quiet -> forall d, view_blob (view (metadata w)) namespace d = true ->
     view_blob (view (metadata w')) namespace d = true) ->
  pack_inv w q -> pack_inv w' q.
Proof.
  intros [Hi Hg Hc] Hv [I1 I2 I3 I4 I6 I7].
  split; [auto|by etransitivity|congruence| |done|].
  - eapply Forall_impl; [exact I4|]. intros s. by apply store_ok_grow.
  - destruct (phase q) as [| | |res]; [|done..|].
    + destruct I7 as [finished [R1 R2 R3 R4]]. exists finished. split; [done..| |done].
      eapply Forall_impl; [exact R3|]. intros e [Hset|]; [left; by eapply settled_shared|by right].
    + destruct I7 as (? & ? & Hacc). split; [done|]. split; [done|]. intros c Hres.
      destruct (Hacc c Hres) as [(chunks & entries & ? & ? & ? & Hset & ?)]. split.
      exists chunks, entries. split_and!; try done; try tauto.
      eapply Forall_impl; [exact Hset|]. intros e. by apply settled_shared.
Qed.

(** Failing. *)
Lemma pack_inv_failed w q w' q' e :
  pack_inv w q -> metadata w' = metadata w -> blobs w' = blobs w ->
  pack_store_concurrency w' = pack_store_concurrency w ->
  phase q' = Failed e \/ (phase q' = Cancelled /\ frame q' = None) ->
  Forall (store_ok w) (stores q') -> length (stores q') <= length (stores q) ->
  pack_inv w' q'.
Proof.
  intros [I1 I2 I3 I4 I6 I7] Hm Hb Hc Hp Hst Hlen.
  pose proof (shared_refl w w' Hm Hb Hc) as [Hi Hg _].
  split; [auto|by etransitivity|congruence| |lia|].
  - eapply Forall_impl; [exact Hst|]. intros s. by apply store_ok_grow.
  - by destruct Hp as [->|[-> ?]].
Qed.

(** *** Reading *)

Lemma track_grows mb evs t t' :
  foldl (track mb) (Some t) evs = Some t' -> length t.1 <= length t'.1.
Proof.
  revert t; induction evs as [|e evs IH]; intros t; cbn [foldl]; [by intros [= <-]|].
  destruct (track mb (Some t) e) as [t1|] eqn:E; [|by rewrite track_none].
  intros Ht%IH. etransitivity; [|exact Ht]. clear IH Ht.
  destruct t as [fin [[d q]|]], e as [d'|p|]; cbn in E; try done;
    destruct (_ <=? _)%N || destruct (_ =? _)%N; try done; injection E as <-; cbn; [done|rewrite length_app; lia|done].
Qed.

Lemma push_all_snoc r chunks c r1 evs1 :
  PackReader.push_all r chunks = (r1, Ok evs1) ->
  PackReader.push_all r (chunks ++ [c])%list =
  match PackReader.push r1 c with
  | (r2, Ok evs2) => (r2, Ok (evs1 ++ evs2)%list)
  | (r2, Err e) => (r2, Err e)
  end.
Proof.
  revert r evs1; induction chunks as [|c1 chunks IH]; intros r evs1; cbn.
  { intros [= -> <-]. destruct (PackReader.push r1 c) as [r2 [evs2|]]; [by rewrite app_nil_r|done]. }
  destruct (PackReader.push r c1) as [r' [evs'|]]; [|done].
  destruct (PackReader.push_all r' chunks) as [r'' [evs''|]] eqn:E; [|done]. intros [= -> <-].
  rewrite (IH _ _ E). destruct (PackReader.push r1 c) as [r2 [evs2|]]; [by rewrite app_assoc|done].
Qed.

(** What the reader's own invariant says of the blobs that were tracked. *)
Lemma reading_sinv w q finished :
  reading w q finished ->
  exists consumed t, body0 = (map Ok consumed ++ body q)%list /\
    sinv (reader q) (concat consumed) (tracked_all t) /\ same_limits r0 (reader q) /\
    inside (reader q) t.2 /\ length finished <= length t.1 /\
    (events q = [] -> t.1 = finished).
Proof.
  intros [(consumed & handled & open & t & Hbody & Hpush & Htr & Hev & Hin & _) _ _ _].
  exists consumed, t. split; [done|].
  apply (push_all_sinv _ _ [] []) in Hpush as (col & Hcol & Hlim & Hinv);
    [|done|rewrite new_reader; apply sinv_new].
  assert (col = tracked_all t) as ->.
  { assert (foldl (track (PackReader.max_blob_bytes r0)) (Some ([], None)) (handled ++ events q)%list = Some t)
      as Hall%track_collect by (by rewrite foldl_app, Htr).
    change (tracked_all ([], None)) with (@nil (Digest * bytes)) in Hall. congruence. }
  split; [done|]. split; [done|]. split; [done|].
  split; [by apply track_grows in Hev|]. intros Hnil. rewrite Hnil in Hev. by injection Hev as <-.
Qed.

Lemma reading_bound w q finished :
  reading w q finished -> (N.of_nat (length finished) < u64_max)%N.
Proof.
  intros (consumed & t & _ & Hinv & (Hb & Hm & Hp) & _ & Hlen & _)%reading_sinv.
  assert (counts (reader q) (tracked_all t)) as (Hc & _ & Hle & _).
  { destruct Hinv as [_ _ _ -> Hc|? _ _ _ _ _ Hc|c d p fs h _ _ _ _ _ _ _ _ _ _ _ Hc]; done. }
  unfold tracked_all in Hc. rewrite length_app in Hc. destruct limits as [Hl _]. lia.
Qed.

Lemma receipt_bound w q finished :
  reading w q finished ->
  (N.of_nat (length (stores q)) + created (receipt q) + existing (receipt q) < u64_max)%N.
Proof. intros Hr. rewrite <-(finished_counted _ _ _ Hr). by eapply reading_bound. Qed.

Lemma count_ok res c c' :
  (1 + created c + existing c < u64_max)%N -> count res c = Ok c' ->
  is_ok res = true /\ (created c' + existing c' = 1 + created c + existing c)%N.
Proof.
  intros Hlt. unfold count. destruct res as [out|]; [|done]. destruct out; cbn;
    intros [= <-]; cbn; rewrite u64_add_small by (unfold u64_max in *; lia); (split; [done|lia]).
Qed.

Lemma step_chunk w q chunk rest r evs :
  phase q = Reading -> events q = [] -> body q = Ok chunk :: rest ->
  PackReader.push (reader q) chunk = (r, Ok evs) ->
  pack_inv w q -> pack_inv w (set_reader r rest evs q).
Proof.
  intros Hph Hev Hb Hpush [I1 I2 I3 I4 I6 I7]. split; try done. cbn. rewrite Hph in I7 |- *.
  destruct I7 as [finished [R1 R2 R3 R4]]. exists finished. split; [|done..]. cbn.
  destruct R1 as (consumed & handled & open & t & R11 & R12 & R13 & R14 & R15 & R16).
  rewrite Hev in *. injection R14 as <-. rewrite app_nil_r in R12.
  assert (PackReader.max_blob_bytes (reader q) = PackReader.max_blob_bytes r0) as Hmb.
  { apply (push_all_sinv _ _ [] []) in R12 as (? & _ & (? & _ & _) & _);
      [done|done|rewrite new_reader; apply sinv_new]. }
  pose proof Hpush as Htr. apply (push_tracked _ _ (finished, open)) in Htr as (t' & Hin' & _ & Ht'); [|done].
  exists (consumed ++ [chunk])%list, handled, open, t'. split_and!; try done.
  - by rewrite map_app, <-app_assoc, R11, Hb.
  - by rewrite (push_all_snoc _ _ _ _ _ R12), Hpush.
  - by rewrite <-Hmb.
Qed.

(** An event that was handled. *)
Lemma read_event w q finished e evs finished' open' f :
  (forall open, frame_tracks (frame q) open ->
     forall t, foldl (track (PackReader.max_blob_bytes r0)) (track (PackReader.max_blob_bytes r0) (Some (finished, open)) e) evs = Some t ->
     track (PackReader.max_blob_bytes r0) (Some (finished, open)) e = Some (finished', open')) ->
  frame_tracks f open' -> events q = e :: evs -> reading w q finished ->
  exists consumed handled open t,
    body0 = (map Ok consumed ++ body q)%list /\
    PackReader.push_all r0 consumed = (reader q, Ok (handled ++ evs)%list) /\
    foldl (track (PackReader.max_blob_bytes r0)) (Some ([], None)) handled = Some (finished', open) /\
    foldl (track (PackReader.max_blob_bytes r0)) (Some (finished', open)) evs = Some t /\
    inside (reader q) t.2 /\ frame_tracks f open.
Proof.
  intros Hone Hf Hev [(consumed & handled & open & t & R11 & R12 & R13 & R14 & R15 & R16) _ _ _].
  rewrite Hev in *. cbn [foldl] in R14. specialize (Hone open R16 t R14).
  exists consumed, (handled ++ [e])%list, open', t. rewrite <-app_assoc. split_and!; try done.
  - by rewrite foldl_app, R13.
  - by rewrite Hone in R14.
Qed.

Lemma foldl_track_some mb acc evs t :
  foldl (track mb) acc evs = Some t -> exists t0, acc = Some t0.
Proof. destruct acc; [eauto|]. by rewrite track_none. Qed.

(** The step left the stores, the receipt and what is finished alone. *)
Lemma reading_event w q q' finished :
  reading w q finished -> stores q' = stores q -> receipt q' = receipt q ->
  (exists consumed handled open t,
    body0 = (map Ok consumed ++ body q')%list /\
    PackReader.push_all r0 consumed = (reader q', Ok (handled ++ events q')%list) /\
    foldl (track (PackReader.max_blob_bytes r0)) (Some ([], None)) handled = Some (finished, open) /\
    foldl (track (PackReader.max_blob_bytes r0)) (Some (finished, open)) (events q') = Some t /\
    inside (reader q') t.2 /\ frame_tracks (frame q') open) ->
  reading w q' finished.
Proof. intros [_ R2 R3 R4] Hs Hr Hread. split; rewrite ?Hs, ?Hr; done. Qed.

Lemma step_started w q d evs fs w' q' :
  phase q = Reading -> events q = Started d :: evs ->
  on_started d fs w (set_events evs q) = (w', q') -> pack_inv w q -> pack_inv w' q'.
Proof.
  intros Hph Hev Hon Hinv. unfold on_started in Hon.
  destruct (SpoolBudget.reserve (spool w) (digest_size d)) as [b [held|e]] eqn:Hres.
  2:{ apply reserve_refused in Hres as ->. injection Hon as <- <-.
      eapply pack_inv_failed; [exact Hinv|done..|by left|by apply Hinv|done]. }
  clear Hres. destruct (PackFrame.new d held fs) as [f|e] eqn:Hnew.
  2:{ injection Hon as <- <-. eapply pack_inv_failed; [exact Hinv|done..|by left|by apply Hinv|done]. }
  destruct Hinv as [I1 I2 I3 I4 I6 I7]. rewrite Hph in I7. destruct I7 as [finished Hread].
  assert (frame q = None /\ digest_u64 d) as [Hnone Hu].
  { destruct Hread as [(consumed & handled & open & t & _ & _ & _ & R14 & _ & R16) _ _ _].
    rewrite Hev in R14. cbn [foldl] in R14. pose proof (foldl_track_some _ _ _ _ R14) as [t0 Ht0].
    cbn in Ht0. destruct open as [[d' p']|]; [done|]. destruct (frame q); [done|]. split; [done|].
    destruct (N.leb_spec (digest_size d) (PackReader.max_blob_bytes r0)); [|done].
    destruct limits as [_ Hl]. unfold digest_u64. lia. }
  apply frame_new_ok in Hnew as (Hok & Hentry & Hheld); [|done].
  unfold drop_frame in Hon. cbn [frame set_events] in Hon. rewrite Hnone in Hon. injection Hon as <- <-.
  pose proof (shared_refl w (set_spool b w) eq_refl eq_refl eq_refl) as [Hi Hg _].
  split; cbn; try done.
  - auto.
  - rewrite Hph. exists finished.
    assert (reading (set_spool b w) q finished) as Hread' by (destruct Hread; by split).
    eapply (reading_event _ q); [done..|]. cbn.
    eapply (read_event w q finished (Started d) evs finished (Some (d, []))); [|by split|done|done].
    intros open Hfr t Ht. apply foldl_track_some in Ht as [t0 Ht0].
    rewrite Hnone in Hfr. destruct open; [done|]. rewrite Ht0. cbn in Ht0. by destruct (_ <=? _)%N.
Qed.

Lemma step_payload w q p evs :
  phase q = Reading -> events q = Payload p :: evs ->
  pack_inv w q -> pack_inv w (on_payload p (set_events evs q)).
Proof.
  intros Hph Hev Hinv. unfold on_payload. cbn [frame set_events].
  destruct (frame q) as [f|] eqn:Hf.
  2:{ eapply pack_inv_failed; [exact Hinv|done..|by left|by apply Hinv|done]. }
  destruct (PackFrame.write p f) as [f'|e] eqn:Hw.
  2:{ eapply pack_inv_failed; [exact Hinv|done..|by left|by apply Hinv|done]. }
  destruct Hinv as [I1 I2 I3 I4 I6 I7]. rewrite Hph in I7. destruct I7 as [finished Hread].
  assert (frame_ok f /\ (N.of_nat (length (written (PackFrame.file f) ++ p)) <=
    digest_size (PackFrame.digest f))%N) as [Hok Hfit].
  { destruct Hread as [(consumed & handled & open & t & _ & _ & _ & R14 & _ & R16) _ _ _].
    rewrite Hev in R14. cbn [foldl] in R14. apply foldl_track_some in R14 as [t0 Ht0].
    rewrite Hf in R16. destruct open as [e|]; [|done]. destruct R16 as [Hok <-]. cbn in Ht0.
    split; [done|]. by destruct (N.leb_spec (N.of_nat (length (written (PackFrame.file f) ++ p)))
      (digest_size (PackFrame.digest f))). }
  apply (frame_write_ok p) in Hw as (Hok' & Hentry & Hheld); [|done..].
  split; cbn; try done.
  - rewrite Hph. exists finished. eapply (reading_event _ q); [done..|]. cbn.
    eapply (read_event w q finished (Payload p) evs finished (Some (frame_entry f')));
      [|exact (conj Hok' eq_refl)|done|done].
    intros open Hfr t Ht. apply foldl_track_some in Ht as [t0 Ht0].
    rewrite Hf in Hfr. destruct open as [e|]; [|done]. destruct Hfr as [_ <-]. rewrite Ht0.
    unfold frame_entry in Ht0. cbn in Ht0. rewrite Hentry. by destruct (_ <=? _)%N.
Qed.

(** A frame that verified is handed to a task; its blob is finished. *)
Lemma step_spawn w q evs f :
  phase q = Reading -> events q = Complete :: evs -> frame q = Some f ->
  PackFrame.verify f = Ok tt -> (N.of_nat (length (stores q)) < N.max 1 (pack_store_concurrency w0))%N ->
  pack_inv w q -> pack_inv w (spawn f (set_events evs q)).
Proof.
  intros Hph Hev Hf Hver Hlen [I1 I2 I3 I4 I6 I7]. rewrite Hph in I7. destruct I7 as [finished Hread].
  assert (frame_ok f) as Hok.
  { destruct Hread as [(? & ? & open & ? & _ & _ & _ & _ & _ & R16) _ _ _].
    rewrite Hf in R16. destruct open as [e|]; [|done]. by destruct R16. }
  pose proof (frame_verified f Hok Hver) as Hmatch.
  split; cbn; try done.
  - apply Forall_app. split; [done|]. apply Forall_singleton. split; [done|apply Hok].
  - rewrite length_app. cbn. lia.
  - rewrite Hph. exists (finished ++ [frame_entry f])%list. split.
    + eapply (read_event w q finished Complete evs _ None None); [|exact I|done|done].
      intros open Hfr t Ht. apply foldl_track_some in Ht as [t0 Ht0].
      rewrite Hf in Hfr. destruct open as [e|]; [|done]. destruct Hfr as [_ <-].
      unfold frame_entry in *. cbn in Ht0 |- *. by destruct (_ =? _)%N.
    + apply Forall_app. split; [apply Hread|]. by apply Forall_singleton.
    + apply Forall_app. split.
      * eapply Forall_impl; [apply (finished_accounted _ _ _ Hread)|]. intros e [|Hex]; [by left|right]. cbn.
        rewrite Exists_app. by left.
      * apply Forall_singleton. right. cbn. rewrite Exists_app, Exists_cons. right. left. by left.
    + cbn. rewrite !length_app, !Nat2N.inj_add. cbn [length]. rewrite (finished_counted _ _ _ Hread). lia.
Qed.

(** A finished task is counted. *)
Lemma step_count w q l1 res l2 c :
  phase q = Reading -> stores q = (l1 ++ Stored res :: l2)%list -> count res (receipt q) = Ok c ->
  pack_inv w q -> pack_inv w (set_receipt c (set_stores (l1 ++ l2)%list q)).
Proof.
  intros Hph Hst Hc [I1 I2 I3 I4 I6 I7]. rewrite Hph in I7. destruct I7 as [finished Hread].
  pose proof (receipt_bound _ _ _ Hread) as Hlt. rewrite Hst in *. rewrite length_mid in *.
  apply count_ok in Hc as [Hres Hc]; [|lia].
  split; cbn; try done.
  - by apply forall_mid in I4 as [_ ?].
  - lia.
  - rewrite Hph. exists finished. destruct Hread as [R1 R2 R3 R4]. split; cbn; try done.
    + eapply Forall_impl; [exact R3|]. rewrite Hst. intros e [|Hex]; [by left|right].
      apply exists_mid in Hex as [[Hno|[err [= ->]]]|]; done.
    + rewrite R4, Hst, length_mid. lia.
Qed.

(** A task makes a call, or panics. *)
Lemma step_task w q l1 s l2 w' s' :
  stores q = (l1 ++ s :: l2)%list -> shared_step w w' -> store_ok w' s' ->
  (quiet -> forall d, view_blob (view (metadata w)) namespace d = true ->
     view_blob (view (metadata w')) namespace d = true) ->
  (forall e, store_entry s = Some e ->
     settled w' e \/ store_entry s' = Some e \/ exists err, s' = Stored (Err err)) ->
  (forall err, s = Stored (Err err) -> s' = s) ->
  pack_inv w q -> pack_inv w' (set_stores (l1 ++ s' :: l2)%list q).
Proof.
  intros Hst Hsh Hok Hv Hent Herr Hinv.
  destruct Hsh as [Hi Hg Hc], Hinv as [I1 I2 I3 I4 I6 I7]. rewrite Hst in I4, I6.
  split; cbn; try done.
  - auto.
  - by etransitivity.
  - congruence.
  - eapply forall_replace; [|exact Hok|exact I4]. intros s1. by apply store_ok_grow.
  - rewrite length_mid in *. lia.
  - destruct (phase q) as [| | |res]; [|done|done|].
    + destruct I7 as [finished [R1 R2 R3 R4]]. exists finished. split; cbn; try done.
      * eapply Forall_impl; [exact R3|]. rewrite Hst. intros e [Hset|Hex].
        { left. by eapply settled_shared. }
        apply exists_mid in Hex as [[He|[err He]]|Hex].
        -- apply Hent in He as [|He]; [by left|right]. apply exists_mid. by left.
        -- right. apply exists_mid. left. right. rewrite (Herr _ He). eauto.
        -- right. apply exists_mid. by right.
      * by rewrite R4, Hst, !length_mid.
    + destruct I7 as (_ & Hnil & _). rewrite Hst in Hnil. by destruct l1.
Qed.

Lemma drop_frame_ok w q w' q' :
  drop_frame w q = (w', q') ->
  metadata w' = metadata w /\ blobs w' = blobs w /\
  pack_store_concurrency w' = pack_store_concurrency w /\
  stores q' = stores q /\ frame q' = None /\ receipt q' = receipt q /\ reader q' = reader q /\
  give (permits q') (spool w') = give (permits q) (spool w).
Proof.
  unfold drop_frame. destruct (frame q) as [f|] eqn:Hf; intros [= <- <-]; split_and!; try done.
  unfold permits. cbn. rewrite release_give, give_give, Hf. cbn. f_equal. lia.
Qed.

(** The answer of a request that met no error is that of its whole body. *)
Lemma step_finish w q c :
  phase q = Reading -> events q = [] -> body q = [] -> stores q = [] ->
  answer_pack declared_blobs declared_bytes q = Ok c ->
  pack_inv w q -> accepted w c.
Proof.
  intros Hph Hev Hb Hst Hans [I1 I2 I3 I4 I6 I7]. rewrite Hph in I7. destruct I7 as [finished Hread].
  destruct (reading_sinv _ _ _ Hread) as (chunks & t & Hbody & Hinv & Hlim & Hin & _ & Hfin).
  specialize (Hfin Hev). rewrite Hb, app_nil_r in Hbody.
  unfold answer_pack in Hans. apply result_bind_ok in Hans as ([] & Hf & Hk).
  destruct (PackReader.finish (reader q)) as [[]|] eqn:Hfinish; [|done].
  destruct (N.eqb_spec (PackReader.blobs (reader q)) declared_blobs) as [Hblobs|]; [|done].
  destruct (N.eqb_spec (PackReader.payload_bytes (reader q)) declared_bytes) as [Hbytes|]; [|done].
  injection Hk as <-.
  assert (tracked_all t = finished) as Hall.
  { unfold PackReader.finish in Hfinish. case_bool_decide as Hstate; [|done].
    unfold inside in Hin. rewrite Hstate in Hin. unfold tracked_all. rewrite Hfin.
    destruct t.2; [done|]. apply app_nil_r. }
  rewrite Hall in Hinv.
  destruct (sinv_finished _ _ _ (limits_ok_same _ _ Hlim limits) Hinv Hfinish) as [Henc _].
  assert (counts (reader q) finished) as (Hc1 & Hc2 & _).
  { destruct Hinv as [_ _ _ -> Hc|? _ _ _ _ _ Hc|? ? ? ? ? _ _ _ _ _ _ _ _ _ _ _ Hc]; done. }
  split. exists chunks, finished. destruct Hread as [_ R2 R3 R4]. rewrite Hst in R3, R4. cbn in R4.
  split_and!; [done..| |lia|congruence|congruence].
  eapply Forall_impl; [exact R3|]. intros e [|Hex]; [done|]. by apply Exists_nil in Hex.
Qed.

Lemma pack_inv_answered w q w1 q1 w' res :
  stores q = [] -> drop_frame w q = (w1, q1) ->
  metadata w' = metadata w1 -> blobs w' = blobs w1 ->
  pack_store_concurrency w' = pack_store_concurrency w1 ->
  (forall c, res = Ok c -> accepted w c) -> pack_inv w q -> pack_inv w' (set_phase (Answered res) q1).
Proof.
  intros Hst (Hm & Hb & Hc & Hst1 & Hf1 & _ & _ & Hperm)%drop_frame_ok Hm' Hb' Hc' Hacc [I1 I2 I3 I4 I6 I7].
  pose proof (shared_refl w w' ltac:(congruence) ltac:(congruence) ltac:(congruence)) as [Hi Hg _].
  rewrite Hst in Hst1. split; cbn; rewrite ?Hst1; auto.
  - by etransitivity.
  - congruence.
  - cbn. lia.
  - split; [done|]. split; [done|]. intros c Hres. destruct (Hacc c Hres) as [(chunks & entries & ?)].
    split. exists chunks, entries. split_and!; try tauto.
    eapply Forall_impl; [|intros e; apply (settled_shared w w'); [done|]]; [tauto|].
    intros _ d. by rewrite Hm', Hm.
Qed.

Lemma pack_inv_step s s' : step s s' -> pack_inv s.1 s.2 -> pack_inv s'.1 s'.2.
Proof.
  intros Hstep Hinv. destruct Hstep as
    [w w' q Henv|w q chunk rest r evs Hph Hev Hb Hpush|w q chunk rest r e Hph Hev Hb Hpush
    |w q error rest Hph Hev Hb|w q d evs fs Hph Hev|w q p evs Hph Hev|w q evs Hph Hev Hf
    |w q evs f e Hph Hev Hf Hver|w q evs f Hph Hev Hf Hver Hlen
    |w q evs f l1 res l2 c Hph Hev Hf Hver Hlen Hst Hc
    |w q evs f l1 res l2 e Hph Hev Hf Hver Hlen Hst Hc|w q l1 s l2 w' s' Hst Hrunning Hrun
    |w q l1 s l2 error Hst Hs|w q l1 res l2 c Hph Hev Hb Hst Hc|w q l1 res l2 e Hph Hev Hb Hst Hc
    |w q e l1 res l2 Hph Hst|w q e w' q' Hph Hst Hdrop|w q Hph Hev Hb Hst|w q w' q' Hph Hdrop];
    cbn [fst snd] in *.
  - pose proof (env_shared _ _ Henv) as Hsh. apply (pack_inv_shared w); [done| |done].
    intros Hq d. by apply Hq.
  - by eapply step_chunk.
  - eapply pack_inv_failed; [exact Hinv|done..|by left|by apply Hinv|done].
  - eapply pack_inv_failed; [exact Hinv|done..|by left|by apply Hinv|done].
  - destruct (on_started _ _ _ _) as [w' q'] eqn:Hon. by eapply step_started.
  - by apply step_payload.
  - eapply pack_inv_failed; [exact Hinv|done..|by left|by apply Hinv|done].
  - eapply pack_inv_failed; [exact Hinv|done..|by left|by apply Hinv|done].
  - apply step_spawn; try done. pose proof (pack_concurrency _ _ Hinv).
    destruct Hlen as [|Hnil]; [lia|]. rewrite Hnil. cbn. lia.
  - pose proof (pack_bound _ _ Hinv) as Hbound. rewrite Hst, length_mid in Hbound.
    assert (pack_inv w (set_receipt c (set_stores (l1 ++ l2)%list q))) as Hinv'
      by (by eapply step_count).
    eapply (step_spawn w (set_receipt c (set_stores (l1 ++ l2)%list q))); [done..| |done].
    cbn. lia.
  - pose proof (pack_tasks _ _ Hinv) as Htasks. rewrite Hst in Htasks. apply forall_mid in Htasks as [_ ?].
    eapply pack_inv_failed; [exact Hinv|done..|by left|done|].
    cbn. rewrite Hst, length_mid. lia.
  - pose proof (pack_tasks _ _ Hinv) as Htasks. rewrite Hst in Htasks. apply forall_mid in Htasks as [Hok _].
    pose proof Hrun as Hrun'. apply (run_store_ok _ quiet) in Hrun as (Hsh & Hok' & Hv & Hent); [|apply Hinv|done].
    eapply step_task; [done..| |exact Hinv].
    intros err ->. by injection Hrun'.
  - eapply (step_task w q l1 s l2); [done|by apply shared_refl|done|done|by eauto| |exact Hinv].
    intros err ->. by destruct (Hs (Err err)).
  - by eapply step_count.
  - pose proof (pack_tasks _ _ Hinv) as Htasks. rewrite Hst in Htasks. apply forall_mid in Htasks as [_ ?].
    eapply pack_inv_failed; [exact Hinv|done..|by left|done|].
    cbn. rewrite Hst, length_mid. lia.
  - pose proof (pack_tasks _ _ Hinv) as Htasks. rewrite Hst in Htasks. apply forall_mid in Htasks as [_ ?].
    eapply pack_inv_failed; [exact Hinv|done..|by left|done|].
    cbn. rewrite Hst, length_mid. lia.
  - by eapply (pack_inv_answered w q w' q' w').
  - unfold finish_request. destruct (drop_frame w q) as [w1 q1] eqn:Hdrop.
    pose proof (drop_frame_ok _ _ _ _ Hdrop) as (_ & _ & _ & _ & _ & Hrec & Hread & _).
    assert (answer_pack declared_blobs declared_bytes q1 = answer_pack declared_blobs declared_bytes q)
      as -> by (unfold answer_pack; by rewrite Hrec, Hread).
    destruct (answer_pack declared_blobs declared_bytes q) as [c|e] eqn:Hans.
    + eapply pack_inv_answered; [done..| |exact Hinv]. intros c' [= <-]. by eapply step_finish.
    + by eapply (pack_inv_answered w q w1 q1 w1).
  - pose proof (drop_frame_ok _ _ _ _ Hdrop) as (Hm & Hb & Hc & Hst & Hf & _ & _ & Hperm).
    apply (pack_inv_failed w q _ _ (bad_request "")); [exact Hinv|done..|by right|cbn; rewrite Hst; by apply Hinv|cbn; by rewrite Hst].
Qed.

(** *** Permits

    A step of the request conserves them: they are with the budget, with the
    open frame, or with a task. *)

(** A frame that is dropped on failure gives its permits back. *)
Lemma permits_dropped w q q' f :
  frame q = Some f -> frame q' = None -> store_permits (stores q') = store_permits (stores q) ->
  give (permits q') (spool (release_spool (PackFrame.spool f) w)) = give (permits q) (spool w).
Proof.
  intros Hf Hf' Hst. unfold permits. rewrite Hf, Hf', Hst. cbn. rewrite release_give, give_give.
  f_equal. lia.
Qed.

Lemma run_store_permits s w w' s' :
  run_store namespace s w = (w', s') ->
  give (default 0%N (store_spool s')) (spool w') = give (default 0%N (store_spool s)) (spool w).
Proof.
  destruct s as [f|f out|res]; cbn [run_store].
  - destruct (on_blobs _ w) as [w1 q] eqn:Hp. apply on_blobs_inv in Hp as (b & ? & _ & -> & _).
    destruct q as [out|e]; intros [= <- <-]; [done|]. cbn. by rewrite release_give, give_give.
  - destruct (on_metadata _ w) as [w1 q] eqn:Hr. apply on_metadata_inv in Hr as (b & ? & _ & -> & _).
    destruct q as [[]|e]; intros [= <- <-]; cbn; by rewrite release_give, give_give.
  - by intros [= <- <-].
Qed.

Lemma on_started_permits d fs w q w' q' :
  on_started d fs w q = (w', q') -> give (permits q') (spool w') = give (permits q) (spool w).
Proof.
  unfold on_started. destruct (SpoolBudget.reserve _ _) as [b [held|e]] eqn:Hres.
  2:{ apply reserve_refused in Hres as ->. by intros [= <- <-]. }
  apply reserve_release in Hres. rewrite release_give in Hres.
  destruct (PackFrame.new d held fs) as [f|e] eqn:Hnew.
  2:{ intros [= <- <-]. cbn. by rewrite release_give, Hres. }
  destruct (drop_frame (set_spool b w) q) as [w1 q1] eqn:Hdrop.
  apply drop_frame_ok in Hdrop as (_ & _ & _ & Hst & Hf & _ & _ & Hperm). intros [= <- <-].
  unfold PackFrame.new in Hnew. apply result_bind_ok in Hnew as (file & _ & [= <-]).
  unfold permits in *. cbn in *. rewrite Hf in Hperm. cbn in Hperm.
  rewrite N.add_0_l in Hperm. rewrite <-give_give, Hperm, give_give, N.add_comm, <-give_give, Hres. done.
Qed.

Lemma permits_step s s' :
  (forall w w', env w w' -> spool w' = spool w) -> step s s' ->
  give (permits s'.2) (spool s'.1) = give (permits s.2) (spool s.1).
Proof.
  intros Hquiet Hstep. destruct Hstep as
    [w w' q Henv|w q chunk rest r evs Hph Hev Hb Hpush|w q chunk rest r e Hph Hev Hb Hpush
    |w q error rest Hph Hev Hb|w q d evs fs Hph Hev|w q p evs Hph Hev|w q evs Hph Hev Hf
    |w q evs f e Hph Hev Hf Hver|w q evs f Hph Hev Hf Hver Hlen
    |w q evs f l1 res l2 c Hph Hev Hf Hver Hlen Hst Hc
    |w q evs f l1 res l2 e Hph Hev Hf Hver Hlen Hst Hc|w q l1 s l2 w' s' Hst Hrunning Hrun
    |w q l1 s l2 error Hst Hs|w q l1 res l2 c Hph Hev Hb Hst Hc|w q l1 res l2 e Hph Hev Hb Hst Hc
    |w q e l1 res l2 Hph Hst|w q e w' q' Hph Hst Hdrop|w q Hph Hev Hb Hst|w q w' q' Hph Hdrop];
    cbn [fst snd] in *; try done.
  - by rewrite (Hquiet _ _ Henv).
  - destruct (on_started _ _ _ _) as [w' q'] eqn:Hon. by apply on_started_permits in Hon.
  - unfold on_payload. cbn [frame set_events]. destruct (frame q) as [f|] eqn:Hf; [|done].
    destruct (PackFrame.write p f) as [f'|e] eqn:Hw; [|done]. unfold permits. cbn. rewrite Hf.
    unfold PackFrame.write in Hw. ok_step Hw as a _.
    by apply result_bind_ok in Hw as (file & _ & [= <-]).
  - by apply permits_dropped.
  - unfold permits. cbn. rewrite permits_mid, app_nil_r, Hf. done.
  - unfold permits. cbn. rewrite permits_mid, app_nil_r, Hf, Hst, permits_mid. done.
  - apply permits_dropped; [done..|]. cbn. by rewrite Hst, permits_mid.
  - apply run_store_permits in Hrun. unfold permits. cbn. by rewrite Hst, !permits_mid, !give_middle, Hrun.
  - unfold permits. cbn. rewrite Hst, !permits_mid, !give_middle, release_give. cbn. by rewrite give_0.
  - unfold permits. cbn. by rewrite Hst, permits_mid.
  - unfold permits. cbn. by rewrite Hst, permits_mid.
  - unfold permits. cbn. by rewrite Hst, permits_mid.
  - by apply drop_frame_ok in Hdrop as (_ & _ & _ & _ & _ & _ & _ & ?).
  - unfold finish_request. destruct (drop_frame w q) as [w1 q1] eqn:Hdrop.
    apply drop_frame_ok in Hdrop as (_ & _ & _ & _ & _ & _ & _ & ?). by destruct (answer_pack _ _ q1).
  - by apply drop_frame_ok in Hdrop as (_ & _ & _ & _ & _ & _ & _ & ?).
Qed.

Lemma permits_run s s' :
  (forall w w', env w w' -> spool w' = spool w) -> rtc step s s' ->
  give (permits s'.2) (spool s'.1) = give (permits s.2) (spool s.1).
Proof.
  intros Hquiet Hrun. induction Hrun as [|s1 s2 s3 Hstep _ IH]; [done|].
  by rewrite IH, (permits_step _ _ Hquiet Hstep).
Qed.

Lemma pack_inv_run s s' : rtc step s s' -> pack_inv s.1 s.2 -> pack_inv s'.1 s'.2.
Proof. intros Hrun. induction Hrun; eauto using pack_inv_step. Qed.

End Steps.

(** ** Whole requests *)

Section Theorems.
Context `{Protocol} `{HashLaws} `{Hex} `{!ProtocolLaws} `{!HexLaws} `{Records} `{!JsonText} `{!Documents}
  `{!Jwt} `{!AuthJson} `{!Tokio} `{!Constants}.
Context {MS BS : Type} `{!MetadataStore MS} `{!BlobStore BS}.
Context `{!MetadataLaws MS} `{!BlobLaws BS} {retention : Retention}.
Notation AppState := (AppState (MS:=MS) (BS:=BS)).
Implicit Types w : AppState.

(** Room for the reader's counters in 64 bits. *)
Definition config_ok w : Prop :=
  (MAX_BATCH_ITEMS < u64_max)%N /\ (2 * max_blob_bytes w < u64_modulus)%N.

Lemma put_blob_pack_ok m headers body w w' ns blobs' bytes' q :
  put_blob_pack m headers body w = (w', Ok (ns, blobs', bytes', q)) ->
  authorized m headers Write w = (w', Ok ns) /\ metadata w' = metadata w /\ App.blobs w' = App.blobs w /\
  pack_store_concurrency w' = pack_store_concurrency w /\ max_blob_bytes w' = max_blob_bytes w /\
  spool w' = spool w /\
  required_u64_header headers PACK_BLOBS_HEADER = Ok blobs' /\
  required_u64_header headers PACK_BYTES_HEADER = Ok bytes' /\
  (blobs' <= MAX_BATCH_ITEMS)%N /\ (bytes' <= max_blob_bytes w)%N /\
  q = mkRequest (PackReader.new (max_blob_bytes w) blobs' bytes') body [] None [] (mkReceipt 0 0) Reading.
Proof.
  unfold put_blob_pack. intros (w1 & ns' & Hauth & Hk)%m_bind_ok.
  destruct (authorized_inv _ _ _ _ _ _ Hauth) as [a ->].
  m_step Hk as w2 db [= <- Hdb].
  m_step Hk as w2 dby [= <- Hdby].
  m_step Hk as w2 st [= <- <-]. cbn [max_blob_bytes set_auth] in Hk.
  destruct (N.ltb_spec MAX_BATCH_ITEMS db); [done|]. destruct (N.ltb_spec (max_blob_bytes w) dby); [done|].
  injection Hk as <- <- <- <- <-. done.
Qed.

(** The invariant holds when the request starts. *)
Lemma pack_inv_start env ns blobs' bytes' body w :
  store_inv w ->
  pack_inv env ns blobs' bytes' w (PackReader.new (max_blob_bytes w) blobs' bytes') body w
    (mkRequest (PackReader.new (max_blob_bytes w) blobs' bytes') body [] None [] (mkReceipt 0 0) Reading).
Proof.
  intros Hinv. split; cbn; try done.
  - lia.
  - exists []. split; [|constructor..|done]. exists [], [], None, ([], None). by split_and!.
Qed.

Lemma limits_start blobs' bytes' w :
  config_ok w -> (blobs' <= MAX_BATCH_ITEMS)%N -> (bytes' <= max_blob_bytes w)%N ->
  limits_ok (PackReader.new (max_blob_bytes w) blobs' bytes').
Proof. intros [Hb Hm] ? ?. unfold limits_ok. cbn. lia. Qed.

(** Whatever runs from the start of a request keeps the invariant. *)
Lemma pack_run env m headers body w w' ns blobs' bytes' q w'' q'' :
  store_inv w -> config_ok w ->
  (forall w1 w2, env w1 w2 -> shared_step w1 w2) ->
  put_blob_pack m headers body w = (w', Ok (ns, blobs', bytes', q)) ->
  rtc (pack_step env ns blobs' bytes') (w', q) (w'', q'') ->
  pack_inv env ns blobs' bytes' w' (PackReader.new (max_blob_bytes w') blobs' bytes') body w'' q'' /\
  objects_grow w w' /\ spool w' = spool w /\ pack_store_concurrency w' = pack_store_concurrency w.
Proof.
  intros Hinv Hconfig Henv Hstart Hrun.
  apply put_blob_pack_ok in Hstart as (_ & Hm & Hb & Hc & Hmax & Hsp & _ & _ & Hle & Hle2 & ->).
  pose proof (shared_refl w w' Hm Hb Hc) as [Hi Hg _]. rewrite <-Hmax in *.
  assert (config_ok w') as Hconfig' by (destruct Hconfig; split; congruence).
  apply (pack_inv_run env Henv ns blobs' bytes' w' _ body (limits_start _ _ _ Hconfig' Hle Hle2) eq_refl) in Hrun;
    [|by apply pack_inv_start; auto].
  done.
Qed.

(** While a pack is uploaded, at every moment and whatever other requests,
    failing stores, failing files, panicking tasks or a dropped connection do,
    the stores keep their invariant: nothing is stored under a digest it does
    not match, no object changes or is lost but by an expiry, and no blob becomes
    visible before it is stored. At most [pack_store_concurrency] frames are being stored at once. *)
Theorem pack_upload_safe env m headers body w w' ns blobs' bytes' q w'' q''
    (Hinv : store_inv w) (Hconfig : config_ok w)
    (Henv : forall w1 w2, env w1 w2 -> shared_step w1 w2)
    (Hstart : put_blob_pack m headers body w = (w', Ok (ns, blobs', bytes', q)))
    (Hrun : rtc (pack_step env ns blobs' bytes') (w', q) (w'', q'')) :
  store_inv w'' /\ objects_grow w w'' /\
  (N.of_nat (length (stores q'')) <= N.max 1 (pack_store_concurrency w))%N.
Proof.
  eapply pack_run in Hrun as (Hrun & Hg & _ & Hc); [|done..].
  rewrite <-Hc. split; [apply Hrun|]. split; [|by eapply pack_bound].
  etransitivity; [exact Hg|apply Hrun].
Qed.

(** C10. A pack that is answered with a receipt was well-formed and carried what
    its headers declared: every one of its blobs matches its digest and, where
    objects are retained, is stored, the receipt counts each of them once, and
    the namespace sees them all, unless another request or an expiry took one
    from its sight meanwhile. *)
Theorem pack_upload_complete env m headers body w w' ns blobs' bytes' q w'' q'' c
    (Hinv : store_inv w) (Hconfig : config_ok w)
    (Henv : forall w1 w2, env w1 w2 -> shared_step w1 w2)
    (Hstart : put_blob_pack m headers body w = (w', Ok (ns, blobs', bytes', q)))
    (Hrun : rtc (pack_step env ns blobs' bytes') (w', q) (w'', q''))
    (Hanswer : phase q'' = Answered (Ok c)) :
  exists chunks entries,
    body = map Ok chunks /\ encode_pack entries = Ok (concat chunks) /\
    N.of_nat (length entries) = blobs' /\ payload_total entries = bytes' /\
    (created c + existing c)%N = blobs' /\
    Forall (fun e => content_matches e.1 e.2 /\ (retains -> is_Some (objects (App.blobs w'') e.1)) /\
      (quiet env ns -> view_blob (view (metadata w'')) ns e.1 = true)) entries.
Proof.
  eapply pack_run in Hrun as (Hrun & Hg & _ & Hc); [|done..].
  apply pack_phase in Hrun. rewrite Hanswer in Hrun.
  destruct Hrun as (_ & _ & Hacc). destruct (Hacc c eq_refl) as [(chunks & entries & A1 & A2 & A3 & A4 & A5 & A6 & A7)].
  exists chunks, entries. split_and!; [done..|congruence|].
  apply Forall_forall. intros e He. rewrite Forall_forall in A3, A4. split; [auto|]. by apply A4.
Qed.

(** Once a pack request is answered, with a receipt or an error, every
    spool permit it took is back and no task of it is left; a request that was
    dropped gives them back as its tasks end. (The environment here is one that
    gives back what it takes; the steps of the request conserve permits beside
    any other.) *)
Theorem pack_upload_permits env m headers body w w' ns blobs' bytes' q w'' q''
    (Hinv : store_inv w) (Hconfig : config_ok w)
    (Henv : forall w1 w2, env w1 w2 -> shared_step w1 w2)
    (Hstart : put_blob_pack m headers body w = (w', Ok (ns, blobs', bytes', q)))
    (Hrun : rtc (pack_step env ns blobs' bytes') (w', q) (w'', q''))
    (Hspool : forall w1 w2, env w1 w2 -> spool w2 = spool w1)
    (Hover : (exists res, phase q'' = Answered res) \/
      (phase q'' = Cancelled /\ Forall (fun s => store_spool s = None) (stores q''))) :
  spool w'' = spool w /\ ((exists res, phase q'' = Answered res) -> stores q'' = []).
Proof.
  pose proof (permits_run _ _ _ _ _ _ Hspool Hrun) as Hperm. cbn [fst snd] in Hperm.
  assert (permits q = 0%N) as Hq by (by apply put_blob_pack_ok in Hstart as (_ & _ & _ & _ & _ & _ & _ & _ & _ & _ & ->)).
  eapply pack_run in Hrun as (Hrun & Hg & Hsp & Hc); [|done..]. apply pack_phase in Hrun.
  assert (permits q'' = 0%N) as Hzero.
  { unfold permits. destruct Hover as [[res Hres]|[Hcan Hall]].
    - rewrite Hres in Hrun. destruct Hrun as (-> & -> & _). done.
    - rewrite Hcan in Hrun. rewrite Hrun. cbn. clear -Hall. induction Hall as [|s l Hs Hl IH]; [done|].
      cbn [store_permits]. rewrite Hs. exact IH. }
  rewrite Hzero, Hq, !give_0 in Hperm. split; [congruence|].
  intros [res Hres]. rewrite Hres in Hrun. tauto.
Qed.
End Theorems.
