(* ===== verification/PackTermination.v ===== *)
(** * A pack upload always comes to an end

    However its tasks, the stores and the other requests are scheduled, a
    request has only finitely many steps of its own, and it is never stuck
    before it is answered: the two together make it end. *)
From Stdlib Require Import Wf_nat Inverse_Image.
From stdpp Require Import pretty.
From S2P Require Import Prelude Str Protocol Api Json Model Records Oidc Auth Spool Access.
From S2P Require Import Metrics App Pack Blobs BlobsProofs PackUpload PackUploadProofs.

Local Open Scope mbx_scope.

Section Termination.
Context `{Protocol} `{Hashes} `{Hex} `{Records} `{!JsonText} `{!Documents}
  `{!Jwt} `{!AuthJson} `{!Tokio} `{!Constants}.
Context {MS BS : Type} `{!MetadataStore MS} `{!BlobStore BS}.
Notation AppState := (AppState (MS:=MS) (BS:=BS)).
Implicit Types w : AppState.

(** ** What a step of the request uses up *)

Definition task_weight (s : Store) : nat :=
  match s with Storing _ => 3 | Registering _ _ => 2 | Stored _ => 1 end.
Definition tasks_weight (l : list Store) : nat := sum_list (map task_weight l).

Definition phase_weight (p : Phase) : nat :=
  match p with Reading => 2 | Failed _ => 1 | Cancelled | Answered _ => 0 end.

(** Chunks become events, events become tasks, and tasks end. *)
Definition weight (q : PackRequest) : nat * (nat * (nat * nat)) :=
  (phase_weight (phase q), (length (body q), (length (events q), tasks_weight (stores q)))).

Definition lex {A B} (R : relation A) (S : relation B) : relation (A * B) :=
  fun p p' => R p.1 p'.1 \/ (p.1 = p'.1 /\ S p.2 p'.2).

Lemma lex_wf {A B} (R : relation A) (S : relation B) : well_founded R -> well_founded S -> well_founded (lex R S).
Proof.
  intros HR HS [a b]. revert b. induction (HR a) as [a _ IHa]. intros b.
  induction (HS b) as [b _ IHb]. constructor. intros [a' b'] [Ha|[Ha Hb]]; cbn in *.
  - by apply IHa.
  - subst a'. by apply IHb.
Qed.

Definition lighter (q' q : PackRequest) : Prop :=
  lex lt (lex lt (lex lt lt)) (weight q') (weight q).

Lemma lighter_wf : well_founded lighter.
Proof. apply (wf_inverse_image _ _ _ weight). repeat apply lex_wf; apply lt_wf. Qed.

Lemma lighter_phase q' q : phase_weight (phase q') < phase_weight (phase q) -> lighter q' q.
Proof. by left. Qed.

Lemma lighter_tasks q' q :
  phase q' = phase q -> body q' = body q -> events q' = events q ->
  tasks_weight (stores q') < tasks_weight (stores q) -> lighter q' q.
Proof. intros Hp Hb He Hlt. unfold lighter, weight. rewrite Hp, Hb, He. do 3 (right; split; [done|]). done. Qed.

Lemma lighter_event q' q e :
  phase q = Reading -> events q = e :: events q' -> body q' = body q ->
  phase q' = Reading \/ (exists error, phase q' = Failed error) -> lighter q' q.
Proof.
  intros Hp He Hb [Hr|[error Hf]].
  - right. cbn. rewrite Hp, Hr. split; [done|]. right. cbn. rewrite Hb. split; [done|]. left. cbn. rewrite He. cbn. lia.
  - apply lighter_phase. rewrite Hp, Hf. cbn. lia.
Qed.

Lemma tasks_mid s l1 l2 : tasks_weight (l1 ++ s :: l2) = task_weight s + tasks_weight (l1 ++ l2).
Proof.
  unfold tasks_weight. induction l1 as [|s1 l1 IH]; cbn; [done|]. cbn in IH. lia.
Qed.

Lemma drop_frame_rest w q w' q' :
  drop_frame w q = (w', q') ->
  phase q' = phase q /\ body q' = body q /\ events q' = events q /\ stores q' = stores q.
Proof. unfold drop_frame. destruct (frame q); by intros [= _ <-]. Qed.

(** Whatever the state, a step of the request, or of a task of it, uses up some
    of what is left of it. *)
Lemma own_step_lighter ns blobs' bytes' (s s' : AppState * PackRequest) :
  pack_step (fun _ _ => False) ns blobs' bytes' s s' -> lighter s'.2 s.2.
Proof.
  intros Hstep. destruct Hstep as
    [w w' q Henv|w q chunk rest r evs Hph Hev Hb Hpush|w q chunk rest r e Hph Hev Hb Hpush
    |w q error rest Hph Hev Hb|w q d evs fs Hph Hev|w q p evs Hph Hev|w q evs Hph Hev Hf
    |w q evs f e Hph Hev Hf Hver|w q evs f Hph Hev Hf Hver Hlen
    |w q evs f l1 res l2 c Hph Hev Hf Hver Hlen Hst Hc
    |w q evs f l1 res l2 e Hph Hev Hf Hver Hlen Hst Hc|w q l1 s l2 w' s' Hst Hrunning Hrun
    |w q l1 s l2 error Hst Hs|w q l1 res l2 c Hph Hev Hb Hst Hc|w q l1 res l2 e Hph Hev Hb Hst Hc
    |w q e l1 res l2 Hph Hst|w q e w' q' Hph Hst Hdrop|w q Hph Hev Hb Hst|w q w' q' Hph Hdrop];
    cbn [fst snd]; try done.
  - right. split; [done|]. left. cbn. rewrite Hb. cbn. lia.
  - apply lighter_phase. rewrite Hph. cbn. lia.
  - apply lighter_phase. rewrite Hph. cbn. lia.
  - unfold on_started. destruct (SpoolBudget.reserve _ _) as [b [held|e]].
    2:{ apply lighter_phase. cbn. rewrite Hph. cbn. lia. }
    destruct (PackFrame.new _ _ _).
    2:{ apply lighter_phase. cbn. rewrite Hph. cbn. lia. }
    destruct (drop_frame _ _) as [w1 q1] eqn:Hd. apply drop_frame_rest in Hd as (Hp1 & Hb1 & He1 & _).
    eapply lighter_event; [done|by rewrite Hev; cbn; rewrite He1|by cbn; rewrite Hb1|].
    left. cbn. by rewrite Hp1.
  - unfold on_payload. eapply lighter_event; [done| | |]; cbn [frame set_events];
      destruct (frame q) as [f|]; [destruct (PackFrame.write p f)| |destruct (PackFrame.write p f)|
        |destruct (PackFrame.write p f)|]; cbn; eauto.
  - eapply lighter_event; [done..|]. right. by eexists.
  - eapply lighter_event; [done..|]. right. by eexists.
  - eapply lighter_event; [done..|]. by left.
  - eapply lighter_event; [done..|]. by left.
  - eapply lighter_event; [done..|]. right. by eexists.
  - apply lighter_tasks; [done..|]. cbn [stores set_stores set_receipt]. rewrite Hst, !tasks_mid.
    enough (task_weight s' < task_weight s) by lia.
    destruct s as [f|f out|res]; [..|by destruct (Hrunning res)]; cbn in Hrun.
    + destruct (on_blobs _ w) as [w1 [out|e]]; injection Hrun as _ <-; cbn; lia.
    + destruct (on_metadata _ w) as [w1 [out'|e]]; injection Hrun as _ <-; cbn; lia.
  - apply lighter_tasks; [done..|]. cbn [stores set_stores set_receipt]. rewrite Hst, !tasks_mid. cbn.
    destruct s as [f|f out|res]; [cbn; lia..|by destruct (Hs res)].
  - apply lighter_tasks; [done..|]. cbn [stores set_stores set_receipt]. rewrite Hst, !tasks_mid. cbn. lia.
  - apply lighter_phase. rewrite Hph. cbn. lia.
  - apply lighter_tasks; [done..|]. cbn [stores set_stores set_receipt]. rewrite Hst, !tasks_mid. cbn. lia.
  - apply lighter_phase. rewrite Hph. cbn. lia.
  - unfold finish_request. destruct (drop_frame w q) as [w1 q1].
    destruct (answer_pack _ _ _); apply lighter_phase; rewrite Hph; cbn; lia.
  - apply lighter_phase. cbn. destruct Hph as [->|[e ->]]; cbn; lia.
Qed.

(** ** A request is never stuck

    A schedule that goes on whenever there is something to do: the first task
    before the request itself, and no disk fails. *)

Notation no_other := (fun _ _ : AppState => False).
Notation own ns blobs' bytes' := (pack_step no_other ns blobs' bytes').

(** The request takes the outcome of a task that has ended. *)
Definition take_outcome (res : result ApiError PutOutcome) (l : list Store) (w : AppState) (q : PackRequest)
  : AppState * PackRequest :=
  match count res (receipt q) with
  | Ok c => (w, set_receipt c (set_stores l q))
  | Err e => (w, set_phase (Failed e) (set_stores l q))
  end.

(** A blob is complete: the frame is verified and handed to a task. *)
Definition on_complete (evs : list PackEvent) (w : AppState) (q : PackRequest) : AppState * PackRequest :=
  let q := set_events evs q in
  match frame q with
  | None => (w, set_phase (Failed (internal (OtherError "blob pack frame ended before it began"))) q)
  | Some f =>
      match PackFrame.verify f with
      | Err e => (release_spool (PackFrame.spool f) w, set_phase (Failed e) (set_frame None q))
      | Ok _ =>
          if (N.of_nat (length (stores q)) <? pack_store_concurrency w)%N then (w, spawn f q)
          else
            match stores q with
            | Stored res :: l =>
                match count res (receipt q) with
                | Ok c => (w, spawn f (set_receipt c (set_stores l q)))
                | Err e =>
                    (release_spool (PackFrame.spool f) w,
                     set_phase (Failed e) (set_frame None (set_stores l q)))
                end
            | _ => (w, spawn f q)
            end
      end
  end.

Definition read_on (declared_blobs declared_bytes : N) (w : AppState) (q : PackRequest)
  : AppState * PackRequest :=
  match events q with
  | Started d :: evs => on_started d [] w (set_events evs q)
  | Payload p :: evs => (w, on_payload p (set_events evs q))
  | Complete :: evs => on_complete evs w q
  | [] =>
      match body q with
      | Ok chunk :: rest =>
          match PackReader.push (reader q) chunk with
          | (r, Ok evs) => (w, set_reader r rest evs q)
          | (r, Err e) => (w, set_phase (Failed (pack_error e)) (set_reader r rest [] q))
          end
      | Err error :: rest => (w, set_phase (Failed (bad_request error)) q)
      | [] =>
          match stores q with
          | Stored res :: l => take_outcome res l w q
          | _ => finish_request declared_blobs declared_bytes w q
          end
      end
  end.

Definition advance (namespace : string) (declared_blobs declared_bytes : N) (s : AppState * PackRequest)
  : AppState * PackRequest :=
  let '(w, q) := s in
  match stores q, phase q with
  | (Storing _ | Registering _ _) as s :: l, _ =>
      let '(w, s) := run_store namespace s w in (w, set_stores (s :: l) q)
  | _, Reading => read_on declared_blobs declared_bytes w q
  | Stored _ :: l, Failed e => (w, set_stores l q)
  | [], Failed e => let '(w, q) := drop_frame w q in (w, set_phase (Answered (Err e)) q)
  | _, _ => (w, q)
  end.

(** The first task, if there is one, has ended. *)
Definition head_ended (l : list Store) : Prop :=
  match l with [] | Stored _ :: _ => True | _ => False end.

Lemma on_complete_step ns blobs' bytes' w q evs :
  phase q = Reading -> events q = Complete :: evs -> head_ended (stores q) ->
  own ns blobs' bytes' (w, q) (on_complete evs w q) /\ phase (on_complete evs w q).2 <> Cancelled.
Proof.
  intros Hp He Hhead. unfold on_complete. cbn [frame set_events stores receipt].
  destruct (frame q) as [f|] eqn:Hf; [|split; [by apply StepNoFrame|done]].
  destruct (PackFrame.verify f) as [[]|e] eqn:Hver; [|split; [by eapply StepUnverified|done]].
  destruct (N.ltb_spec (N.of_nat (length (stores q))) (pack_store_concurrency w)) as [Hlt|Hge].
  { split; [by apply StepSpawn with (evs := evs) (f := f); auto|]. cbn. by rewrite Hp. }
  destruct (stores q) as [|[f'|f' out|res] l] eqn:Hst; [|done..|].
  { split; [by apply StepSpawn with (evs := evs) (f := f); auto|]. cbn. by rewrite Hp. }
  rewrite <-Hst in Hge. destruct (count res (receipt q)) as [c|e] eqn:Hc; (split; [|cbn; by rewrite ?Hp]).
  - by apply (StepSpawnAfter _ _ _ _ w q evs f [] res l c).
  - by apply (StepSpawnRefused _ _ _ _ w q evs f [] res l e).
Qed.

Lemma on_started_phase d w q :
  phase q = Reading -> phase (on_started d [] w q).2 <> Cancelled.
Proof.
  intros Hp. unfold on_started. destruct (SpoolBudget.reserve _ _) as [b [held|e]]; [|done].
  destruct (PackFrame.new _ _ _); [|done]. destruct (drop_frame _ _) as [w1 q1] eqn:Hd.
  apply drop_frame_rest in Hd as (Hp1 & _). cbn. by rewrite Hp1, Hp.
Qed.

Lemma read_on_step ns blobs' bytes' w q :
  phase q = Reading -> head_ended (stores q) ->
  own ns blobs' bytes' (w, q) (read_on blobs' bytes' w q) /\ phase (read_on blobs' bytes' w q).2 <> Cancelled.
Proof.
  intros Hp Hhead. unfold read_on. destruct (events q) as [|[d|p|] evs] eqn:He.
  - destruct (body q) as [|[chunk|error] rest] eqn:Hb.
    + destruct (stores q) as [|[f'|f' out|res] l] eqn:Hst; [|done..|].
      * split; [by apply StepFinish|]. unfold finish_request. destruct (drop_frame w q).
        by destruct (answer_pack _ _ _).
      * unfold take_outcome. destruct (count res (receipt q)) as [c|e] eqn:Hc; (split; [|cbn; by rewrite ?Hp]).
        -- by apply (StepCollect _ _ _ _ w q [] res l c).
        -- by apply (StepCollectFailed _ _ _ _ w q [] res l e).
    + destruct (PackReader.push (reader q) chunk) as [r [evs|e]] eqn:Hpush; (split; [|cbn; by rewrite ?Hp]).
      * by eapply StepChunk.
      * by eapply StepBadChunk.
    + split; [by eapply StepBrokenBody|done].
  - split; [by apply StepStarted|]. by apply on_started_phase.
  - split; [by apply StepPayload|]. unfold on_payload. cbn [frame set_events].
    destruct (frame q) as [f|]; [|done]. destruct (PackFrame.write p f); [|done]. cbn. by rewrite Hp.
  - by apply on_complete_step.
Qed.

(** Until a request has been answered or dropped, [advance] is a step of it. *)
Lemma advance_step ns blobs' bytes' w q :
  phase q = Reading \/ (exists e, phase q = Failed e) ->
  own ns blobs' bytes' (w, q) (advance ns blobs' bytes' (w, q)) /\
  phase (advance ns blobs' bytes' (w, q)).2 <> Cancelled.
Proof.
  intros Hgo. unfold advance.
  assert (forall s l, stores q = s :: l -> (forall res, s <> Stored res) ->
    let '(w', s') := run_store ns s w in
    own ns blobs' bytes' (w, q) (w', set_stores (s' :: l) q) /\ phase q <> Cancelled) as Htask.
  { intros s l Hst Hs. destruct (run_store ns s w) as [w' s'] eqn:E.
    split; [by apply (StepStore _ _ _ _ w q [] s l w' s')|]. by destruct Hgo as [->|[e ->]]. }
  destruct (stores q) as [|[f|f out|res] l] eqn:Hst.
  - destruct Hgo as [Hp|[e Hp]]; rewrite Hp.
    + apply read_on_step; [done|by rewrite Hst].
    + destruct (drop_frame w q) as [w' q'] eqn:Hd. split; [by eapply StepAnswerError|done].
  - specialize (Htask _ _ eq_refl ltac:(done)). by destruct (run_store ns (Storing f) w).
  - specialize (Htask _ _ eq_refl ltac:(done)). by destruct (run_store ns (Registering f out) w).
  - destruct Hgo as [Hp|[e Hp]]; rewrite Hp.
    + apply read_on_step; [done|by rewrite Hst].
    + split; [by apply (StepDrain _ _ _ _ w q e [] res l)|]. cbn. by rewrite Hp.
Qed.

(** C11. A pack upload ends: its steps, taken in any order and with any steps of
    other requests between them, use up what is left of it, so that only
    finitely many are possible; and until it is dropped by its client it can
    always go on, so it is answered. *)
Theorem pack_upload_ends ns blobs' bytes' :
  well_founded (fun q' q => exists w w', pack_step no_other ns blobs' bytes' (w, q) (w', q')) /\
  forall w q, phase q <> Cancelled ->
    exists w' q' res, rtc (pack_step no_other ns blobs' bytes') (w, q) (w', q') /\ phase q' = Answered res.
Proof.
  assert (well_founded (fun q' q => exists w w', own ns blobs' bytes' (w, q) (w', q'))) as Hwf.
  { intros q. induction (lighter_wf q) as [q _ IH]. constructor. intros q' (w & w' & Hstep).
    apply IH. by apply own_step_lighter in Hstep. }
  split; [done|]. intros w q. revert w. induction (Hwf q) as [q _ IH]. intros w Hp.
  assert ((exists res, phase q = Answered res) \/ phase q = Reading \/ exists e, phase q = Failed e) as [[res Hres]|Hgo]
    by (destruct (phase q); eauto; done).
  { exists w, q, res. by split. }
  pose proof (advance_step ns blobs' bytes' w q Hgo) as [Hstep Hp1].
  destruct (advance ns blobs' bytes' (w, q)) as [w1 q1]. cbn [snd] in Hp1.
  destruct (IH q1) with (w := w1) as (w' & q' & res & Hrun & Hres); [by exists w, w1|done|].
  exists w', q', res. split; [|done]. by eapply rtc_l.
Qed.

(** [n] steps of the schedule are steps of the request, while it lasts. *)
Lemma advance_run ns blobs' bytes' n w q :
  (forall k, k < n -> phase (Nat.iter k (advance ns blobs' bytes') (w, q)).2 = Reading) ->
  rtc (own ns blobs' bytes') (w, q) (Nat.iter n (advance ns blobs' bytes') (w, q)).
Proof.
  induction n as [|n IH]; intros Hk; [apply rtc_refl|].
  eapply rtc_r; [apply IH; intros k ?; apply Hk; lia|].
  specialize (Hk n ltac:(lia)). cbn [Nat.iter nat_rect].
  destruct (Nat.iter n (advance ns blobs' bytes') (w, q)) as [w' q'] eqn:E. cbn.
  change (nat_rect _ _ _ n) with (Nat.iter n (advance ns blobs' bytes') (w, q)). rewrite E.
  apply advance_step. by left.
Qed.

End Termination.
