(* ===== verification/PackDownload.v ===== *)
(** * Downloading a pack (src/server.rs, [pack_blobs])

    The handler answers with the headers of a pack and a stream that reads the
    blobs a window ahead and sends them in order; [pack_stream] runs the stream
    to its end. *)
From stdpp Require Import pretty.
From S2P Require Import Prelude Str Protocol Api Json Model Records Oidc Auth Spool Access.
From S2P Require Import Metrics App Pack Blobs.

Local Open Scope string_scope.
Local Open Scope mbx_scope.

Definition MAX_PACK_STORAGE_READS : nat := 16.

(** The instants and durations one request measures. *)
Record PackClock := mkPackClock {
  request_started : N;
  metadata_elapsed : N;
  first_byte_at : N;
  get_elapsed : Digest -> N;
  ended_at : N;
}.

Section PackDownload.
Context `{Protocol} `{Hex} `{Records} `{!JsonText} `{!Documents} `{!Jwt} `{!AuthJson} `{!Tokio}
  `{!Constants}.
Context {MS BS : Type} `{!MetadataStore MS} `{!BlobStore BS}.
Notation Handler := (Handler (MS:=MS) (BS:=BS)).
Notation AppState := (AppState (MS:=MS) (BS:=BS)).

(** ** The request *)

(** The loop over [request.digests]: each digest once, within the limit. *)
Fixpoint collect_requested (max_blob_bytes : N) (digests : list Digest) (seen : gset Digest)
    (total_bytes : N) (requested : list Digest) : result ApiError (N * list Digest) :=
  match digests with
  | [] => Ok (total_bytes, requested)
  | digest :: digests =>
      _ <-? validate_digest digest;
      if decide (digest ∈ seen)
      then collect_requested max_blob_bytes digests seen total_bytes requested
      else
        total_bytes <-? ok_or (checked_add total_bytes (digest_size digest))
          (too_large "blob pack is too large");
        if (max_blob_bytes <? total_bytes)%N
        then Err (too_large "blob pack exceeds the configured size limit")
        else collect_requested max_blob_bytes digests ({[digest]} ∪ seen) total_bytes
               (requested ++ [digest])%list
  end.

(** The loop over the visible digests: their headers, the length of the pack
    and of its payload. *)
Fixpoint prepare_entries (visible : list Digest) (pack_bytes payload_bytes : N)
    (entries : list (bytes * Digest)) : result ApiError (N * N * list (bytes * Digest)) :=
  match visible with
  | [] => Ok (pack_bytes, payload_bytes, entries)
  | digest :: visible =>
      header <-? pack_blob_header digest;
      payload_bytes <-? ok_or (checked_add payload_bytes (digest_size digest))
        (too_large "blob pack is too large");
      pack_bytes <-? ok_or (checked_add pack_bytes (N.of_nat HEADER_BYTES) ≫= fun n =>
          checked_add n (digest_size digest))
        (too_large "blob pack is too large");
      prepare_entries visible pack_bytes payload_bytes (entries ++ [(header, digest)])%list
  end.

(** [visible_blobs], timed. *)
Definition query_visible (clock : PackClock) (namespace : string) (requested : list Digest)
  : Handler (list Digest) :=
  fun w =>
    let '(m, r) := visible_blobs namespace requested (metadata w) in
    let w := set_metadata m w in
    match r with
    | Ok visible =>
        (set_metrics (Metrics.observe_pack_metadata_query "success" (metadata_elapsed clock)
           (metrics w)) w, Ok visible)
    | Err e =>
        (set_metrics (Metrics.observe_pack_metadata_query "error" (metadata_elapsed clock)
           (metrics w)) w, Err (internal e))
    end.

Definition start_pack (started requested_blobs requested_bytes missing_blobs : N)
  : Handler Metrics.PackGuard :=
  fun w =>
    let '(m, g) := Metrics.start_pack started requested_blobs requested_bytes missing_blobs (metrics w) in
    (set_metrics m w, Ok g).

(** The guard goes out of scope when the rest fails. *)
Definition or_drop_guard {A} (clock : PackClock) (g : Metrics.PackGuard) (r : result ApiError A)
  : Handler A :=
  fun w =>
    match r with
    | Ok a => (w, Ok a)
    | Err e => (set_metrics (Metrics.drop (ended_at clock) (metrics w, g)) w, Err e)
    end.

(** What the response stream is made of. *)
Record PackBody := mkPackBody {
  body_namespace : string;
  body_guard : Metrics.PackGuard;
  body_entries : list (bytes * Digest);
}.

Definition pack_blobs (clock : PackClock) (m : Moment) (headers : HeaderMap) (digests : list Digest)
  : Handler (Response PackBody) :=
  namespace <~ authorized m headers Read;
  if (MAX_BATCH_ITEMS <? N.of_nat (length digests))%N
  then m_throw (bad_request "at most 10000 digests may be packed")
  else
    state <~ get_state;
    collected <~ m_lift (collect_requested (max_blob_bytes state) digests ∅ 0 []);
    let '(total_bytes, requested) := collected in
    visible <~ query_visible clock namespace requested;
    on_access (PendingAccess.record namespace visible) ;~
    guard <~ start_pack (request_started clock) (N.of_nat (length requested)) total_bytes
      (N.of_nat (length requested) - N.of_nat (length visible));
    prepared <~ or_drop_guard clock guard
      (prepare_entries visible (N.of_nat (length BLOB_PACK_MAGIC)) 0 []);
    let '(pack_bytes, payload_bytes, entries) := prepared in
    m_ret (mkResponse OK
      (<[PACK_BYTES_HEADER := pretty payload_bytes]>
       (<[PACK_BLOBS_HEADER := pretty (N.of_nat (length entries))]>
        (<["content-length" := pretty pack_bytes]>
         {["content-type" := BLOB_PACK_MEDIA_TYPE]})))
      (mkPackBody namespace guard entries)).

(** ** The stream *)

(** The [io::Error]s it may break off with, by their kind. *)
Inductive IoError :=
  | IoNotFound (message : string)
  | IoInvalidData (message : string)
  | IoOther (error : StoreError).

(** What the stream sends. *)
Notation Sent := (list (result IoError bytes)).

Definition on_guard (f : Metrics.t * Metrics.PackGuard -> Metrics.t * Metrics.PackGuard)
    (w : AppState) (g : Metrics.PackGuard) : AppState * Metrics.PackGuard :=
  let '(m, g) := f (metrics w, g) in (set_metrics m w, g).

(** One read of the store. *)
Definition read_entry (clock : PackClock) (namespace : string) (entry : bytes * Digest)
    (w : AppState) : AppState * result IoError (bytes * Blob) :=
  let '(header, digest) := entry in
  let '(b, r) := blob_get digest (blobs w) in
  let w := set_blobs b w in
  let observe outcome w :=
    set_metrics (Metrics.observe_pack_storage_get outcome (get_elapsed clock digest) (metrics w)) w in
  match r with
  | Ok (Some blob) =>
      (observe "hit" w,
       if negb (blob_size blob =? digest_size digest)%N
       then Err (IoInvalidData "stored blob size does not match its digest") else Ok (header, blob))
  | Ok None =>
      let w := observe "missing" w in
      ((forget_missing_blob namespace digest w).1, Err (IoNotFound "visible blob is missing from storage"))
  | Err e => (observe "error" w, Err (IoOther e))
  end.

(** [buffered(n)]: reads are started until [n] are under way. *)
Fixpoint top_up (n : nat) (clock : PackClock) (namespace : string) (waiting : list (bytes * Digest))
    (w : AppState) : AppState * list (result IoError (bytes * Blob)) * list (bytes * Digest) :=
  match n, waiting with
  | S n, entry :: waiting =>
      let '(w, r) := read_entry clock namespace entry w in
      let '(w, queue, waiting) := top_up n clock namespace waiting w in
      (w, r :: queue, waiting)
  | _, _ => (w, [], waiting)
  end.

(** The chunks of one blob; whether all went well. *)
Fixpoint send_chunks (clock : PackClock) (size streamed : N) (stream : list (result StoreError bytes))
    (w : AppState) (g : Metrics.PackGuard) : AppState * Metrics.PackGuard * Sent * bool :=
  match stream with
  | [] =>
      if negb (streamed =? size)%N
      then
        let '(w, g) := on_guard (Metrics.error (ended_at clock)) w g in
        (w, g, [Err (IoInvalidData "stored blob stream is shorter than advertised")], false)
      else (w, g, [], true)
  | Err e :: _ =>
      let '(w, g) := on_guard (Metrics.error (ended_at clock)) w g in
      (w, g, [Err (IoOther e)], false)
  | Ok chunk :: stream =>
      match checked_add streamed (N.of_nat (length chunk)) with
      | None =>
          let '(w, g) := on_guard (Metrics.error (ended_at clock)) w g in
          (w, g, [Err (IoInvalidData "stored blob stream is too large")], false)
      | Some streamed =>
          if (size <? streamed)%N
          then
            let '(w, g) := on_guard (Metrics.error (ended_at clock)) w g in
            (w, g, [Err (IoInvalidData "stored blob stream is larger than advertised")], false)
          else
            let '(w, g) := on_guard (Metrics.add_served_bytes (N.of_nat (length chunk))) w g in
            let '(w, g, sent, ok) := send_chunks clock size streamed stream w g in
            (w, g, Ok chunk :: sent, ok)
      end
  end.

(** The loop over the entries, one turn for each. *)
Fixpoint send_entries (turns : nat) (clock : PackClock) (namespace : string)
    (queue : list (result IoError (bytes * Blob))) (waiting : list (bytes * Digest)) (w : AppState)
    (g : Metrics.PackGuard) : AppState * Metrics.PackGuard * Sent :=
  let '(w, more, waiting) := top_up (MAX_PACK_STORAGE_READS - length queue) clock namespace waiting w in
  match turns, (queue ++ more)%list with
  | _, [] =>
      let '(w, g) := on_guard (Metrics.complete (ended_at clock)) w g in
      (w, g, [])
  | O, _ => (w, g, [])
  | S turns, Err e :: _ =>
      let '(w, g) := on_guard (Metrics.error (ended_at clock)) w g in
      (w, g, [Err e])
  | S turns, Ok (header, blob) :: queue =>
      let '(w, g, sent, ok) := send_chunks clock (blob_size blob) 0 (blob_stream blob) w g in
      if (ok : bool)
      then
        let '(w, g) := on_guard Metrics.blob_served w g in
        let w := set_metrics (Metrics.inc_blob_hit (metrics w)) w in
        let '(w, g, rest) := send_entries turns clock namespace queue waiting w g in
        (w, g, Ok header :: sent ++ rest)%list
      else (w, g, Ok header :: sent)
  end.

Definition pack_stream (clock : PackClock) (b : PackBody) (w : AppState) : AppState * Sent :=
  let '(w, g) := on_guard (Metrics.record_first_byte (first_byte_at clock)) w (body_guard b) in
  let '(w, g, sent) :=
    send_entries (length (body_entries b)) clock (body_namespace b) [] (body_entries b) w g in
  (set_metrics (Metrics.drop (ended_at clock) (metrics w, g)) w, Ok BLOB_PACK_MAGIC :: sent).

End PackDownload.
