(* ===== verification/PackDownloadProofs.v ===== *)
(** * What a downloaded pack contains *)
From stdpp Require Import pretty.
From S2P Require Import Prelude Str Protocol Api Json Model Records Oidc Auth Spool Access.
From S2P Require Import Metrics App Pack PackProofs Blobs BlobsProofs PackDownload.

Local Open Scope string_scope.
Local Open Scope mbx_scope.

Definition all_sent (sent : list (result IoError bytes)) : Prop := Forall (fun r => is_ok r = true) sent.

(** The bytes a stream sent before it ended or broke off. *)
Definition sent_bytes (sent : list (result IoError bytes)) : bytes :=
  concat (map (fun r => match r with Ok bs => bs | Err _ => [] end) sent).

Lemma sent_bytes_app s1 s2 : sent_bytes (s1 ++ s2) = (sent_bytes s1 ++ sent_bytes s2)%list.
Proof. unfold sent_bytes. by rewrite map_app, concat_app. Qed.

Section Download.
Context `{Protocol} `{HashLaws} `{Hex} `{!ProtocolLaws} `{!HexLaws} `{Records} `{!JsonText} `{!Documents}
  `{!Jwt} `{!AuthJson} `{!Tokio} `{!Constants} `{!ConstantsLaws}.
Context {MS BS : Type} `{!MetadataStore MS} `{!BlobStore BS}.
Context `{!MetadataLaws MS} `{!BlobLaws BS} {retention : Retention}.
Notation AppState := (AppState (MS:=MS) (BS:=BS)).
Implicit Types w : AppState.

(** ** The request *)

Lemma collect_requested_ok max ds seen total acc total' requested :
  collect_requested max ds seen total acc = Ok (total', requested) ->
  (total <= max)%N -> NoDup acc -> seen = list_to_set acc ->
  total = foldr (fun d n => digest_size d + n)%N 0%N acc ->
  NoDup requested /\ (forall d, d ∈ requested <-> d ∈ acc \/ d ∈ ds) /\
  Forall (fun d => d ∈ acc \/ digest_validate d = Ok tt) requested /\ (total' <= max)%N /\
  total' = foldr (fun d n => digest_size d + n)%N 0%N requested.
Proof.
  revert seen total acc; induction ds as [|d ds IH]; intros seen total acc; cbn.
  { intros [= <- <-] Hle Hnd _ Hsum. split_and!; [done| |by apply Forall_forall; left|done..]. set_solver. }
  intros ([] & Hv%validate_digest_ok & Hk)%result_bind_ok Hle Hnd Hseen Hsum. case_decide as Hin.
  - destruct (IH _ _ _ Hk Hle Hnd Hseen Hsum) as (H1' & H2' & H3' & H4' & H5'). split_and!; [done| |done..].
    intros x. rewrite H2'. set_solver.
  - apply result_bind_ok in Hk as (t & Ht%ok_or_ok & Hk). apply checked_add_some in Ht as [-> _].
    destruct (N.ltb_spec max (total + digest_size d)); [done|].
    apply IH in Hk as (H1' & H2' & H3' & H4' & H5'); [|done| |set_solver|].
    + split_and!; [done| |..|done|done].
      * intros x. rewrite H2'. set_solver.
      * eapply Forall_impl; [exact H3'|]. intros x [Hx|]; [|by right].
        apply elem_of_app in Hx as [|Hx]; [by left|right]. by apply list_elem_of_singleton in Hx as ->.
    + apply NoDup_app. split_and!; [done|set_solver|apply NoDup_singleton].
    + rewrite foldr_app. cbn. rewrite N.add_0_r. clear -Hsum. revert total Hsum.
      induction acc as [|a acc IH]; intros total ->; cbn; [lia|]. rewrite <-(IH _ eq_refl). lia.
Qed.

Definition frames_length (ds : list Digest) : N :=
  foldr (fun d n => N.of_nat HEADER_BYTES + digest_size d + n)%N 0%N ds.

Lemma prepare_entries_ok visible pb pp acc pb' pp' entries :
  prepare_entries visible pb pp acc = Ok (pb', pp', entries) ->
  exists new, entries = (acc ++ new)%list /\ map snd new = visible /\
    Forall (fun e => pack_blob_header e.2 = Ok e.1) new /\ pb' = (pb + frames_length visible)%N.
Proof.
  revert pb pp acc; induction visible as [|d visible IH]; intros pb pp acc; cbn [prepare_entries].
  { intros [= <- <- <-]. exists []. rewrite app_nil_r. split_and!; [done..|unfold frames_length; cbn [foldr]; lia]. }
  intros (h & Hh & (pp1 & _ & (pb1 & Hpb%ok_or_ok & Hk)%result_bind_ok)%result_bind_ok)%result_bind_ok.
  apply bind_Some in Hpb as (n & [-> _]%checked_add_some & [-> _]%checked_add_some).
  apply IH in Hk as (new & -> & Hsnd & Hall & ->). exists ((h, d) :: new).
  rewrite <-app_assoc. split_and!; [done|by cbn [map]; rewrite Hsnd|by constructor|].
  unfold frames_length. cbn [foldr]. lia.
Qed.

(** ** The stream *)

(** A read of the store came back with the blob of its entry; [is_content] is what
    is known of the contents. *)
Definition read_of (is_content : Digest -> bytes -> Prop) (e : bytes * Digest)
    (r : result IoError (bytes * Blob)) : Prop :=
  forall h blob, r = Ok (h, blob) -> h = e.1 /\ exists content, is_content e.2 content /\
    digest_size e.2 = N.of_nat (length content) /\ blob_size blob = digest_size e.2 /\
    streams (blob_stream blob) content.

Definition object_in (objs : Digest -> option bytes) (d : Digest) (content : bytes) : Prop :=
  objs d = Some content.

(** The stream reads the objects, and may forget blobs that are missing. *)
Definition reads_from (objs : Digest -> option bytes) w : Prop :=
  forall d, objects (blobs w) d = objs d.

Lemma read_entry_ok `{!BlobReads BS} objs clock ns e w w' r :
  reads_from objs w -> read_entry clock ns e w = (w', r) -> reads_from objs w' /\ read_of (object_in objs) e r.
Proof.
  intros Hobj. destruct e as [h d]. cbn [read_entry]. destruct (blob_get d (blobs w)) as [b q] eqn:E.
  apply blob_get_content in E as [Ho Hq].
  assert (forall d', objects b d' = objs d') as Hb by (intros; by rewrite Ho).
  destruct q as [[blob|]|e].
  - intros [= <- <-]. split; [done|]. intros h' blob'. destruct Hq as (content & Hc & Hl & Hs).
    destruct (N.eqb_spec (blob_size blob) (digest_size d)) as [Heq|]; cbn; [|done].
    intros [= <- <-]. split; [done|]. exists content. unfold object_in. rewrite <-Hobj, <-Hl. by split_and!.
  - unfold forget_missing_blob. destruct (forget_blob _ _ _) as [s q']. intros [= <- <-]. by split.
  - intros [= <- <-]. by split.
Qed.

Lemma top_up_ok `{!BlobReads BS} objs clock ns n waiting w w' queue waiting' :
  reads_from objs w -> top_up n clock ns waiting w = (w', queue, waiting') ->
  reads_from objs w' /\ exists es, waiting = (es ++ waiting')%list /\ Forall2 (read_of (object_in objs)) es queue /\
    (length es = n \/ waiting' = []).
Proof.
  revert waiting w w' queue waiting'; induction n as [|n IH]; intros waiting w w' queue waiting' Hobj; cbn.
  { intros [= <- <- <-]. split; [done|]. exists []. split_and!; [done|constructor|by left]. }
  destruct waiting as [|e waiting].
  { intros [= <- <- <-]. split; [done|]. exists []. split_and!; [done|constructor|by right]. }
  destruct (read_entry clock ns e w) as [w1 r] eqn:Er.
  apply (read_entry_ok objs) in Er as [Hobj1 Hr]; [|done].
  destruct (top_up n clock ns waiting w1) as [[w2 q2] wt2] eqn:Et. intros [= <- <- <-].
  apply IH in Et as (Hobj2 & es & -> & Hall & Hlen); [|done]. split; [done|].
  exists (e :: es). split_and!; [done|by constructor|]. destruct Hlen as [<-|]; [by left|by right].
Qed.

Lemma on_guard_stores f w g w' g' :
  on_guard f w g = (w', g') -> blobs w' = blobs w /\ metadata w' = metadata w.
Proof. unfold on_guard. destruct (f _) as [m g1]. intros [= <- <-]. done. Qed.

Lemma send_chunks_ok clock size streamed stream w g w' g' sent ok :
  send_chunks clock size streamed stream w g = (w', g', sent, ok) ->
  blobs w' = blobs w /\
  if ok then all_sent sent /\ collect_stream stream = (sent_bytes sent, Ok tt) else ~ all_sent sent.
Proof.
  revert streamed w g w' g' sent ok; induction stream as [|[chunk|e] stream IH];
    intros streamed w g w' g' sent ok; cbn [send_chunks].
  - destruct (negb _).
    + destruct (on_guard _ w g) as [w1 g1] eqn:E. apply on_guard_stores in E as [Hb _].
      intros [= <- <- <- <-]. split; [done|]. intros [? _]%Forall_cons. done.
    + intros [= <- <- <- <-]. split; [done|]. split; [constructor|done].
  - destruct (checked_add _ _) as [n|].
    2:{ destruct (on_guard _ w g) as [w1 g1] eqn:E. apply on_guard_stores in E as [Hb _].
        intros [= <- <- <- <-]. split; [done|]. intros [? _]%Forall_cons. done. }
    destruct (_ <? _)%N.
    { destruct (on_guard _ w g) as [w1 g1] eqn:E. apply on_guard_stores in E as [Hb _].
      intros [= <- <- <- <-]. split; [done|]. intros [? _]%Forall_cons. done. }
    destruct (on_guard _ w g) as [w1 g1] eqn:E. apply on_guard_stores in E as [Hb _].
    destruct (send_chunks clock size n stream w1 g1) as [[[w2 g2] sent2] ok2] eqn:E2.
    intros [= <- <- <- <-]. apply IH in E2 as [Hb2 Hok]. split; [by rewrite Hb2|].
    destruct ok2.
    + destruct Hok as [Hall Hcol]. split; [by constructor|]. cbn. by rewrite Hcol.
    + by intros [_ ?]%Forall_cons.
  - destruct (on_guard _ w g) as [w1 g1] eqn:E. apply on_guard_stores in E as [Hb _].
    intros [= <- <- <- <-]. split; [done|]. intros [? _]%Forall_cons. done.
Qed.

(** The bytes of entries with their contents. *)
Definition frames_of (es : list (bytes * Digest)) (contents : list bytes) : bytes :=
  concat (zip_with (fun e c => e.1 ++ c)%list es contents).

(** A stream that meets no error sends every entry with its content, in order. *)
Lemma send_entries_ok `{!BlobReads BS} objs clock ns turns qes queue waiting w g w' g' sent :
  reads_from objs w -> Forall2 (read_of (object_in objs)) qes queue ->
  length queue + length waiting <= turns ->
  send_entries turns clock ns queue waiting w g = (w', g', sent) -> all_sent sent ->
  exists contents,
    Forall2 (fun e c => object_in objs e.2 c /\ digest_size e.2 = N.of_nat (length c))
      (qes ++ waiting) contents /\
    sent_bytes sent = frames_of (qes ++ waiting) contents.
Proof.
  revert qes queue waiting w g w' g' sent; induction turns as [|turns IH];
    intros qes queue waiting w g w' g' sent Hobj Hq Hlen; cbn [send_entries];
    destruct (top_up _ clock ns waiting w) as [[w1 more] waiting1] eqn:Et;
    apply (top_up_ok objs) in Et as (Hobj1 & es & -> & Hmore & Hfull); [|done| |done].
  - assert (queue = [] /\ es = [] /\ waiting1 = []) as (-> & -> & ->).
    { rewrite length_app in Hlen. destruct queue, es, waiting1; cbn in Hlen; (done || lia). }
    apply Forall2_nil_inv_r in Hq as ->. apply Forall2_nil_inv_l in Hmore as ->. cbn.
    destruct (on_guard _ w1 g) as [w2 g2]. intros [= <- <- <-] _. exists []. split; [constructor|done].
  - pose proof (Forall2_app Hq Hmore) as Hall.
    assert (length (queue ++ more) + length waiting1 <= S turns) as Hlen'.
    { rewrite length_app in Hlen |- *. apply Forall2_length in Hmore. lia. }
    assert (length (queue ++ more) = 0 -> waiting1 = []) as Hdone.
    { rewrite length_app. intros Hz. destruct Hfull as [Hfull|]; [|done].
      apply Forall2_length in Hmore. unfold MAX_PACK_STORAGE_READS in Hfull. lia. }
    rewrite app_assoc. revert Hall Hlen' Hdone. generalize (qes ++ es)%list as all, (queue ++ more)%list as q.
    intros all q Hall Hlen' Hdone. destruct Hall as [|e r all q Hread Hall].
    { destruct (on_guard _ w1 g) as [w2 g2]. intros [= <- <- <-] _. rewrite Hdone by done.
      exists []. split; [constructor|done]. }
    destruct r as [[h blob]|err].
    2:{ destruct (on_guard _ w1 g) as [w2 g2]. intros [= <- <- <-] [? _]%Forall_cons. done. }
    destruct (Hread h blob eq_refl) as (-> & content & Hc & Hsz & Hbs & Hst).
    destruct (send_chunks clock _ 0 _ w1 g) as [[[w2 g2] sent2] ok] eqn:Ec.
    apply send_chunks_ok in Ec as [Hb2 Hok]. destruct ok.
    2:{ intros [= <- <- <-] [_ ?]%Forall_cons. done. }
    destruct (on_guard Metrics.blob_served w2 g2) as [w3 g3] eqn:Eg. apply on_guard_stores in Eg as [Hb3 _].
    destruct (send_entries turns clock ns q waiting1 _ g3) as [[w4 g4] rest] eqn:Es.
    intros [= <- <- <-] [_ [Hs2 Hrest]%Forall_app]%Forall_cons. destruct Hok as [_ Hcol].
    eapply (IH all) in Es as (contents & Hcs & Hbytes); [|..|done].
    + exists (content :: contents). split; [by constructor|].
      unfold streams in Hst. rewrite Hcol in Hst. subst content.
      change (e :: all ++ waiting1)%list with ([e] ++ (all ++ waiting1))%list.
      change (Ok e.1 :: sent2 ++ rest)%list with ([Ok e.1] ++ (sent2 ++ rest))%list.
      rewrite !sent_bytes_app, Hbytes. unfold frames_of. cbn. by rewrite app_nil_r, <-app_assoc.
    + intros d. cbn. by rewrite Hb3, Hb2.
    + done.
    + cbn in Hlen'. lia.
Qed.

(** ** The whole response *)

Lemma frames_of_pack es contents :
  Forall (fun e => pack_blob_header e.2 = Ok e.1) es -> length contents = length es ->
  pack_frames (zip (map snd es) contents) = Ok (frames_of es contents).
Proof.
  intros Hall. revert contents; induction Hall as [|[h d] es Hh Hall IH]; intros [|c contents] Hlen; try done.
  cbn. unfold pack_frame. cbn in Hh |- *. rewrite Hh. cbn. rewrite (IH contents) by (cbn in Hlen; lia).
  done.
Qed.

Lemma frames_of_length es contents :
  Forall (fun e => pack_blob_header e.2 = Ok e.1) es ->
  Forall2 (fun (e : bytes * Digest) c => digest_size e.2 = N.of_nat (length c)) es contents ->
  N.of_nat (length (frames_of es contents)) = frames_length (map snd es).
Proof.
  intros Hall Hc. revert Hall. unfold frames_of, frames_length.
  induction Hc as [|[h d] c es contents Hd Hc IH]; intros Hall; [done|].
  apply Forall_cons in Hall as [Hh%pack_blob_header_length Hall]. cbn [zip_with concat map foldr fst snd] in *.
  rewrite !length_app, Hh, Hd, <-(IH Hall). lia.
Qed.

Lemma query_visible_ok clock ns ds w w' vs :
  meta_wf (metadata w) -> query_visible clock ns ds w = (w', Ok vs) ->
  vs = List.filter (view_blob (view (metadata w)) ns) ds.
Proof.
  intros Hwf. unfold query_visible. destruct (visible_blobs ns ds (metadata w)) as [s [l|e]] eqn:E; [|done].
  intros [= <- <-]. apply visible_blobs_law in E as (_ & _ & Hvs); [by apply Hvs|done].
Qed.

Lemma pack_blobs_ok clock m headers ds w w' resp :
  meta_wf (metadata w) -> pack_blobs clock m headers ds w = (w', Ok resp) ->
  exists w0 ns total requested pb pp,
    authorized m headers Read w = (w0, Ok ns) /\
    collect_requested (max_blob_bytes w) ds ∅ 0 [] = Ok (total, requested) /\
    prepare_entries (List.filter (view_blob (view (metadata w)) ns) requested)
      (N.of_nat (length BLOB_PACK_MAGIC)) 0 [] = Ok (pb, pp, body_entries (response_body resp)) /\
    header_map resp !! "content-length" = Some (pretty pb).
Proof.
  intros Hwf. unfold pack_blobs. intros (w0 & ns & Hauth & Hk)%m_bind_ok.
  destruct (authorized_inv _ _ _ _ _ _ Hauth) as [a ->].
  destruct (_ <? _)%N; [done|]. m_step Hk as w1 st [= <- <-].
  m_step Hk as w1 [total requested] [= <- Hcol].
  m_step Hk as w1 vs Hvs. apply query_visible_ok in Hvs; [|done].
  m_step Hk as w2 [] _. m_step Hk as w3 g _.
  apply m_bind_ok in Hk as (w4 & [[pb pp] entries] & Hprep & Hk).
  unfold or_drop_guard in Hprep. destruct (prepare_entries _ _ _ _) as [prep|] eqn:Ep; [|done].
  injection Hprep as <- ->. injection Hk as <- <-. cbn in Hvs. subst vs.
  exists (set_auth a w), ns, total, requested, pb, pp. split_and!; [done..|]. cbn [header_map].
  pose proof header_names as Hnames. rewrite !NoDup_cons in Hnames.
  rewrite lookup_insert_ne by set_solver. rewrite lookup_insert_ne by set_solver.
  by rewrite lookup_insert_eq.
Qed.

Lemma filter_sum (f : Digest -> bool) ds :
  (foldr (fun d n => digest_size d + n) 0 (List.filter f ds) <= foldr (fun d n => digest_size d + n) 0 ds)%N.
Proof. induction ds as [|d ds IH]; cbn; [lia|]. destruct (f d); cbn; lia. Qed.

Lemma payload_total_sizes es :
  Forall (fun e => digest_size e.1 = N.of_nat (length e.2)) es ->
  payload_total es = foldr (fun d n => digest_size d + n)%N 0%N (map fst es).
Proof. induction 1 as [|e es He Hall IH]; [done|]. cbn. by rewrite He, <-IH. Qed.

Lemma sizes_below max es :
  (foldr (fun d n => digest_size d + n) 0 (map fst es) <= max)%N ->
  Forall (fun e : Digest * bytes => (digest_size e.1 <= max)%N) es.
Proof.
  induction es as [|e es IH]; [constructor|]. cbn. intros Hle. constructor; [lia|]. apply IH. lia.
Qed.

(** Entries with the contents read for them, as a pack. *)
Lemma sent_pack (is_content : Digest -> bytes -> Prop) entries contents :
  (forall d content, digest_validate d = Ok tt -> is_content d content -> content_matches d content) ->
  Forall (fun d => digest_validate d = Ok tt) (map snd entries) ->
  Forall (fun e => pack_blob_header e.2 = Ok e.1) entries ->
  Forall2 (fun (e : bytes * Digest) c => is_content e.2 c /\ digest_size e.2 = N.of_nat (length c))
    entries contents ->
  map fst (zip (map snd entries) contents) = map snd entries /\
  Forall (fun e => content_matches e.1 e.2) (zip (map snd entries) contents) /\
  encode_pack (zip (map snd entries) contents) =
    Ok (BLOB_PACK_MAGIC ++ frames_of entries contents)%list.
Proof.
  intros Hobjs Hvalid Hheaders Hcs. rewrite Forall_map in Hvalid. pose proof (Forall2_length _ _ _ Hcs) as Hlen. split_and!.
  - apply (fst_zip (map snd entries) contents). rewrite length_map. lia.
  - clear Hheaders Hlen. induction Hcs as [|[h d] c l l' [Hc Hd] Hcs IH]; [constructor|].
    apply Forall_cons in Hvalid as [Hval Hvalid]. cbn. constructor; [by apply Hobjs|by apply IH].
  - unfold encode_pack. by rewrite frames_of_pack.
Qed.

(** A pack of matching contents is read back by any reader whose limits admit
    it. *)
Lemma sent_reads_back max mb es chunks :
  Forall (fun e => content_matches e.1 e.2) es ->
  Forall (fun d => digest_validate d = Ok tt) (map fst es) ->
  (foldr (fun d n => digest_size d + n) 0 (map fst es) <= max)%N ->
  (max <= mb)%N -> (max + mb < u64_modulus)%N -> (N.of_nat (length es) < u64_max)%N ->
  encode_pack es = Ok (concat chunks) ->
  PackReader.read_chunks (PackReader.new mb (N.of_nat (length es)) (payload_total es)) chunks =
  Ok (Some es).
Proof.
  intros Hmatch Hvalid Hsum Hmb Hu64 Hcount Henc.
  assert (Forall (fun e => digest_size e.1 = N.of_nat (length e.2)) es) as Hes.
  { eapply Forall_impl; [exact Hmatch|]. by intros e [? _]. }
  pose proof (sizes_below _ _ Hsum) as Hbelow. rewrite Forall_map in Hvalid.
  eapply read_chunks_encoded; [| |exact Henc|done].
  - unfold limits_ok. cbn. rewrite payload_total_sizes by done. lia.
  - unfold pack_within. cbn. split; [|lia].
    rewrite Forall_forall in Hes, Hbelow, Hvalid |- *. intros e He.
    split_and!; [by destruct (validate_hash _ (Hvalid e He))|by apply Hes|].
    etransitivity; [by apply Hbelow|done].
Qed.

(** C12. When the stream of a pack response ends without an error, it has sent
    one pack: of every requested blob the namespace sees, once each and in the
    order asked for, with the content its digest names, and of exactly the
    length announced. Cut into chunks in any way, it is read back by a pack
    reader within the service's own limits as those blobs. *)
Theorem pack_blobs_sends `{!BlobReads BS} clock m headers ds w w' resp w1 w2 sent mb
    (Hinv : store_inv w) (Hinv1 : store_inv w1)
    (Hanswer : pack_blobs clock m headers ds w = (w', Ok resp))
    (Hstream : pack_stream clock (response_body resp) w1 = (w2, sent))
    (Hsent : all_sent sent)
    (Hmb : (max_blob_bytes w <= mb)%N) (Hu64 : (max_blob_bytes w + mb < u64_modulus)%N) :
  exists w0 ns requested es,
    authorized m headers Read w = (w0, Ok ns) /\
    NoDup requested /\ (forall d, d ∈ requested <-> d ∈ ds) /\
    map fst es = List.filter (view_blob (view (metadata w)) ns) requested /\
    Forall (fun e => content_matches e.1 e.2) es /\
    encode_pack es = Ok (sent_bytes sent) /\
    header_map resp !! "content-length" = Some (pretty (N.of_nat (length (sent_bytes sent)))) /\
    forall chunks, concat chunks = sent_bytes sent -> (N.of_nat (length es) < u64_max)%N ->
      PackReader.read_chunks (PackReader.new mb (N.of_nat (length es)) (payload_total es)) chunks =
      Ok (Some es).
Proof.
  apply pack_blobs_ok in Hanswer as (w0 & ns & total & requested & pb & pp & Hauth & Hcol & Hprep & Hlen);
    [|apply Hinv].
  apply collect_requested_ok in Hcol as (Hnd & Hreq & Hvalid & Htot & Hsum); [|lia|constructor|done|done].
  apply prepare_entries_ok in Hprep as (new & Hnew & Hsnd & Hheaders & ->). cbn in Hnew. subst new.
  unfold pack_stream in Hstream.
  destruct (on_guard _ w1 _) as [w3 g3] eqn:Eg. apply on_guard_stores in Eg as [Hb3 _].
  destruct (send_entries _ clock _ [] _ w3 g3) as [[w4 g4] sent4] eqn:Es. injection Hstream as <- <-.
  apply Forall_cons in Hsent as [_ Hsent].
  eapply (send_entries_ok (objects (blobs w1)) clock _ _ []) in Es as (contents & Hcs & Hbytes);
    [|by intros d; rewrite Hb3|constructor|done|done].
  cbn [app] in Hcs, Hbytes. set (entries := body_entries (response_body resp)) in *.
  assert (sent_bytes (Ok BLOB_PACK_MAGIC :: sent4) = (BLOB_PACK_MAGIC ++ frames_of entries contents)%list) as Hsb.
  { rewrite <-Hbytes. change (Ok BLOB_PACK_MAGIC :: sent4) with ([Ok BLOB_PACK_MAGIC] ++ sent4)%list.
    rewrite sent_bytes_app. unfold sent_bytes at 1. cbn [map concat]. by rewrite app_nil_r. }
  assert (Forall (fun d => digest_validate d = Ok tt) (map snd entries)) as Hval.
  { rewrite Hsnd. apply Forall_forall. intros d [Hin%list_elem_of_In _]%list_elem_of_In%filter_In.
    rewrite Forall_forall in Hvalid. destruct (Hvalid _ Hin); [set_solver|done]. }
  destruct (sent_pack (object_in (objects (blobs w1))) entries contents) as (Hfst & Hmatch & Henc);
    [by apply inv_content|done..|]. rewrite Hsnd in Hval.
  apply (fun H => eq_trans H Hsnd) in Hfst.
  exists w0, ns, requested, (zip (map snd entries) contents). split_and!; try done.
  - intros d. rewrite Hreq. set_solver.
  - by rewrite Hsb.
  - rewrite Hlen, Hsb, length_app, Nat2N.inj_add, frames_of_length, Hsnd; [done|done|].
    eapply Forall2_impl; [exact Hcs|]. by intros ? ? [_ ?].
  - intros chunks Hchunks Hcount.
    apply (sent_reads_back (max_blob_bytes w)); [done| | |done..|by rewrite Hchunks, Hsb].
    + by rewrite Hfst.
    + rewrite Hfst. etransitivity; [apply filter_sum|]. lia.
Qed.
End Download.
