(* ===== verification/ReadOnly.v ===== *)
(** * Calls that leave the stores as they are

    However they end, refusals and store failures included: from a state of the
    stores' invariant [read_only] calls change nothing that the stores hold, and
    [validating] ones nothing but rows they forget, since their objects are gone. *)
From S2P Require Import Prelude Str Protocol Api Json Model Records Oidc Auth Spool Access.
From S2P Require Import Metrics App Tree Actions Blobs BlobsProofs.

Local Open Scope string_scope.
Local Open Scope mbx_scope.

Create HintDb read_only.

Section ReadOnly.
Context `{Protocol} `{Hashes} `{Hex} `{Records} `{!JsonText} `{!Documents} `{!Jwt} `{!AuthJson} `{!Tokio}
  `{!DebugFormat}.
Context {MS BS : Type} `{!MetadataStore MS} `{!BlobStore BS}.
Context `{!MetadataLaws MS} `{!BlobLaws BS} {retention : Retention}.
Notation AppState := (AppState (MS:=MS) (BS:=BS)).
Notation Handler := (Handler (MS:=MS) (BS:=BS)).
Implicit Types w : AppState.

Definition read_only {A} (c : Handler A) : Prop :=
  forall w w' r, store_inv w -> c w = (w', r) ->
    store_inv w' /\ same_stores w w' /\ config w' = config w.

Lemma store_inv_same w w' :
  store_inv w -> meta_wf (metadata w') -> same_stores w w' -> store_inv w'.
Proof.
  intros Hinv Hwf Hs. apply (store_inv_step w); [done..|by apply same_stores_grow|].
  destruct Hs as [(Hb & _) _]. intros ns d. rewrite Hb. by left.
Qed.

Lemma read_only_ret {A} (a : A) : read_only (m_ret a).
Proof. intros w w' r Hinv [= <- <-]. by split. Qed.

Lemma read_only_throw {A} e : read_only (@m_throw _ _ A e).
Proof. intros w w' r Hinv [= <- <-]. by split. Qed.

Lemma read_only_lift {A} (q : result ApiError A) : read_only (m_lift q).
Proof. intros w w' r Hinv [= <- <-]. by split. Qed.

Lemma read_only_bind {A B} (c : Handler A) (k : A -> Handler B) :
  read_only c -> (forall a, read_only (k a)) -> read_only (m_bind c k).
Proof.
  intros Hc Hk w w' r Hinv. unfold m_bind. destruct (c w) as [w1 [a|e]] eqn:E.
  - intros Hr. apply Hc in E as (Hinv1 & S1 & C1); [|done]. apply Hk in Hr as (Hinv2 & S2 & C2); [|done].
    split; [done|]. split; [by etransitivity|congruence].
  - intros [= <- <-]. by eapply Hc.
Qed.

Lemma read_only_if {A} (b : bool) (c1 c2 : Handler A) :
  read_only c1 -> read_only c2 -> read_only (if b then c1 else c2).
Proof. by destruct b. Qed.

Lemma read_only_visible ns ds : read_only (on_metadata (visible_blobs ns ds)).
Proof.
  intros w w' r Hinv (m & q & Hc & -> & _)%on_metadata_inv.
  apply visible_blobs_law in Hc as (Hwf & Hv & _); [|apply Hinv].
  assert (same_stores w (set_metadata m w)) as Hs by (by split).
  split; [by eapply store_inv_same|done].
Qed.

Lemma read_only_blob_visible ns d : read_only (on_metadata (blob_visible ns d)).
Proof.
  intros w w' r Hinv Hv. pose proof Hv as (m & q & _ & -> & _)%on_metadata_inv.
  apply visible_ok in Hv as (Hwf & Hs & _); [|apply Hinv]. split; [by eapply store_inv_same|done].
Qed.

Lemma read_only_metadata {A} (c : M MS StoreError A) :
  (forall s s' r, meta_wf s -> c s = (s', r) -> meta_wf s' /\ view s' ≡ view s) ->
  read_only (on_metadata c).
Proof.
  intros Hc w w' r Hinv (m & q & Hm & -> & _)%on_metadata_inv.
  apply Hc in Hm as [Hwf Hv]; [|apply Hinv].
  assert (same_stores w (set_metadata m w)) as Hs by (by split).
  split; [by eapply store_inv_same|done].
Qed.

Lemma read_only_metrics f : read_only (on_metrics f).
Proof.
  intros w w' r Hinv [= <- <-].
  assert (same_stores w (set_metrics (f (metrics w)) w)) as Hs by (by split).
  split; [eapply store_inv_same; [exact Hinv|apply Hinv|done]|done].
Qed.

Lemma read_only_access f : read_only (on_access f).
Proof.
  intros w w' r Hinv [= <- <-].
  assert (same_stores w (set_access (f (access w)) w)) as Hs by (by split).
  split; [eapply store_inv_same; [exact Hinv|apply Hinv|done]|done].
Qed.

Lemma read_only_state : read_only get_state.
Proof. intros w w' r Hinv [= <- <-]. by split. Qed.

Lemma read_only_gather stream : read_only (gather stream).
Proof. unfold gather. destruct (collect_stream stream) as [bs [u|e]]; [apply read_only_ret|apply read_only_throw]. Qed.

Lemma read_only_authorized m headers access : read_only (authorized m headers access).
Proof.
  intros w w' r Hinv [a ->]%authorized_inv.
  assert (same_stores w (set_auth a w)) as Hs by (by split).
  split; [|done]. eapply store_inv_same; [exact Hinv|apply Hinv|done].
Qed.

(** ** Validation

    No object, result or manifest changes; rows may be forgotten. *)

Record validated w w' : Prop := {
  validated_inv : store_inv w';
  validated_objects : forall d, objects (blobs w') d = objects (blobs w) d;
  validated_results : forall ns d, view_result (view (metadata w')) ns d = view_result (view (metadata w)) ns d;
}.

Definition validating {A} (c : Handler A) : Prop :=
  forall w w' r, store_inv w -> c w = (w', r) -> validated w w'.

Lemma validated_trans w1 w2 w3 : validated w1 w2 -> validated w2 w3 -> validated w1 w3.
Proof. intros [_ O1 R1] [I2 O2 R2]. split; [done|intros d; by rewrite O2|intros ns d; by rewrite R2]. Qed.

Lemma read_only_validating {A} (c : Handler A) : read_only c -> validating c.
Proof.
  intros Hc w w' r Hinv (Hinv' & [(_ & Hr & _) Ho] & _)%Hc; [|done]. split; [done|exact Ho|].
  intros ns d. by rewrite Hr.
Qed.

Lemma validating_bind {A B} (c : Handler A) (k : A -> Handler B) :
  validating c -> (forall a, validating (k a)) -> validating (m_bind c k).
Proof.
  intros Hc Hk w w' r Hinv. unfold m_bind. destruct (c w) as [w1 [a|e]] eqn:E.
  - intros Hr. apply Hc in E; [|done]. apply Hk in Hr; [|apply E]. by eapply validated_trans.
  - intros [= <- <-]. by eapply Hc.
Qed.

Lemma validating_if {A} (b : bool) (c1 c2 : Handler A) :
  validating c1 -> validating c2 -> validating (if b then c1 else c2).
Proof. by destruct b. Qed.

(** A visible blob is read; its row is forgotten if the object is gone. *)
Lemma validating_object {A} ns d e e' (k : Blob -> Handler A) :
  (forall blob, validating (k blob)) ->
  validating
    (visible <~ on_metadata (blob_visible ns d);
     if negb visible then m_throw e
     else
       found <~ on_blobs (blob_get d);
       match found with
       | None => forget_missing_blob ns d ;~ m_throw e'
       | Some blob => k blob
       end).
Proof.
  intros Hk w w' r Hinv. unfold m_bind at 1. destruct (on_metadata _ w) as [w1 [b|e1]] eqn:Hv.
  2:{ intros [= <- <-]. eapply read_only_validating; [apply read_only_blob_visible|done|exact Hv]. }
  pose proof Hv as Hw1. eapply (read_only_validating _ (read_only_blob_visible ns d)) in Hw1; [|done].
  apply visible_ok in Hv as (Hwf1 & _ & Hb); [|apply Hinv]. specialize (Hb b eq_refl).
  destruct b; [|by intros [= <- <-]]. cbn [negb]. pose proof (inv_u64 _ Hinv _ _ (eq_sym Hb)) as Hu.
  unfold m_bind at 1. destruct (on_blobs _ w1) as [w2 q] eqn:Hg. apply get_seen in Hg as (Hm2 & S2 & _).
  assert (validated w w2) as Hw2.
  { eapply validated_trans; [done|]. destruct S2 as [V2 O2].
    split; [eapply store_inv_same; [apply Hw1|by rewrite Hm2|done]|exact O2|intros; by rewrite Hm2]. }
  destruct q as [[blob|]|e2]; [| |by intros [= <- <-]].
  { intros Hr. apply Hk in Hr; [|apply Hw2]. by eapply validated_trans. }
  unfold m_bind. destruct (forget_missing_blob ns d w2) as [w3 q] eqn:Hf.
  apply forget_missing_ok in Hf as (Hwf3 & Hb3 & _ & -> & Hv3 & _); [|apply Hw2|done].
  intros [= <- <-]. eapply validated_trans; [exact Hw2|]. split; [|intros d'; by rewrite Hb3|].
  - apply (store_inv_step w2); [apply Hw2|done|intros d' _; left; by rewrite Hb3|]. intros ns' d' Hvis. left.
    destruct Hv3 as [(Hvb & _)|(Hvb & _)]; rewrite Hvb in Hvis; [done|]. cbn in Hvis. unfold upd in Hvis.
    by case_decide.
  - intros ns' d'. by destruct Hv3 as [(_ & Hr & _)|(_ & Hr & _)]; rewrite Hr.
Qed.
End ReadOnly.

#[export] Hint Resolve read_only_ret read_only_throw read_only_lift read_only_bind read_only_if
  read_only_visible read_only_blob_visible read_only_metrics read_only_access read_only_state
  read_only_gather read_only_authorized : read_only.

Create HintDb validating.
#[export] Hint Resolve read_only_validating validating_bind validating_if validating_object : validating.
