(* ===== verification/ExpiryProofs.v ===== *)
(** * Blobs whose objects expired (README.md, "Bounding storage")

    The object store's lifecycle policy takes objects away and knows nothing of
    the rows that name them. A read that finds no object for a row forgets the
    row ([forget_missing_blob]); then the blob is reported missing, and the
    client uploads it again. *)
From stdpp Require Import pretty.
From S2P Require Import Prelude Str Protocol Api Json Model Records Oidc Auth Spool Access.
From S2P Require Import Metrics App Tree Actions Blobs BlobsProofs ReadOnly.

Local Open Scope string_scope.
Local Open Scope mbx_scope.

Section Expiry.
Context `{Protocol} `{HashLaws} `{Hex} `{Records} `{!JsonText} `{!Documents} `{!Jwt} `{!AuthJson} `{!Tokio}
  `{!DebugFormat}.
Context {MS BS : Type} `{!MetadataStore MS} `{!BlobStore BS}.
Context `{!MetadataLaws MS} `{!BlobLaws BS} `{!BlobReads BS} {retention : Retention}.
Notation AppState := (AppState (MS:=MS) (BS:=BS)).
Implicit Types w : AppState.

(** What an expiry leaves of the invariant. *)
Lemma expired_inv b w :
  (retains -> False) -> store_inv w ->
  (forall d, digest_validate d = Ok tt -> objects b d = objects (blobs w) d \/ objects b d = None) ->
  store_inv (set_blobs b w) /\ objects_grow w (set_blobs b w).
Proof.
  intros Hno Hinv Hb. assert (objects_grow w (set_blobs b w)) as Hg.
  { intros d Hd. right; right. split; [done|]. cbn. intros c Hc.
    destruct (Hb d Hd) as [Heq|Heq]; rewrite Heq in Hc; [by eapply inv_content|done]. }
  split; [|done]. apply (store_inv_step w); [done|apply Hinv|done|by left].
Qed.

Lemma missing_blobs_read_only m headers ds : read_only (missing_blobs m headers ds).
Proof.
  unfold missing_blobs. apply read_only_bind; [auto with read_only|]. intros ns.
  apply read_only_if; auto 10 with read_only.
Qed.

Lemma row_forgotten_view ns d w w' :
  row_forgotten ns d w w' ->
  view (metadata w') ≡ view (metadata w) \/ view (metadata w') ≡ view_set_blob ns d false (view (metadata w)).
Proof. intros (s & q & _ & _ & Hok & Herr). destruct (is_ok q); auto. Qed.

(** A download that finds the object of no row keeps the stores in order. *)
Lemma get_gone m headers parts w w' r w1 ns d :
  store_inv w -> (parts.2 < u64_modulus)%N -> authorized m headers Read w = (w1, Ok ns) ->
  parse_digest parts = Ok d -> view_blob (view (metadata w)) ns d = true -> objects (blobs w) d = None ->
  get_blob m headers parts w = (w', r) ->
  store_inv w' /\ objects (blobs w') d = None /\
  ((r = Err (not_found "blob not found") /\ row_forgotten ns d w w') \/ exists error, r = Err (internal error)).
Proof.
  intros Hinv Hu Hauth Hd Hvis Hgone Hget.
  eapply get_blob_inv in Hget as (Hwf & Ho & Hr); [|by apply Hinv|done..].
  assert ((view (metadata w') ≡ view (metadata w) \/
    view (metadata w') ≡ view_set_blob ns d false (view (metadata w))) /\
    ((r = Err (not_found "blob not found") /\ row_forgotten ns d w w') \/ exists error, r = Err (internal error)))
    as [Hv Hend].
  { destruct r as [resp|e]; [destruct Hr as (_ & _ & c & Hc & _); congruence|].
    destruct Hr as [(_ & Hno & _)|[(-> & _ & _ & Hf)|(error & -> & ?)]]; [congruence| |by eauto].
    split; [by apply row_forgotten_view|by left]. }
  split; [|by rewrite Ho]. apply (store_inv_step w); [done..|intros d' _; by left|]. intros ns' d' Hold. left.
  destruct Hv as [(Hb & _)|(Hb & _)]; rewrite Hb in Hold; [done|]. cbn in Hold. unfold upd in Hold. by case_decide.
Qed.

(** C18. A blob whose object expired comes back. From any state of the stores with a
    row and no object for it: a download answers 404 and forgets the row, in its
    namespace and if the metadata store answers, or fails; once the row is
    forgotten the blob is reported missing; an upload, whether it was forgotten
    or not, creates the object anew; and then a download returns the uploaded
    bytes, or a store fails. *)
Theorem expired_blobs_come_back parts d ns w
    m1 h1 a1 r1 w1 m2 h2 a2 ds missing w2 m3 h3 a3 body fs code w3 m4 h4 a4 r4 w4
    (Hinv : store_inv w) (Hu64 : (parts.2 < u64_modulus)%N) (Hd : parse_digest parts = Ok d)
    (Hvis : view_blob (view (metadata w)) ns d = true) (Hgone : objects (blobs w) d = None)
    (Hread : authorized m1 h1 Read w = (a1, Ok ns)) (Hget : get_blob m1 h1 parts w = (w1, r1))
    (Hask : authorized m2 h2 Read w1 = (a2, Ok ns)) (Hin : d ∈ ds)
    (Hmissing : missing_blobs m2 h2 ds w1 = (w2, Ok missing))
    (Hwrite : authorized m3 h3 Write w2 = (a3, Ok ns)) (Hput : put_blob m3 h3 parts body fs w2 = (w3, Ok code))
    (Hagain : authorized m4 h4 Read w3 = (a4, Ok ns)) (Hget4 : get_blob m4 h4 parts w3 = (w4, r4)) :
  ((r1 = Err (not_found "blob not found") /\ row_forgotten ns d w w1) \/ exists error, r1 = Err (internal error)) /\
  (view_blob (view (metadata w1)) ns d = false -> d ∈ missing) /\
  code = CREATED /\
  ((exists resp chunks, r4 = Ok resp /\ body = map Ok chunks /\ streams (response_body resp) (concat chunks)) \/
   exists error, r4 = Err (internal error)).
Proof.
  eapply get_gone in Hget as (Hinv1 & Hgone1 & Hend); [|done..]. split; [exact Hend|].
  pose proof Hmissing as (Hinv2 & [_ O2] & _)%missing_blobs_read_only; [|done].
  apply missing_blobs_spec in Hmissing as (_ & _ & _ & a & ns' & Hauth & ->); [|apply Hinv1].
  rewrite Hask in Hauth. injection Hauth as _ <-. split.
  { intros Hno. apply list_elem_of_In, filter_In. split; [by apply list_elem_of_In|by rewrite Hno]. }
  assert (code = CREATED) as ->; [|split; [done|by eapply put_created]].
  apply put_blob_inv in Hput as [_ [(_ & _ & Hno)|Hput]]; [done| |apply Hinv2|done].
  destruct Hput as (a' & ns' & d' & content & _ & _ & Hd' & _ & _ & _ & _ & Hc).
  rewrite Hd in Hd'. injection Hd' as <-. destruct Hc as [(-> & _)|(_ & [c Hc] & _)]; [done|].
  rewrite O2, Hgone1 in Hc. done.
Qed.
End Expiry.
