(* ===== verification/Results.v ===== *)
(** * Action results and action manifests (src/server.rs)

    The endpoints that read and commit what a build made of an action. *)
From stdpp Require Import pretty.
From S2P Require Import Prelude Str Protocol Api Json Model Records Oidc Auth Spool Access.
From S2P Require Import Metrics App Tree Actions Blobs.

Local Open Scope string_scope.
Local Open Scope mbx_scope.

Definition MAX_ACTION_MANIFEST_BYTES : N := 16 * 1024 * 1024.

(** [axum::body::to_bytes]: the whole body, unless it breaks off or is longer. *)
Fixpoint to_bytes (body : RequestBody) (limit : N) : option bytes :=
  match body with
  | [] => Some []
  | Err _ :: _ => None
  | Ok chunk :: body =>
      if (limit <? N.of_nat (length chunk))%N then None
      else
        rest ← to_bytes body (limit - N.of_nat (length chunk));
        Some (chunk ++ rest)%list
  end.

(** [serde_json::from_slice::<TaskActionManifest>] *)
Class ManifestText `{Records} := {
  manifest_from_slice : bytes -> result string TaskActionManifest;
}.

Section Results.
Context `{Protocol} `{Hashes} `{Hex} `{Records} `{!JsonText} `{!Documents} `{!Jwt} `{!AuthJson} `{!Tokio}
  `{!DebugFormat} `{!Constants} `{!ManifestText}.
Context {MS BS : Type} `{!MetadataStore MS} `{!BlobStore BS}.
Notation Handler := (Handler (MS:=MS) (BS:=BS)).

(** [blake3::hash(bytes).to_hex()] *)
Definition blake3_hash (content : bytes) : string := content_hash Blake3 content.

(** ** Action results *)

Definition get_action_result (m : Moment) (headers : HeaderMap) (parts : string * string * N)
  : Handler ActionResult :=
  namespace <~ authorized m headers Read;
  action <~ m_lift (parse_action_digest parts);
  found <~ on_metadata (meta_get namespace action);
  match found with
  | Some result => on_metrics Metrics.inc_action_hit ;~ m_ret result
  | None => on_metrics Metrics.inc_action_miss ;~ m_throw (not_found "action result not found")
  end.

(** The loop over the requested digests: each action once. *)
Fixpoint collect_actions (digests : list Digest) (seen : gset Digest) (requested : list Digest)
  : result ApiError (list Digest) :=
  match digests with
  | [] => Ok requested
  | digest :: digests =>
      digest <-? validate_action_digest digest;
      if decide (digest ∈ seen) then collect_actions digests seen requested
      else collect_actions digests ({[digest]} ∪ seen) (requested ++ [digest])%list
  end.

Definition batch_action_results (m : Moment) (headers : HeaderMap) (digests : list Digest)
  : Handler (Response (list ActionResult)) :=
  namespace <~ authorized m headers Read;
  if (MAX_BATCH_ITEMS <? N.of_nat (length digests))%N
  then m_throw (bad_request "batch exceeds the supported size")
  else
    requested <~ m_lift (collect_actions digests ∅ []);
    results <~ on_metadata (meta_get_batch namespace requested);
    on_metrics (Metrics.inc_action_batch (N.of_nat (length results))
      (N.of_nat (length requested) - N.of_nat (length results))) ;~
    m_ret (mkResponse OK {["content-type" := ACTION_RESULT_BATCH_MEDIA_TYPE]} results).

(** What is checked before a result may be committed: the namespace and the
    action it is for. *)
Definition check_action_result (m : Moment) (headers : HeaderMap) (parts : string * string * N)
    (r : ActionResult) : Handler (string * Digest) :=
  namespace <~ authorized m headers Write;
  m_lift (require_immutable_precondition headers) ;~
  action <~ m_lift (parse_action_digest parts);
  if negb (result_version r =? 1)%N || negb (bool_decide (result_action r = action))
  then m_throw (bad_request "action result does not match request")
  else
    action_kind <~ validate_action_descriptor namespace action;
    m_lift (validate_action_result_shape r action_kind) ;~
    match result_metadata r with
    | Some metadata => validate_client_metadata namespace metadata action_kind
    | None => m_ret tt
    end ;~
    match output_root r with
    | Some root => validate_tree namespace root
    | None => m_ret tt
    end ;~
    m_ret (namespace, action).

Definition put_action_result (m : Moment) (headers : HeaderMap) (parts : string * string * N)
    (r : ActionResult) : Handler N :=
  checked <~ check_action_result m headers parts r;
  let '(namespace, action) := checked in
  outcome <~ on_metadata (commit namespace action r);
  on_metrics Metrics.inc_action_commit ;~
  match outcome with
  | CommitCreated => m_ret CREATED
  | CommitAlreadyExists => m_ret NO_CONTENT
  | CommitConflict => m_throw (conflict "an immutable action result already exists")
  end.

(** ** Action manifests *)

Definition get_action_manifest (m : Moment) (headers : HeaderMap) (parts : string * string * N)
  : Handler (Response bytes) :=
  namespace <~ authorized m headers Read;
  key <~ m_lift (parse_action_digest parts);
  found <~ on_metadata (get_manifest namespace key);
  record <~ m_lift (ok_or found (not_found "action manifest not found"));
  body <~ m_lift (map_err internal (canonical_json (record_manifest record)));
  m_ret (mkResponse OK
    (<["content-type" := TASK_ACTION_MANIFEST_MEDIA_TYPE]>
     {["etag" := quoted_etag (record_etag record)]}) body).

Definition put_action_manifest (m : Moment) (headers : HeaderMap) (parts : string * string * N)
    (body : RequestBody) : Handler (Response unit) :=
  namespace <~ authorized m headers Write;
  body <~ m_lift (ok_or (to_bytes body MAX_ACTION_MANIFEST_BYTES)
    (too_large "action manifest is too large"));
  manifest <~ m_lift (map_err (fun error => bad_request ("invalid action manifest: " ++ error))
    (manifest_from_slice body));
  key <~ m_lift (parse_action_digest parts);
  if negb (manifest_validate manifest) || negb (bool_decide (selector_digest manifest = key))
  then m_throw (bad_request "action manifest does not match request")
  else
    expected_etag <~ m_lift (manifest_precondition headers);
    canonical <~ m_lift (map_err internal (canonical_json manifest));
    let etag := blake3_hash canonical in
    outcome <~ on_metadata (commit_manifest namespace key expected_etag etag manifest);
    status <~
      match outcome with
      | ManifestCreated => m_ret CREATED
      | ManifestUpdated => m_ret NO_CONTENT
      | PreconditionFailed =>
          m_throw (precondition "action manifest changed; read and merge it before retrying")
      end;
    m_ret (mkResponse status {["etag" := quoted_etag etag]} tt).

End Results.
