(* ===== verification/ResultsProofs.v ===== *)
(** * What is committed for an action, and what is read back *)
From stdpp Require Import pretty.
From S2P Require Import Prelude Str Protocol Api Json Model Records Oidc Auth Spool Access.
From S2P Require Import Metrics App Tree Actions ActionsProofs Blobs BlobsProofs ReadOnly.
From S2P Require Import Results.

Local Open Scope string_scope.
Local Open Scope mbx_scope.

Section Results.
Context `{Protocol} `{HashLaws} `{Hex} `{Records} `{!JsonText} `{!Documents} `{!Jwt} `{!AuthJson} `{!Tokio}
  `{!DebugFormat} `{!Constants} `{!ManifestText}.
Context {MS BS : Type} `{!MetadataStore MS} `{!BlobStore BS}.
Context `{!MetadataLaws MS} `{!BlobLaws BS} {retention : Retention}.
Notation AppState := (AppState (MS:=MS) (BS:=BS)).
Implicit Types w : AppState.

Lemma parse_action_u64 parts d :
  (parts.2 < u64_modulus)%N -> parse_action_digest parts = Ok d -> digest_u64 d.
Proof. destruct parts as [[a h] n]. intros Hu (-> & _)%parse_action_digest_ok. exact Hu. Qed.

(** ** Committing a result *)

(** Everything an action result rests on, when it is committed: the descriptor
    of its action, the client metadata and the output tree it names. *)
Record supported w (ns : string) (r : ActionResult) : Prop := {
  supported_version : result_version r = 1%N;
  supported_action : exists kind value,
    canonical_object w ns (result_action r) value /\ valid_descriptor value kind /\
    (kind <> Task -> is_Some (result_metadata r) /\ is_Some (output_root r)) /\
    (forall d, result_metadata r = Some d -> exists v,
       canonical_object w ns d v /\ json_kind v = Some (expected_kind kind) /\
       json_version v = Some 1%N /\ valid_metadata w ns v kind);
  supported_tree : forall root, output_root r = Some root -> complete_tree w ns root;
}.

Lemma commit_ok ns d r w w' q :
  meta_wf (metadata w) -> digest_u64 d -> on_metadata (commit ns d r) w = (w', q) ->
  meta_wf (metadata w') /\ blobs w' = blobs w /\ spool w' = spool w /\
  match q with
  | Ok CommitCreated => view_result (view (metadata w)) ns d = None /\
      view (metadata w') ≡ view_set_result ns d r (view (metadata w))
  | Ok CommitAlreadyExists =>
      view_result (view (metadata w)) ns d = Some r /\ view (metadata w') ≡ view (metadata w)
  | Ok CommitConflict =>
      (exists other, view_result (view (metadata w)) ns d = Some other /\ other <> r) /\
      view (metadata w') ≡ view (metadata w)
  | Err e => (exists se, e = internal se) /\
      (view (metadata w') ≡ view (metadata w) \/
       (view_result (view (metadata w)) ns d = None /\
        view (metadata w') ≡ view_set_result ns d r (view (metadata w))))
  end.
Proof.
  intros Hwf Hu Hc. apply on_metadata_inv in Hc as (s & q' & Hc & -> & ->).
  apply commit_law in Hc as [Hwf' Hc]; [|done..]. split_and!; [done..|].
  destruct q' as [[]|e]; cbn; [done..|]. eauto.
Qed.

Lemma shape_ok r kind :
  validate_action_result_shape r kind = Ok tt <->
  (kind <> Task -> is_Some (result_metadata r) /\ is_Some (output_root r)).
Proof.
  unfold validate_action_result_shape. destruct (bool_decide_reflect (kind <> Task)) as [Hk|Hk]; cbn.
  2:{ split; [done|done]. }
  destruct (result_metadata r), (output_root r); cbn; split; try done; try (by eauto);
    intros Hs; by destruct (Hs Hk) as [[] []].
Qed.

(** What passes the checks is supported. *)
Lemma check_action_result_ok `{!BlobReads BS} m headers parts r w w' ns action :
  meta_wf (metadata w) -> check_action_result m headers parts r w = (w', Ok (ns, action)) ->
  (exists w1, authorized m headers Write w = (w1, Ok ns)) /\
  require_immutable_precondition headers = Ok tt /\ parse_action_digest parts = Ok action /\
  result_action r = action /\ meta_wf (metadata w') /\ same_stores w w' /\ supported w ns r.
Proof.
  intros Hwf. unfold check_action_result. intros (w1 & ns' & Hauth & Hk)%m_bind_ok.
  destruct (authorized_inv _ _ _ _ _ _ Hauth) as [a ->].
  m_step Hk as w2 [] [= <- Hpre].
  m_step Hk as w2 action' [= <- Haction].
  destruct (N.eqb_spec (result_version r) 1) as [Hver|]; [|done].
  destruct (bool_decide_reflect (result_action r = action')) as [<-|]; [|done]. cbn [negb orb] in Hk.
  apply m_bind_ok in Hk as (w2 & kind & (Hwf2 & S2 & value & Hobj & Hvalid)%validate_action_descriptor_ok & Hk);
    [|done].
  change (same_stores w w2) in S2. apply (canonical_object_same _ w) in Hobj; [|by split].
  m_step Hk as w3 [] [= <- Hshape]. pose proof (proj1 (shape_ok _ _) Hshape) as Hboth.
  m_step Hk as w3 [] Hmd.
  assert (meta_wf (metadata w3) /\ same_stores w2 w3 /\
    forall d, result_metadata r = Some d -> exists v,
      canonical_object w2 ns' d v /\ json_kind v = Some (expected_kind kind) /\
      json_version v = Some 1%N /\ valid_metadata w2 ns' v kind) as (Hwf3 & S3 & Hmeta).
  { destruct (result_metadata r) as [d|]; [|injection Hmd as <-; by split_and!].
    apply validate_client_metadata_ok in Hmd as (? & ? & Hv); [|done]. split_and!; [done..|].
    by intros d' [= <-]. }
  m_step Hk as w4 [] Htree. injection Hk as <- <- <-.
  assert (meta_wf (metadata w4) /\ same_stores w3 w4 /\
    forall root, output_root r = Some root -> complete_tree w3 ns' root) as (Hwf4 & S4 & Hroot).
  { destruct (output_root r) as [root|]; [|injection Htree as <-; by split_and!].
    apply validate_tree_ok in Htree as (? & ? & Hv); [|done]. split_and!; [done..|].
    by intros root' [= <-]. }
  assert (same_stores w w3) as S13 by (etransitivity; [exact S2|exact S3]).
  split; [by eexists|]. split_and!; [done..|etransitivity; [exact S13|exact S4]|].
  pose proof (same_stores_sym _ _ S2) as S2'. split; [done| |].
  - exists kind, value. split_and!; try done. intros d Hd. destruct (Hmeta d Hd) as (v & Hv & ? & ? & Hvm).
    exists v. split_and!; try done; [by eapply canonical_object_same|by eapply valid_metadata_same].
  - intros root Hr. eapply complete_tree_same; [|by apply Hroot]. by apply same_stores_sym.
Qed.

(** *** Refusals commit nothing *)

(** One layer of a validator at a time. *)
Ltac validates :=
  repeat first
    [ solve [auto with validating read_only]
    | apply validating_object; intros ?
    | apply validating_bind; [|intros ?]
    | apply validating_if
    | match goal with |- validating (match ?x with _ => _ end) => destruct x end ].

Lemma validating_require_blob ns d label : validating (require_blob (MS:=MS) (BS:=BS) ns d label).
Proof. unfold require_blob. validates. Qed.

Lemma validating_canonical_object ns d label : validating (read_canonical_object (MS:=MS) (BS:=BS) ns d label).
Proof. unfold read_canonical_object. validates. Qed.

Lemma validating_directory ns d : validating (read_directory (MS:=MS) (BS:=BS) ns d).
Proof. unfold read_directory. validates. Qed.
Hint Resolve validating_require_blob validating_canonical_object validating_directory : validating.

Lemma validating_walk fuel ns pending visiting seen : validating (walk (MS:=MS) (BS:=BS) fuel ns pending visiting seen).
Proof.
  revert pending visiting seen; induction fuel as [|fuel IHf]; intros pending;
    induction pending as [|[d|d] pending IHp]; intros visiting seen; rewrite ?walk_nil, ?walk_exit, ?walk_enter;
    try apply IHp; validates; auto.
Qed.

Lemma validating_client_metadata ns d kind : validating (validate_client_metadata (MS:=MS) (BS:=BS) ns d kind).
Proof.
  unfold validate_client_metadata, validate_build_script_metadata, validate_cc_metadata,
    validate_rustc_metadata, require_output_blobs. validates.
Qed.
Hint Resolve validating_walk validating_client_metadata : validating.

Lemma validating_check m headers parts r : validating (check_action_result (MS:=MS) (BS:=BS) m headers parts r).
Proof. unfold check_action_result, validate_action_descriptor, validate_tree. validates. Qed.

(** C13. An action result is committed only when everything it rests on is in
    the namespace's sight: its action's descriptor, valid and of a known kind;
    its client metadata, of the same kind, with the captured output; and its
    output tree, complete and without cycles. So much holds however the request
    is answered: if any recorded result is another afterwards, then the one that
    is new is that of the request, all of this was so before it was committed,
    none was recorded for its action, and the answer is 201 or a store's
    failure; a refusal leaves every result as it was. An answer of 201 means
    that it was committed, one of 204 that the same result was there already;
    and no object is touched. *)
Theorem put_action_result_commits `{!BlobReads BS} m headers parts r w w' q
    (Hinv : store_inv w) (Hu64 : (parts.2 < u64_modulus)%N)
    (Hput : put_action_result m headers parts r w = (w', q)) :
  let entitled ns := exists w1, authorized m headers Write w = (w1, Ok ns) /\
    headers !! "if-none-match" = Some "*" /\ parse_action_digest parts = Ok (result_action r) /\
    supported w ns r in
  (forall d, objects (blobs w') d = objects (blobs w) d) /\
  (forall ns d, view_result (view (metadata w')) ns d <> view_result (view (metadata w)) ns d ->
     entitled ns /\ d = result_action r /\ view_result (view (metadata w)) ns d = None /\
     view_result (view (metadata w')) ns d = Some r /\
     (q = Ok CREATED \/ exists error, q = Err (internal error))) /\
  match q with
  | Ok code => exists ns, entitled ns /\
      ((code = CREATED /\ view_result (view (metadata w)) ns (result_action r) = None /\
        view (metadata w') ≡ view_set_result ns (result_action r) r (view (metadata w))) \/
       (code = NO_CONTENT /\ view_result (view (metadata w)) ns (result_action r) = Some r /\
        view (metadata w') ≡ view (metadata w)))
  | Err e => True
  end.
Proof.
  intros entitled. unfold put_action_result in Hput. unfold m_bind at 1 in Hput.
  destruct (check_action_result m headers parts r w) as [w2 [[ns action]|e]] eqn:Hcheck.
  2:{ injection Hput as <- <-. apply validating_check in Hcheck as [_ O2 R2]; [|done].
      split; [done|]. split; [|done]. intros ns d Hne. by rewrite R2 in Hne. }
  apply check_action_result_ok in Hcheck as ([w1 Hauth] & Hpre & Haction & <- & Hwf2 & [V2 O2] & Hsup);
    [|apply Hinv].
  assert (entitled ns) as Hns.
  { exists w1. split; [done|]. split; [|done]. unfold require_immutable_precondition in Hpre.
    by destruct (bool_decide_reflect (headers !! "if-none-match" = Some "*")). }
  unfold m_bind at 1 in Hput. destruct (on_metadata _ w2) as [w3 out] eqn:Hc.
  apply commit_ok in Hc as (_ & Hb3 & _ & Hc); [|done|by eapply parse_action_u64].
  pose proof V2 as (_ & Hr2 & _). rewrite !Hr2 in Hc.
  assert (forall d, objects (blobs w3) d = objects (blobs w) d) as O3 by (intros d; by rewrite Hb3).
  assert (forall v ns' d, v ≡ view_set_result ns (result_action r) r (view (metadata w2)) ->
    view_result (view (metadata w)) ns (result_action r) = None ->
    view_result v ns' d <> view_result (view (metadata w)) ns' d ->
    entitled ns' /\ d = result_action r /\ view_result (view (metadata w)) ns' d = None /\
    view_result v ns' d = Some r) as Hnew.
  { intros v ns' d (_ & Hv & _) Hnone. rewrite Hv. cbn. unfold upd. case_decide as Heq; [|by rewrite Hr2].
    injection Heq as -> ->. by intros _. }
  assert (forall v ns' d, v ≡ view (metadata w2) ->
    view_result v ns' d = view_result (view (metadata w)) ns' d) as Hold.
  { intros v ns' d (_ & Hv & _). by rewrite Hv. }
  destruct out as [[]|e]; injection Hput as <- <-; cbn [metadata blobs set_metrics] in *;
    (split; [done|]); [destruct Hc as [Hn Hv]..|destruct Hc as [[error ->] [Hv|[Hn Hv]]]]; split; try done.
  - intros ns' d Hne. destruct (Hnew _ _ _ Hv Hn Hne) as (? & ? & ? & ?). split_and!; auto.
  - exists ns. split; [done|]. left. split_and!; [done..|]. by rewrite Hv, V2.
  - intros ns' d Hne. by rewrite (Hold _ _ _ Hv) in Hne.
  - exists ns. split; [done|]. right. split_and!; [done..|]. by rewrite Hv, V2.
  - intros ns' d Hne. by rewrite (Hold _ _ _ Hv) in Hne.
  - intros ns' d Hne. by rewrite (Hold _ _ _ Hv) in Hne.
  - intros ns' d Hne. destruct (Hnew _ _ _ Hv Hn Hne) as (? & ? & ? & ?). split_and!; eauto.
Qed.

Lemma set_result_inv ns d r w w' :
  store_inv w -> meta_wf (metadata w') -> (forall d, objects (blobs w') d = objects (blobs w) d) ->
  view (metadata w') ≡ view (metadata w) \/
  view (metadata w') ≡ view_set_result ns d r (view (metadata w)) -> store_inv w'.
Proof.
  intros Hinv Hwf Ho Hv. apply (store_inv_step w); [done..|intros d'; by left|].
  intros ns' d' Hvis. left. by destruct Hv as [(Hb & _)|(Hb & _)]; rewrite Hb in Hvis.
Qed.

Lemma put_action_result_inv `{!BlobReads BS} m headers parts r w w' code :
  store_inv w -> (parts.2 < u64_modulus)%N -> put_action_result m headers parts r w = (w', Ok code) -> store_inv w'.
Proof.
  intros Hinv Hu (w2 & [ns action] & Hcheck & Hk)%m_bind_ok.
  apply check_action_result_ok in Hcheck as (_ & _ & Haction & <- & Hwf2 & [V2 O2] & _); [|apply Hinv].
  m_step Hk as w3 outcome Hc. apply commit_ok in Hc as (Hwf3 & Hb3 & _ & Hc); [|done|by eapply parse_action_u64].
  m_step Hk as w4 [] Hmet. injection Hmet as <-.
  assert (view (metadata w3) ≡ view (metadata w) \/
    view (metadata w3) ≡ view_set_result ns (result_action r) r (view (metadata w))) as Hv.
  { destruct outcome; [right|left|done]; destruct Hc as [_ Hv]; by rewrite Hv, V2. }
  eapply set_result_inv; [exact Hinv|..]; destruct outcome; try done; injection Hk as <- _; cbn; try done;
    intros d; by rewrite Hb3.
Qed.

(** ** Reading results *)

Lemma meta_get_ok ns d w w' q :
  meta_wf (metadata w) -> digest_u64 d -> on_metadata (meta_get ns d) w = (w', q) ->
  meta_wf (metadata w') /\ same_stores w w' /\
  match q with Ok o => o = view_result (view (metadata w)) ns d | Err e => exists se, e = internal se end.
Proof.
  intros Hwf Hu Hc. apply on_metadata_inv in Hc as (s & q' & Hc & -> & ->).
  apply meta_get_law in Hc as (Hwf' & Hv & Ho); [|done..]. split; [done|]. split; [by split|].
  destruct q'; cbn; eauto.
Qed.

(** An authorized lookup answers with the action's committed result, or 404
    when there is none, or a store's failure; it changes no store. *)
Theorem get_action_result_answers m headers parts w w' q w1 ns action
    (Hwf : meta_wf (metadata w)) (Hu64 : (parts.2 < u64_modulus)%N)
    (Hauth : authorized m headers Read w = (w1, Ok ns))
    (Haction : parse_action_digest parts = Ok action)
    (Hget : get_action_result m headers parts w = (w', q)) :
  same_stores w w' /\
  match q with
  | Ok r => view_result (view (metadata w)) ns action = Some r
  | Err e => (e = not_found "action result not found" /\ view_result (view (metadata w)) ns action = None) \/
      exists se, e = internal se
  end.
Proof.
  unfold get_action_result in Hget. unfold m_bind at 1 in Hget. rewrite Hauth in Hget.
  destruct (authorized_inv _ _ _ _ _ _ Hauth) as [a ->].
  unfold m_bind at 1, m_lift in Hget. rewrite Haction in Hget. unfold m_bind at 1 in Hget.
  destruct (on_metadata (meta_get ns action) _) as [w2 q2] eqn:Hc.
  apply meta_get_ok in Hc as (_ & S2 & Hq); [|done|by eapply parse_action_u64]. cbn in Hq.
  destruct q2 as [[r|]|e]; injection Hget as <- <-; (split; [exact S2|]); auto.
Qed.

Lemma collect_actions_ok ds seen acc requested :
  collect_actions ds seen acc = Ok requested -> NoDup acc -> seen = list_to_set acc ->
  NoDup requested /\ (forall d, d ∈ requested <-> d ∈ acc \/ d ∈ ds).
Proof.
  revert seen acc; induction ds as [|d ds IH]; intros seen acc; cbn.
  { intros [= <-] Hnd _. split; [done|]. set_solver. }
  intros (d' & Hd & Hk)%result_bind_ok Hnd Hseen.
  assert (d' = d) as ->.
  { unfold validate_action_digest in Hd. ok_step Hd as [] _.
    destruct (negb _); [done|]. by injection Hd. }
  case_decide as Hin.
  - destruct (IH _ _ Hk Hnd Hseen) as [Hr Hd']. split; [done|]. set_solver.
  - apply IH in Hk as [Hr Hd']; [|apply NoDup_app; split_and!; [done|set_solver|apply NoDup_singleton]|set_solver].
    split; [done|]. intros x. rewrite Hd'. set_solver.
Qed.

(** A batch answers with the committed results of the actions it asks for,
    each action once, and says nothing of the others; it changes no store. *)
Theorem batch_action_results_spec m headers ds w w' resp
    (Hwf : meta_wf (metadata w)) (Hu64 : Forall digest_u64 ds)
    (Hok : batch_action_results m headers ds w = (w', Ok resp)) :
  same_stores w w' /\ (N.of_nat (length ds) <= MAX_BATCH_ITEMS)%N /\
  exists w1 ns requested, authorized m headers Read w = (w1, Ok ns) /\
    NoDup requested /\ (forall d, d ∈ requested <-> d ∈ ds) /\
    response_body resp = omap (view_result (view (metadata w)) ns) requested.
Proof.
  unfold batch_action_results in Hok. apply m_bind_ok in Hok as (w1 & ns & Hauth & Hk).
  destruct (authorized_inv _ _ _ _ _ _ Hauth) as [a ->].
  destruct (N.ltb_spec MAX_BATCH_ITEMS (N.of_nat (length ds))); [done|].
  m_step Hk as w2 requested [= <- Hreq].
  apply collect_actions_ok in Hreq as [Hnd Hreq]; [|constructor|done].
  m_step Hk as w3 results Hc.
  apply on_metadata_inv in Hc as (s & q & Hc & -> & Hq). destruct q as [l|]; [|done]. injection Hq as ->.
  apply meta_get_batch_law in Hc as (_ & Hv & Hl); [|done|].
  - specialize (Hl l eq_refl). m_step Hk as w4 [] Hm. injection Hm as <-.
    injection Hk as <- <-. split; [by split|]. split; [done|].
    exists (set_auth a w), ns, requested. split_and!; [done|done| |done]. intros d. rewrite Hreq. set_solver.
  - apply Forall_forall. intros d Hd. rewrite Forall_forall in Hu64. apply Hu64. apply Hreq in Hd. set_solver.
Qed.

(** ** Manifests *)

(** What a write to one key of the manifests may leave. *)
Definition manifest_written (ns : string) (key : Digest) (record : ManifestRecord) w w' : Prop :=
  view (metadata w') ≡ view (metadata w) \/
  view (metadata w') ≡ view_set_manifest ns key record (view (metadata w)).

Lemma commit_manifest_ok ns key expected etag manifest w w' q :
  meta_wf (metadata w) -> digest_u64 key ->
  on_metadata (commit_manifest ns key expected etag manifest) w = (w', q) ->
  meta_wf (metadata w') /\ blobs w' = blobs w /\
  let current := record_etag <$> view_manifest (view (metadata w)) ns key in
  let written := view (metadata w') ≡
    view_set_manifest ns key (mkManifestRecord etag manifest) (view (metadata w)) in
  match q with
  | Ok ManifestCreated => expected = None /\ current = None /\ written
  | Ok ManifestUpdated => expected = current /\ current <> None /\ written
  | Ok PreconditionFailed => expected <> current /\ view (metadata w') ≡ view (metadata w)
  | Err e => (exists se, e = internal se) /\ manifest_written ns key (mkManifestRecord etag manifest) w w'
  end.
Proof.
  intros Hwf Hu Hc. apply on_metadata_inv in Hc as (s & q' & Hc & -> & ->).
  apply commit_manifest_law in Hc as [Hwf' Hc]; [|done..]. split; [done|]. split; [done|].
  destruct q' as [[]|e]; cbn in *; [done..|]. split; [by eexists|]. unfold manifest_written.
  destruct Hc as [|[_ ?]]; [by left|by right].
Qed.

(** What precedes the commit of a manifest. *)
Record manifest_request (m : Moment) (headers : HeaderMap) (parts : string * string * N)
    (body : RequestBody) w (ns : string) (key : Digest) (manifest : TaskActionManifest)
    (expected : option string) (canonical : bytes) : Prop := {
  request_authorized : exists w1, authorized m headers Write w = (w1, Ok ns);
  request_body : exists bs, to_bytes body MAX_ACTION_MANIFEST_BYTES = Some bs /\
    manifest_from_slice bs = Ok manifest;
  request_key : parse_action_digest parts = Ok key;
  request_valid : manifest_validate manifest = true /\ selector_digest manifest = key;
  request_expected : manifest_precondition headers = Ok expected;
  request_canonical : canonical_json manifest = Ok canonical;
}.

Lemma put_action_manifest_request m headers parts body w ns key manifest expected canonical :
  manifest_request m headers parts body w ns key manifest expected canonical ->
  exists w1, metadata w1 = metadata w /\ blobs w1 = blobs w /\
    put_action_manifest m headers parts body w =
    let '(w2, outcome) :=
      on_metadata (commit_manifest ns key expected (blake3_hash canonical) manifest) w1 in
    (w2, match outcome with
         | Ok ManifestCreated =>
             Ok (mkResponse CREATED {["etag" := quoted_etag (blake3_hash canonical)]} tt)
         | Ok ManifestUpdated =>
             Ok (mkResponse NO_CONTENT {["etag" := quoted_etag (blake3_hash canonical)]} tt)
         | Ok PreconditionFailed =>
             Err (precondition "action manifest changed; read and merge it before retrying")
         | Err e => Err e
         end).
Proof.
  intros [[w1 Hauth] (bs & Hbs & Hman) Hkey [Hval Hsel] Hpre Hcan].
  destruct (authorized_inv _ _ _ _ _ _ Hauth) as [a ->]. exists (set_auth a w). split; [done|]. split; [done|].
  unfold put_action_manifest. unfold m_bind at 1. rewrite Hauth.
  unfold m_bind at 1, m_lift at 1. rewrite Hbs. cbn [ok_or].
  unfold m_bind at 1, m_lift at 1. rewrite Hman. cbn [map_err].
  unfold m_bind at 1, m_lift at 1. rewrite Hkey, Hval, bool_decide_eq_true_2 by done. cbn [negb orb].
  unfold m_bind at 1, m_lift at 1. rewrite Hpre.
  unfold m_bind at 1, m_lift at 1. rewrite Hcan. cbn [map_err]. cbv zeta. unfold m_bind at 1.
  by destruct (on_metadata _ (set_auth a w)) as [w2 [[]|e]].
Qed.

(** C30. A well-formed request to write a manifest writes exactly over what its
    writer saw. It is answered 201 when the writer required that there be no
    manifest and there was none, 204 when the writer named the entity tag of
    the current one, and 412, with nothing written, in every other case; only a
    store's failure can come between. The new entity tag, which the answer
    carries, is the BLAKE3 hash of the canonical bytes. *)
Theorem put_action_manifest_spec m headers parts body w w' q ns key manifest expected canonical
    (Hwf : meta_wf (metadata w)) (Hu64 : (parts.2 < u64_modulus)%N)
    (Hreq : manifest_request m headers parts body w ns key manifest expected canonical)
    (Hput : put_action_manifest m headers parts body w = (w', q)) :
  let current := record_etag <$> view_manifest (view (metadata w)) ns key in
  let record := mkManifestRecord (blake3_hash canonical) manifest in
  (forall d, objects (blobs w') d = objects (blobs w) d) /\
  match q with
  | Ok resp =>
      expected = current /\
      response_code resp = match expected with None => CREATED | Some _ => NO_CONTENT end /\
      header_map resp !! "etag" = Some (quoted_etag (blake3_hash canonical)) /\
      view (metadata w') ≡ view_set_manifest ns key record (view (metadata w))
  | Err e =>
      (e = precondition "action manifest changed; read and merge it before retrying" /\
       expected <> current /\ view (metadata w') ≡ view (metadata w)) \/
      (exists se, e = internal se) /\ manifest_written ns key record w w'
  end.
Proof.
  destruct (put_action_manifest_request _ _ _ _ _ _ _ _ _ _ Hreq) as (w1 & Hm1 & Hb1 & Heq).
  rewrite Heq in Hput. destruct (on_metadata _ w1) as [w2 outcome] eqn:Hc. injection Hput as <- <-.
  apply commit_manifest_ok in Hc as (_ & Hb2 & Hc);
    [|by rewrite Hm1|by eapply parse_action_u64, (request_key _ _ _ _ _ _ _ _ _ _ Hreq)].
  unfold manifest_written in *. cbv zeta in Hc |- *. rewrite Hm1 in Hc.
  split; [intros d; by rewrite Hb2, Hb1|].
  destruct outcome as [[]|e]; [..|by right].
  - destruct Hc as (-> & Hn & Hv). by split_and!.
  - destruct Hc as (-> & Hn & Hv). split_and!; try done. by destruct (record_etag <$> _).
  - destruct Hc as (Hne & Hv). left. by split_and!.
Qed.

Lemma get_manifest_ok ns d w w' q :
  meta_wf (metadata w) -> digest_u64 d -> on_metadata (get_manifest ns d) w = (w', q) ->
  meta_wf (metadata w') /\ same_stores w w' /\
  match q with Ok o => o = view_manifest (view (metadata w)) ns d | Err e => exists se, e = internal se end.
Proof.
  intros Hwf Hu Hc. apply on_metadata_inv in Hc as (s & q' & Hc & -> & ->).
  apply get_manifest_law in Hc as (Hwf' & Hv & Ho); [|done..]. split; [done|]. split; [by split|].
  destruct q'; cbn; eauto.
Qed.

Lemma blake3_etag content : valid_etag (blake3_hash content) = true.
Proof.
  destruct (blake3_wire (blake3_update blake3_new content)) as [Hl Hx].
  unfold valid_etag, blake3_hash, content_hash. by rewrite Hl, Hx.
Qed.

(** C14. A manifest that was accepted is served as it was written: its canonical
    bytes, under the entity tag the writer was told; and that tag, sent back in
    [If-Match], is accepted as naming the current manifest. *)
Theorem manifest_etag_roundtrip m m' headers headers' again parts body w w' resp w'' q ns key manifest
    expected canonical w2
    (Hwf : meta_wf (metadata w)) (Hwf' : meta_wf (metadata w')) (Hu64 : (parts.2 < u64_modulus)%N)
    (Hreq : manifest_request m headers parts body w ns key manifest expected canonical)
    (Hput : put_action_manifest m headers parts body w = (w', Ok resp))
    (Hread : authorized m' headers' Read w' = (w2, Ok ns))
    (Hget : get_action_manifest m' headers' parts w' = (w'', q))
    (Hagain : again !! "if-match" = header_map resp !! "etag")
    (Hnomatch : again !! "if-none-match" = None) :
  (match q with
   | Ok got => response_body got = canonical /\ header_map got !! "etag" = header_map resp !! "etag"
   | Err e => exists se, e = internal se
   end) /\
  manifest_precondition again = Ok (record_etag <$> view_manifest (view (metadata w')) ns key).
Proof.
  pose proof (request_key _ _ _ _ _ _ _ _ _ _ Hreq) as Hkey.
  pose proof (request_canonical _ _ _ _ _ _ _ _ _ _ Hreq) as Hcan.
  assert (header_map resp !! "etag" = Some (quoted_etag (blake3_hash canonical)) /\
    view_manifest (view (metadata w')) ns key = Some (mkManifestRecord (blake3_hash canonical) manifest))
    as [Hetag Hview].
  { destruct (put_action_manifest_request _ _ _ _ _ _ _ _ _ _ Hreq) as (w1 & Hm1 & Hb1 & Heq).
    rewrite Heq in Hput. destruct (on_metadata _ w1) as [w3 outcome] eqn:Hc. injection Hput as <- Hresp.
    apply commit_manifest_ok in Hc as (_ & _ & Hc); [|by rewrite Hm1|by eapply parse_action_u64].
    cbv zeta in Hc. destruct outcome as [[]|e]; try done; injection Hresp as <-;
      (split; [done|]); destruct Hc as (_ & _ & (_ & _ & ->)); cbn; unfold upd; by rewrite decide_True. }
  split.
  2:{ rewrite Hview. cbn. apply manifest_precondition_quoted; [by rewrite Hnomatch|by rewrite Hagain|apply blake3_etag]. }
  unfold get_action_manifest in Hget. unfold m_bind at 1 in Hget. rewrite Hread in Hget.
  destruct (authorized_inv _ _ _ _ _ _ Hread) as [a ->].
  unfold m_bind at 1, m_lift at 1 in Hget. rewrite Hkey in Hget. unfold m_bind at 1 in Hget.
  destruct (on_metadata (get_manifest ns key) _) as [w3 q3] eqn:Hc.
  apply get_manifest_ok in Hc as (_ & _ & Hq); [|done|by eapply parse_action_u64].
  destruct q3 as [o|e]; [|by injection Hget as <- <-]. cbn [metadata set_auth] in Hq. subst o.
  rewrite Hview in Hget. unfold m_bind, m_lift, m_ret in Hget. cbn [ok_or record_manifest] in Hget.
  rewrite Hcan in Hget. injection Hget as <- <-. by rewrite Hetag.
Qed.

(** A write of a manifest, however it ends. *)
Record manifest_put (m : Moment) (headers : HeaderMap) w w' : Prop := {
  mput_inv : store_inv w';
  mput_objects : forall d, objects (blobs w') d = objects (blobs w) d;
  mput_view : same_stores w w' \/
    exists w1 ns key record, authorized m headers Write w = (w1, Ok ns) /\
      view (metadata w') ≡ view_set_manifest ns key record (view (metadata w));
  mput_config : config w' = config w;
}.

Lemma lift_ends {A B} (P : AppState -> Prop) (x : result ApiError A) (k : A -> Handler (MS:=MS) (BS:=BS) B) w w' q :
  P w -> (forall a, x = Ok a -> k a w = (w', q) -> P w') -> m_bind (m_lift x) k w = (w', q) -> P w'.
Proof. intros Hw Hk. unfold m_bind, m_lift. destruct x as [a|e]; [by apply Hk|by intros [= <- <-]]. Qed.

Lemma put_action_manifest_any m headers parts body w w' q :
  store_inv w -> (parts.2 < u64_modulus)%N -> put_action_manifest m headers parts body w = (w', q) ->
  manifest_put m headers w w'.
Proof.
  intros Hinv Hu. unfold put_action_manifest. unfold m_bind at 1.
  destruct (authorized m headers Write w) as [w1 [ns|e]] eqn:Hauth;
    pose proof (read_only_authorized _ _ _ _ _ _ Hinv Hauth) as (Hinv1 & S1 & C1);
    assert (manifest_put m headers w w1) as Hput1 by (split; [done|apply S1|by left|done]);
    [|by intros [= <- <-]].
  do 3 (apply (lift_ends (manifest_put m headers w)); [done|]; intros ? ?).
  destruct (_ || _); [by intros [= <- <-]|].
  do 2 (apply (lift_ends (manifest_put m headers w)); [done|]; intros ? ?).
  cbv zeta. unfold m_bind at 1. destruct (on_metadata _ w1) as [w2 outcome] eqn:Hc.
  enough (manifest_put m headers w w2) by (by destruct outcome as [[]|e]; intros [= <- <-]).
  assert (config w2 = config w) as C2.
  { rewrite <-C1. apply on_metadata_inv in Hc as (s & q' & _ & -> & _). done. }
  apply commit_manifest_ok in Hc as (Hwf2 & Hb2 & Hc); [|apply Hinv1|by eapply parse_action_u64].
  assert (forall d, objects (blobs w2) d = objects (blobs w) d) as O2 by (intros d; rewrite Hb2; apply S1).
  assert (view (metadata w2) ≡ view (metadata w) \/ exists key record,
    view (metadata w2) ≡ view_set_manifest ns key record (view (metadata w))) as Hv.
  { destruct S1 as [V1 _]. unfold manifest_written in Hc. cbv zeta in Hc.
    destruct outcome as [[]|e]; [right; destruct Hc as (_ & _ & Hv)|right; destruct Hc as (_ & _ & Hv)
      |left; destruct Hc as (_ & Hv)|destruct Hc as [_ [Hv|Hv]]; [left|right]];
      try (eexists _, _); by rewrite Hv, V1. }
  split; [|done| |done].
  - apply (store_inv_step w); [done..|intros d; by left|]. intros ns' d Hvis. left.
    by destruct Hv as [(Hb & _)|(? & ? & (Hb & _))]; rewrite Hb in Hvis.
  - destruct Hv as [Hv|(key & record & Hv)]; [by left; split|right; by eexists _, ns, key, record].
Qed.

End Results.
