(* ===== verification/Service.v ===== *)
(** * The service as a whole (src/server.rs, [router], src/main.rs)

    The requests there are, and all that happens to the shared state beside
    their handlers: pack uploads step by step, the background tasks, the sweep
    and restarts ([service_step]). The handlers' calls between these steps are in
    [Interleaving]. *)
From S2P Require Import Prelude Str Protocol Api Json Model Records Oidc Auth Spool Access.
From S2P Require Import Metrics App Pack Tree Actions Blobs PackUpload PackDownload Results.

Local Open Scope string_scope.
Local Open Scope mbx_scope.

(** [usize::saturating_add] and [saturating_mul] *)
Definition saturating_add (a b : N) : N := N.min (a + b) usize_max.
Definition saturating_mul (a b : N) : N := N.min (a * b) usize_max.

Section Service.
Context `{Protocol} `{Hashes} `{Hex} `{Records} `{!JsonText} `{!Documents} `{!Jwt} `{!AuthJson} `{!Tokio}
  `{!DebugFormat} `{!Constants} `{!ManifestText}.
Context {MS BS : Type} `{!MetadataStore MS} `{!BlobStore BS}.
Notation AppState := (AppState (MS:=MS) (BS:=BS)).
Notation Handler := (Handler (MS:=MS) (BS:=BS)).

(** ** What needs no store *)

(** The body of [GET /v1/status]. *)
Definition status : string * N := ("ok", PROTOCOL_VERSION).

Record Capabilities := mkCapabilities {
  protocol_version : N * N;
  digest_algorithms : list string;
  compressors : list string;
  action_kinds : gmap string (N * N);
  features : list (string * bool);
  max_batch_items : N;
  max_inline_blob_bytes : N;
  max_blob_bytes_limit : N;
  max_pack_bytes_limit : N;
}.

Definition capabilities (state : AppState) : Capabilities :=
  mkCapabilities (PROTOCOL_VERSION, 0%N) ["blake3"; "sha256"] ["identity"; "zstd"]
    (list_to_map [("build-script", (BUILD_SCRIPT_ACTION_SCHEMAS.2, 1%N)); ("cc", (1%N, 1%N));
                  ("rustc", (1%N, 1%N)); ("task", (1%N, 1%N))])
    [("action_manifests", true); ("batch", true); ("action_batch", true); ("blob_packs", true);
     ("blob_pack_uploads", true)]
    MAX_BATCH_ITEMS 1048576 (max_blob_bytes state) (max_blob_bytes state).

(** The body limits of [router], before and after decoding. *)
Definition blob_limit (state : AppState) : N :=
  if (max_blob_bytes state <=? usize_max)%N then max_blob_bytes state else usize_max.
Definition pack_limit (state : AppState) : N :=
  saturating_add (saturating_add (blob_limit state) (N.of_nat (length BLOB_PACK_MAGIC)))
    (saturating_mul (N.of_nat HEADER_BYTES) MAX_BATCH_ITEMS).

(** [GET /metrics], before its gauges are printed. *)
Definition refresh_metrics : Handler unit :=
  state <~ get_state;
  match pool_stats (metadata state) with
  | Some stats => on_metrics (Metrics.set_database_pool stats)
  | None => m_ret tt
  end.

(** ** Requests *)

Inductive Request :=
  | GetBlob (m : Moment) (headers : HeaderMap) (parts : string * string * N)
  | PutBlob (m : Moment) (headers : HeaderMap) (parts : string * string * N) (body : RequestBody)
      (faults : list (option StoreError))
  | MissingBlobs (m : Moment) (headers : HeaderMap) (digests : list Digest)
  | PackBlobs (clock : PackClock) (m : Moment) (headers : HeaderMap) (digests : list Digest)
  | GetActionResult (m : Moment) (headers : HeaderMap) (parts : string * string * N)
  | BatchActionResults (m : Moment) (headers : HeaderMap) (digests : list Digest)
  | PutActionResult (m : Moment) (headers : HeaderMap) (parts : string * string * N)
      (result : ActionResult)
  | GetActionManifest (m : Moment) (headers : HeaderMap) (parts : string * string * N)
  | PutActionManifest (m : Moment) (headers : HeaderMap) (parts : string * string * N)
      (body : RequestBody)
  | GetMetrics.

(** The sizes in a path or a body are decoded as [u64]s. *)
Definition request_u64 (request : Request) : Prop :=
  match request with
  | GetBlob _ _ parts | PutBlob _ _ parts _ _ | GetActionResult _ _ parts
  | PutActionResult _ _ parts _ | GetActionManifest _ _ parts | PutActionManifest _ _ parts _ =>
      (parts.2 < u64_modulus)%N
  | MissingBlobs _ _ digests | PackBlobs _ _ _ digests | BatchActionResults _ _ digests =>
      Forall digest_u64 digests
  | GetMetrics => True
  end.

Definition request_headers (request : Request) : HeaderMap :=
  match request with
  | GetBlob _ headers _ | PutBlob _ headers _ _ _ | MissingBlobs _ headers _ | PackBlobs _ _ headers _
  | GetActionResult _ headers _ | BatchActionResults _ headers _ | PutActionResult _ headers _ _
  | GetActionManifest _ headers _ | PutActionManifest _ headers _ _ => headers
  | GetMetrics => ∅
  end.

(** ** The service *)

(** A pack upload under way: its namespace, what it declared, and its state. *)
Record Upload := mkUploading {
  upload_namespace : string;
  upload_blobs : N;
  upload_bytes : N;
  upload_request : PackRequest;
}.

Record Service := mkService { shared : AppState; uploads : list Upload }.

(** [PendingAccess::flush], as the background task calls it. *)
Definition flush_access (w : AppState) : AppState :=
  let '(p, s, _) := PendingAccess.flush (access w, metadata w) in
  set_access p (set_metadata s w).

(** The sweep of [main], whose failure ends that process. *)
Definition sweep_once (days : N) (w : AppState) : AppState := (on_metadata (sweep days) w).1.

(** What a new process starts with: the stores as they are. *)
Definition restart (authorizer : Authorizer) (max_blob concurrency max_spool : N) (w : AppState)
  : AppState :=
  new_app_state (blobs w) (metadata w) authorizer max_blob concurrency max_spool.

(** Whose doing a step is; [Lifecycle] is the object store's own, its lifecycle
    policy. *)
Inductive Actor :=
  | Client (namespace : option string)
  | Background
  | Sweeper
  | Operator
  | Lifecycle.

#[global] Instance actor_eq_dec : EqDecision Actor.
Proof. solve_decision. Defined.

Inductive service_step : Actor -> Service -> Service -> Prop :=
  | PackStart m headers body w w' ns blobs' bytes' q l :
      put_blob_pack m headers body w = (w', Ok (ns, blobs', bytes', q)) ->
      service_step (Client (Some ns)) (mkService w l)
        (mkService w' (mkUploading ns blobs' bytes' q :: l))
  | PackRefused m headers body w w' e l :
      put_blob_pack m headers body w = (w', Err e) ->
      service_step (Client (headers !! "mbx-cache-namespace")) (mkService w l) (mkService w' l)
  | PackStep w l1 ns blobs' bytes' q l2 w' q' :
      pack_step (fun _ _ => False) ns blobs' bytes' (w, q) (w', q') ->
      service_step (Client (Some ns)) (mkService w (l1 ++ mkUploading ns blobs' bytes' q :: l2))
        (mkService w' (l1 ++ mkUploading ns blobs' bytes' q' :: l2))
  | PackEnd w l1 ns blobs' bytes' q l2 :
      (exists res, phase q = Answered res) \/
      (phase q = Cancelled /\ Forall (fun s => exists res, s = Stored res) (stores q)) ->
      service_step (Client (Some ns)) (mkService w (l1 ++ mkUploading ns blobs' bytes' q :: l2))
        (mkService w (l1 ++ l2))
  | FlushAccess w l : service_step Background (mkService w l) (mkService (flush_access w) l)
  | Sweep days w l : service_step Sweeper (mkService w l) (mkService (sweep_once days w) l)
  | Restart authorizer max_blob concurrency max_spool w l :
      (2 * max_blob < u64_modulus)%N ->
      service_step Operator (mkService w l)
        (mkService (restart authorizer max_blob concurrency max_spool w) []).

Definition any_step (s s' : Service) : Prop := exists actor, service_step actor s s'.

End Service.
