(* ===== verification/HandlerFutures.v ===== *)
(** * The handlers as futures (src/server.rs)

    Every request handler again, call by call: each access to a store, the
    spool, the metrics, the pending accesses and the authorizer is a call of its
    own, and what other tasks do may come between any two. [request_future] is the
    future of a request; [runs_request] shows that alone it does what the
    handler does. *)
From stdpp Require Import pretty.
From S2P Require Import Prelude Str Protocol Api Json Model Records Oidc Auth Spool Access.
From S2P Require Import Metrics App Future Pack Tree Actions Blobs PackUpload PackDownload Results Service.

Local Open Scope string_scope.
Local Open Scope mbx_scope.

(** What the future of a request owns: a spool permit, or the metrics guard of
    a pack. *)
Record Held := mkHeld { held_permit : option N; held_guard : option (N * Metrics.PackGuard) }.
Definition nothing_held : Held := mkHeld None None.

Section HandlerFutures.
Context `{Protocol} `{Hashes} `{Hex} `{Records} `{!JsonText} `{!Documents} `{!Jwt} `{!AuthJson} `{!Tokio}
  `{!DebugFormat} `{!Constants} `{!ManifestText}.
Context {MS BS : Type} `{!MetadataStore MS} `{!BlobStore BS}.
Notation AppState := (AppState (MS:=MS) (BS:=BS)).
Notation Handler := (Handler (MS:=MS) (BS:=BS)).
Notation Job := (Future AppState Held).
Notation Sent := (list (result IoError bytes)).
Notation HandlerFuture A := (Job (result ApiError A)).

(** What dropping a future does. *)
Definition drop_held (h : Held) (w : AppState) : AppState :=
  let w := release_spool (held_permit h) w in
  match held_guard h with
  | Some (ended, g) => set_metrics (Metrics.drop ended (metrics w, g)) w
  | None => w
  end.

Definition call {A} (c : Handler A) : HandlerFuture A := await nothing_held c.

(** ** Validation *)

Definition require_blob_future (namespace : string) (digest : Digest) (label : string) : HandlerFuture unit :=
  future_lift (validate_digest digest) ;~~
  visible <~~ call (on_metadata (blob_visible namespace digest));
  if (visible : bool) then future_ret tt else future_throw (unprocessable (label ++ " is missing")).

Definition read_canonical_object_future (namespace : string) (digest : Digest) (label : string)
  : HandlerFuture Value :=
  future_lift (validate_digest digest) ;~~
  if (MAX_OBJECT_BYTES <? digest_size digest)%N
  then future_throw (unprocessable (label ++ " is too large"))
  else
    visible <~~ call (on_metadata (blob_visible namespace digest));
    if negb visible then future_throw (unprocessable (label ++ " blob is missing"))
    else
      found <~~ call (on_blobs (blob_get digest));
      match found with
      | None =>
          call (forget_missing_blob namespace digest) ;~~
          future_throw (unprocessable (label ++ " blob is missing"))
      | Some blob =>
          content <~~ call (gather (blob_stream blob));
          value <~~ future_lift (map_err (fun _ => unprocessable (label ++ " is invalid JSON"))
                                 (value_from_slice content));
          if negb (is_object value)
          then future_throw (unprocessable (label ++ " is not canonical JSON"))
          else
            canonical <~~ future_lift (map_err (fun e => internal (OtherError e)) (value_to_vec value));
            if negb (bool_decide (canonical = content))
            then future_throw (unprocessable (label ++ " is not canonical JSON"))
            else future_ret value
      end.

Definition validate_action_descriptor_future (namespace : string) (digest : Digest) : HandlerFuture ActionKind :=
  value <~~ read_canonical_object_future namespace digest "action descriptor";
  future_lift (dispatch_action value).

Definition require_output_blobs_future (namespace : string) (stdout stderr : Digest) (kind : string)
  : HandlerFuture unit :=
  require_blob_future namespace stdout (kind ++ " stdout blob") ;~~
  require_blob_future namespace stderr (kind ++ " stderr blob").

Definition validate_build_script_metadata_future (namespace : string) (value : Value) (version : N)
  : HandlerFuture unit :=
  if negb (version =? 1)%N
  then future_throw (unprocessable ("unsupported build-script metadata schema " ++ pretty version))
  else
    metadata <~~ future_lift (map_err
      (fun error => unprocessable ("invalid build-script metadata: " ++ error))
      (build_script_metadata_from_value value));
    if negb (BuildScriptMetadata.validate metadata)
    then future_throw (unprocessable "invalid build-script metadata values")
    else require_output_blobs_future namespace (BuildScriptMetadata.stdout metadata)
      (BuildScriptMetadata.stderr metadata) "build-script".

Definition validate_cc_metadata_future (namespace : string) (value : Value) (version : N) : HandlerFuture unit :=
  if negb (version =? 1)%N
  then future_throw (unprocessable ("unsupported cc metadata schema " ++ pretty version))
  else
    metadata <~~ future_lift (map_err (fun error => unprocessable ("invalid cc metadata: " ++ error))
      (cc_metadata_from_value value));
    if negb (cc_metadata_validate metadata)
    then future_throw (unprocessable "invalid cc metadata values")
    else require_output_blobs_future namespace (metadata_stdout metadata) (metadata_stderr metadata) "cc".

Definition validate_rustc_metadata_future (namespace : string) (value : Value) (version : N)
  : HandlerFuture unit :=
  if negb (version =? 1)%N
  then future_throw (unprocessable ("unsupported rustc metadata schema " ++ pretty version))
  else
    metadata <~~ future_lift (map_err (fun error => unprocessable ("invalid rustc metadata: " ++ error))
      (rustc_metadata_from_value value));
    if negb (rustc_metadata_validate metadata)
    then future_throw (unprocessable "invalid rustc metadata values")
    else require_output_blobs_future namespace (metadata_stdout metadata) (metadata_stderr metadata)
      "rustc".

Definition validate_client_metadata_future (namespace : string) (digest : Digest) (action_kind : ActionKind)
  : HandlerFuture unit :=
  value <~~ read_canonical_object_future namespace digest "client metadata";
  object <~~ future_lift (ok_or (as_object value)
    (unprocessable "client metadata must be a JSON object"));
  kind <~~ future_lift (ok_or (entries_get "kind" object ≫= as_str)
    (unprocessable "client metadata kind is required"));
  version <~~ future_lift (ok_or (entries_get "version" object ≫= as_u64)
    (unprocessable "client metadata version is required"));
  if negb (String.eqb kind (expected_kind action_kind))
  then future_throw (unprocessable "client metadata kind does not match action kind")
  else
    match action_kind with
    | Task => future_lift (validate_task_metadata value version)
    | BuildScript => validate_build_script_metadata_future namespace value version
    | Cc => validate_cc_metadata_future namespace value version
    | Rustc => validate_rustc_metadata_future namespace value version
    end.

Definition read_directory_future (namespace : string) (digest : Digest) : HandlerFuture Directory :=
  if (MAX_DIRECTORY_BYTES <? digest_size digest)%N
  then future_throw (unprocessable "directory object is too large")
  else
    visible <~~ call (on_metadata (blob_visible namespace digest));
    if negb visible then future_throw (unprocessable "directory object is missing")
    else
      found <~~ call (on_blobs (blob_get digest));
      match found with
      | None =>
          call (forget_missing_blob namespace digest) ;~~
          future_throw (unprocessable "directory object is missing")
      | Some blob =>
          content <~~ call (gather (blob_stream blob));
          directory <~~ future_lift (map_err (fun _ => unprocessable "directory object is invalid")
                                     (directory_from_slice content));
          canonical <~~ future_lift (map_err (fun e => internal (OtherError e)) (directory_to_vec directory));
          if negb (bool_decide (canonical = content))
          then future_throw (unprocessable "directory object is not canonical JSON")
          else if negb (directory_version directory =? 1)%N
          then future_throw (unprocessable "unsupported directory object version")
          else
            future_lift (validate_directory_entries directory) ;~~
            file_set <~~ future_lift (validate_file_digests (files directory) ∅);
            let file_list := elements file_set in
            visible <~~ call (on_metadata (visible_blobs namespace file_list));
            if negb (length visible =? length file_list)%nat
            then future_throw (unprocessable "file blob is missing")
            else future_ret directory
      end.

Fixpoint walk_future (fuel : nat) (namespace : string) {struct fuel}
  : list Visit -> gset Digest -> gset Digest -> HandlerFuture unit :=
  fix turns (pending : list Visit) (visiting seen : gset Digest) {struct pending} :=
    match pending with
    | [] => future_ret tt
    | Exit digest :: pending => turns pending (visiting ∖ {[digest]}) ({[digest]} ∪ seen)
    | Enter digest :: pending =>
        if decide (digest ∈ seen) then turns pending visiting seen
        else if decide (digest ∈ visiting)
        then future_throw (unprocessable "directory graph contains a cycle")
        else
          let visiting := {[digest]} ∪ visiting in
          if (MAX_DIRECTORIES <? size seen + size visiting)%nat
          then future_throw (unprocessable "directory graph is too large")
          else
            directory <~~ read_directory_future namespace digest;
            match fuel with
            | O => future_throw (unprocessable "directory graph is too large")
            | S fuel => walk_future fuel namespace (push_children digest directory pending) visiting seen
            end
    end.

Definition validate_tree_future (namespace : string) (root : Digest) : HandlerFuture unit :=
  walk_future MAX_DIRECTORIES namespace [Enter root] ∅ ∅.

(** ** Blobs *)

Definition reserve_spool (size : N) : Handler (option N) :=
  fun w => let '(b, r) := SpoolBudget.reserve (spool w) size in (set_spool b w, r).

Definition with_spool_future {A} (size : N) (t : HandlerFuture A) : HandlerFuture A :=
  held <~~ call (reserve_spool size);
  holding (mkHeld held None) (release_spool held) t.

Definition store_upload_future (namespace : string) (digest : Digest) (content : bytes)
  : HandlerFuture PutOutcome :=
  outcome <~~ call (on_blobs (blob_put digest content));
  call (on_metadata (register_blob namespace digest outcome)) ;~~
  call (on_metrics Metrics.inc_blob_upload) ;~~
  future_ret outcome.

Definition put_blob_future (m : Moment) (headers : HeaderMap) (parts : string * string * N)
    (body : RequestBody) (faults : list (option StoreError)) : HandlerFuture N :=
  namespace <~~ call (authorized m headers Write);
  future_lift (require_immutable_precondition headers) ;~~
  digest <~~ future_lift (parse_digest parts);
  state <~~ call get_state;
  if (max_blob_bytes state <? digest_size digest)%N
  then future_throw (too_large "blob exceeds configured limit")
  else
    with_spool_future (digest_size digest)
      (content <~~ future_lift (spool_upload digest (max_blob_bytes state) body faults);
       outcome <~~ store_upload_future namespace digest content;
       future_ret match outcome with PutCreated => CREATED | PutAlreadyExists => NO_CONTENT end).

Definition get_blob_future (m : Moment) (headers : HeaderMap) (parts : string * string * N)
  : HandlerFuture (Response (list (result StoreError bytes))) :=
  namespace <~~ call (authorized m headers Read);
  digest <~~ future_lift (parse_digest parts);
  visible <~~ call (on_metadata (blob_visible namespace digest));
  if negb visible then future_throw (not_found "blob not found")
  else
    call (on_access (PendingAccess.record namespace [digest])) ;~~
    found <~~ call (on_blobs (blob_get digest));
    match found with
    | None =>
        call (forget_missing_blob namespace digest) ;~~
        future_throw (not_found "blob not found")
    | Some blob =>
        call (on_metrics Metrics.inc_blob_hit) ;~~
        future_ret (mkResponse OK
          (<["content-length" := pretty (blob_size blob)]>
           (<["content-type" := "application/octet-stream"]>
            (<["etag" := DQUOTE ++ digest_hash digest ++ DQUOTE]>
             {["digest" := digest_algorithm digest ++ "=" ++ digest_hash digest]})))
          (blob_stream blob))
    end.

Definition missing_blobs_future (m : Moment) (headers : HeaderMap) (digests : list Digest)
  : HandlerFuture (list Digest) :=
  namespace <~~ call (authorized m headers Read);
  if (MAX_BATCH_ITEMS <? N.of_nat (length digests))%N
  then future_throw (bad_request "at most 10000 digests may be checked")
  else
    future_lift (validate_digests digests) ;~~
    visible <~~ call (on_metadata (visible_blobs namespace digests));
    let visible : gset Digest := list_to_set visible in
    future_ret (List.filter (fun digest => negb (bool_decide (digest ∈ visible))) digests).

(** ** Action results and manifests *)

Definition get_action_result_future (m : Moment) (headers : HeaderMap) (parts : string * string * N)
  : HandlerFuture ActionResult :=
  namespace <~~ call (authorized m headers Read);
  action <~~ future_lift (parse_action_digest parts);
  found <~~ call (on_metadata (meta_get namespace action));
  match found with
  | Some result => call (on_metrics Metrics.inc_action_hit) ;~~ future_ret result
  | None => call (on_metrics Metrics.inc_action_miss) ;~~ future_throw (not_found "action result not found")
  end.

Definition batch_action_results_future (m : Moment) (headers : HeaderMap) (digests : list Digest)
  : HandlerFuture (Response (list ActionResult)) :=
  namespace <~~ call (authorized m headers Read);
  if (MAX_BATCH_ITEMS <? N.of_nat (length digests))%N
  then future_throw (bad_request "batch exceeds the supported size")
  else
    requested <~~ future_lift (collect_actions digests ∅ []);
    results <~~ call (on_metadata (meta_get_batch namespace requested));
    call (on_metrics (Metrics.inc_action_batch (N.of_nat (length results))
      (N.of_nat (length requested) - N.of_nat (length results)))) ;~~
    future_ret (mkResponse OK {["content-type" := ACTION_RESULT_BATCH_MEDIA_TYPE]} results).

Definition check_action_result_future (m : Moment) (headers : HeaderMap) (parts : string * string * N)
    (r : ActionResult) : HandlerFuture (string * Digest) :=
  namespace <~~ call (authorized m headers Write);
  future_lift (require_immutable_precondition headers) ;~~
  action <~~ future_lift (parse_action_digest parts);
  if negb (result_version r =? 1)%N || negb (bool_decide (result_action r = action))
  then future_throw (bad_request "action result does not match request")
  else
    action_kind <~~ validate_action_descriptor_future namespace action;
    future_lift (validate_action_result_shape r action_kind) ;~~
    match result_metadata r with
    | Some metadata => validate_client_metadata_future namespace metadata action_kind
    | None => future_ret tt
    end ;~~
    match output_root r with
    | Some root => validate_tree_future namespace root
    | None => future_ret tt
    end ;~~
    future_ret (namespace, action).

Definition put_action_result_future (m : Moment) (headers : HeaderMap) (parts : string * string * N)
    (r : ActionResult) : HandlerFuture N :=
  checked <~~ check_action_result_future m headers parts r;
  let '(namespace, action) := checked in
  outcome <~~ call (on_metadata (commit namespace action r));
  call (on_metrics Metrics.inc_action_commit) ;~~
  match outcome with
  | CommitCreated => future_ret CREATED
  | CommitAlreadyExists => future_ret NO_CONTENT
  | CommitConflict => future_throw (conflict "an immutable action result already exists")
  end.

Definition get_action_manifest_future (m : Moment) (headers : HeaderMap) (parts : string * string * N)
  : HandlerFuture (Response bytes) :=
  namespace <~~ call (authorized m headers Read);
  key <~~ future_lift (parse_action_digest parts);
  found <~~ call (on_metadata (get_manifest namespace key));
  record <~~ future_lift (ok_or found (not_found "action manifest not found"));
  body <~~ future_lift (map_err internal (canonical_json (record_manifest record)));
  future_ret (mkResponse OK
    (<["content-type" := TASK_ACTION_MANIFEST_MEDIA_TYPE]>
     {["etag" := quoted_etag (record_etag record)]}) body).

Definition put_action_manifest_future (m : Moment) (headers : HeaderMap) (parts : string * string * N)
    (body : RequestBody) : HandlerFuture (Response unit) :=
  namespace <~~ call (authorized m headers Write);
  body <~~ future_lift (ok_or (to_bytes body MAX_ACTION_MANIFEST_BYTES)
    (too_large "action manifest is too large"));
  manifest <~~ future_lift (map_err (fun error => bad_request ("invalid action manifest: " ++ error))
    (manifest_from_slice body));
  key <~~ future_lift (parse_action_digest parts);
  if negb (manifest_validate manifest) || negb (bool_decide (selector_digest manifest = key))
  then future_throw (bad_request "action manifest does not match request")
  else
    expected_etag <~~ future_lift (manifest_precondition headers);
    canonical <~~ future_lift (map_err internal (canonical_json manifest));
    let etag := blake3_hash canonical in
    outcome <~~ call (on_metadata (commit_manifest namespace key expected_etag etag manifest));
    status <~~
      match outcome with
      | ManifestCreated => future_ret CREATED
      | ManifestUpdated => future_ret NO_CONTENT
      | PreconditionFailed =>
          future_throw (precondition "action manifest changed; read and merge it before retrying")
      end;
    future_ret (mkResponse status {["etag" := quoted_etag etag]} tt).

Definition refresh_metrics_future : HandlerFuture unit :=
  state <~~ call get_state;
  match pool_stats (metadata state) with
  | Some stats => call (on_metrics (Metrics.set_database_pool stats))
  | None => future_ret tt
  end.

(** ** Pack downloads *)

(** A future that goes on whatever the result. *)
Notation "x <~! t ; k" := (bind_all t (fun x => k)) (at level 100, t at next level, right associativity).
Notation "' p <~! t ; k" := (bind_all t (fun x => let 'p := x in k))
  (at level 100, p pattern, t at next level, right associativity).

Definition with_guard (clock : PackClock) (g : Metrics.PackGuard) : Held :=
  mkHeld None (Some (ended_at clock, g)).

Definition observe (h : Held) (f : Metrics.t -> Metrics.t) : Job unit :=
  await h (fun w => (set_metrics (f (metrics w)) w, tt)).

Definition query_visible_future (clock : PackClock) (namespace : string) (requested : list Digest)
  : HandlerFuture (list Digest) :=
  r <~! await nothing_held (fun w => let '(m, r) := visible_blobs namespace requested (metadata w) in
                                     (set_metadata m w, r));
  match r with
  | Ok visible =>
      _ <~! observe nothing_held (Metrics.observe_pack_metadata_query "success" (metadata_elapsed clock));
      Done (Ok visible)
  | Err e =>
      _ <~! observe nothing_held (Metrics.observe_pack_metadata_query "error" (metadata_elapsed clock));
      Done (Err (internal e))
  end.

Definition pack_blobs_future (clock : PackClock) (m : Moment) (headers : HeaderMap) (digests : list Digest)
  : HandlerFuture (Response PackBody) :=
  namespace <~~ call (authorized m headers Read);
  if (MAX_BATCH_ITEMS <? N.of_nat (length digests))%N
  then future_throw (bad_request "at most 10000 digests may be packed")
  else
    state <~~ call get_state;
    collected <~~ future_lift (collect_requested (max_blob_bytes state) digests ∅ 0 []);
    let '(total_bytes, requested) := collected in
    visible <~~ query_visible_future clock namespace requested;
    call (on_access (PendingAccess.record namespace visible)) ;~~
    guard <~~ call (start_pack (request_started clock) (N.of_nat (length requested)) total_bytes
      (N.of_nat (length requested) - N.of_nat (length visible)));
    prepared <~~ await (with_guard clock guard) (or_drop_guard clock guard
      (prepare_entries visible (N.of_nat (length BLOB_PACK_MAGIC)) 0 []));
    let '(pack_bytes, payload_bytes, entries) := prepared in
    future_ret (mkResponse OK
      (<[PACK_BYTES_HEADER := pretty payload_bytes]>
       (<[PACK_BLOBS_HEADER := pretty (N.of_nat (length entries))]>
        (<["content-length" := pretty pack_bytes]>
         {["content-type" := BLOB_PACK_MEDIA_TYPE]})))
      (mkPackBody namespace guard entries)).

Definition read_entry_future (h : Held) (clock : PackClock) (namespace : string) (entry : bytes * Digest)
  : Job (result IoError (bytes * Blob)) :=
  let '(header, digest) := entry in
  let observed outcome := observe h (Metrics.observe_pack_storage_get outcome (get_elapsed clock digest)) in
  r <~! await h (fun w => let '(b, r) := blob_get digest (blobs w) in (set_blobs b w, r));
  match r with
  | Ok (Some blob) =>
      _ <~! observed "hit";
      Done (if negb (blob_size blob =? digest_size digest)%N
            then Err (IoInvalidData "stored blob size does not match its digest") else Ok (header, blob))
  | Ok None =>
      _ <~! observed "missing";
      _ <~! await h (forget_missing_blob namespace digest);
      Done (Err (IoNotFound "visible blob is missing from storage"))
  | Err e => _ <~! observed "error"; Done (Err (IoOther e))
  end.

Fixpoint top_up_future (h : Held) (n : nat) (clock : PackClock) (namespace : string)
    (waiting : list (bytes * Digest)) : Job (list (result IoError (bytes * Blob)) * list (bytes * Digest)) :=
  match n, waiting with
  | S n, entry :: waiting =>
      r <~! read_entry_future h clock namespace entry;
      '(queue, waiting) <~! top_up_future h n clock namespace waiting;
      Done (r :: queue, waiting)
  | _, _ => Done ([], waiting)
  end.

Definition guarded (clock : PackClock) (g : Metrics.PackGuard)
    (f : Metrics.t * Metrics.PackGuard -> Metrics.t * Metrics.PackGuard) : Job Metrics.PackGuard :=
  await (with_guard clock g) (fun w => on_guard f w g).

Fixpoint send_chunks_future (clock : PackClock) (size streamed : N) (stream : list (result StoreError bytes))
    (g : Metrics.PackGuard) : Job (Metrics.PackGuard * Sent * bool) :=
  match stream with
  | [] =>
      if negb (streamed =? size)%N
      then
        g <~! guarded clock g (Metrics.error (ended_at clock));
        Done (g, [Err (IoInvalidData "stored blob stream is shorter than advertised")], false)
      else Done (g, [], true)
  | Err e :: _ =>
      g <~! guarded clock g (Metrics.error (ended_at clock));
      Done (g, [Err (IoOther e)], false)
  | Ok chunk :: stream =>
      match checked_add streamed (N.of_nat (length chunk)) with
      | None =>
          g <~! guarded clock g (Metrics.error (ended_at clock));
          Done (g, [Err (IoInvalidData "stored blob stream is too large")], false)
      | Some streamed =>
          if (size <? streamed)%N
          then
            g <~! guarded clock g (Metrics.error (ended_at clock));
            Done (g, [Err (IoInvalidData "stored blob stream is larger than advertised")], false)
          else
            g <~! guarded clock g (Metrics.add_served_bytes (N.of_nat (length chunk)));
            '(g, sent, ok) <~! send_chunks_future clock size streamed stream g;
            Done (g, Ok chunk :: sent, ok)
      end
  end.

Fixpoint send_entries_future (turns : nat) (clock : PackClock) (namespace : string)
    (queue : list (result IoError (bytes * Blob))) (waiting : list (bytes * Digest)) (g : Metrics.PackGuard)
  : Job (Metrics.PackGuard * Sent) :=
  '(more, waiting) <~!
    top_up_future (with_guard clock g) (MAX_PACK_STORAGE_READS - length queue) clock namespace waiting;
  match turns, (queue ++ more)%list with
  | _, [] => g <~! guarded clock g (Metrics.complete (ended_at clock)); Done (g, [])
  | O, _ => Done (g, [])
  | S turns, Err e :: _ => g <~! guarded clock g (Metrics.error (ended_at clock)); Done (g, [Err e])
  | S turns, Ok (header, blob) :: queue =>
      '(g, sent, ok) <~! send_chunks_future clock (blob_size blob) 0 (blob_stream blob) g;
      if (ok : bool)
      then
        g <~! guarded clock g Metrics.blob_served;
        _ <~! observe (with_guard clock g) Metrics.inc_blob_hit;
        '(g, rest) <~! send_entries_future turns clock namespace queue waiting g;
        Done (g, Ok header :: sent ++ rest)%list
      else Done (g, Ok header :: sent)
  end.

Definition pack_stream_future (clock : PackClock) (b : PackBody) : Job Sent :=
  g <~! guarded clock (body_guard b) (Metrics.record_first_byte (first_byte_at clock));
  '(g, sent) <~!
    send_entries_future (length (body_entries b)) clock (body_namespace b) [] (body_entries b) g;
  _ <~! await (with_guard clock g) (fun w => (set_metrics (Metrics.drop (ended_at clock) (metrics w, g)) w, tt));
  Done (Ok BLOB_PACK_MAGIC :: sent).

(** ** Writing the pending accesses *)

(** The calls of a flush, one after another; how many failed. *)
Fixpoint touch_all_future (calls : list (string * list Digest)) (failed : N) : Job N :=
  match calls with
  | [] => Done failed
  | (namespace, chunk) :: calls =>
      r <~! await nothing_held (fun w => let '(m, r) := touch_blobs namespace chunk (metadata w) in
                                         (set_metadata m w, r));
      touch_all_future calls (match r with Ok _ => failed | Err _ => (failed + 1)%N end)
  end.

(** What is pending is taken first; reads go on noting theirs meanwhile. *)
Definition flush_future : Job N :=
  calls <~! await nothing_held (fun w =>
    (set_access PendingAccess.empty w, PendingAccess.flush_calls (access w)));
  touch_all_future calls 0.

(** ** Requests *)

(** What a client is answered. *)
Inductive Answer :=
  | BlobAnswer (r : result ApiError (Response (list (result StoreError bytes))))
  | StatusAnswer (r : result ApiError N)
  | MissingAnswer (r : result ApiError (list Digest))
  | PackAnswer (r : result ApiError (Response PackBody)) (sent : Sent)
  | ResultAnswer (r : result ApiError ActionResult)
  | ResultsAnswer (r : result ApiError (Response (list ActionResult)))
  | ManifestAnswer (r : result ApiError (Response bytes))
  | ManifestPutAnswer (r : result ApiError (Response unit))
  | MetricsAnswer (r : result ApiError unit).

Definition answer_with {A} (answer : A -> Answer) (t : Job A) : Job Answer :=
  bind_all t (fun r => Done (answer r)).

Definition request_future (request : Request) : Job Answer :=
  match request with
  | GetBlob m headers parts => answer_with BlobAnswer (get_blob_future m headers parts)
  | PutBlob m headers parts body faults =>
      answer_with StatusAnswer (put_blob_future m headers parts body faults)
  | MissingBlobs m headers digests => answer_with MissingAnswer (missing_blobs_future m headers digests)
  | PackBlobs clock m headers digests =>
      bind_all (pack_blobs_future clock m headers digests) (fun r =>
        match r with
        | Ok resp => answer_with (PackAnswer (Ok resp)) (pack_stream_future clock (response_body resp))
        | Err e => Done (PackAnswer (Err e) [])
        end)
  | GetActionResult m headers parts => answer_with ResultAnswer (get_action_result_future m headers parts)
  | BatchActionResults m headers digests =>
      answer_with ResultsAnswer (batch_action_results_future m headers digests)
  | PutActionResult m headers parts result =>
      answer_with StatusAnswer (put_action_result_future m headers parts result)
  | GetActionManifest m headers parts => answer_with ManifestAnswer (get_action_manifest_future m headers parts)
  | PutActionManifest m headers parts body =>
      answer_with ManifestPutAnswer (put_action_manifest_future m headers parts body)
  | GetMetrics => answer_with MetricsAnswer refresh_metrics_future
  end.

(** The handlers' own answer and state. *)
Definition answered_by {A} (answer : A -> Answer) (c : AppState -> AppState * A) (w : AppState)
  : AppState * Answer :=
  let '(w, r) := c w in (w, answer r).

Definition respond (request : Request) (w : AppState) : AppState * Answer :=
  match request with
  | GetBlob m headers parts => answered_by BlobAnswer (get_blob m headers parts) w
  | PutBlob m headers parts body faults => answered_by StatusAnswer (put_blob m headers parts body faults) w
  | MissingBlobs m headers digests => answered_by MissingAnswer (missing_blobs m headers digests) w
  | PackBlobs clock m headers digests =>
      match pack_blobs clock m headers digests w with
      | (w, Ok resp) => answered_by (PackAnswer (Ok resp)) (pack_stream clock (response_body resp)) w
      | (w, Err e) => (w, PackAnswer (Err e) [])
      end
  | GetActionResult m headers parts => answered_by ResultAnswer (get_action_result m headers parts) w
  | BatchActionResults m headers digests => answered_by ResultsAnswer (batch_action_results m headers digests) w
  | PutActionResult m headers parts result =>
      answered_by StatusAnswer (put_action_result m headers parts result) w
  | GetActionManifest m headers parts => answered_by ManifestAnswer (get_action_manifest m headers parts) w
  | PutActionManifest m headers parts body =>
      answered_by ManifestPutAnswer (put_action_manifest m headers parts body) w
  | GetMetrics => answered_by MetricsAnswer refresh_metrics w
  end.
End HandlerFutures.
