(* ===== verification/FutureTermination.v ===== *)
(** * Requests end

    [walk_future_enough]: the walk of an output tree, which in the code is
    bounded by its checks alone, makes no use of the fuel the model gives it.
    [request_at_most]: how many calls each request makes at most, whatever they
    return. *)
From stdpp Require Import pretty.
From S2P Require Import Prelude Str Protocol Api Json Model Records Oidc Auth Spool Access.
From S2P Require Import Metrics App Future Pack Tree Actions Blobs PackUpload PackDownload Results Service HandlerFutures.

Local Open Scope string_scope.
Local Open Scope mbx_scope.

Create HintDb bounds.

(** Every way through a future, one call off the bound for each call on it; a
    part that comes last may have a bound of its own among the hints. *)
Ltac bounded :=
  unfold future_ret, future_throw, future_lift; repeat first
    [ solve [constructor]
    | solve [eapply at_most_le; [first [apply at_most_await|auto with bounds nocore]|cbn; lia]]
    | match goal with
      | |- at_most ?n (if ?b then _ else _) => destruct b
      | |- at_most ?n (let _ := ?p in _) => cbv zeta
      | |- at_most ?n (match ?x with _ => _ end) => destruct x
      | |- at_most ?n (future_bind (call ?c) ?k) =>
          apply (at_most_bind 1 (n - 1)); [apply at_most_await|intros ?; cbn [Nat.sub]]
      | |- at_most ?n (future_bind (Done ?r) ?k) =>
          apply (at_most_bind 0 n); [constructor|intros ?]
      end ].

Section Termination.
Context `{Protocol} `{Hashes} `{Hex} `{Records} `{!JsonText} `{!Documents} `{!Jwt} `{!AuthJson} `{!Tokio}
  `{!DebugFormat} `{!Constants} `{!ManifestText}.
Context {MS BS : Type} `{!MetadataStore MS} `{!BlobStore BS}.
Notation AppState := (AppState (MS:=MS) (BS:=BS)).
Notation Job := (Future AppState Held).

(** ** The walk of a tree *)

#[local] Opaque MAX_DIRECTORIES.

(** Fuel for every directory that the size check may still admit: more of it
    changes nothing, whatever the stores answer. *)
Lemma walk_future_enough fuel1 fuel2 ns pending visiting seen :
  MAX_DIRECTORIES <= fuel1 + size (seen ∪ visiting) ->
  MAX_DIRECTORIES <= fuel2 + size (seen ∪ visiting) ->
  same_task (walk_future (MS:=MS) (BS:=BS) fuel1 ns pending visiting seen) (walk_future fuel2 ns pending visiting seen).
Proof.
  revert fuel2 pending visiting seen; induction fuel1 as [|fuel1 IHf]; intros fuel2 pending;
    induction pending as [|[d|d] pending IHp]; intros visiting seen Hf1 Hf2; destruct fuel2 as [|fuel2];
    cbn [walk_future]; try (by apply same_task_refl);
    try (apply IHp; pose proof (size_exit d visiting seen); lia).
  all: destruct (decide (d ∈ seen)) as [|Hseen]; [by apply IHp|].
  all: destruct (decide (d ∈ visiting)) as [|Hvis]; [by constructor|].
  all: pose proof (size_expand d visiting seen Hseen Hvis) as Hs.
  all: pose proof (size_union_le seen ({[d]} ∪ visiting)) as Hle.
  all: destruct (Nat.ltb_spec MAX_DIRECTORIES (size seen + size ({[d]} ∪ visiting : gset Digest)));
    [by constructor|try lia].
  apply same_bind. intros directory. apply IHf; lia.
Qed.

Lemma at_most_directory ns d : at_most 4 (read_directory_future (MS:=MS) (BS:=BS) ns d).
Proof. unfold read_directory_future. bounded. Qed.

(** A directory is read at most once: four calls for each. *)
Lemma walk_at_most fuel ns pending visiting seen :
  MAX_DIRECTORIES <= fuel + size (seen ∪ visiting) ->
  at_most (4 * (MAX_DIRECTORIES - size (seen ∪ visiting))) (walk_future (MS:=MS) (BS:=BS) fuel ns pending visiting seen).
Proof.
  revert pending visiting seen; induction fuel as [|fuel IHf]; intros pending;
    induction pending as [|[d|d] pending IHp]; intros visiting seen Hf; cbn [walk_future]; try (by constructor);
    try (pose proof (size_exit d visiting seen); eapply at_most_le; [apply IHp; lia|lia]).
  all: destruct (decide (d ∈ seen)) as [|Hseen]; [by apply IHp|].
  all: destruct (decide (d ∈ visiting)) as [|Hvis]; [by constructor|].
  all: pose proof (size_expand d visiting seen Hseen Hvis) as Hs.
  all: pose proof (size_union_le seen ({[d]} ∪ visiting)) as Hle.
  all: destruct (Nat.ltb_spec MAX_DIRECTORIES (size seen + size ({[d]} ∪ visiting : gset Digest)));
    [by constructor|try lia].
  eapply at_most_le; [apply at_most_bind; [apply at_most_directory|intros directory; apply IHf; lia]|lia].
Qed.
(** C8. The walk of an output tree ends, whatever the stores answer and whatever
    other tasks do between its calls, although nothing in the loop counts its
    turns: its checks alone, for a cycle, for a directory seen before and for
    the number of directories, keep it within four calls for each of
    [MAX_DIRECTORIES]. The fuel that the model gives the loop never decides: with
    any more of it the walk makes the same calls and gives the same answer. *)
Theorem validate_tree_ends ns root :
  at_most (4 * MAX_DIRECTORIES) (validate_tree_future (MS:=MS) (BS:=BS) ns root) /\
  (forall fuel, MAX_DIRECTORIES <= fuel ->
     same_task (walk_future fuel ns [Enter root] ∅ ∅) (validate_tree_future (MS:=MS) (BS:=BS) ns root)).
Proof.
  split.
  - eapply at_most_le; [apply walk_at_most; lia|lia].
  - intros fuel Hfuel. apply walk_future_enough; lia.
Qed.

(** ** Every request but a pack *)

Lemma at_most_tree ns root : at_most (4 * MAX_DIRECTORIES) (validate_tree_future (MS:=MS) (BS:=BS) ns root).
Proof. eapply at_most_le; [apply walk_at_most; lia|lia]. Qed.

Lemma at_most_require_blob ns d label : at_most 1 (require_blob_future (MS:=MS) (BS:=BS) ns d label).
Proof. unfold require_blob_future. bounded. Qed.

Lemma at_most_canonical_object ns d label : at_most 3 (read_canonical_object_future (MS:=MS) (BS:=BS) ns d label).
Proof. unfold read_canonical_object_future. bounded. Qed.

Lemma at_most_descriptor ns d : at_most 3 (validate_action_descriptor_future (MS:=MS) (BS:=BS) ns d).
Proof. apply (at_most_bind 3 0); [apply at_most_canonical_object|intros ?; constructor]. Qed.

Lemma at_most_output_blobs ns stdout stderr kind :
  at_most 2 (require_output_blobs_future (MS:=MS) (BS:=BS) ns stdout stderr kind).
Proof. apply (at_most_bind 1 1); intros; apply at_most_require_blob. Qed.
#[local] Hint Resolve at_most_output_blobs : bounds.

Lemma at_most_client_metadata ns d kind : at_most 5 (validate_client_metadata_future (MS:=MS) (BS:=BS) ns d kind).
Proof.
  apply (at_most_bind 3 2); [apply at_most_canonical_object|intros value].
  unfold validate_build_script_metadata_future, validate_cc_metadata_future, validate_rustc_metadata_future.
  bounded.
Qed.

Lemma at_most_check_result n m headers parts r :
  (forall ns root, at_most n (validate_tree_future (MS:=MS) (BS:=BS) ns root)) ->
  at_most (9 + n) (check_action_result_future (MS:=MS) (BS:=BS) m headers parts r).
Proof.
  intros Htree. unfold check_action_result_future. apply (at_most_bind 1 (8 + n)); [apply at_most_await|intros ns].
  apply (at_most_bind 0 (8 + n)); [constructor|intros _]. apply (at_most_bind 0 (8 + n)); [constructor|intros action].
  destruct (_ || _); [constructor|].
  apply (at_most_bind 3 (5 + n)); [apply at_most_descriptor|intros kind].
  apply (at_most_bind 0 (5 + n)); [constructor|intros _].
  apply (at_most_bind 5 n); [destruct (result_metadata r); [apply at_most_client_metadata|constructor]|intros _].
  rewrite <-(Nat.add_0_r n).
  apply at_most_bind; [destruct (output_root r); [apply Htree|constructor]|intros _; constructor].
Qed.

Lemma at_most_put_result n m headers parts r :
  (forall ns root, at_most n (validate_tree_future (MS:=MS) (BS:=BS) ns root)) ->
  at_most (11 + n) (put_action_result_future (MS:=MS) (BS:=BS) m headers parts r).
Proof.
  intros Htree. unfold put_action_result_future. replace (11 + n) with ((9 + n) + 2) by lia.
  apply at_most_bind; [by apply at_most_check_result|intros [ns action]]. bounded.
Qed.

Lemma at_most_spool {A} n size (t : Job (result ApiError A)) :
  at_most n t -> at_most (2 + n) (with_spool_future (MS:=MS) (BS:=BS) size t).
Proof. intros Ht. apply (at_most_bind 1 (S n)); [apply at_most_await|intros held]. by apply at_most_holding. Qed.

Lemma at_most_store_upload ns d content : at_most 3 (store_upload_future (MS:=MS) (BS:=BS) ns d content).
Proof. unfold store_upload_future. bounded. Qed.

(** At most how many calls it makes. A pack is sent chunk by chunk, as many as its
    blobs come in. *)
Definition call_bound (request : Request) : option nat :=
  match request with
  | GetBlob _ _ _ => Some 5
  | PutBlob _ _ _ _ _ => Some 7
  | MissingBlobs _ _ _ => Some 2
  | PackBlobs _ _ _ _ => None
  | GetActionResult _ _ _ | BatchActionResults _ _ _ => Some 3
  | PutActionResult _ _ _ _ => Some (11 + 4 * MAX_DIRECTORIES)
  | GetActionManifest _ _ _ | PutActionManifest _ _ _ _ => Some 2
  | GetMetrics => Some 2
  end.

Lemma at_most_answer {A} n (answer : A -> Answer) (t : Job A) : at_most n t -> at_most n (answer_with answer t).
Proof. intros Ht. rewrite <-(Nat.add_0_r n). apply at_most_bind_all; [done|constructor]. Qed.

Lemma request_at_most request n : call_bound request = Some n -> at_most n (request_future (MS:=MS) (BS:=BS) request).
Proof.
  destruct request; intros [= <-]; apply at_most_answer.
  - unfold get_blob_future. bounded.
  - unfold put_blob_future. bounded. apply (at_most_spool 3). bounded. apply (at_most_bind 3 0); [apply at_most_store_upload|intros ?; constructor].
  - unfold missing_blobs_future. bounded.
  - unfold get_action_result_future. bounded.
  - unfold batch_action_results_future. bounded.
  - apply at_most_put_result, at_most_tree.
  - unfold get_action_manifest_future. bounded.
  - unfold put_action_manifest_future. bounded.
    apply (at_most_bind 0 0); [|intros ?; constructor]. bounded.
  - unfold refresh_metrics_future. bounded.
Qed.
End Termination.
