(* ===== verification/FutureProofs.v ===== *)
(** * The futures are the handlers

    A request whose future runs with nobody between its calls leaves the state
    and gives the answer of its handler. *)
From stdpp Require Import pretty.
From S2P Require Import Prelude Str Protocol Api Json Model Records Oidc Auth Spool Access.
From S2P Require Import Metrics App Future Pack Tree Actions Blobs PackUpload PackDownload Results Service HandlerFutures.

Local Open Scope string_scope.
Local Open Scope mbx_scope.

Section Runs.
Context `{Protocol} `{Hashes} `{Hex} `{Records} `{!JsonText} `{!Documents} `{!Jwt} `{!AuthJson} `{!Tokio}
  `{!DebugFormat} `{!Constants} `{!ManifestText}.
Context {MS BS : Type} `{!MetadataStore MS} `{!BlobStore BS}.
Notation AppState := (AppState (MS:=MS) (BS:=BS)).
Notation Job := (Future AppState Held).
Implicit Types w : AppState.

Lemma runs_call {A} (c : Handler (MS:=MS) (BS:=BS) A) : runs_as (call c) c.
Proof. apply runs_await. Qed.
Hint Resolve runs_call : runs.

(** Both sides go through the same code. *)
Ltac same_code :=
  repeat first
    [ solve [auto with runs]
    | apply runs_bind; [|intros ?]
    | apply runs_if
    | match goal with |- runs_as (match ?x with _ => _ end) _ => destruct x end ].

Lemma runs_require_blob ns d label : runs_as (require_blob_future (MS:=MS) (BS:=BS) ns d label) (require_blob ns d label).
Proof. unfold require_blob_future, require_blob. same_code. Qed.
Hint Resolve runs_require_blob : runs.

Lemma runs_canonical_object ns d label :
  runs_as (read_canonical_object_future (MS:=MS) (BS:=BS) ns d label) (read_canonical_object ns d label).
Proof. unfold read_canonical_object_future, read_canonical_object. same_code. Qed.
Hint Resolve runs_canonical_object : runs.

Lemma runs_client_metadata ns d kind :
  runs_as (validate_client_metadata_future (MS:=MS) (BS:=BS) ns d kind) (validate_client_metadata ns d kind).
Proof.
  unfold validate_client_metadata_future, validate_client_metadata, validate_build_script_metadata_future,
    validate_build_script_metadata, validate_cc_metadata_future, validate_cc_metadata,
    validate_rustc_metadata_future, validate_rustc_metadata, require_output_blobs_future, require_output_blobs.
  same_code.
Qed.

Lemma runs_directory ns d : runs_as (read_directory_future (MS:=MS) (BS:=BS) ns d) (read_directory ns d).
Proof. unfold read_directory_future, read_directory. same_code. Qed.

Lemma runs_walk fuel ns pending visiting seen :
  runs_as (walk_future (MS:=MS) (BS:=BS) fuel ns pending visiting seen) (walk fuel ns pending visiting seen).
Proof.
  revert pending visiting seen; induction fuel as [|fuel IHf]; intros pending;
    induction pending as [|[d|d] pending IHp]; intros visiting seen; cbn [walk_future walk];
    try apply IHp; try (by apply runs_ret);
    (destruct (decide (d ∈ seen)); [apply IHp|]);
    (destruct (decide (d ∈ visiting)); [apply runs_throw|]); apply runs_if; try apply runs_throw;
    (apply runs_bind; [apply runs_directory|]); intros directory; [apply runs_throw|apply IHf].
Qed.
Hint Resolve runs_client_metadata runs_walk : runs.

Lemma runs_with_spool {A} size (t : Job (result ApiError A)) c :
  runs_as t c -> runs_as (with_spool_future (MS:=MS) (BS:=BS) size t) (with_spool size c).
Proof.
  intros Ht w. unfold with_spool_future, with_spool, future_bind, call, reserve_spool. rewrite run_bind_all.
  cbn. destruct (SpoolBudget.reserve (spool w) size) as [b [held|e]]; [|done].
  rewrite run_holding, Ht. by destruct (c (set_spool b w)).
Qed.
Hint Resolve runs_with_spool : runs.

Lemma runs_put_blob m headers parts body faults :
  runs_as (put_blob_future (MS:=MS) (BS:=BS) m headers parts body faults) (put_blob m headers parts body faults).
Proof.
  unfold put_blob_future, put_blob, store_upload_future, store_upload. do 4 (apply runs_bind; [auto with runs|intros ?]).
  apply runs_if; [auto with runs|]. apply runs_with_spool. same_code.
Qed.

Lemma runs_get_blob m headers parts : runs_as (get_blob_future (MS:=MS) (BS:=BS) m headers parts) (get_blob m headers parts).
Proof. unfold get_blob_future, get_blob. same_code. Qed.

Lemma runs_missing_blobs m headers ds : runs_as (missing_blobs_future (MS:=MS) (BS:=BS) m headers ds) (missing_blobs m headers ds).
Proof. unfold missing_blobs_future, missing_blobs. same_code. Qed.

Lemma runs_get_action_result m headers parts :
  runs_as (get_action_result_future (MS:=MS) (BS:=BS) m headers parts) (get_action_result m headers parts).
Proof. unfold get_action_result_future, get_action_result. same_code. Qed.

Lemma runs_batch m headers ds :
  runs_as (batch_action_results_future (MS:=MS) (BS:=BS) m headers ds) (batch_action_results m headers ds).
Proof. unfold batch_action_results_future, batch_action_results. same_code. Qed.

Lemma runs_put_action_result m headers parts r :
  runs_as (put_action_result_future (MS:=MS) (BS:=BS) m headers parts r) (put_action_result m headers parts r).
Proof.
  unfold put_action_result_future, put_action_result, check_action_result_future, check_action_result,
    validate_action_descriptor_future, validate_action_descriptor, validate_tree_future, validate_tree.
  same_code.
Qed.

Lemma runs_get_manifest m headers parts :
  runs_as (get_action_manifest_future (MS:=MS) (BS:=BS) m headers parts) (get_action_manifest m headers parts).
Proof. unfold get_action_manifest_future, get_action_manifest. same_code. Qed.

Lemma runs_put_manifest m headers parts body :
  runs_as (put_action_manifest_future (MS:=MS) (BS:=BS) m headers parts body) (put_action_manifest m headers parts body).
Proof. unfold put_action_manifest_future, put_action_manifest. same_code. Qed.

Lemma runs_metrics : runs_as (refresh_metrics_future (MS:=MS) (BS:=BS)) refresh_metrics.
Proof. unfold refresh_metrics_future, refresh_metrics. same_code. Qed.

(** ** Pack downloads *)

Lemma runs_query_visible clock ns ds :
  runs_as (query_visible_future (MS:=MS) (BS:=BS) clock ns ds) (query_visible clock ns ds).
Proof.
  intros w. unfold query_visible_future, query_visible. rewrite run_bind_all. cbn.
  by destruct (visible_blobs ns ds (metadata w)) as [m [visible|e]].
Qed.
Hint Resolve runs_query_visible : runs.

Lemma runs_pack_blobs clock m headers ds :
  runs_as (pack_blobs_future (MS:=MS) (BS:=BS) clock m headers ds) (pack_blobs clock m headers ds).
Proof. unfold pack_blobs_future, pack_blobs. same_code. Qed.

Lemma run_read_entry h clock ns e w :
  run (read_entry_future (MS:=MS) (BS:=BS) h clock ns e) w = read_entry clock ns e w.
Proof.
  destruct e as [header d]. unfold read_entry_future, read_entry. rewrite run_bind_all. cbn.
  destruct (blob_get d (blobs w)) as [b [[blob|]|e]]; cbn; [done| |done].
  by destruct (forget_missing_blob _ _ _).
Qed.

Lemma run_top_up h n clock ns waiting w :
  run (top_up_future (MS:=MS) (BS:=BS) h n clock ns waiting) w =
  let '(w, queue, waiting) := top_up n clock ns waiting w in (w, (queue, waiting)).
Proof.
  revert waiting w; induction n as [|n IH]; intros waiting w; [done|]. destruct waiting as [|e waiting]; [done|].
  cbn [top_up_future top_up]. rewrite run_bind_all, run_read_entry. destruct (read_entry clock ns e w) as [w1 r].
  rewrite run_bind_all, IH. by destruct (top_up n clock ns waiting w1) as [[w2 queue] waiting2].
Qed.

Lemma run_guarded clock g f w : run (guarded (MS:=MS) (BS:=BS) clock g f) w = on_guard f w g.
Proof. cbn. by destruct (on_guard f w g). Qed.

Lemma run_send_chunks clock size streamed stream g w :
  run (send_chunks_future (MS:=MS) (BS:=BS) clock size streamed stream g) w =
  let '(w, g, sent, ok) := send_chunks clock size streamed stream w g in (w, (g, sent, ok)).
Proof.
  revert streamed g w; induction stream as [|[chunk|e] stream IH]; intros streamed g w;
    cbn [send_chunks_future send_chunks].
  - destruct (negb _); [|done]. rewrite run_bind_all, run_guarded. by destruct (on_guard _ w g).
  - destruct (checked_add _ _) as [n|]; [destruct (_ <? _)%N|]; rewrite run_bind_all, run_guarded;
      destruct (on_guard _ w g) as [w1 g1]; [done| |done].
    rewrite run_bind_all, IH. by destruct (send_chunks clock size n stream w1 g1) as [[[w2 g2] sent] ok].
  - rewrite run_bind_all, run_guarded. by destruct (on_guard _ w g).
Qed.

Lemma run_send_entries turns clock ns queue waiting g w :
  run (send_entries_future (MS:=MS) (BS:=BS) turns clock ns queue waiting g) w =
  let '(w, g, sent) := send_entries turns clock ns queue waiting w g in (w, (g, sent)).
Proof.
  revert queue waiting g w; induction turns as [|turns IH]; intros queue waiting g w;
    cbn [send_entries_future send_entries]; rewrite run_bind_all, run_top_up;
    destruct (top_up _ clock ns waiting w) as [[w1 more] waiting1];
    destruct (queue ++ more)%list as [|[[h blob]|e] rest]; try done.
  1, 2, 4: rewrite run_bind_all, run_guarded; by destruct (on_guard _ w1 g).
  rewrite run_bind_all, run_send_chunks. destruct (send_chunks _ _ _ _ w1 g) as [[[w2 g2] sent] [|]]; [|done].
  rewrite run_bind_all, run_guarded. destruct (on_guard Metrics.blob_served w2 g2) as [w3 g3]. cbn.
  rewrite run_bind_all, IH. by destruct (send_entries _ _ _ _ _ _ _) as [[w4 g4] sent4].
Qed.

Lemma run_pack_stream clock b w :
  run (pack_stream_future (MS:=MS) (BS:=BS) clock b) w = pack_stream clock b w.
Proof.
  unfold pack_stream_future, pack_stream. rewrite run_bind_all, run_guarded.
  destruct (on_guard _ w _) as [w1 g1]. rewrite run_bind_all, run_send_entries.
  by destruct (send_entries _ _ _ _ _ w1 g1) as [[w2 g2] sent].
Qed.

(** ** Every request *)

Lemma runs_answer {A} (answer : A -> Answer) (t : Job A) c :
  runs_as t c -> runs_as (answer_with answer t) (answered_by answer c).
Proof. intros Ht w. unfold answer_with, answered_by. rewrite run_bind_all, Ht. by destruct (c w). Qed.

(** The futures and the handlers are the same program. *)
Lemma runs_request request (w : AppState) : run (request_future request) w = respond request w.
Proof.
  destruct request; cbn [request_future respond]; try apply runs_answer.
  all: first [apply runs_get_blob | apply runs_put_blob | apply runs_missing_blobs
    | apply runs_get_action_result | apply runs_batch | apply runs_put_action_result
    | apply runs_get_manifest | apply runs_put_manifest | apply runs_metrics | idtac].
  rewrite run_bind_all, runs_pack_blobs. destruct (pack_blobs _ _ _ _ w) as [w1 [resp|e]]; [|done].
  apply runs_answer. intros w2. apply run_pack_stream.
Qed.

(** ** The background task *)

Lemma run_touch_all calls failed (w : AppState) :
  run (touch_all_future calls failed) w =
  let '(m, r) := PendingAccess.touch_all calls failed (metadata w) in
  (set_metadata m w, match r with Ok n => n | Err _ => 0%N end).
Proof.
  revert failed w; induction calls as [|[ns chunk] calls IH]; intros failed w; cbn [touch_all_future PendingAccess.touch_all].
  { by destruct w. }
  rewrite run_bind_all. cbn. destruct (touch_blobs ns chunk (metadata w)) as [m [u|e]]; by rewrite IH.
Qed.

(** Alone it leaves what a flush leaves. *)
Lemma runs_flush (w : AppState) : (run flush_future w).1 = flush_access w.
Proof.
  unfold flush_future, flush_access, PendingAccess.flush. rewrite run_bind_all. cbn. rewrite run_touch_all. cbn.
  by destruct (PendingAccess.touch_all _ _ _) as [m [n|e]].
Qed.
End Runs.
