(* ===== verification/Interleaving.v ===== *)
(** * Requests interleaved (src/server.rs, src/main.rs)

    The service with its requests and flushes under way: each is a future of its
    own, and every step of the system is the next call of one of them, a step of a pack
    upload, a background task, a request that begins, ends or is dropped, or a
    restart. [busy_step] is all of it. *)
From S2P Require Import Prelude Str Protocol Api Json Model Records Oidc Auth Spool Access.
From S2P Require Import Metrics App Future Pack Tree Actions Blobs PackUpload PackDownload Results Service.
From S2P Require Import HandlerFutures.

Local Open Scope string_scope.
Local Open Scope mbx_scope.

Section Interleaving.
Context `{Protocol} `{Hashes} `{Hex} `{Records} `{!JsonText} `{!Documents} `{!Jwt} `{!AuthJson} `{!Tokio}
  `{!DebugFormat} `{!Constants} `{!ManifestText}.
Context {MS BS : Type} `{!MetadataStore MS} `{!BlobStore BS}.
Notation AppState := (AppState (MS:=MS) (BS:=BS)).
Notation Service := (Service (MS:=MS) (BS:=BS)).

(** What is under way: a request, or a flush of the pending accesses. *)
Inductive Work := Handling (request : Request) | Flushing.

(** What it ends with: an answer, or how many calls failed. *)
Inductive Outcome := Responded (answer : Answer) | Flushed (failed : N).

Definition work_future (work : Work) : Future AppState Held Outcome :=
  match work with
  | Handling request => bind_all (request_future request) (fun answer => Done (Responded answer))
  | Flushing => bind_all flush_future (fun failed => Done (Flushed failed))
  end.

Definition worker (work : Work) : Actor :=
  match work with
  | Handling request => Client (request_headers request !! "mbx-cache-namespace")
  | Flushing => Background
  end.

Definition work_ok (work : Work) : Prop :=
  match work with Handling request => request_u64 request | Flushing => True end.

(** What is under way and what is left of it. *)
Record Running := mkRunning { running_work : Work; running_future : Future AppState Held Outcome }.

(** The service, and what is under way, by a number of its own. *)
Record Busy := mkBusy { service : Service; running : gmap N Running }.

Definition on_shared (f : AppState -> AppState) (s : Service) : Service :=
  mkService (f (shared s)) (uploads s).

Inductive busy_step : Actor -> Busy -> Busy -> Prop :=
  | Begin n work s l :
      l !! n = None -> work_ok work ->
      busy_step (worker work) (mkBusy s l) (mkBusy s (<[n := mkRunning work (work_future work)]> l))
  | Turn n work t w w' t' us l :
      l !! n = Some (mkRunning work t) -> turn t w = Some (w', t') ->
      busy_step (worker work) (mkBusy (mkService w us) l)
        (mkBusy (mkService w' us) (<[n := mkRunning work t']> l))
  | Finish n work outcome s l :
      l !! n = Some (mkRunning work (Done outcome)) ->
      busy_step (worker work) (mkBusy s l) (mkBusy s (delete n l))
  | Disconnect n request X held (c : AppState -> AppState * X) k s l :
      l !! n = Some (mkRunning (Handling request) (Call held c k)) ->
      busy_step (worker (Handling request)) (mkBusy s l) (mkBusy (on_shared (drop_held held) s) (delete n l))
  | Beside who s s' l :
      service_step who s s' -> who <> Operator -> busy_step who (mkBusy s l) (mkBusy s' l)
  | Crash s s' l :
      service_step Operator s s' -> busy_step Operator (mkBusy s l) (mkBusy s' ∅).

Definition any_busy_step (s s' : Busy) : Prop := exists who, busy_step who s s'.

(** A service with nothing under way. *)
Definition idle (s : Busy) : Prop := uploads (service s) = [] /\ running s = ∅.
End Interleaving.
