(* ===== verification/FutureBalance.v ===== *)
(** * What a request takes it gives back

    A future owns at most a spool permit and the guard of a pack. [balanced]
    says that through every call the spool's free permits and those it owns,
    and the gauge of packs in flight without its own, stay what they are. *)
From stdpp Require Import pretty.
From S2P Require Import Prelude Str Protocol Api Json Model Records Oidc Auth Spool Access.
From S2P Require Import Metrics App Future Pack Tree Actions Blobs BlobsProofs PackUpload PackUploadProofs.
From S2P Require Import PackDownload Results Service HandlerFutures FutureProofs Interleaving.

Local Open Scope string_scope.
Local Open Scope mbx_scope.

Create HintDb quiet.

Section Balance.
Context `{Protocol} `{Hashes} `{Hex} `{Records} `{!JsonText} `{!Documents} `{!Jwt} `{!AuthJson} `{!Tokio}
  `{!DebugFormat} `{!Constants} `{!ManifestText}.
Context {MS BS : Type} `{!MetadataStore MS} `{!BlobStore BS}.
Notation AppState := (AppState (MS:=MS) (BS:=BS)).
Notation Handler := (Handler (MS:=MS) (BS:=BS)).
Notation Job := (Future AppState Held).
Implicit Types w : AppState.

Definition owed_permits (h : Held) : N := default 0%N (held_permit h).
Definition owed_packs (h : Held) : N :=
  match held_guard h with
  | Some (_, g) => if Metrics.finished g then 0 else 1
  | None => 0
  end.

(** The permits there are, and the packs of others. *)
Definition account (h : Held) w : SpoolBudget.t * Z :=
  (give (owed_permits h) (spool w), Metrics.pack_in_flight (metrics w) - Z.of_N (owed_packs h))%Z.

Lemma account_drop h w : account nothing_held (drop_held h w) = account h w.
Proof.
  destruct h as [p guard]. unfold account, drop_held, owed_permits, owed_packs. cbn [held_permit held_guard nothing_held default].
  rewrite give_0. destruct guard as [[ended g]|]; cbn; rewrite release_give; f_equal.
  unfold Metrics.drop. cbn [snd]. destruct (Metrics.finished g) eqn:E; cbn; [lia|]. rewrite E. cbn. lia.
Qed.

(** ** Futures that own nothing *)

Definition untouched {A} (c : AppState -> AppState * A) : Prop :=
  forall w, account nothing_held (c w).1 = account nothing_held w.

Fixpoint quiet {R} (t : Job R) : Prop :=
  match t with
  | Done _ => True
  | Call held c k => held = nothing_held /\ untouched c /\ forall w, quiet (k (c w).2)
  end.

Lemma quiet_bind_all {R R'} (t : Job R) (k : R -> Job R') :
  quiet t -> (forall r, quiet (k r)) -> quiet (bind_all t k).
Proof.
  intros Ht Hk. induction t as [r|X held c k' IH]; cbn; [apply Hk|]. destruct Ht as (-> & Hc & Hk').
  split_and!; [done..|]. intros w. apply IH, Hk'.
Qed.

Lemma quiet_done {R} (r : R) : quiet (Done r).
Proof. done. Qed.
Lemma quiet_ret {A} (a : A) : quiet (future_ret (E:=ApiError) a).
Proof. done. Qed.
Lemma quiet_throw {A} e : quiet (@future_throw AppState Held ApiError A e).
Proof. done. Qed.
Lemma quiet_lift {A} (r : result ApiError A) : quiet (future_lift r).
Proof. done. Qed.
Lemma quiet_bind {A B} (t : Job (result ApiError A)) (k : A -> Job (result ApiError B)) :
  quiet t -> (forall a, quiet (k a)) -> quiet (future_bind t k).
Proof. intros Ht Hk. apply quiet_bind_all; [done|]. intros [a|e]; [apply Hk|done]. Qed.
Lemma quiet_if {R} (b : bool) (t1 t2 : Job R) : quiet t1 -> quiet t2 -> quiet (if b then t1 else t2).
Proof. by destruct b. Qed.
Lemma quiet_await {R} (c : AppState -> AppState * R) : untouched c -> quiet (await nothing_held c).
Proof. done. Qed.
Lemma quiet_call {A} (c : Handler A) : untouched c -> quiet (call c).
Proof. done. Qed.

Lemma untouched_metadata {A} (c : M MS StoreError A) : untouched (on_metadata c).
Proof. intros w. unfold on_metadata. by destruct (c (metadata w)). Qed.
Lemma untouched_blobs {A} (c : M BS StoreError A) : untouched (on_blobs c).
Proof. intros w. unfold on_blobs. by destruct (c (blobs w)). Qed.
Lemma untouched_access f : untouched (on_access f).
Proof. done. Qed.
Lemma untouched_state : untouched get_state.
Proof. done. Qed.
Lemma untouched_authorized m headers access : untouched (authorized m headers access).
Proof. intros w. unfold authorized, on_auth. by destruct (authorize _ _ _ _). Qed.
Lemma untouched_gather stream : untouched (gather stream).
Proof. intros w. unfold gather. by destruct (collect_stream stream) as [bs [u|e]]. Qed.
Lemma untouched_forget ns d : untouched (forget_missing_blob ns d).
Proof. intros w. unfold forget_missing_blob. by destruct (forget_blob _ _ _). Qed.
Lemma untouched_metrics f : (forall m, Metrics.pack_in_flight (f m) = Metrics.pack_in_flight m) -> untouched (on_metrics f).
Proof. intros Hf w. unfold account. cbn. by rewrite Hf. Qed.
Hint Resolve quiet_done quiet_ret quiet_throw quiet_lift quiet_bind quiet_if quiet_call untouched_metadata untouched_blobs
  untouched_access untouched_state untouched_authorized untouched_gather untouched_forget : quiet.
Hint Extern 2 (untouched (on_metrics _)) => apply untouched_metrics; reflexivity : quiet.

Ltac quietly :=
  repeat first
    [ solve [auto with quiet]
    | apply quiet_bind; [|intros ?]
    | apply quiet_if
    | match goal with |- quiet (match ?x with _ => _ end) => destruct x end ].

Lemma quiet_require_blob ns d label : quiet (require_blob_future ns d label).
Proof. unfold require_blob_future. quietly. Qed.
Hint Resolve quiet_require_blob : quiet.
Lemma quiet_canonical_object ns d label : quiet (read_canonical_object_future ns d label).
Proof. unfold read_canonical_object_future. quietly. Qed.
Hint Resolve quiet_canonical_object : quiet.
Lemma quiet_client_metadata ns d kind : quiet (validate_client_metadata_future ns d kind).
Proof.
  unfold validate_client_metadata_future, validate_build_script_metadata_future, validate_cc_metadata_future,
    validate_rustc_metadata_future, require_output_blobs_future. quietly.
Qed.
Lemma quiet_directory ns d : quiet (read_directory_future ns d).
Proof. unfold read_directory_future. quietly. Qed.
Hint Resolve quiet_client_metadata quiet_directory : quiet.
Lemma quiet_walk fuel ns pending visiting seen : quiet (walk_future fuel ns pending visiting seen).
Proof.
  revert pending visiting seen; induction fuel as [|fuel IHf]; intros pending;
    induction pending as [|[d|d] pending IHp]; intros visiting seen; cbn [walk_future]; try done; try apply IHp;
    (destruct (decide (d ∈ seen)); [apply IHp|]); (destruct (decide (d ∈ visiting)); [done|]);
    apply quiet_if; try done; (apply quiet_bind; [apply quiet_directory|]); intros directory; [done|apply IHf].
Qed.
Lemma quiet_tree ns root : quiet (validate_tree_future ns root).
Proof. apply quiet_walk. Qed.
Hint Resolve quiet_tree : quiet.

Lemma quiet_query_visible clock ns ds : quiet (query_visible_future clock ns ds).
Proof.
  unfold query_visible_future. apply quiet_bind_all.
  - apply quiet_await. intros w. by destruct (visible_blobs ns ds (metadata w)).
  - intros [vs|e]; (apply quiet_bind_all; [by apply quiet_await|done]).
Qed.
Hint Resolve quiet_query_visible : quiet.

(** ** Futures that own something *)

Fixpoint balanced {R} (after : R -> Held) (h : Held) (t : Job R) : Prop :=
  match t with
  | Done r => after r = h
  | Call held c k =>
      held = h /\ forall w, exists h', account h' (c w).1 = account h w /\ balanced after h' (k (c w).2)
  end.

Lemma quiet_balanced {R} (t : Job R) : quiet t -> balanced (fun _ => nothing_held) nothing_held t.
Proof.
  induction t as [r|X held c k IH]; cbn; [done|]. intros (-> & Hc & Hk). split; [done|]. intros w.
  exists nothing_held. split; [apply Hc|by apply IH].
Qed.

Lemma balanced_bind {R R'} (after : R -> Held) (after' : R' -> Held) h (t : Job R) k :
  balanced after h t -> (forall r, balanced after' (after r) (k r)) -> balanced after' h (bind_all t k).
Proof.
  intros Ht Hk. revert h Ht; induction t as [r|X held c k' IH]; intros h; cbn; [by intros <-|].
  intros (-> & Hc). split; [done|]. intros w. destruct (Hc w) as (h' & Ha & Hk'). exists h'. split; [done|by apply IH].
Qed.

Lemma balanced_await {R} (after : R -> Held) h (c : AppState -> AppState * R) :
  (forall w, account (after (c w).2) (c w).1 = account h w) -> balanced after h (await h c).
Proof. intros Hc. split; [done|]. intros w. exists (after (c w).2). split; [apply Hc|done]. Qed.

Lemma balanced_weaken {R} (after after' : R -> Held) h (t : Job R) :
  balanced after h t -> (forall r, after r = after' r) -> balanced after' h t.
Proof.
  intros Ht Hr. revert h Ht; induction t as [r|X held c k IH]; intros h; cbn; [by rewrite Hr|].
  intros (-> & Hc). split; [done|]. intros w. destruct (Hc w) as (h' & ? & ?). exists h'. split; [done|by apply IH].
Qed.

(** Through a handler's successes and failures. *)
Definition on_ok {A} (after : A -> Held) (r : result ApiError A) : Held :=
  match r with Ok a => after a | Err _ => nothing_held end.

Lemma balanced_then {A B} (after : A -> Held) (after' : B -> Held) h t k :
  balanced (on_ok after) h t -> (forall a, balanced (on_ok after') (after a) (k a)) ->
  balanced (on_ok after') h (future_bind t k).
Proof. intros Ht Hk. eapply balanced_bind; [exact Ht|]. intros [a|e]; [apply Hk|done]. Qed.

Lemma balanced_quiet {A B} (after' : B -> Held) (t : Job (result ApiError A)) k :
  quiet t -> (forall a, balanced (on_ok after') nothing_held (k a)) ->
  balanced (on_ok after') nothing_held (future_bind t k).
Proof. intros Ht%quiet_balanced Hk. eapply balanced_bind; [exact Ht|]. intros [a|e]; [apply Hk|done]. Qed.

Lemma untouched_account {A} (c : AppState -> AppState * A) h w : untouched c -> account h (c w).1 = account h w.
Proof.
  intros Hc. specialize (Hc w). unfold account, owed_permits, owed_packs in *. cbn [held_permit held_guard nothing_held default] in Hc.
  rewrite !give_0 in Hc. injection Hc as -> Hp. f_equal. lia.
Qed.

(** *** Uploads: the permit of the spool *)

Lemma balanced_holding {R} p (t : Job R) :
  quiet t -> balanced (fun _ => nothing_held) (mkHeld p None) (holding (mkHeld p None) (release_spool p) t).
Proof.
  induction t as [r|X held c k IH]; cbn.
  - intros _. split; [done|]. intros w. exists nothing_held. split; [|done].
    apply (account_drop (mkHeld p None)).
  - intros (_ & Hc & Hk). split; [done|]. intros w. exists (mkHeld p None). split; [|by apply IH].
    by apply untouched_account.
Qed.

Lemma balanced_spool {A} size (t : Job (result ApiError A)) :
  quiet t -> balanced (on_ok (fun _ => nothing_held)) nothing_held (with_spool_future size t).
Proof.
  intros Ht. unfold with_spool_future. apply (balanced_then (fun p => mkHeld p None)).
  - apply balanced_await. intros w. unfold reserve_spool.
    destruct (SpoolBudget.reserve (spool w) size) as [b [p|e]] eqn:E; cbn [fst snd on_ok].
    + apply reserve_release in E. rewrite release_give in E. unfold account, owed_permits, owed_packs.
      cbn [held_permit held_guard nothing_held default]. rewrite give_0, <-E. by destruct w.
    + apply reserve_refused in E as ->. by destruct w.
  - intros p. eapply balanced_weaken; [by apply balanced_holding|]. by intros [].
Qed.

Lemma put_blob_balanced m headers parts body faults :
  balanced (on_ok (fun _ => nothing_held)) nothing_held (put_blob_future m headers parts body faults).
Proof.
  unfold put_blob_future, store_upload_future. do 4 (apply balanced_quiet; [solve [auto with quiet]|intros ?]).
  destruct (_ <? _)%N; [done|]. apply balanced_spool. quietly.
Qed.

(** *** Pack downloads: the guard of the metrics *)

Lemma account_drop_guard clock g w :
  account nothing_held (set_metrics (Metrics.drop (ended_at clock) (metrics w, g)) w) = account (with_guard clock g) w.
Proof.
  rewrite <-(account_drop (with_guard clock g)). unfold account, drop_held. cbn. by destruct (spool w).
Qed.

(** What a guard's operation does to the gauge, the guard says. *)
Definition guard_fair (f : Metrics.t * Metrics.PackGuard -> Metrics.t * Metrics.PackGuard) : Prop :=
  forall m g,
    (Metrics.pack_in_flight (f (m, g)).1 - Z.of_N (if Metrics.finished (f (m, g)).2 then 0 else 1) =
     Metrics.pack_in_flight m - Z.of_N (if Metrics.finished g then 0 else 1))%Z.

Lemma guard_op_fair op : guard_fair (Metrics.guard_op op).
Proof.
  intros m g. destruct op; cbn; unfold Metrics.record_first_byte, Metrics.complete, Metrics.error, Metrics.finish;
    try done; [by destruct (Metrics.first_byte_recorded g)|..]; destruct (Metrics.finished g) eqn:E; cbn; rewrite ?E; lia.
Qed.

Lemma guarded_balanced clock g f :
  guard_fair f -> balanced (with_guard clock) (with_guard clock g) (guarded clock g f).
Proof.
  intros Hf. apply balanced_await. intros w. unfold on_guard. specialize (Hf (metrics w) g).
  destruct (f (metrics w, g)) as [m g']. unfold account, owed_packs. cbn in *. by rewrite Hf.
Qed.

Lemma observe_balanced h f :
  (forall m, Metrics.pack_in_flight (f m) = Metrics.pack_in_flight m) -> balanced (fun _ => h) h (observe h f).
Proof. intros Hf. apply balanced_await. intros w. unfold account. cbn. by rewrite Hf. Qed.

Lemma read_entry_balanced h clock ns e : balanced (fun _ => h) h (read_entry_future h clock ns e).
Proof.
  destruct e as [header d]. unfold read_entry_future. eapply (balanced_bind (fun _ => h)).
  - apply balanced_await. intros w. by destruct (blob_get d (blobs w)).
  - intros [[blob|]|e]; (eapply balanced_bind; [by apply observe_balanced|]); intros []; cbn; [done| |done].
    split; [done|]. intros w. exists h. split; [|done]. apply untouched_account, untouched_forget.
Qed.

Lemma top_up_balanced h n clock ns waiting : balanced (fun _ => h) h (top_up_future h n clock ns waiting).
Proof.
  revert waiting; induction n as [|n IH]; intros waiting; cbn; [done|]. destruct waiting as [|e waiting]; [done|].
  eapply balanced_bind; [apply read_entry_balanced|]. intros r. cbn beta.
  eapply balanced_bind; [apply IH|]. by intros [queue waiting'].
Qed.

Lemma send_chunks_balanced clock size streamed stream g :
  balanced (fun p => with_guard clock p.1.1) (with_guard clock g) (send_chunks_future clock size streamed stream g).
Proof.
  revert streamed g; induction stream as [|[chunk|e] stream IH]; intros streamed g; cbn [send_chunks_future].
  - destruct (negb _); [|done]. eapply balanced_bind; [by apply guarded_balanced, (guard_op_fair (Metrics.ErrorAt _))|done].
  - destruct (checked_add _ _) as [n|]; [destruct (_ <? _)%N|].
    1, 3: eapply balanced_bind; [by apply guarded_balanced, (guard_op_fair (Metrics.ErrorAt _))|done].
    eapply balanced_bind; [by apply guarded_balanced, (guard_op_fair (Metrics.AddServedBytes _))|]. intros g1.
    eapply balanced_bind; [apply IH|]. by intros [[g2 sent] ok].
  - eapply balanced_bind; [by apply guarded_balanced, (guard_op_fair (Metrics.ErrorAt _))|done].
Qed.

Lemma send_entries_balanced turns clock ns queue waiting g :
  balanced (fun p => with_guard clock p.1) (with_guard clock g) (send_entries_future turns clock ns queue waiting g).
Proof.
  revert queue waiting g; induction turns as [|turns IH]; intros queue waiting g; cbn [send_entries_future];
    (eapply balanced_bind; [apply top_up_balanced|]); intros [more waiting1]; cbn beta;
    destruct (queue ++ more)%list as [|[[h blob]|e] rest]; try done.
  1, 2, 4: eapply balanced_bind; [apply guarded_balanced;
    first [exact (guard_op_fair (Metrics.CompleteAt _)) | exact (guard_op_fair (Metrics.ErrorAt _))]|done].
  eapply balanced_bind; [apply send_chunks_balanced|]. intros [[g2 sent] ok]. cbn [fst snd]. destruct ok; [|done].
  eapply balanced_bind; [by apply guarded_balanced, (guard_op_fair Metrics.BlobServed)|]. intros g3. cbn beta.
  eapply balanced_bind; [by apply observe_balanced|]. intros []. cbn beta.
  eapply balanced_bind; [apply IH|]. by intros [g4 rest'].
Qed.

Lemma pack_stream_balanced clock b :
  balanced (fun _ => nothing_held) (with_guard clock (body_guard b)) (pack_stream_future clock b).
Proof.
  unfold pack_stream_future.
  eapply balanced_bind; [by apply guarded_balanced, (guard_op_fair (Metrics.RecordFirstByte _))|]. intros g1. cbn beta.
  eapply balanced_bind; [apply send_entries_balanced|]. intros [g2 sent]. cbn [fst].
  split; [done|]. intros w. exists nothing_held. split; [|exact eq_refl]. cbn [fst snd].
  apply account_drop_guard.
Qed.

Lemma pack_blobs_balanced clock m headers ds :
  balanced (on_ok (fun resp => with_guard clock (body_guard (response_body resp)))) nothing_held
    (pack_blobs_future clock m headers ds).
Proof.
  unfold pack_blobs_future. apply balanced_quiet; [auto with quiet|]. intros ns. destruct (_ <? _)%N; [done|].
  do 2 (apply balanced_quiet; [auto with quiet|]; intros ?). destruct a0 as [total requested].
  do 2 (apply balanced_quiet; [auto with quiet|]; intros ?).
  apply (balanced_then (fun guard => with_guard clock guard)).
  - apply balanced_await. intros w. unfold account, owed_permits, owed_packs. cbn. f_equal. lia.
  - intros guard. apply (balanced_then (fun _ => with_guard clock guard)); [|by intros [[pb pp] entries]].
    apply balanced_await. intros w. unfold or_drop_guard. destruct (prepare_entries _ _ _ _) as [p|e]; [done|].
    cbn [fst snd on_ok]. apply account_drop_guard.
Qed.

(** Every request owns nothing at its beginning and nothing at its end. *)
Lemma answer_balanced {A} h (after : A -> Held) (answer : A -> Answer) (t : Job A) :
  balanced after h t -> (forall r, after r = nothing_held) ->
  balanced (fun _ => nothing_held) h (answer_with answer t).
Proof. intros Ht Hr. eapply balanced_bind; [exact Ht|]. intros r. cbn. by rewrite Hr. Qed.

Lemma request_balanced request : balanced (fun _ => nothing_held) nothing_held (request_future request).
Proof.
  destruct request; cbn [request_future].
  2: { eapply answer_balanced; [apply put_blob_balanced|by intros []]. }
  3: { eapply balanced_bind; [apply pack_blobs_balanced|]. intros [resp|e]; cbn [on_ok]; [|done].
       eapply answer_balanced; [apply pack_stream_balanced|done]. }
  all: eapply answer_balanced; [apply quiet_balanced|done].
  - unfold get_blob_future. quietly.
  - unfold missing_blobs_future. quietly.
  - unfold get_action_result_future. quietly.
  - unfold batch_action_results_future. quietly.
  - unfold put_action_result_future, check_action_result_future, validate_action_descriptor_future. quietly.
  - unfold get_action_manifest_future. quietly.
  - unfold put_action_manifest_future. quietly.
  - unfold refresh_metrics_future. quietly.
Qed.

Lemma quiet_touch_all calls failed : quiet (touch_all_future calls failed).
Proof.
  revert failed; induction calls as [|[ns chunk] calls IH]; intros failed; [done|]. cbn [touch_all_future].
  apply quiet_bind_all; [|intros r; apply IH]. apply quiet_await. intros w. by destruct (touch_blobs _ _ _).
Qed.

Lemma work_balanced work : balanced (fun _ => nothing_held) nothing_held (work_future work).
Proof.
  destruct work as [request|]; cbn [work_future].
  - eapply balanced_bind; [apply request_balanced|done].
  - apply quiet_balanced, quiet_bind_all; [|done].
    apply quiet_bind_all; [by apply quiet_await|intros calls; apply quiet_touch_all].
Qed.

(** Run alone it leaves the account as it was. *)
Lemma balanced_run {R} (after : R -> Held) h (t : Job R) w :
  balanced after h t -> account (after (run t w).2) (run t w).1 = account h w.
Proof.
  revert h w; induction t as [r|X held c k IH]; intros h w; cbn; [by intros ->|]. intros (-> & Hc).
  destruct (Hc w) as (h' & Ha & Hk). destruct (c w) as [w1 x]. cbn in *. by rewrite (IH _ _ _ Hk).
Qed.

(** ** Requests under way *)

(** What a future owns now. *)
Definition owns {R} (t : Job R) : Held := match t with Done _ => nothing_held | Call held _ _ => held end.

Definition settled {R} (t : Job R) : Prop := balanced (fun _ => nothing_held) (owns t) t.

Lemma balanced_settled {R} h (t : Job R) : balanced (fun _ => nothing_held) h t -> h = owns t /\ settled t.
Proof. destruct t as [r|X held c k]; [by intros <-|]. intros [<- Hc]. by split; [|split]. Qed.

Lemma settled_turn {R} (t t' : Job R) w w' :
  settled t -> turn t w = Some (w', t') -> settled t' /\ account (owns t') w' = account (owns t) w.
Proof.
  destruct t as [r|X held c k]; [done|]. intros [_ Hc]. cbn. specialize (Hc w).
  destruct (c w) as [w1 x]. intros [= <- <-]. destruct Hc as (h' & Ha & [-> Hs]%balanced_settled). done.
Qed.

(** ** The gauge and the other steps of the service *)

Definition gauge w : Z := Metrics.pack_in_flight (metrics w).

Lemma account_gauge {A} (c : AppState -> AppState * A) w : untouched c -> gauge (c w).1 = gauge w.
Proof. intros Hc. specialize (Hc w). unfold account, owed_packs in Hc. cbn in Hc. injection Hc as _ Hc. unfold gauge. lia. Qed.

Lemma untouched_bind {A B} (c : Handler A) (k : A -> Handler B) :
  untouched c -> (forall a, untouched (k a)) -> untouched (m_bind c k).
Proof.
  intros Hc Hk w. unfold m_bind. specialize (Hc w). destruct (c w) as [w1 [a|e]]; [|done]. by rewrite (Hk a w1).
Qed.

Lemma put_blob_pack_gauge m headers body w : gauge (put_blob_pack m headers body w).1 = gauge w.
Proof.
  apply account_gauge. unfold put_blob_pack. apply untouched_bind; [auto with quiet|]. intros ns.
  do 2 (apply untouched_bind; [done|]; intros ?). apply untouched_bind; [auto with quiet|]. intros st w1.
  destruct (_ <? _)%N; [done|]. by destruct (_ <? _)%N.
Qed.

Lemma pack_step_gauge env ns blobs' bytes' w q w' q' :
  (forall w1 w2, env w1 w2 -> gauge w2 = gauge w1) ->
  pack_step env ns blobs' bytes' (w, q) (w', q') -> gauge w' = gauge w.
Proof.
  intros Henv Hstep.
  assert (forall w0 q0 w1 q1, drop_frame w0 q0 = (w1, q1) -> gauge w1 = gauge w0) as Hdrop.
  { intros w0 q0 w1 q1. unfold drop_frame. destruct (frame q0); by intros [= <- _]. }
  inversion Hstep; subst; try done; try (by auto); try (by eapply Hdrop).
  - match goal with E : on_started _ _ _ _ = _ |- _ => revert E end. unfold on_started.
    destruct (SpoolBudget.reserve _ _) as [b [held|e]]; [|by intros [= <- _]].
    destruct (PackFrame.new _ _ _); [|by intros [= <- _]].
    destruct (drop_frame (set_spool b w) _) as [w1 q1] eqn:Hd. intros [= <- _]. by rewrite (Hdrop _ _ _ _ Hd).
  - match goal with E : run_store _ ?s _ = _ |- _ => revert E; destruct s end; cbn [run_store].
    + destruct (on_blobs _ w) as [w1 r] eqn:Hb. apply on_blobs_inv in Hb as (b & q1 & _ & -> & _).
      destruct r; by intros [= <- _].
    + destruct (on_metadata _ w) as [w1 r] eqn:Hb. apply on_metadata_inv in Hb as (b & q1 & _ & -> & _).
      destruct r; by intros [= <- _].
    + by intros [= <- _].
  - match goal with E : finish_request _ _ _ _ = _ |- _ => revert E end. unfold finish_request.
    destruct (drop_frame w q) as [w1 q1] eqn:Hd. rewrite <-(Hdrop _ _ _ _ Hd).
    destruct (answer_pack _ _ _); by intros [= <- _].
Qed.

(** Beside a restart, the service's other steps leave the gauge alone. *)
Lemma service_step_gauge who (s s' : Service (MS:=MS) (BS:=BS)) :
  service_step who s s' -> who <> Operator -> gauge (shared s') = gauge (shared s).
Proof.
  intros Hstep Hwho. destruct Hstep as
    [m headers body w w' ns blobs' bytes' q l Hput|m headers body w w' e l Hput
    |w l1 ns blobs' bytes' q l2 w' q' Hstep|w l1 ns blobs' bytes' q l2 Hend|w l|days w l|]; try done; cbn [shared].
  - rewrite <-(put_blob_pack_gauge m headers body w). by rewrite Hput.
  - rewrite <-(put_blob_pack_gauge m headers body w). by rewrite Hput.
  - by eapply pack_step_gauge; [|exact Hstep].
  - unfold flush_access. by destruct (PendingAccess.flush _) as [[p m] r].
  - unfold sweep_once, on_metadata. by destruct (sweep _ _).
Qed.
End Balance.
