(* ===== verification/ServiceProofs.v ===== *)
(** * What the steps of the service keep

    What one call of a client may change of the stores ([view_step], [served]),
    and the invariant of the service over pack uploads under way, background
    tasks, sweeps and restarts in any order. The handlers' calls between them
    follow in [InterleavingProofs]. *)
From stdpp Require Import pretty.
From S2P Require Import Prelude Str Protocol Api Json Model Records Oidc Auth AuthProofs Spool.
From S2P Require Import Access Metrics App Pack PackProofs Tree Actions Blobs BlobsProofs.
From S2P Require Import PackUpload PackUploadProofs PackDownload PackDownloadProofs ReadOnly.
From S2P Require Import Results ResultsProofs Service.

Local Open Scope string_scope.
Local Open Scope mbx_scope.

Section Readers.
Context `{Protocol} `{HashLaws} `{Hex} `{!ProtocolLaws} `{!HexLaws} `{Records} `{!JsonText} `{!Documents}
  `{!Jwt} `{!AuthJson} `{!Tokio} `{!DebugFormat} `{!Constants} `{!ConstantsLaws} `{!ManifestText}.
Context {MS BS : Type} `{!MetadataStore MS} `{!BlobStore BS}.
Context `{!MetadataLaws MS} `{!BlobLaws BS} {retention : Retention}.
Notation AppState := (AppState (MS:=MS) (BS:=BS)).
Notation Handler := (Handler (MS:=MS) (BS:=BS)).
Implicit Types w : AppState.

(** ** Requests that only read *)

Lemma aside_ends w w' :
  store_inv w -> metadata w' = metadata w -> blobs w' = blobs w -> config w' = config w ->
  store_inv w' /\ same_stores w w' /\ config w' = config w.
Proof.
  intros Hinv Hm Hb Hc. assert (same_stores w w') as Hs by (split; by rewrite ?Hm, ?Hb).
  split; [|done]. eapply store_inv_same; [exact Hinv|rewrite Hm; apply Hinv|done].
Qed.

Lemma query_visible_read_only clock ns ds : read_only (query_visible clock ns ds).
Proof.
  intros w w' r Hinv. unfold query_visible. destruct (visible_blobs ns ds (metadata w)) as [s q] eqn:E.
  apply visible_blobs_law in E as (Hwf & Hv & _); [|apply Hinv].
  destruct q as [l|e]; intros [= <- _];
    (split; [eapply store_inv_same; [exact Hinv|done|by split]|by split]).
Qed.

Lemma pack_blobs_read_only clock m headers ds : read_only (pack_blobs clock m headers ds).
Proof.
  unfold pack_blobs. apply read_only_bind; [auto with read_only|]. intros ns.
  apply read_only_if; [auto with read_only|]. apply read_only_bind; [auto with read_only|]. intros state.
  apply read_only_bind; [auto with read_only|]. intros [total requested].
  apply read_only_bind; [apply query_visible_read_only|]. intros visible.
  apply read_only_bind; [auto with read_only|]. intros _.
  apply read_only_bind.
  { intros w w' r Hinv. unfold start_pack. destruct (Metrics.start_pack _ _ _ _ _) as [ms g].
    intros [= <- _]. by apply aside_ends. }
  intros guard. apply read_only_bind; [|intros [[pb pp] entries]; auto with read_only].
  intros w w' r Hinv. unfold or_drop_guard. destruct (prepare_entries _ _ _ _); intros [= <- _];
    by apply aside_ends.
Qed.

(** ** Background tasks *)

Lemma touch_all_ok calls failed s s' r :
  meta_wf s -> PendingAccess.touch_all (S:=MS) calls failed s = (s', r) -> meta_wf s' /\ view s' ≡ view s.
Proof.
  revert failed s; induction calls as [|[ns ds] calls IH]; intros failed s Hwf; cbn [PendingAccess.touch_all].
  { by intros [= <- _]. }
  destruct (touch_blobs ns ds s) as [s1 q] eqn:Ht. apply touch_blobs_law in Ht as [Hwf1 Hv1]; [|done].
  intros Hr. assert (meta_wf s' /\ view s' ≡ view s1) as [Hwf2 Hv2] by (destruct q; eauto).
  split; [done|]. by rewrite Hv2.
Qed.

Lemma flush_access_read_only w : store_inv w ->
  store_inv (flush_access w) /\ same_stores w (flush_access w) /\ config (flush_access w) = config w.
Proof.
  intros Hinv. unfold flush_access, PendingAccess.flush.
  destruct (PendingAccess.touch_all _ _ _) as [s r] eqn:Ht.
  apply touch_all_ok in Ht as [Hwf Hv]; [|apply Hinv].
  destruct r as [n|e]; (split; [eapply store_inv_same; [exact Hinv|done|by split]|by split]).
Qed.

End Readers.

Section Steps.
Context `{Protocol} `{HashLaws} `{Hex} `{!ProtocolLaws} `{!HexLaws} `{Records} `{!JsonText} `{!Documents}
  `{!Jwt} `{!AuthJson} `{!Tokio} `{!DebugFormat} `{!Constants} `{!ConstantsLaws} `{!ManifestText}.
Context {MS BS : Type} `{!MetadataStore MS} `{!BlobStore BS}.
Context `{!MetadataLaws MS} `{!BlobLaws BS} {retention : Retention}.
Notation AppState := (AppState (MS:=MS) (BS:=BS)).
Implicit Types w : AppState.

(** ** What a step may change of the metadata, by whose step it is *)

Inductive view_step (who : Actor) (v v' : MetaView) : Prop :=
  | ViewSame : v' ≡ v -> view_step who v v'
  | ViewBlob ns d :
      who = Client (Some ns) -> v' ≡ view_set_blob ns d true v -> view_step who v v'
  | ViewResult ns d r :
      who = Client (Some ns) -> view_result v ns d = None -> v' ≡ view_set_result ns d r v ->
      view_step who v v'
  | ViewManifest ns key record :
      who = Client (Some ns) -> v' ≡ view_set_manifest ns key record v -> view_step who v v'
  | ViewForgotten ns d :
      who = Client (Some ns) -> (retains -> False) -> v' ≡ view_set_blob ns d false v -> view_step who v v'
  | ViewSwept : who = Sweeper -> view_shrinks v' v -> view_step who v v'.

(** Only a sweep takes a result away; a blob it takes from sight, and so does a
    reader that finds its object expired. *)
Lemma view_step_keeps who v v' :
  view_step who v v' -> who <> Sweeper ->
  (retains -> forall ns d, view_blob v ns d = true -> view_blob v' ns d = true) /\
  (forall ns d r, view_result v ns d = Some r -> view_result v' ns d = Some r).
Proof.
  intros [(Hb & Hr & _)|ns d _ (Hb & Hr & _)|ns d r _ Hnone (Hb & Hr & _)|ns key rec _ (Hb & Hr & _)
    |ns d _ Hno (Hb & Hr & _)|] Hne; [..|done];
    (split; [intros Hk ns' d' Hold|intros ns' d' r' Hold]); rewrite ?Hb, ?Hr; try done; try (by destruct Hno);
    cbn; unfold upd; case_decide as Heq; [done..| |done]. injection Heq as -> ->. congruence.
Qed.

(** A client touches its own namespace only. *)
Lemma view_step_elsewhere who v v' ns d :
  view_step who v v' -> who <> Client (Some ns) -> who <> Sweeper ->
  view_blob v' ns d = view_blob v ns d /\ view_result v' ns d = view_result v ns d /\
  view_manifest v' ns d = view_manifest v ns d.
Proof.
  intros Hv Hne Hsw. destruct Hv as [(Hb & Hr & Hm)|ns' d' -> (Hb & Hr & Hm)|ns' d' r -> _ (Hb & Hr & Hm)
    |ns' key rec -> (Hb & Hr & Hm)|ns' d' -> _ (Hb & Hr & Hm)|]; [..|done]; rewrite Hb, Hr, Hm; cbn; unfold upd;
    rewrite ?decide_False by congruence; done.
Qed.

(** ** What a step leaves of the shared state *)

Record served (who : Actor) w w' : Prop := {
  srv_inv : store_inv w';
  srv_grow : objects_grow w w';
  srv_max : max_blob_bytes w' = max_blob_bytes w;
  srv_concurrency : pack_store_concurrency w' = pack_store_concurrency w;
  srv_view : view_step who (view (metadata w)) (view (metadata w'));
}.

Lemma served_same who w w' :
  store_inv w' -> same_stores w w' -> config w' = config w -> served who w w' /\ spool w' = spool w.
Proof.
  intros Hinv Hs [= Hmax Hcon Hsp]. split; [|done]. split; [done|by apply same_stores_grow|done..|].
  by apply ViewSame, Hs.
Qed.

(** Whoever is authorized named the namespace in the headers. *)
Lemma authorized_client m headers access w w' ns :
  authorized m headers access w = (w', Ok ns) ->
  Client (headers !! "mbx-cache-namespace") = Client (Some ns).
Proof.
  unfold authorized, on_auth. destruct (authorize m headers access (auth w)) as [a r] eqn:E.
  intros [= _ ->]. assert ((authorize m headers access (auth w)).2 = Ok ns) as Hok by (by rewrite E).
  apply authorize_ok in Hok as (_ & -> & _). done.
Qed.

(** *** Steps of a pack upload *)

Lemma put_blob_pack_read_only m headers body : read_only (put_blob_pack m headers body).
Proof. unfold put_blob_pack. auto 20 with read_only. Qed.

Lemma served_kept who w w' : store_inv w ->
  metadata w' = metadata w -> blobs w' = blobs w -> max_blob_bytes w' = max_blob_bytes w ->
  pack_store_concurrency w' = pack_store_concurrency w -> served who w w'.
Proof.
  intros Hinv Hm Hb Hmax Hc. pose proof (shared_refl w w' Hm Hb Hc) as [Hi Hg _].
  split; [auto|done..|]. by rewrite Hm; apply ViewSame.
Qed.

Lemma run_store_served ns s w w' s' :
  store_inv w -> store_ok w s -> run_store ns s w = (w', s') -> served (Client (Some ns)) w w'.
Proof.
  intros Hinv Hok Hrun. pose proof Hrun as ([Hi Hg Hc] & _)%(run_store_ok ns True); [|done..].
  assert (max_blob_bytes w' = max_blob_bytes w /\
    view_step (Client (Some ns)) (view (metadata w)) (view (metadata w'))) as [Hmax Hv].
  2:{ by split; [apply Hi|..]. }
  destruct s as [f|f out|res]; cbn [run_store] in Hrun.
  - destruct (on_blobs _ w) as [w1 q] eqn:Hp. apply on_blobs_inv in Hp as (b & ? & _ & -> & _).
    destruct q; injection Hrun as <- _; (split; [done|by apply ViewSame]).
  - destruct Hok as (_ & _ & Hu). destruct (on_metadata _ w) as [w1 q] eqn:Hr.
    apply register_ok in Hr as (_ & _ & [= Hmax _ _] & Hv); [|apply Hinv|done].
    destruct q as [[]|e]; injection Hrun as <- _; (split; [done|]).
    + by eapply ViewBlob.
    + destruct Hv; [by apply ViewSame|by eapply ViewBlob].
  - injection Hrun as <- _. split; [done|by apply ViewSame].
Qed.

Lemma drop_frame_served who w q w' q' :
  store_inv w -> drop_frame w q = (w', q') -> served who w w'.
Proof.
  intros Hinv. unfold drop_frame. destruct (frame q); intros [= <- _]; by apply served_kept.
Qed.

Lemma pack_step_served ns blobs' bytes' w q w' q' :
  store_inv w -> Forall (store_ok w) (stores q) ->
  pack_step (fun _ _ => False) ns blobs' bytes' (w, q) (w', q') -> served (Client (Some ns)) w w'.
Proof.
  intros Hinv Hok Hstep. inversion Hstep; subst; try (by apply served_kept); try done.
  - match goal with E : on_started _ _ _ _ = _ |- _ => revert E end. unfold on_started.
    destruct (SpoolBudget.reserve _ _) as [b [held|e]]; [|intros [= <- _]; by apply served_kept].
    destruct (PackFrame.new _ _ _); [|intros [= <- _]; by apply served_kept].
    destruct (drop_frame (set_spool b w) _) as [w1 q1] eqn:Hd. unfold drop_frame in Hd.
    cbn [frame set_events] in Hd.
    destruct (frame q); injection Hd as <- _; intros [= <- _]; by apply served_kept.
  - eapply run_store_served; [done| |eassumption].
    match goal with E : stores q = _ |- _ => rewrite E in Hok end. by apply forall_mid in Hok as [? _].
  - by eapply drop_frame_served.
  - match goal with E : finish_request _ _ _ _ = _ |- _ => revert E end. unfold finish_request.
    destruct (drop_frame w q) as [w1 q1] eqn:Hd. unfold drop_frame in Hd.
    destruct (frame q); injection Hd as <- _; destruct (answer_pack _ _ _); intros [= <- _]; by apply served_kept.
  - by eapply drop_frame_served.
Qed.

End Steps.

(** ** The invariant *)

Section Invariant.
Context `{Protocol} `{HashLaws} `{Hex} `{!ProtocolLaws} `{!HexLaws} `{Records} `{!JsonText} `{!Documents}
  `{!Jwt} `{!AuthJson} `{!Tokio} `{!DebugFormat} `{!Constants} `{!ConstantsLaws} `{!ManifestText}.
Context {MS BS : Type} `{!MetadataStore MS} `{!BlobStore BS}.
Context `{!MetadataLaws MS} `{!BlobLaws BS} {retention : Retention}.
Notation AppState := (AppState (MS:=MS) (BS:=BS)).
Notation Service := (Service (MS:=MS) (BS:=BS)).
Implicit Types w : AppState.
Implicit Types s : Service.

(** Whether the run is one without sweeps. *)
Variable unswept : Prop.

(** What a pack upload meets between its steps. *)
Definition meanwhile w w' : Prop :=
  shared_step w w' /\
  (retains -> unswept -> forall ns d, view_blob (view (metadata w)) ns d = true ->
     view_blob (view (metadata w')) ns d = true).

Definition upload_inv w (u : Upload) : Prop :=
  exists w0 body0,
    let r0 := PackReader.new (max_blob_bytes w0) (upload_blobs u) (upload_bytes u) in
    limits_ok r0 /\
    pack_inv meanwhile (upload_namespace u) (upload_blobs u) (upload_bytes u) w0 r0 body0 w
      (upload_request u).

Record service_inv s : Prop := {
  service_store : store_inv (shared s);
  service_config : config_ok (shared s);
  service_uploads : Forall (upload_inv (shared s)) (uploads s);
}.

(** The permits uploads hold. *)
Definition held_permits s : N := foldr (fun u n => permits (upload_request u) + n)%N 0%N (uploads s).

Lemma served_meanwhile who w w' :
  served who w w' -> (unswept -> who <> Sweeper) -> meanwhile w w'.
Proof.
  intros [Hi Hg Hmax Hc Hv] Hsw. split; [by split|]. intros Hk Hu ns d.
  apply view_step_keeps in Hv as [Hb _]; auto.
Qed.

Lemma upload_meanwhile w w' u : meanwhile w w' -> upload_inv w u -> upload_inv w' u.
Proof.
  intros Hm (w0 & body0 & Hl & Hinv). exists w0, body0. split; [done|].
  eapply (pack_inv_step meanwhile _ _ _ _ _ _ _ Hl eq_refl (w, upload_request u) (w', upload_request u));
    [by constructor|done].
  Unshelve. by intros w1 w2 [? _].
Qed.

Lemma uploads_meanwhile w w' l : meanwhile w w' -> Forall (upload_inv w) l -> Forall (upload_inv w') l.
Proof. intros Hm Hall. eapply Forall_impl; [exact Hall|]. intros u. by apply upload_meanwhile. Qed.

Lemma served_config who w w' : served who w w' -> config_ok w -> config_ok w'.
Proof. intros [_ _ Hmax _ _] [Hb Hm]. split; [done|]. by rewrite Hmax. Qed.

Lemma pack_step_weaken ns blobs' bytes' p p' :
  pack_step (fun _ _ => False) ns blobs' bytes' p p' -> pack_step meanwhile ns blobs' bytes' p p'.
Proof. intros []; [done|..]; by econstructor. Qed.

Lemma stored_no_permits l : Forall (fun st => exists res, st = Stored res) l -> store_permits l = 0%N.
Proof. induction 1 as [|st l [res ->] Hl IH]; [done|exact IH]. Qed.

Lemma ended_no_permits w u :
  upload_inv w u ->
  (exists res, phase (upload_request u) = Answered res) \/
  (phase (upload_request u) = Cancelled /\
   Forall (fun st => exists res, st = Stored res) (stores (upload_request u))) ->
  permits (upload_request u) = 0%N.
Proof.
  intros (w0 & body0 & _ & Hinv) Hend. apply pack_phase in Hinv. unfold permits.
  destruct Hend as [[res Hp]|[Hp Hst]]; rewrite Hp in Hinv.
  - destruct Hinv as (-> & -> & _). done.
  - rewrite Hinv. by rewrite stored_no_permits.
Qed.

Lemma held_app l1 l2 : foldr (fun u n => permits (upload_request u) + n)%N 0%N (l1 ++ l2) =
  (foldr (fun u n => permits (upload_request u) + n)%N 0%N l1 +
   foldr (fun u n => permits (upload_request u) + n)%N 0%N l2)%N.
Proof. induction l1 as [|u l1 IH]; cbn; [done|]. rewrite IH. lia. Qed.

(** What every step keeps. *)
Record kept_by who s s' : Prop := {
  by_inv : service_inv s';
  by_grow : objects_grow (shared s) (shared s');
  by_view : view_step who (view (metadata (shared s))) (view (metadata (shared s')));
  by_served : who <> Operator -> served who (shared s) (shared s');
  by_permits : who <> Operator ->
    give (held_permits s') (spool (shared s')) = give (held_permits s) (spool (shared s));
}.

Lemma service_inv_served who w w' l :
  served who w w' -> (unswept -> who <> Sweeper) -> service_inv (mkService w l) -> service_inv (mkService w' l).
Proof.
  intros Hs Hsw [_ Hc Hu]. split; cbn in *; [by eapply srv_inv|by eapply served_config|].
  eapply uploads_meanwhile; [|exact Hu]. by eapply served_meanwhile.
Qed.

Lemma kept_by_served who w w' l :
  served who w w' /\ spool w' = spool w -> (unswept -> who <> Sweeper) ->
  service_inv (mkService w l) -> kept_by who (mkService w l) (mkService w' l).
Proof.
  intros [Hs Hsp] Hsw Hinv. split; [by eapply service_inv_served|by eapply srv_grow|by eapply srv_view|done|].
  intros _. cbn. unfold held_permits. cbn. by rewrite Hsp.
Qed.

Lemma kept_by_step w l1 ns blobs' bytes' q l2 w' q' :
  pack_step (fun _ _ => False) ns blobs' bytes' (w, q) (w', q') ->
  service_inv (mkService w (l1 ++ mkUploading ns blobs' bytes' q :: l2)) ->
  kept_by (Client (Some ns)) (mkService w (l1 ++ mkUploading ns blobs' bytes' q :: l2))
    (mkService w' (l1 ++ mkUploading ns blobs' bytes' q' :: l2)).
Proof.
  intros Hstep [Hi Hc Hu]. cbn in *. apply Forall_app in Hu as [Hl1 [Hq Hl2]%Forall_cons].
  destruct Hq as (w0 & body0 & Hlim & Hq).
  assert (served (Client (Some ns)) w w') as Hs by (eapply pack_step_served; [done|apply Hq|done]).
  assert (meanwhile w w') as Hm by (by eapply served_meanwhile).
  split; cbn.
  - split; [by eapply srv_inv|by eapply served_config|]. apply Forall_app.
    split; [by eapply uploads_meanwhile|]. apply Forall_cons. split; [|by eapply uploads_meanwhile].
    exists w0, body0. split; [done|].
    eapply (pack_inv_step meanwhile _ _ _ _ _ _ _ Hlim eq_refl (w, q) (w', q'));
      [by apply pack_step_weaken|done].
  - by eapply srv_grow.
  - by eapply srv_view.
  - done.
  - intros _. apply permits_step in Hstep; [|done]. cbn [fst snd] in Hstep.
    unfold held_permits. cbn [uploads]. rewrite !held_app. cbn [foldr upload_request].
    by rewrite !give_middle, Hstep.
  Unshelve. by intros w1 w2 [? _].
Qed.

Lemma kept_by_start m headers body w w' ns blobs' bytes' q l :
  put_blob_pack m headers body w = (w', Ok (ns, blobs', bytes', q)) ->
  service_inv (mkService w l) ->
  kept_by (Client (Some ns)) (mkService w l) (mkService w' (mkUploading ns blobs' bytes' q :: l)).
Proof.
  intros Hput [Hi Hc Hu]. cbn in *.
  apply put_blob_pack_ok in Hput as (_ & Hm & Hb & Hcon & Hmax & Hsp & _ & _ & Hle & Hle2 & ->).
  assert (served (Client (Some ns)) w w') as Hs by (by apply served_kept).
  split; cbn.
  - split; [by eapply srv_inv|by eapply served_config|]. apply Forall_cons. split.
    + exists w', body. cbn. split.
      * apply limits_start; [by eapply served_config|done|by rewrite Hmax].
      * rewrite <-Hmax. apply pack_inv_start. by eapply srv_inv.
    + eapply uploads_meanwhile; [|exact Hu]. by eapply served_meanwhile.
  - by eapply srv_grow.
  - by eapply srv_view.
  - done.
  - intros _. by rewrite Hsp.
Qed.

Lemma kept_by_restart a max_blob concurrency max_spool w l :
  (2 * max_blob < u64_modulus)%N -> service_inv (mkService w l) ->
  kept_by Operator (mkService w l) (mkService (restart a max_blob concurrency max_spool w) []).
Proof.
  intros Hmax [Hi [Hb _] _]. cbn in *.
  assert (same_stores w (restart a max_blob concurrency max_spool w)) as Hs by (by split).
  split; cbn.
  - split; [|by split|constructor]. eapply store_inv_same; [exact Hi|apply Hi|done].
  - by apply same_stores_grow.
  - by apply ViewSame.
  - done.
  - done.
Qed.

Lemma sweep_served days w :
  store_inv w -> served Sweeper w (sweep_once days w) /\ spool (sweep_once days w) = spool w.
Proof.
  intros Hinv. unfold sweep_once, on_metadata. destruct (sweep days (metadata w)) as [m r] eqn:E.
  apply sweep_law in E as [Hwf Hv]; [|apply Hinv]. cbn. split; [|done].
  assert (objects_grow w (set_metadata m w)) as Hg by (intros d; by left).
  split; [|done..|by apply ViewSwept]. apply (store_inv_step w); [done..|].
  intros ns d Hvis. left. by apply Hv.
Qed.

Lemma service_step_kept who s s' :
  service_step who s s' -> (unswept -> who <> Sweeper) -> service_inv s -> kept_by who s s'.
Proof.
  intros Hstep Hsw Hinv. pose proof (service_store _ Hinv) as Hst. destruct Hstep as
    [m headers body w w' ns blobs' bytes' q l Hput|m headers body w w' e l Hput
    |w l1 ns blobs' bytes' q l2 w' q' Hstep|w l1 ns blobs' bytes' q l2 Hend|w l|days w l
    |a max_blob concurrency max_spool w l Hmax]; cbn [shared] in Hst.
  - by eapply kept_by_start.
  - apply kept_by_served; [|done..]. apply put_blob_pack_read_only in Hput as (? & ? & ?); [|done].
    by apply served_same.
  - by apply kept_by_step.
  - destruct Hinv as [Hi Hc Hu]. cbn in *. apply Forall_app in Hu as [Hl1 [Hq Hl2]%Forall_cons].
    split; cbn; [split; [done|done|by apply Forall_app]|done|by apply ViewSame|by intros; apply served_kept|].
    intros _. apply ended_no_permits in Hq; [|done]. cbn in Hq. f_equal.
    unfold held_permits. cbn [uploads]. rewrite !held_app. cbn [foldr upload_request]. by rewrite Hq.
  - apply kept_by_served; [|done..]. apply flush_access_read_only in Hst as (? & ? & ?).
    by apply served_same.
  - apply kept_by_served; [by apply sweep_served|done..].
  - by apply kept_by_restart.
Qed.

End Invariant.

(** ** Runs of the service *)

Section Runs.
Context `{Protocol} `{HashLaws} `{Hex} `{!ProtocolLaws} `{!HexLaws} `{Records} `{!JsonText} `{!Documents}
  `{!Jwt} `{!AuthJson} `{!Tokio} `{!DebugFormat} `{!Constants} `{!ConstantsLaws} `{!ManifestText}.
Context {MS BS : Type} `{!MetadataStore MS} `{!BlobStore BS}.
Context `{!MetadataLaws MS} `{!BlobLaws BS} {retention : Retention}.
Notation AppState := (AppState (MS:=MS) (BS:=BS)).
Notation Service := (Service (MS:=MS) (BS:=BS)).
Implicit Types s : Service.

(** A process that has just started on stores in order. *)
Record started s : Prop := {
  started_store : store_inv (shared s);
  started_config : config_ok (shared s);
  started_idle : uploads s = [];
}.

Lemma started_inv unswept s : started s -> service_inv unswept s.
Proof. intros [Hi Hc Hu]. split; [done..|]. rewrite Hu. constructor. Qed.

Definition allowed (ok : Actor -> Prop) s s' : Prop := exists who, ok who /\ service_step who s s'.

(** Steps of one upload are steps of the service. *)
Lemma upload_steps (ok : Actor -> Prop) ns blobs' bytes' (w : AppState) q (w' : AppState) q' l1 l2 :
  ok (Client (Some ns)) -> rtc (pack_step (fun _ _ => False) ns blobs' bytes') (w, q) (w', q') ->
  rtc (allowed ok) (mkService w (l1 ++ mkUploading ns blobs' bytes' q :: l2))
    (mkService w' (l1 ++ mkUploading ns blobs' bytes' q' :: l2)).
Proof.
  intros Hok Hrun. remember (w, q) as p eqn:Hp. remember (w', q') as p' eqn:Hp'.
  revert w q Hp. induction Hrun as [p|p [w1 q1] p' Hstep _ IH]; intros w q ->; [by injection Hp' as -> ->|].
  eapply rtc_l; [|by eapply IH]. exists (Client (Some ns)). split; [done|]. by apply PackStep.
Qed.

(** What a pack upload's receipt stands for. *)
Definition pack_landed s (u : Upload) (c : BlobPackReceipt) : Prop :=
  exists entries,
    N.of_nat (length entries) = upload_blobs u /\ payload_total entries = upload_bytes u /\
    (created c + existing c)%N = upload_blobs u /\
    Forall (fun e => content_matches e.1 e.2 /\ (retains -> is_Some (objects (blobs (shared s)) e.1) /\
      view_blob (view (metadata (shared s))) (upload_namespace u) e.1 = true)) entries.

Lemma answered_landed s u c :
  service_inv True s -> u ∈ uploads s -> phase (upload_request u) = Answered (Ok c) -> pack_landed s u c.
Proof.
  intros Hinv Hu Hanswer. pose proof (service_uploads _ _ Hinv) as Hall. rewrite Forall_forall in Hall.
  destruct (Hall u Hu) as (w0 & body0 & _ & Hp).
  apply pack_phase in Hp. rewrite Hanswer in Hp. destruct Hp as (_ & _ & Hacc).
  destruct (Hacc c eq_refl) as [(chunks & entries & _ & _ & Hm & Hs & Hc & Hn & Hb)].
  exists entries. split_and!; [done..|congruence|].
  apply Forall_forall. intros e He. rewrite Forall_forall in Hm, Hs. split; [by apply Hm|].
  destruct (Hs e He) as (_ & Ho & Hv). intros Hk. split; [auto|]. apply Hv. intros w1 w2 d [_ Hq]. by apply Hq.
Qed.

End Runs.
