(* ===== verification/FutureSafety.v ===== *)
(** * What a future keeps, whatever happens between its calls

    [job_ok who Q t w]: from a state in order, each call of [t] leaves what
    a client's call may leave, in whatever state the others left it, and when
    [t] ends [Q] holds. The rules follow the combinators of the handlers. *)
From S2P Require Import Prelude Str Protocol Api Json Model Records Oidc Auth Spool Access.
From S2P Require Import Metrics App Future Pack Tree Actions Blobs BlobsProofs PackUpload PackUploadProofs.
From S2P Require Import PackDownload ReadOnly Results Service ServiceProofs HandlerFutures Interleaving.

Local Open Scope string_scope.
Local Open Scope mbx_scope.

Create HintDb job.

Section Safety.
Context `{Protocol} `{HashLaws} `{Hex} `{!ProtocolLaws} `{!HexLaws} `{Records} `{!JsonText} `{!Documents}
  `{!Jwt} `{!AuthJson} `{!Tokio} `{!DebugFormat} `{!Constants} `{!ConstantsLaws} `{!ManifestText}.
Context {MS BS : Type} `{!MetadataStore MS} `{!BlobStore BS}.
Context `{!MetadataLaws MS} `{!BlobLaws BS} {retention : Retention}.
Notation AppState := (AppState (MS:=MS) (BS:=BS)).
Notation Handler := (Handler (MS:=MS) (BS:=BS)).
Notation Job := (Future AppState Held).
Implicit Types w : AppState.

(** Whether the run is one without sweeps. *)
Variable unswept : Prop.

(** What a future meets between its calls. *)
Record around w w' : Prop := {
  around_shared : meanwhile unswept w w';
  around_results : unswept -> forall ns d r, view_result (view (metadata w)) ns d = Some r ->
    view_result (view (metadata w')) ns d = Some r;
}.

#[global] Instance around_preorder : PreOrder around.
Proof.
  split.
  - intros w. split; [|done]. split; [by apply shared_refl|done].
  - intros w1 w2 w3 [[S1 B1] R1] [[S2 B2] R2].
    split; [split; [by eapply shared_trans|intros Hk Hu ns d; auto]|intros Hu ns d; auto].
Qed.

Lemma around_inv w w' : around w w' -> store_inv w -> store_inv w'.
Proof. intros [[[Hi _ _] _] _]. exact Hi. Qed.

Lemma around_object w w' d content :
  around w w' -> retains -> digest_validate d = Ok tt -> objects (blobs w) d = Some content ->
  objects (blobs w') d = Some content.
Proof. intros [[[_ Hg _] _] _] Hk Hd Hc. by eapply grow_kept. Qed.

Lemma around_visible w w' ns d :
  around w w' -> retains -> unswept -> view_blob (view (metadata w)) ns d = true ->
  view_blob (view (metadata w')) ns d = true.
Proof. intros [[_ Hb] _] Hk Hu. by apply Hb. Qed.

Lemma served_around who w w' : served who w w' -> (unswept -> who <> Sweeper) -> around w w'.
Proof.
  intros Hs Hw. split; [by eapply served_meanwhile|]. intros Hu ns d r.
  apply srv_view, view_step_keeps in Hs as [_ Hr]; auto.
Qed.

(** Whose future it is. *)
Variable name : option string.
Notation who := (Client name).

Fixpoint future_ok {R} (Q : AppState -> R -> Prop) (t : Job R) w : Prop :=
  match t with
  | Done r => Q w r
  | Call _ c k => forall w1 w2 x, around w w1 -> store_inv w1 -> c w1 = (w2, x) ->
      served who w1 w2 /\ future_ok Q (k x) w2
  end.

Lemma future_ok_mono {R} (Q Q' : AppState -> R -> Prop) (t : Job R) w :
  (forall w' r, Q w' r -> Q' w' r) -> future_ok Q t w -> future_ok Q' t w.
Proof.
  intros HQ. revert w; induction t as [r|X held c k IH]; intros w; cbn; [apply HQ|].
  intros Hc w1 w2 x Hw Hinv Heq. destruct (Hc w1 w2 x Hw Hinv Heq) as [Hs Hk]. split; [done|by apply IH].
Qed.

Definition stable {R} (Q : AppState -> R -> Prop) : Prop :=
  forall w w' r, store_inv w -> around w w' -> Q w r -> Q w' r.

(** The others' steps do not end what a future keeps. *)
Lemma future_ok_around {R} (Q : AppState -> R -> Prop) (t : Job R) w w' :
  stable Q -> store_inv w -> around w w' -> future_ok Q t w -> future_ok Q t w'.
Proof.
  intros HQ Hinv Hw. destruct t as [r|X held c k]; cbn; [by apply HQ|].
  intros Hc w1 w2 x Hw1. apply Hc. by etransitivity.
Qed.

Lemma future_ok_bind {R R'} (Q : AppState -> R -> Prop) (Q' : AppState -> R' -> Prop) (t : Job R) k w :
  future_ok Q t w -> (forall w' r, Q w' r -> future_ok Q' (k r) w') -> future_ok Q' (bind_all t k) w.
Proof.
  intros Ht Hk. revert w Ht; induction t as [r|X held c k' IH]; intros w; cbn; [apply Hk|].
  intros Hc w1 w2 x Hw Hinv Heq. destruct (Hc w1 w2 x Hw Hinv Heq) as [Hs Hk']. split; [done|by apply IH].
Qed.

Definition job_ok {R} (Q : AppState -> R -> Prop) (t : Job R) w : Prop :=
  store_inv w -> future_ok (fun w' r => around w w' /\ store_inv w' /\ Q w' r) t w.

Lemma who_no_sweeper : unswept -> who <> Sweeper.
Proof. done. Qed.

Lemma job_done {R} (Q : AppState -> R -> Prop) r w : (store_inv w -> Q w r) -> job_ok Q (Done r) w.
Proof. intros HQ Hinv. split; [reflexivity|]. auto. Qed.

Lemma job_bind {R R'} (Q : AppState -> R -> Prop) (Q' : AppState -> R' -> Prop) (t : Job R) k w :
  job_ok Q t w -> (forall w' r, around w w' -> store_inv w' -> Q w' r -> job_ok Q' (k r) w') ->
  job_ok Q' (bind_all t k) w.
Proof.
  intros Ht Hk Hinv. eapply future_ok_bind; [by apply Ht|]. intros w' r (Hw & Hinv' & HQ).
  eapply future_ok_mono; [|by apply (Hk w' r)]. intros w2 r' (Hw2 & ? & ?).
  split_and!; [by etransitivity|done..].
Qed.

Lemma job_await {R} (Q : AppState -> R -> Prop) held (c : AppState -> AppState * R) w :
  (forall w1 w2 x, around w w1 -> store_inv w1 -> c w1 = (w2, x) -> served who w1 w2 /\ Q w2 x) ->
  job_ok Q (await held c) w.
Proof.
  intros Hc _ w1 w2 x Hw Hinv Heq. destruct (Hc w1 w2 x Hw Hinv Heq) as [Hs HQ]. split; [done|]. cbn.
  split; [etransitivity; [exact Hw|by eapply served_around]|]. split; [apply Hs|done].
Qed.

Lemma job_mono {R} (Q Q' : AppState -> R -> Prop) (t : Job R) w :
  (forall w' r, Q w' r -> Q' w' r) -> job_ok Q t w -> job_ok Q' t w.
Proof.
  intros HQ Ht Hinv. eapply future_ok_mono; [|by apply Ht]. intros w' r (? & ? & ?). auto.
Qed.

(** What touches neither store. *)
Lemma served_aside w w' : store_inv w ->
  metadata w' = metadata w -> blobs w' = blobs w -> max_blob_bytes w' = max_blob_bytes w ->
  pack_store_concurrency w' = pack_store_concurrency w -> served who w w'.
Proof. apply served_kept. Qed.

Lemma served_drop held w : store_inv w -> served who w (drop_held held w).
Proof.
  intros Hinv. unfold drop_held. destruct held as [p [[ended g]|]]; by apply served_aside.
Qed.

Lemma job_holding {R} (Q : AppState -> R -> Prop) held p (t : Job R) w :
  stable Q -> job_ok Q t w -> job_ok Q (holding held (release_spool p) t) w.
Proof.
  intros HQ Ht Hinv. specialize (Ht Hinv).
  set (P := fun w' r => around w w' /\ store_inv w' /\ Q w' r) in *.
  assert (forall w1 w2 r, P w1 r -> around w1 w2 -> P w2 r) as HP.
  { intros w1 w2 r (Ha & Hi & Hq) Hw. split_and!; [by etransitivity|by eapply around_inv|by eapply HQ]. }
  clearbody P. clear HQ Hinv. revert w Ht; induction t as [r|X h c k IH]; intros w; cbn.
  - intros Hr w1 w2 [] Hw Hinv [= <-].
    assert (served who w1 (release_spool p w1)) as Hs by (by apply served_aside).
    split; [done|]. eapply HP; [|by eapply served_around]. by eapply HP.
  - intros Hc w1 w2 x Hw Hinv Heq. destruct (Hc w1 w2 x Hw Hinv Heq) as [Hs Hk]. split; [done|by apply IH].
Qed.

(** ** Handlers: what holds if they succeed *)

Definition handler_ok {A} (P : AppState -> A -> Prop) (t : Job (result ApiError A)) w : Prop :=
  job_ok (fun w' r => match r with Ok a => P w' a | Err _ => True end) t w.

Lemma handler_bind {A B} (P : AppState -> A -> Prop) (P' : AppState -> B -> Prop) t k w :
  handler_ok P t w -> (forall w' a, around w w' -> store_inv w' -> P w' a -> handler_ok P' (k a) w') ->
  handler_ok P' (future_bind t k) w.
Proof.
  intros Ht Hk. eapply job_bind; [exact Ht|]. intros w' [a|e] Hw Hinv HP; [by apply Hk|by apply job_done].
Qed.

(** The state a handler starts from is in order. *)
Lemma handler_start {A} (P : AppState -> A -> Prop) t w : (store_inv w -> handler_ok P t w) -> handler_ok P t w.
Proof. intros Ht Hinv. by apply Ht. Qed.

Lemma handler_ret {A} (P : AppState -> A -> Prop) a w : (store_inv w -> P w a) -> handler_ok P (future_ret a) w.
Proof. apply job_done. Qed.

Lemma handler_throw {A} (P : AppState -> A -> Prop) e w : handler_ok P (future_throw e) w.
Proof. by apply job_done. Qed.

Lemma handler_lift {A} (P : AppState -> A -> Prop) r w :
  (forall a, r = Ok a -> P w a) -> handler_ok P (future_lift r) w.
Proof. intros HP. apply job_done. destruct r; [by intros; apply HP|done]. Qed.

Lemma handler_if {A} (P : AppState -> A -> Prop) (b : bool) t1 t2 w :
  (b = true -> handler_ok P t1 w) -> (b = false -> handler_ok P t2 w) -> handler_ok P (if b then t1 else t2) w.
Proof. destruct b; auto. Qed.

(** What held at the start still counts at the end. *)
Lemma handler_since {A} (P P' : AppState -> A -> Prop) t w :
  handler_ok P t w -> (forall w' a, around w w' -> store_inv w' -> P w' a -> P' w' a) -> handler_ok P' t w.
Proof.
  intros Ht HP Hinv. eapply future_ok_mono; [|by apply Ht]. intros w' [a|e] (? & ? & ?); split_and!; auto.
Qed.

Lemma handler_call {A} (P : AppState -> A -> Prop) (c : Handler A) w :
  (forall w1 w2 r, around w w1 -> store_inv w1 -> c w1 = (w2, r) ->
     served who w1 w2 /\ forall a, r = Ok a -> P w2 a) -> handler_ok P (call c) w.
Proof.
  intros Hc. apply job_await. intros w1 w2 r Hw Hinv Heq. destruct (Hc w1 w2 r Hw Hinv Heq) as [Hs HP].
  split; [done|]. destruct r; auto.
Qed.

(** A call that only reads. *)
Lemma handler_read {A} (P : AppState -> A -> Prop) (c : Handler A) w :
  read_only c ->
  (forall w1 w2 a, around w w1 -> store_inv w1 -> store_inv w2 -> same_stores w1 w2 ->
     c w1 = (w2, Ok a) -> P w2 a) -> handler_ok P (call c) w.
Proof.
  intros Hc HP. apply handler_call. intros w1 w2 r Hw Hinv Heq.
  pose proof Heq as (Hinv2 & Hs & Hcfg)%Hc; [|done].
  split; [by apply served_same|]. intros a ->. by eapply HP.
Qed.

Lemma handler_true {A} (c : Handler A) w : read_only c -> handler_ok (fun _ _ => True) (call c) w.
Proof. intros Hc. by apply handler_read. Qed.

(** Whoever is authorized named the namespace. *)
Lemma handler_authorized m headers access w :
  name = headers !! "mbx-cache-namespace" ->
  handler_ok (fun _ ns => name = Some ns) (call (authorized m headers access)) w.
Proof.
  intros Hname. apply handler_read; [apply read_only_authorized|].
  intros w1 w2 ns _ _ _ _ [= Heq]%authorized_client. congruence.
Qed.

(** A row whose object is gone is forgotten; where objects are retained there is
    none. *)
Lemma handler_forget ns d w :
  name = Some ns -> digest_u64 d -> (retains -> False) ->
  handler_ok (fun _ _ => True) (call (forget_missing_blob ns d)) w.
Proof.
  intros Hname Hu Hno. apply handler_call. intros w1 w2 r _ Hinv (Hwf & Hb & [= Hmax Hcon Hsp] & _ & Hv & _)%forget_missing_ok;
    [|apply Hinv|done].
  split; [|done]. split; [|intros d'; rewrite Hb; by left|done..|].
  - apply (store_inv_step w1); [done..|intros d'; rewrite Hb; by left|]. intros ns' d' Hvis. left.
    destruct Hv as [(Hvb & _)|(Hvb & _)]; rewrite Hvb in Hvis; [done|].
    cbn in Hvis. unfold upd in Hvis. by case_decide.
  - destruct Hv as [|Hv]; [by apply ViewSame|]. eapply ViewForgotten; [by rewrite Hname|done|exact Hv].
Qed.

(** What is visible is read, as it is stored then where reads are whole; where
    objects are retained it is there, and reading it never forgets it. *)
Lemma handler_object {A} (P : AppState -> A -> Prop) ns d e e' (note : Job (result ApiError unit)) k w :
  name = Some ns ->
  (forall w', handler_ok (fun _ _ => True) note w') ->
  (forall w' blob content, around w w' -> store_inv w' -> digest_validate d = Ok tt ->
     objects (blobs w') d = Some content -> (BlobReads BS -> streams (blob_stream blob) content) ->
     (retains -> unswept -> view_blob (view (metadata w')) ns d = true) -> handler_ok P (k blob) w') ->
  handler_ok P
    (visible <~~ call (on_metadata (blob_visible ns d));
     if negb visible then future_throw e
     else
       note ;~~
       found <~~ call (on_blobs (blob_get d));
       match found with
       | None => call (forget_missing_blob ns d) ;~~ future_throw e'
       | Some blob => k blob
       end) w.
Proof.
  intros Hname Hnote Hk.
  eapply (handler_bind (fun w' (b : bool) => b = true -> view_blob (view (metadata w')) ns d = true)).
  { apply handler_read; [auto with read_only|]. intros w1 w2 b _ Hinv1 _ [[Hb _] _] Hv ->.
    apply visible_ok in Hv as (_ & _ & Hv); [|apply Hinv1]. rewrite Hb. by rewrite <-(Hv true). }
  intros w1 [] Hw1 Hinv1 Hvis; [|apply handler_throw]. specialize (Hvis eq_refl).
  pose proof (inv_valid _ Hinv1 _ _ Hvis) as Hd. pose proof (inv_u64 _ Hinv1 _ _ Hvis) as Hu64.
  eapply handler_bind; [apply Hnote|]. intros w2 [] Hw2 Hinv2 _.
  eapply (handler_bind (fun w' found => match found with
    | Some blob => exists content, objects (blobs w') d = Some content /\
        (BlobReads BS -> streams (blob_stream blob) content)
    | None => retains -> False
    end)).
  { apply handler_call. intros w3 w4 r Hw3 Hinv3 Hg.
    assert (config w4 = config w3) as Hcfg.
    { apply on_blobs_inv in Hg as (b & q & _ & -> & _). done. }
    apply get_seen in Hg as (Hm4 & S4 & Hf). split.
    - apply served_same; [|done|done]. eapply store_inv_same; [exact Hinv3|rewrite Hm4; apply Hinv3|done].
    - intros [blob|] ->.
      + destruct Hf as (content & Hc & Hs). exists content. destruct S4 as [_ O4]. rewrite O4.
        split; [done|]. intros Hreads. by apply Hs.
      + intros Hret. destruct (inv_stored _ Hinv1 Hret _ _ Hvis) as [content Hcontent].
        rewrite (around_object w1 w3 d content) in Hf; [done|by etransitivity|done..]. }
  intros w3 [blob|] Hw3 Hinv3; [intros (content & Ho & Hstream)|intros Hno].
  - eapply Hk; try done; [by do 2 (etransitivity; [eassumption|])|].
    intros Hret Hu. eapply around_visible; [|done..|exact Hvis]. by etransitivity.
  - eapply handler_bind; [by apply handler_forget|]. intros. apply handler_throw.
Qed.

Lemma handler_visible_object {A} (P : AppState -> A -> Prop) ns d e e' k w :
  name = Some ns ->
  (forall w' blob content, around w w' -> store_inv w' -> digest_validate d = Ok tt ->
     objects (blobs w') d = Some content -> (BlobReads BS -> streams (blob_stream blob) content) ->
     (retains -> unswept -> view_blob (view (metadata w')) ns d = true) -> handler_ok P (k blob) w') ->
  handler_ok P
    (visible <~~ call (on_metadata (blob_visible ns d));
     if negb visible then future_throw e
     else
       found <~~ call (on_blobs (blob_get d));
       match found with
       | None => call (forget_missing_blob ns d) ;~~ future_throw e'
       | Some blob => k blob
       end) w.
Proof.
  intros Hname Hk. apply (handler_object P ns d e e' (future_ret tt)); [done..|intros; by apply handler_ret|].
  intros w' blob content Hw Hinv Hd Ho. by apply Hk.
Qed.

Lemma handler_gather (stream : list (result StoreError bytes)) content w :
  (BlobReads BS -> streams stream content) ->
  handler_ok (fun _ bs => BlobReads BS -> bs = content) (call (gather stream)) w.
Proof.
  intros Hs. apply handler_read; [apply read_only_gather|]. intros w1 w2 bs _ _ _ _ Hg Hreads.
  by apply (gather_ok _ content) in Hg as [_ ->]; [|apply Hs].
Qed.

(** The visible ones among several. *)
Lemma handler_visible_among ns ds w :
  handler_ok (fun w' vs => vs = List.filter (view_blob (view (metadata w')) ns) ds)
    (call (on_metadata (visible_blobs ns ds))) w.
Proof.
  apply handler_read; [auto with read_only|]. intros w1 w2 vs _ Hinv1 _ [[Hb _] _] Hv.
  apply on_metadata_inv in Hv as (m & q & Hq & -> & Hqr).
  apply visible_blobs_law in Hq as (_ & _ & Hq); [|apply Hinv1].
  destruct q as [l|]; [|done]. injection Hqr as ->. rewrite (Hq l eq_refl).
  apply filter_ext. intros d. by rewrite Hb.
Qed.
End Safety.
