(* ===== verification/ValidatorSafety.v ===== *)
(** * The validators, with others acting between their calls

    What the checks of an action result find stays so: as long as no sweep
    runs and nothing expires, what was visible stays visible and what is stored
    never changes. What they read is what is stored where reads are whole. *)
From stdpp Require Import pretty.
From S2P Require Import Prelude Str Protocol Api Json Model Records Oidc Auth Spool Access.
From S2P Require Import Metrics App Future Pack Tree Actions ActionsProofs Blobs BlobsProofs PackUpload PackUploadProofs.
From S2P Require Import PackDownload ReadOnly Results ResultsProofs Service ServiceProofs HandlerFutures Interleaving.
From S2P Require Import FutureSafety.

Local Open Scope string_scope.
Local Open Scope mbx_scope.

Section Validators.
Context `{Protocol} `{HashLaws} `{Hex} `{!ProtocolLaws} `{!HexLaws} `{Records} `{!JsonText} `{!Documents}
  `{!Jwt} `{!AuthJson} `{!Tokio} `{!DebugFormat} `{!Constants} `{!ConstantsLaws} `{!ManifestText}.
Context {MS BS : Type} `{!MetadataStore MS} `{!BlobStore BS}.
Context `{!MetadataLaws MS} `{!BlobLaws BS} {retention : Retention}.
Notation AppState := (AppState (MS:=MS) (BS:=BS)).
Implicit Types w : AppState.
Variables (unswept : Prop) (name : option string).
Notation around := (around unswept).
Notation handler_ok := (handler_ok unswept name).

(** ** What the others leave *)

Lemma canonical_object_around w w' ns d value :
  around w w' -> retains -> unswept -> canonical_object w ns d value -> canonical_object w' ns d value.
Proof.
  intros Hw Hk Hu [C1 C2 C3 (content & Ho & Hc) C5]. split; [done..|by eapply around_visible| |done].
  exists content. split; [by eapply around_object|done].
Qed.

Lemma valid_metadata_around w w' ns value kind :
  around w w' -> retains -> unswept -> valid_metadata w ns value kind -> valid_metadata w' ns value kind.
Proof. intros Hw Hk Hu Hv. destruct Hv; econstructor; eauto; by eapply around_visible. Qed.

Lemma directory_at_around w w' ns d dir :
  store_inv w -> around w w' -> retains -> unswept -> directory_at w ns d dir -> directory_at w' ns d dir.
Proof.
  intros Hinv Hw Hk Hu [D1 D2 (content & Ho & Hc) D4 D5 D6]. split; [done|by eapply around_visible| |done..|].
  - exists content. split; [|done]. eapply around_object; [done..|by eapply inv_valid|done].
  - eapply Forall_impl; [exact D6|]. intros f [Hv Hf]. split; [done|by eapply around_visible].
Qed.

(** ** Blobs and objects *)

Lemma require_blob_job ns d label w :
  handler_ok (fun w' _ => retains -> unswept -> view_blob (view (metadata w')) ns d = true)
    (require_blob_future ns d label) w.
Proof.
  unfold require_blob_future. eapply handler_bind; [by apply (handler_lift _ _ (fun _ _ => True))|].
  intros w1 _ _ _ _.
  eapply (handler_bind _ _ (fun w' b => (b : bool) = true -> view_blob (view (metadata w')) ns d = true)).
  { apply handler_read; [auto with read_only|]. intros w2 w3 b _ Hinv2 _ [[Hb _] _] Hv ->.
    apply visible_ok in Hv as (_ & _ & Hv); [|apply Hinv2]. rewrite Hb. by rewrite <-(Hv true). }
  intros w2 [] _ _ Hv; [|apply handler_throw]. apply handler_ret. auto.
Qed.

Lemma canonical_object_job ns d label w :
  name = Some ns ->
  handler_ok (fun w' value => BlobReads BS -> retains -> unswept -> canonical_object w' ns d value)
    (read_canonical_object_future ns d label) w.
Proof.
  intros Hname. unfold read_canonical_object_future.
  eapply handler_bind; [by apply (handler_lift _ _ (fun _ _ => True))|]. intros w1 _ _ _ _.
  destruct (N.ltb_spec MAX_OBJECT_BYTES (digest_size d)); [apply handler_throw|].
  apply handler_visible_object; [done|]. intros w2 blob content _ _ Hd Ho Hs Hv.
  eapply handler_bind; [by apply handler_gather|]. intros w3 bs Hw3 _ Hbs.
  eapply (handler_bind _ _ (fun _ value => value_from_slice bs = Ok value)).
  { apply handler_lift. intros value. by destruct (value_from_slice bs) as [v|]; [intros [= ->]|]. }
  intros w4 value Hw4 _ Hval.
  destruct (is_object value) eqn:Hio; [|apply handler_throw]. cbn [negb].
  eapply (handler_bind _ _ (fun _ canonical => value_to_vec value = Ok canonical)).
  { apply handler_lift. intros c. by destruct (value_to_vec value) as [v|]; [intros [= ->]|]. }
  intros w5 canonical Hw5 _ Hcan.
  destruct (bool_decide_reflect (canonical = bs)) as [->|]; [|apply handler_throw].
  apply handler_ret. intros _ Hr Hk Hu. pose proof (Hbs Hr) as ->. assert (around w2 w5) as Hw by (by do 2 (etransitivity; [eassumption|])).
  split; [done..|by eapply around_visible, Hv| |done].
  exists content. split; [by eapply around_object|done].
Qed.

Lemma descriptor_job ns d w :
  name = Some ns ->
  handler_ok (fun w' kind => BlobReads BS -> retains -> unswept -> exists value, canonical_object w' ns d value /\ valid_descriptor value kind)
    (validate_action_descriptor_future ns d) w.
Proof.
  intros Hname. unfold validate_action_descriptor_future. eapply handler_bind; [by apply canonical_object_job|].
  intros w1 value _ _ Hobj. apply handler_lift. intros kind [_ Hv]%dispatch_ok Hr Hk Hu. eauto.
Qed.

(** ** Client metadata *)

Lemma output_metadata_job {A} (decoded : result string A) (valid : A -> bool) (out err : A -> Digest)
    (f : string -> ApiError) ev e ns kind (version : N) w :
  handler_ok (fun w' _ => version = 1%N /\ exists md, decoded = Ok md /\ valid md = true /\
      (retains -> unswept -> view_blob (view (metadata w')) ns (out md) = true /\
                  view_blob (view (metadata w')) ns (err md) = true))
    (if negb (version =? 1)%N then future_throw ev
     else
       md <~~ future_lift (map_err f decoded);
       if negb (valid md) then future_throw e
       else require_output_blobs_future ns (out md) (err md) kind) w.
Proof.
  destruct (N.eqb_spec version 1) as [->|]; [|apply handler_throw]. cbn [negb].
  eapply (handler_bind _ _ (fun _ md => decoded = Ok md)).
  { apply handler_lift. intros md. by destruct decoded as [v|]; [intros [= ->]|]. }
  intros w1 md _ _ ->. destruct (valid md) eqn:E; [|apply handler_throw]. cbn [negb].
  unfold require_output_blobs_future. eapply handler_bind; [apply require_blob_job|]. intros w2 [] _ _ Ho.
  eapply handler_since; [apply require_blob_job|]. intros w3 [] Hw3 _ He.
  split; [done|]. exists md. split_and!; [done..|]. intros Hk Hu. split; [by eapply around_visible; auto|auto].
Qed.

Lemma client_metadata_job ns d kind w :
  name = Some ns ->
  handler_ok (fun w' _ => BlobReads BS -> retains -> unswept -> exists value, canonical_object w' ns d value /\
      json_kind value = Some (expected_kind kind) /\ json_version value = Some 1%N /\
      valid_metadata w' ns value kind)
    (validate_client_metadata_future ns d kind) w.
Proof.
  intros Hname. unfold validate_client_metadata_future. eapply handler_bind; [by apply canonical_object_job|].
  intros w1 value _ _ Hobj.
  eapply (handler_bind _ _ (fun _ object => as_object value = Some object)).
  { apply handler_lift. by intros object Ho%ok_or_ok. }
  intros w2 object Hw2 _ Ho.
  eapply (handler_bind _ _ (fun _ kind => entries_get "kind" object ≫= as_str = Some kind)).
  { apply handler_lift. by intros x Hx%ok_or_ok. }
  intros w3 nm Hw3 _ Hkind.
  eapply (handler_bind _ _ (fun _ version => entries_get "version" object ≫= as_u64 = Some version)).
  { apply handler_lift. by intros x Hx%ok_or_ok. }
  intros w4 version Hw4 _ Hversion.
  destruct (String.eqb_spec nm (expected_kind kind)) as [->|]; [|apply handler_throw]. cbn [negb].
  assert (handler_ok (fun w' _ => version = 1%N /\ (retains -> unswept -> valid_metadata w' ns value kind))
    match kind with
    | Task => future_lift (validate_task_metadata value version)
    | BuildScript => validate_build_script_metadata_future ns value version
    | Cc => validate_cc_metadata_future ns value version
    | Rustc => validate_rustc_metadata_future ns value version
    end w4) as Hmd.
  { destruct kind; cbn [expected_kind].
    4: { apply handler_lift. intros [] Hv. apply validate_task_metadata_ok in Hv as (-> & md & ? & ? & ?).
         split; [done|]. intros _ _. by econstructor. }
    all: eapply handler_since; [apply output_metadata_job|]; intros w5 [] _ _ (-> & md & Hd & Hv & Hvis);
      split; [done|]; intros Hk Hu; destruct (Hvis Hk Hu); by econstructor. }
  eapply handler_since; [exact Hmd|]. intros w5 [] Hw5 _ [-> Hv] Hr Hk Hu. exists value.
  assert (around w1 w5) as Hw by (by do 3 (etransitivity; [eassumption|])).
  split; [eapply canonical_object_around; [exact Hw|done..|auto]|].
  destruct value; try done. cbn in Ho. injection Ho as ->. split_and!; [done..|auto].
Qed.

(** ** Output trees *)

Lemma directory_job ns d w :
  name = Some ns ->
  handler_ok (fun w' dir => BlobReads BS -> retains -> unswept -> directory_at w' ns d dir) (read_directory_future ns d) w.
Proof.
  intros Hname. unfold read_directory_future. destruct (N.ltb_spec MAX_DIRECTORY_BYTES (digest_size d)); [apply handler_throw|].
  apply handler_visible_object; [done|]. intros w1 blob content _ _ Hd Ho Hs Hv.
  eapply handler_bind; [by apply handler_gather|]. intros w2 bs Hw2 _ Hbs.
  eapply (handler_bind _ _ (fun _ dir => directory_from_slice bs = Ok dir)).
  { apply handler_lift. intros dir. by destruct (directory_from_slice bs) as [v|]; [intros [= ->]|]. }
  intros w3 dir Hw3 _ Hdir.
  eapply (handler_bind _ _ (fun _ canonical => directory_to_vec dir = Ok canonical)).
  { apply handler_lift. intros c. by destruct (directory_to_vec dir) as [v|]; [intros [= ->]|]. }
  intros w4 canonical Hw4 _ Hcan.
  destruct (bool_decide_reflect (canonical = bs)) as [->|]; [|apply handler_throw]. cbn [negb].
  destruct (N.eqb_spec (directory_version dir) 1) as [Hver|]; [|apply handler_throw]. cbn [negb].
  eapply (handler_bind _ _ (fun _ _ => validate_directory_entries dir = Ok tt)); [by apply handler_lift; intros []|].
  intros w5 _ Hw5 _ Hent.
  eapply (handler_bind _ _ (fun _ file_set => validate_file_digests (files dir) ∅ = Ok file_set));
    [by apply handler_lift|]. intros w6 file_set Hw6 _ Hset.
  eapply handler_bind; [apply handler_visible_among|]. cbv beta. intros w7 vis Hw7 _ ->.
  destruct (Nat.eqb_spec (length (List.filter (view_blob (view (metadata w7)) ns) (elements file_set)))
    (length (elements file_set))) as [Hlen|]; [|apply handler_throw]. cbn [negb].
  apply handler_ret. intros _ Hr Hk Hu. pose proof (Hbs Hr) as ->.
  assert (around w1 w7) as Hw by (by do 5 (etransitivity; [eassumption|])).
  split; [done|by eapply around_visible; auto| |done..|].
  { exists content. split; [by eapply around_object|done]. }
  apply validate_file_digests_ok in Hset as [Hfiles _].
  apply filter_length_all in Hlen. rewrite List.Forall_forall in Hlen.
  eapply Forall_impl; [exact Hfiles|]. intros f [Hval Hin]. split; [done|].
  apply Hlen. by rewrite <-list_elem_of_In, elem_of_elements.
Qed.

Lemma walk_job fuel ns root pending visiting seen order w :
  name = Some ns ->
  (BlobReads BS -> retains -> unswept -> walk_inv w ns root pending seen order) ->
  handler_ok (fun w' _ => BlobReads BS -> retains -> unswept -> exists seen' order', walk_inv w' ns root [] seen' order')
    (walk_future fuel ns pending visiting seen) w.
Proof.
  intros Hname. revert pending visiting seen order w; induction fuel as [|fuel IHf]; intros pending;
    induction pending as [|[d|d] pending IHp]; intros visiting seen order w Hinv; cbn [walk_future].
  1, 4: apply handler_ret; eauto.
  2, 4: eapply IHp; intros Hr Hk Hu; by eapply walk_inv_exit; auto.
  all: destruct (decide (d ∈ seen)) as [Hseen|Hseen]; [eapply IHp; intros Hr Hk Hu; apply (walk_inv_skip _ _ _ _ _ _ _ Hseen); auto|].
  all: destruct (decide (d ∈ visiting)) as [|Hvis]; [apply handler_throw|].
  all: destruct (_ <? _)%nat; [apply handler_throw|].
  all: apply handler_start; intros Hi; eapply handler_bind; [by apply directory_job|]; intros w1 dir Hw1 Hi1 Hdir.
  { apply handler_throw. }
  eapply IHf. intros Hr Hk Hu. eapply walk_inv_push; [auto|]. eapply walk_inv_stays; [|by apply Hinv].
  intros d' dir'. by apply directory_at_around.
Qed.

Lemma tree_job ns root w :
  name = Some ns ->
  handler_ok (fun w' _ => BlobReads BS -> retains -> unswept -> complete_tree w' ns root) (validate_tree_future ns root) w.
Proof.
  intros Hname. unfold validate_tree_future. eapply handler_since.
  { apply walk_job with (root := root) (order := []); [done|]. intros _ _ _. apply walk_inv_start. }
  intros w1 [] _ _ Hinv Hr Hk Hu. destruct (Hinv Hr Hk Hu) as (seen & order & Hw). by eapply walk_inv_complete.
Qed.

Lemma complete_tree_around w w' ns root :
  store_inv w -> around w w' -> retains -> unswept -> complete_tree w ns root -> complete_tree w' ns root.
Proof.
  intros Hinv Hw Hk Hu (tree & Hroot & Hdir & Hch & Hacc). exists tree.
  assert (forall d c, d ∈ tree -> child w' ns c d -> child w ns c d) as Hback.
  { intros d c Hd (dir' & Hd' & Hc). destruct (Hdir d Hd) as [dir Hdir']. exists dir. split; [done|].
    apply directory_at_around with (w' := w') in Hdir' as Hnow; [|done..].
    by rewrite <-(directory_at_unique _ _ _ _ _ Hd' Hnow). }
  split; [done|]. split_and!.
  - intros d Hd. destruct (Hdir d Hd) as [dir ?]. exists dir. by apply (directory_at_around w).
  - intros d c Hd Hc. eapply Hch; [exact Hd|]. by apply Hback.
  - intros d Hd. induction (Hacc d Hd) as [d _ IH]. constructor. intros c Hc.
    assert (child w ns c d) as Hc' by (by apply Hback). eauto.
Qed.
End Validators.
