(* ===== verification/HandlerSafety.v ===== *)
(** * What a request is promised, with others acting between its calls

    [promised] is what a client may conclude from an answer, whoever acted
    meanwhile; the future of every request keeps the stores in order and ends
    with an answer that is kept. *)
From stdpp Require Import pretty.
From S2P Require Import Prelude Str Protocol Api Json Model Records Oidc Auth Spool Access.
From S2P Require Import Metrics App Future Pack Tree Actions ActionsProofs Blobs BlobsProofs PackUpload PackUploadProofs.
From S2P Require Import PackDownload PackDownloadProofs ReadOnly Results ResultsProofs Service ServiceProofs.
From S2P Require Import HandlerFutures Interleaving FutureSafety ValidatorSafety.

Local Open Scope string_scope.
Local Open Scope mbx_scope.

Section Handlers.
Context `{Protocol} `{HashLaws} `{Hex} `{!ProtocolLaws} `{!HexLaws} `{Records} `{!JsonText} `{!Documents}
  `{!Jwt} `{!AuthJson} `{!Tokio} `{!DebugFormat} `{!Constants} `{!ConstantsLaws} `{!ManifestText}.
Context {MS BS : Type} `{!MetadataStore MS} `{!BlobStore BS}.
Context `{!MetadataLaws MS} `{!BlobLaws BS} {retention : Retention}.
Notation AppState := (AppState (MS:=MS) (BS:=BS)).
Implicit Types w : AppState.
Variables (unswept : Prop) (name : option string).
Notation around := (around unswept).
Notation handler_ok := (handler_ok unswept name).
Notation job_ok := (job_ok unswept name).

(** A blob that is stored, where objects are retained, and, if nothing takes it
    away, visible. *)
Definition landed w (ns : string) (d : Digest) : Prop :=
  digest_validate d = Ok tt /\ (retains -> is_Some (objects (blobs w) d)) /\
  (retains -> unswept -> view_blob (view (metadata w)) ns d = true).

Lemma landed_around w w' ns d : around w w' -> landed w ns d -> landed w' ns d.
Proof.
  intros Hw (Hd & Hc & Hv). split; [done|]. split.
  - intros Hk. destruct (Hc Hk) as [c Ho]. exists c. by eapply around_object.
  - intros Hk Hu. eapply around_visible; eauto.
Qed.

(** ** Blobs *)

Lemma get_blob_job m headers parts w :
  name = headers !! "mbx-cache-namespace" ->
  handler_ok (fun w' resp => BlobReads BS -> exists ns d content, name = Some ns /\ parse_digest parts = Ok d /\
      landed w' ns d /\ content_matches d content /\ streams (response_body resp) content)
    (get_blob_future m headers parts) w.
Proof.
  intros Hname. unfold get_blob_future. eapply handler_bind; [by apply handler_authorized|].
  intros w1 ns _ _ Hns. eapply (handler_bind _ _ (fun _ d => parse_digest parts = Ok d)); [by apply handler_lift|].
  intros w2 d _ _ Hd. apply handler_object; [done|intros w'; apply handler_true; auto with read_only|].
  intros w3 blob content _ Hinv3 Hval Ho Hs Hv.
  eapply handler_bind; [apply handler_true; auto with read_only|]. intros w4 _ Hw4 _ _.
  apply handler_ret. intros _ Hr. exists ns, d, content. split_and!; [done..| |by eapply inv_content|by apply Hs].
  eapply landed_around; [exact Hw4|]. split; [done|]. split; [by eexists|done].
Qed.

(** What a put of verified content leaves. *)
Lemma put_served d content w w' r :
  store_inv w -> digest_validate d = Ok tt -> content_matches d content ->
  on_blobs (blob_put d content) w = (w', r) ->
  served (Client name) w w' /\ forall out, r = Ok out -> is_Some (objects (blobs w') d).
Proof.
  intros Hinv Hval Hmatch Hp.
  apply put_ok in Hp as (Hm & [= Hmax Hcon Hsp] & Ho & Hr); [|done|by eapply matches_empty].
  assert (objects_grow w w') as Hg.
  { intros d' Hd'. destruct (decide (d' = d)) as [->|]; [|left; by apply Ho].
    destruct r as [[]|e]; [right; left|by left; apply Hr|destruct Hr as [|Hr]; [by left|right; left]];
      destruct Hr as [? ?]; eauto. }
  split.
  - split; [|done..|by rewrite Hm; apply ViewSame]. apply (store_inv_step w); [done|by rewrite Hm; apply Hinv|done|].
    intros ns d'. rewrite Hm. by left.
  - intros out ->. destruct out, Hr as [Hr1 Hr2]; rewrite Hr2; [by eexists|done].
Qed.

Lemma register_served ns d stored w w' r :
  name = Some ns -> store_inv w -> digest_u64 d -> digest_validate d = Ok tt -> (retains -> is_Some (objects (blobs w) d)) ->
  on_metadata (register_blob ns d stored) w = (w', r) ->
  served (Client name) w w' /\ forall u, r = Ok u -> landed w' ns d.
Proof.
  intros Hname Hinv Hu64 Hval Hsome Hr.
  apply register_ok in Hr as (Hwf & Hb & [= Hmax Hcon Hsp] & Hv); [|apply Hinv|done].
  assert (view_step (Client name) (view (metadata w)) (view (metadata w'))) as Hview.
  { destruct r as [u|e]; [|destruct Hv]; [eapply ViewBlob|apply ViewSame|eapply ViewBlob];
      try done; by rewrite Hname. }
  assert (objects_grow w w') as Hg by (intros d'; rewrite Hb; by left).
  split.
  - split; [|done..]. apply (store_inv_step w); [done..|]. intros ns' d' Hvis.
    destruct r as [u|e]; [|destruct Hv as [(Hvb & _)|Hv]; [left; by rewrite Hvb in Hvis|]];
      destruct Hv as (Hvb & _); rewrite Hvb in Hvis; cbn in Hvis; unfold upd in Hvis;
      (case_decide as Heq; [injection Heq as -> ->; right; by rewrite Hb|by left]).
  - intros u ->. split; [done|]. split; [by rewrite Hb|]. intros _ _. destruct Hv as (Hvb & _). rewrite Hvb.
    cbn. unfold upd. by rewrite decide_True.
Qed.

Lemma store_upload_job ns d content w :
  name = Some ns -> digest_u64 d -> digest_validate d = Ok tt -> content_matches d content ->
  handler_ok (fun w' _ => landed w' ns d) (store_upload_future ns d content) w.
Proof.
  intros Hname Hu Hval Hmatch. unfold store_upload_future.
  eapply (handler_bind _ _ (fun w' _ => is_Some (objects (blobs w') d))).
  { apply handler_call. intros w1 w2 r _ Hinv. by apply put_served. }
  intros w1 out Hw1 Hinv1 [c Hsome].
  eapply (handler_bind _ _ (fun w' _ => landed w' ns d)).
  { apply handler_call. intros w2 w3 r Hw2 Hinv2. apply register_served; try done.
    intros Hk. exists c. by eapply around_object. }
  intros w2 _ Hw2 _ Hl. eapply handler_bind; [apply handler_true; auto with read_only|].
  intros w3 _ Hw3 _ _. apply handler_ret. intros _. by eapply landed_around.
Qed.

Lemma with_spool_job {A} (P : AppState -> A -> Prop) size t w :
  (forall w1 w2 a, store_inv w1 -> around w1 w2 -> P w1 a -> P w2 a) ->
  (forall w', handler_ok P t w') -> handler_ok P (with_spool_future size t) w.
Proof.
  intros HP Ht. unfold with_spool_future. eapply (handler_bind _ _ (fun _ _ => True)).
  { apply handler_call. intros w1 w2 r _ Hinv. unfold reserve_spool.
    destruct (SpoolBudget.reserve (spool w1) size) as [b q]. intros [= <- <-]. split; [by apply served_aside|done]. }
  intros w1 held _ _ _. apply job_holding; [|apply Ht]. intros w2 w3 [a|e] Hi Hw; [by eapply HP|done].
Qed.

Lemma put_blob_job m headers parts body faults w :
  name = headers !! "mbx-cache-namespace" -> (parts.2 < u64_modulus)%N ->
  handler_ok (fun w' _ => exists ns d chunks, name = Some ns /\ parse_digest parts = Ok d /\
      body = map Ok chunks /\ content_matches d (concat chunks) /\ landed w' ns d)
    (put_blob_future m headers parts body faults) w.
Proof.
  intros Hname Hu. unfold put_blob_future. eapply handler_bind; [by apply handler_authorized|].
  intros w1 ns _ _ Hns. eapply handler_bind; [by apply (handler_lift _ _ (fun _ _ => True))|]. intros w2 _ _ _ _.
  eapply (handler_bind _ _ (fun _ d => parse_digest parts = Ok d)); [by apply handler_lift|].
  intros w3 d _ _ Hd. eapply handler_bind; [apply handler_true; auto with read_only|]. intros w4 st _ _ _.
  apply handler_if; intros _; [apply handler_throw|]. apply with_spool_job.
  { intros w5 w6 _ _ Hw (ns' & d' & chunks & ? & ? & ? & ? & ?). exists ns', d', chunks.
    split_and!; [done..|by eapply landed_around]. }
  intros w5. eapply (handler_bind _ _ (fun _ content => spool_upload d (max_blob_bytes st) body faults = Ok content));
    [by apply handler_lift|].
  intros w6 content _ _ (chunks & Hbody & -> & Hmatch)%spool_upload_ok.
  assert (digest_u64 d) as Hud.
  { by eapply parse_digest_u64. }
  eapply handler_bind; [apply store_upload_job; [done..|by eapply parsed_valid|done]|].
  intros w7 out Hw7 _ Hl. apply handler_ret. intros _. by exists ns, d, chunks.
Qed.

Lemma missing_blobs_job m headers ds w :
  name = headers !! "mbx-cache-namespace" ->
  handler_ok (fun w' missing => exists ns, name = Some ns /\ forall d, d ∈ ds -> d ∉ missing -> landed w' ns d)
    (missing_blobs_future m headers ds) w.
Proof.
  intros Hname. unfold missing_blobs_future. eapply handler_bind; [by apply handler_authorized|].
  intros w1 ns _ _ Hns. apply handler_if; intros _; [apply handler_throw|].
  eapply handler_bind; [by apply (handler_lift _ _ (fun _ _ => True))|]. intros w2 _ _ _ _.
  eapply handler_bind; [apply handler_visible_among|]. intros w3 vs Hw3 _ Hvs. cbn beta in Hvs.
  apply handler_ret. intros Hinv3. exists ns. split; [done|]. intros d Hd Hmiss.
  assert (view_blob (view (metadata w3)) ns d = true) as Hv.
  { destruct (decide (d ∈ vs)) as [Hin|Hnin].
    - rewrite Hvs in Hin. by apply list_elem_of_In, filter_In in Hin as [_ ?].
    - destruct Hmiss. apply list_elem_of_In, filter_In. split; [by apply list_elem_of_In|].
      rewrite bool_decide_false; [done|]. by rewrite elem_of_list_to_set. }
  split; [by eapply inv_valid|]. split; [intros Hk; by eapply inv_stored|done].
Qed.

(** ** Action results *)

Definition recorded w (ns : string) (d : Digest) (r : ActionResult) : Prop :=
  unswept -> view_result (view (metadata w)) ns d = Some r.

Lemma recorded_around w w' ns d r : around w w' -> recorded w ns d r -> recorded w' ns d r.
Proof. intros [_ Hr] Hrec Hu. apply Hr; auto. Qed.

Lemma get_action_result_job m headers parts w :
  name = headers !! "mbx-cache-namespace" -> (parts.2 < u64_modulus)%N ->
  handler_ok (fun w' r => exists ns d, name = Some ns /\ parse_action_digest parts = Ok d /\ recorded w' ns d r)
    (get_action_result_future m headers parts) w.
Proof.
  intros Hname Hu. unfold get_action_result_future. eapply handler_bind; [by apply handler_authorized|].
  intros w1 ns _ _ Hns. eapply (handler_bind _ _ (fun _ d => parse_action_digest parts = Ok d)); [by apply handler_lift|].
  intros w2 d _ _ Hd. eapply (handler_bind _ _ (fun w' found => forall r, found = Some r -> recorded w' ns d r)).
  { apply handler_read; [apply read_only_metadata; intros s s' r Hwf Hget;
      by apply meta_get_law in Hget as (? & ? & _); [|done|by eapply parse_action_u64]|].
    intros w3 w4 found _ Hinv3 _ [(_ & Hr & _) _] Hget r -> _.
    apply meta_get_ok in Hget as (_ & _ & Hf); [|apply Hinv3|by eapply parse_action_u64]. by rewrite Hr. }
  intros w3 [r|] _ _ Hf; (eapply handler_bind; [apply handler_true; auto with read_only|]); intros w4 _ Hw4 _ _;
    [|apply handler_throw].
  apply handler_ret. intros _. exists ns, d. split_and!; [done..|]. eapply recorded_around; eauto.
Qed.

Lemma batch_job m headers ds w :
  name = headers !! "mbx-cache-namespace" -> Forall digest_u64 ds ->
  handler_ok (fun w' resp => exists ns, name = Some ns /\
      forall r, r ∈ response_body resp -> exists d, d ∈ ds /\ recorded w' ns d r)
    (batch_action_results_future m headers ds) w.
Proof.
  intros Hname Hu. unfold batch_action_results_future. eapply handler_bind; [by apply handler_authorized|].
  intros w1 ns _ _ Hns. apply handler_if; intros _; [apply handler_throw|].
  eapply (handler_bind _ _ (fun _ requested => forall d, d ∈ requested -> d ∈ ds)).
  { apply handler_lift. intros requested Hreq d Hd.
    apply collect_actions_ok in Hreq as [_ Hreq]; [|constructor|done]. apply Hreq in Hd. set_solver. }
  intros w2 requested _ _ Hreq.
  assert (Forall digest_u64 requested) as Hru.
  { apply Forall_forall. rewrite Forall_forall in Hu. auto. }
  eapply (handler_bind _ _ (fun w' l => forall r, r ∈ l -> exists d, d ∈ ds /\ recorded w' ns d r)).
  { apply handler_read; [apply read_only_metadata; intros s s' r Hwf Hget;
      by apply meta_get_batch_law in Hget as (? & ? & _)|].
    intros w3 w4 l _ Hinv3 _ [(_ & Hr & _) _] Hget r Hin.
    apply on_metadata_inv in Hget as (s & q & Hget & -> & Hq). destruct q as [l'|]; [|done]. injection Hq as ->.
    apply meta_get_batch_law in Hget as (_ & _ & Hl); [|apply Hinv3|done]. rewrite (Hl l' eq_refl) in Hin.
    apply list_elem_of_omap in Hin as (d & Hd & Hvr). exists d. split; [auto|]. intros _. by rewrite Hr. }
  intros w3 l _ _ Hl. eapply handler_bind; [apply handler_true; auto with read_only|]. intros w4 _ Hw4 _ _.
  apply handler_ret. intros _. exists ns. split; [done|]. intros r (d & Hd & Hrec)%Hl. exists d.
  split; [done|by eapply recorded_around].
Qed.

Lemma supported_around w w' ns r :
  store_inv w -> around w w' -> retains -> unswept -> supported w ns r -> supported w' ns r.
Proof.
  intros Hinv Hw Hk Hu [S1 (kind & value & Ho & Hv & Hboth & Hmeta) S3]. split; [done| |].
  - exists kind, value. split_and!; [by eapply canonical_object_around|done..|]. intros d Hd.
    destruct (Hmeta d Hd) as (v & ? & ? & ? & ?). exists v.
    split_and!; [by eapply canonical_object_around|done..|by eapply valid_metadata_around].
  - intros root Hr. by eapply complete_tree_around; eauto.
Qed.

Lemma check_job m headers parts r w :
  name = headers !! "mbx-cache-namespace" ->
  handler_ok (fun w' checked => name = Some checked.1 /\ parse_action_digest parts = Ok checked.2 /\
      result_action r = checked.2 /\ (BlobReads BS -> retains -> unswept -> supported w' checked.1 r))
    (check_action_result_future m headers parts r) w.
Proof.
  intros Hname. unfold check_action_result_future. eapply handler_bind; [by apply handler_authorized|].
  intros w1 ns _ _ Hns. eapply handler_bind; [by apply (handler_lift _ _ (fun _ _ => True))|]. intros w2 _ _ _ _.
  eapply (handler_bind _ _ (fun _ d => parse_action_digest parts = Ok d)); [by apply handler_lift|].
  intros w3 action _ _ Haction.
  destruct (N.eqb_spec (result_version r) 1) as [Hver|]; [|apply handler_throw].
  destruct (bool_decide_reflect (result_action r = action)) as [<-|]; [|apply handler_throw]. cbn [negb orb].
  eapply handler_bind; [by apply descriptor_job|]. intros w4 kind Hw4 _ Hdesc.
  eapply (handler_bind _ _ (fun _ _ => validate_action_result_shape r kind = Ok tt)); [by apply handler_lift; intros []|].
  intros w5 _ Hw5 _ Hshape. pose proof (proj1 (shape_ok _ _) Hshape) as Hboth.
  eapply (handler_bind _ _ (fun w' _ => BlobReads BS -> retains -> unswept -> forall d, result_metadata r = Some d -> exists v,
    canonical_object w' ns d v /\ json_kind v = Some (expected_kind kind) /\
    json_version v = Some 1%N /\ valid_metadata w' ns v kind)).
  { destruct (result_metadata r) as [d|]; [|by apply handler_ret].
    eapply handler_since; [by apply client_metadata_job|]. intros w6 [] _ _ Hmd Hr Hk Hu d' [= <-]. auto. }
  intros w6 [] Hw6 _ Hmd.
  eapply (handler_bind _ _ (fun w' _ => BlobReads BS -> retains -> unswept -> forall root, output_root r = Some root -> complete_tree w' ns root)).
  { destruct (output_root r) as [root|]; [|by apply handler_ret].
    eapply handler_since; [by apply tree_job|]. intros w7 [] _ _ Ht Hr Hk Hu root' [= <-]. auto. }
  intros w7 [] Hw7 _ Htree. apply handler_ret. intros _. split_and!; [done..|]. intros Hr Hk Hu. cbn.
  assert (around w4 w7) as Hw47 by (by do 2 (etransitivity; [eassumption|])).
  destruct (Hdesc Hr Hk Hu) as (value & Hobj & Hvalid). split; [done| |exact (Htree Hr Hk Hu)].
  exists kind, value. split_and!; [by eapply canonical_object_around|done..|]. intros d Hd.
  destruct (Hmd Hr Hk Hu d Hd) as (v & ? & ? & ? & ?). exists v.
  split_and!; [by eapply (canonical_object_around _ w6)|done..|by eapply (valid_metadata_around _ w6)].
Qed.

Lemma commit_served ns d r w w' q :
  name = Some ns -> digest_u64 d -> store_inv w -> on_metadata (commit ns d r) w = (w', q) ->
  served (Client name) w w' /\ forall out, q = Ok out -> out = CommitConflict \/ recorded w' ns d r.
Proof.
  intros Hname Hu Hinv Hc.
  assert (max_blob_bytes w' = max_blob_bytes w /\ pack_store_concurrency w' = pack_store_concurrency w) as [Hmax Hcon].
  { by apply on_metadata_inv in Hc as (s & q' & _ & -> & _). }
  apply commit_ok in Hc as (Hwf & Hb & _ & Hq); [|apply Hinv|done].
  assert (view (metadata w') ≡ view (metadata w) \/
    (view_result (view (metadata w)) ns d = None /\
     view (metadata w') ≡ view_set_result ns d r (view (metadata w)))) as Hv.
  { destruct q as [[]|e]; [by right|by left; apply Hq..|apply Hq]. }
  assert (forall d', objects (blobs w') d' = objects (blobs w) d') as Ho by (intros; by rewrite Hb).
  split.
  - split; [|intros d' _; by left|done..|].
    + apply (set_result_inv ns d r w); [done..|]. destruct Hv as [|[_ ?]]; [by left|by right].
    + destruct Hv as [|[? ?]]; [by apply ViewSame|eapply ViewResult; eauto; by rewrite Hname].
  - intros out ->. destruct out; [right|right|by left]; intros _.
    + destruct Hq as [_ (_ & Hr & _)]. rewrite Hr. cbn. unfold upd. by rewrite decide_True.
    + destruct Hq as [Hq (_ & Hr & _)]. by rewrite Hr.
Qed.

Lemma put_action_result_job m headers parts r w :
  name = headers !! "mbx-cache-namespace" -> (parts.2 < u64_modulus)%N ->
  handler_ok (fun w' _ => BlobReads BS -> exists ns, name = Some ns /\ parse_action_digest parts = Ok (result_action r) /\
      recorded w' ns (result_action r) r /\ (retains -> unswept -> supported w' ns r))
    (put_action_result_future m headers parts r) w.
Proof.
  intros Hname Hu. unfold put_action_result_future. eapply handler_bind; [by apply check_job|].
  intros w1 [ns action] Hw1 Hinv1 Hch. cbn in Hch. destruct Hch as (Hns & Haction & <- & Hsup).
  eapply (handler_bind _ _ (fun w' out => out = CommitConflict \/ recorded w' ns (result_action r) r)).
  { apply handler_call. intros w2 w3 q _ Hinv2. apply commit_served; [done|by eapply parse_action_u64|done]. }
  intros w2 out Hw2 _ Hout. eapply handler_bind; [apply handler_true; auto with read_only|]. intros w3 _ Hw3 _ _.
  assert (around w1 w3) as Hw by (by etransitivity).
  destruct out; [| |apply handler_throw]; destruct Hout as [|Hrec]; try done; apply handler_ret; intros _ Hr;
    exists ns; (split_and!; [done..|by apply (recorded_around w2)|intros Hk Hus; apply (supported_around w1); auto]).
Qed.

(** ** Manifests *)

Lemma get_manifest_job m headers parts w :
  name = headers !! "mbx-cache-namespace" -> (parts.2 < u64_modulus)%N ->
  handler_ok (fun _ _ => True) (get_action_manifest_future m headers parts) w.
Proof.
  intros Hname Hu. unfold get_action_manifest_future. eapply handler_bind; [by apply handler_authorized|].
  intros w1 ns _ _ Hns. eapply (handler_bind _ _ (fun _ d => parse_action_digest parts = Ok d)); [by apply handler_lift|].
  intros w2 d _ _ Hd. eapply handler_bind.
  { apply handler_true, read_only_metadata. intros s s' r Hwf Hget.
    by apply get_manifest_law in Hget as (? & ? & _); [|done|by eapply parse_action_u64]. }
  intros w3 found _ _ _. eapply handler_bind; [by apply (handler_lift _ _ (fun _ _ => True))|]. intros w4 rec _ _ _.
  eapply handler_bind; [by apply (handler_lift _ _ (fun _ _ => True))|]. intros w5 body _ _ _. by apply handler_ret.
Qed.

Lemma commit_manifest_served ns key expected etag manifest w w' q :
  name = Some ns -> digest_u64 key -> store_inv w ->
  on_metadata (commit_manifest ns key expected etag manifest) w = (w', q) -> served (Client name) w w'.
Proof.
  intros Hname Hu Hinv Hc.
  assert (max_blob_bytes w' = max_blob_bytes w /\ pack_store_concurrency w' = pack_store_concurrency w) as [Hmax Hcon].
  { by apply on_metadata_inv in Hc as (s & q' & _ & -> & _). }
  apply commit_manifest_ok in Hc as (Hwf & Hb & Hq); [|apply Hinv|done].
  assert (manifest_written ns key (mkManifestRecord etag manifest) w w') as Hv.
  { destruct q as [[]|e]; [right; by apply Hq|right; by apply Hq|left; by apply Hq|apply Hq]. }
  assert (objects_grow w w') as Hg by (intros d; rewrite Hb; by left).
  split; [|done..|].
  - apply (store_inv_step w); [done..|]. intros ns' d Hvis. left.
    by destruct Hv as [(Hvb & _)|(Hvb & _)]; rewrite Hvb in Hvis.
  - destruct Hv; [by apply ViewSame|eapply ViewManifest; eauto; by rewrite Hname].
Qed.

Lemma put_manifest_job m headers parts body w :
  name = headers !! "mbx-cache-namespace" -> (parts.2 < u64_modulus)%N ->
  handler_ok (fun _ _ => True) (put_action_manifest_future m headers parts body) w.
Proof.
  intros Hname Hu. unfold put_action_manifest_future. eapply handler_bind; [by apply handler_authorized|].
  intros w1 ns _ _ Hns. eapply handler_bind; [by apply (handler_lift _ _ (fun _ _ => True))|]. intros w2 bs _ _ _.
  eapply handler_bind; [by apply (handler_lift _ _ (fun _ _ => True))|]. intros w3 manifest _ _ _.
  eapply (handler_bind _ _ (fun _ d => parse_action_digest parts = Ok d)); [by apply handler_lift|].
  intros w4 key _ _ Hkey. apply handler_if; intros _; [apply handler_throw|].
  eapply handler_bind; [by apply (handler_lift _ _ (fun _ _ => True))|]. intros w5 expected _ _ _.
  eapply handler_bind; [by apply (handler_lift _ _ (fun _ _ => True))|]. intros w6 canonical _ _ _. cbv zeta.
  eapply (handler_bind _ _ (fun _ _ => True)).
  { apply handler_call. intros w7 w8 q _ Hinv Hc. split; [|done].
    eapply (commit_manifest_served ns); [exact Hns| |done|exact Hc]. by eapply parse_action_u64. }
  intros w7 out _ _ _. eapply (handler_bind _ _ (fun _ _ => True)); [|intros; by apply handler_ret].
  destruct out; [by apply handler_ret..|apply handler_throw].
Qed.

Lemma refresh_metrics_job w : handler_ok (fun _ _ => True) refresh_metrics_future w.
Proof.
  unfold refresh_metrics_future. eapply handler_bind; [apply handler_true; auto with read_only|]. intros w1 st _ _ _.
  destruct (pool_stats (metadata st)); [apply handler_true; auto with read_only|by apply handler_ret].
Qed.
End Handlers.
