(* ===== verification/DownloadSafety.v ===== *)
(** * Pack downloads and every request, with others acting between their calls

    The stream of a pack reads what was visible when it was asked for. Whatever
    happens meanwhile, what it sends are contents their digests name; an object
    that has expired ends it with an error. With it every request's future is
    in order ([request_job]). *)
From stdpp Require Import pretty.
From S2P Require Import Prelude Str Protocol Api Json Model Records Oidc Auth Spool Access.
From S2P Require Import Metrics App Future Pack PackProofs Tree Actions ActionsProofs Blobs BlobsProofs PackUpload.
From S2P Require Import PackUploadProofs PackDownload PackDownloadProofs ReadOnly Results ResultsProofs Service.
From S2P Require Import ServiceProofs HandlerFutures Interleaving FutureSafety ValidatorSafety HandlerSafety.

Local Open Scope string_scope.
Local Open Scope mbx_scope.

Section Download.
Context `{Protocol} `{HashLaws} `{Hex} `{!ProtocolLaws} `{!HexLaws} `{Records} `{!JsonText} `{!Documents}
  `{!Jwt} `{!AuthJson} `{!Tokio} `{!DebugFormat} `{!Constants} `{!ConstantsLaws} `{!ManifestText}.
Context {MS BS : Type} `{!MetadataStore MS} `{!BlobStore BS}.
Context `{!MetadataLaws MS} `{!BlobLaws BS} {retention : Retention}.
Notation AppState := (AppState (MS:=MS) (BS:=BS)).
Implicit Types w : AppState.
Variables (unswept : Prop) (name : option string).
Notation around := (around unswept).
Notation handler_ok := (handler_ok unswept name).
Notation job_ok := (job_ok unswept name).

(** ** The stream *)

(** The row of an entry was seen, and where objects are retained its object is
    there. *)
Definition there w (e : bytes * Digest) : Prop :=
  digest_validate e.2 = Ok tt /\ digest_u64 e.2 /\ (retains -> is_Some (objects (blobs w) e.2)).

Lemma there_around w w' es : around w w' -> Forall (there w) es -> Forall (there w') es.
Proof.
  intros Hw Hall. eapply Forall_impl; [exact Hall|]. intros e (Hd & Hu & Hc). split; [done|]. split; [done|].
  intros Hk. destruct (Hc Hk) as [c Ho]. exists c. by eapply around_object.
Qed.

(** What is read for an entry, where reads are whole. *)
Definition read (e : bytes * Digest) (r : result IoError (bytes * Blob)) : Prop :=
  BlobReads BS -> read_of content_matches e r.

Lemma observe_job h f w : job_ok (fun _ _ => True) (observe h f) w.
Proof. apply job_await. intros w1 w2 [] _ Hinv [= <-]. split; [by apply served_aside|done]. Qed.

Lemma guarded_job clock g f w : job_ok (fun _ _ => True) (guarded clock g f) w.
Proof.
  apply job_await. intros w1 w2 g' _ Hinv. unfold on_guard. destruct (f _) as [m g1]. intros [= <- _].
  split; [by apply served_aside|done].
Qed.

Lemma read_entry_job h clock ns e w :
  name = Some ns -> there w e ->
  job_ok (fun _ r => read e r) (read_entry_future h clock ns e) w.
Proof.
  destruct e as [header d]. intros Hname (Hd & Hu & Hc). cbn in Hd, Hu, Hc. unfold read_entry_future.
  eapply (job_bind _ _ (fun _ r => match r with
    | Ok (Some blob) => BlobReads BS ->
        exists c, content_matches d c /\ blob_size blob = N.of_nat (length c) /\ streams (blob_stream blob) c
    | Ok None => retains -> False | Err _ => True end)).
  { apply job_await. intros w1 w2 r Hw Hinv. destruct (blob_get d (blobs w1)) as [b q] eqn:E.
    intros [= <- <-]. pose proof E as [Hob Hq]%blob_get_law.
    assert (same_stores w1 (set_blobs b w1)) as Hs by (by split). split.
    - apply served_same; [|done|done]. eapply store_inv_same; [exact Hinv|apply Hinv|done].
    - destruct q as [[blob|]|e]; [| |done].
      + intros Hr. apply blob_read_law in E as (c & Ho & ? & ?). exists c. split; [by eapply inv_content|done].
      + intros Hk. destruct (Hc Hk) as [c Ho]. rewrite (around_object _ _ _ _ _ Hw Hk Hd Ho) in Hq.
        by destruct (proj2 Hq (ex_intro _ c eq_refl)). }
  intros w1 [[blob|]|e] _ _ Hr; (eapply job_bind; [apply observe_job|]); intros w2 [] _ _ _.
  - apply job_done. intros _ Hreads h' blob'. destruct (Hr Hreads) as (c & Hm & Hsize & Hstream).
    destruct (N.eqb_spec (blob_size blob) (digest_size d)) as [Heq|]; cbn; [|done].
    intros [= <- <-]. split; [done|]. exists c. rewrite <-Heq. by split_and!.
  - eapply (job_bind _ _ (fun _ _ => True)); [|by intros; apply job_done].
    eapply job_mono; [|by apply handler_forget]. done.
  - apply job_done. by intros _ _ h' blob'.
Qed.

Lemma top_up_job h n clock ns waiting w :
  name = Some ns -> Forall (there w) waiting ->
  job_ok (fun _ p => exists es, waiting = (es ++ p.2)%list /\ Forall2 read es p.1 /\
      (length es = n \/ p.2 = [])) (top_up_future h n clock ns waiting) w.
Proof.
  intros Hname. revert waiting w; induction n as [|n IH]; intros waiting w Hall; cbn [top_up_future].
  { apply job_done. intros _. exists []. split_and!; [done|constructor|by left]. }
  destruct waiting as [|e waiting].
  { apply job_done. intros _. exists []. split_and!; [done|constructor|by right]. }
  apply Forall_cons in Hall as [He Hall]. eapply job_bind; [by apply read_entry_job|]. cbn beta.
  intros w1 r Hw1 _ Hr. eapply job_bind; [by apply IH; eapply there_around|]. cbn beta.
  intros w2 [queue waiting2] _ _ (es & -> & Hes & Hlen). apply job_done. intros _. cbn in *.
  exists (e :: es). split_and!; [done|by constructor|]. destruct Hlen as [<-|]; [by left|by right].
Qed.

Lemma send_chunks_job clock size streamed stream g w :
  job_ok (fun _ p => if p.2 : bool then all_sent p.1.2 /\ collect_stream stream = (sent_bytes p.1.2, Ok tt)
                     else ~ all_sent p.1.2)
    (send_chunks_future clock size streamed stream g) w.
Proof.
  assert (forall sent : list (result IoError bytes), forall e, ~ all_sent (Err e :: sent)) as Hbad.
  { by intros sent e [? _]%Forall_cons. }
  revert streamed g w; induction stream as [|[chunk|e] stream IH]; intros streamed g w; cbn [send_chunks_future].
  - destruct (negb _); [eapply job_bind; [apply guarded_job|]; intros; apply job_done; intros _; apply Hbad|].
    apply job_done. intros _. split; [constructor|done].
  - destruct (checked_add _ _) as [n|]; [destruct (_ <? _)%N|]; (eapply job_bind; [apply guarded_job|]);
      intros w1 g1 _ _ _; [apply job_done; intros _; apply Hbad| |apply job_done; intros _; apply Hbad].
    eapply job_bind; [apply IH|]. cbn beta. intros w2 [[g2 sent] ok] _ _ Hok. apply job_done. intros _. cbn in *.
    destruct ok; [|by intros [_ ?]%Forall_cons]. destruct Hok as [Hall Hcol].
    split; [by constructor|]. by rewrite Hcol.
  - eapply job_bind; [apply guarded_job|]. intros. apply job_done. intros _. apply Hbad.
Qed.

(** What is sent of entries: each with its content. *)
Definition sends (es : list (bytes * Digest)) (sent : list (result IoError bytes)) : Prop :=
  all_sent sent -> exists contents,
    Forall2 (fun e c => content_matches e.2 c /\ digest_size e.2 = N.of_nat (length c)) es contents /\
    sent_bytes sent = frames_of es contents.

Lemma sends_nothing sent : sent = [] -> sends [] sent.
Proof. intros -> _. exists []. split; [constructor|done]. Qed.

Lemma sends_error es sent e : sent = [Err e] -> sends es sent.
Proof. intros -> [? _]%Forall_cons. done. Qed.

Lemma sends_entry e es content stream sent rest :
  content_matches e.2 content -> digest_size e.2 = N.of_nat (length content) -> streams stream content ->
  collect_stream stream = (sent_bytes sent, Ok tt) -> sends es rest ->
  sends (e :: es) (Ok e.1 :: sent ++ rest).
Proof.
  intros Hc Hsz Hst Hcol Hrest [_ [_ Hall]%Forall_app]%Forall_cons.
  destruct (Hrest Hall) as (contents & Hcs & Hbytes). exists (content :: contents). split; [by constructor|].
  unfold streams in Hst. rewrite Hcol in Hst. subst content.
  change (Ok e.1 :: sent ++ rest)%list with ([Ok e.1] ++ (sent ++ rest))%list.
  rewrite !sent_bytes_app, Hbytes. unfold frames_of. cbn. by rewrite app_nil_r, <-app_assoc.
Qed.

Lemma send_entries_job clock ns turns qes queue waiting g w :
  name = Some ns -> Forall (there w) waiting -> Forall2 read qes queue ->
  length queue + length waiting <= turns ->
  job_ok (fun _ p => BlobReads BS -> sends (qes ++ waiting) p.2) (send_entries_future turns clock ns queue waiting g) w.
Proof.
  intros Hname. revert qes queue waiting g w; induction turns as [|turns IH]; intros qes queue waiting g w Hall Hq Hlen;
    cbn [send_entries_future]; (eapply job_bind; [by apply top_up_job|]); cbn beta;
    intros w1 [more waiting1] Hw1 _ (es & -> & Hmore & Hfull); cbn [fst snd] in *.
  - assert (queue = [] /\ es = [] /\ waiting1 = []) as (-> & -> & ->).
    { rewrite length_app in Hlen. destruct queue, es, waiting1; cbn in Hlen; (done || lia). }
    apply Forall2_nil_inv_r in Hq as ->. apply Forall2_nil_inv_l in Hmore as ->. cbn [app].
    eapply job_bind; [apply guarded_job|]. intros w2 g2 _ _ _. apply job_done. intros _ _. by apply sends_nothing.
  - pose proof (Forall2_app Hq Hmore) as Hboth. apply Forall_app in Hall as [_ Hall].
    assert (length (queue ++ more) + length waiting1 <= S turns) as Hlen'.
    { rewrite length_app in Hlen |- *. apply Forall2_length in Hmore. lia. }
    assert (length (queue ++ more) = 0 -> waiting1 = []) as Hdone.
    { rewrite length_app. intros Hz. destruct Hfull as [Hfull|]; [|done].
      apply Forall2_length in Hmore. unfold MAX_PACK_STORAGE_READS in Hfull. lia. }
    rewrite app_assoc. revert Hboth Hlen' Hdone. generalize (qes ++ es)%list as all, (queue ++ more)%list as q.
    intros all q Hboth Hlen' Hdone. destruct Hboth as [|e r all q Hread Hboth].
    { eapply job_bind; [apply guarded_job|]. intros w2 g2 _ _ _. apply job_done. intros _ _. rewrite Hdone by done.
      by apply sends_nothing. }
    destruct r as [[h blob]|err].
    2:{ eapply job_bind; [apply guarded_job|]. intros w2 g2 _ _ _. apply job_done. intros _ _. by eapply sends_error. }
    eapply job_bind; [apply send_chunks_job|]. cbn beta. intros w2 [[g2 sent2] ok] Hw2 _ Hok. cbn in Hok.
    destruct ok; [|by apply job_done; intros _ _ [_ ?]%Forall_cons]. destruct Hok as [_ Hcol].
    eapply job_bind; [apply guarded_job|]. intros w3 g3 Hw3 _ _.
    eapply job_bind; [apply observe_job|]. intros w4 _ Hw4 _ _.
    eapply job_bind; [eapply (IH all); [|done|cbn in Hlen'; lia]|].
    { eapply there_around; [|exact Hall]. by do 3 (etransitivity; [eassumption|]). }
    cbn beta. intros w5 [g5 rest] _ _ Hrest. apply job_done. intros _ Hr.
    destruct (Hread Hr h blob eq_refl) as (-> & content & Hc & Hsz & Hbs & Hst). eapply sends_entry; eauto.
Qed.

Lemma pack_stream_job clock b w :
  name = Some (body_namespace b) -> Forall (there w) (body_entries b) ->
  job_ok (fun _ sent => BlobReads BS -> exists rest, sent = Ok BLOB_PACK_MAGIC :: rest /\ sends (body_entries b) rest)
    (pack_stream_future clock b) w.
Proof.
  intros Hname Hall. unfold pack_stream_future. eapply job_bind; [apply guarded_job|]. intros w1 g1 Hw1 _ _.
  eapply job_bind.
  { eapply (send_entries_job clock _ _ []); [done|by eapply there_around|constructor|done]. }
  cbn beta. intros w2 [g2 sent] _ _ Hs. eapply (job_bind _ _ (fun _ _ => True)).
  { apply job_await. intros w3 w4 [] _ Hinv [= <-]. split; [by apply served_aside|done]. }
  intros w3 [] _ _ _. apply job_done. intros _ Hr. exists sent. split; [done|exact (Hs Hr)].
Qed.

(** ** The request *)

Lemma query_visible_job clock ns ds w :
  handler_ok (fun w' vs => exists wq, around wq w' /\ store_inv wq /\ vs = List.filter (view_blob (view (metadata wq)) ns) ds)
    (query_visible_future clock ns ds) w.
Proof.
  unfold query_visible_future. eapply (job_bind _ _ (fun w' r => match r with
    | Ok vs => vs = List.filter (view_blob (view (metadata w')) ns) ds | Err _ => True end)).
  { apply job_await. intros w1 w2 r _ Hinv. destruct (visible_blobs ns ds (metadata w1)) as [s q] eqn:E.
    intros [= <- <-]. apply visible_blobs_law in E as (Hwf & Hv & Hq); [|apply Hinv].
    assert (same_stores w1 (set_metadata s w1)) as Hs by (by split). split.
    - apply served_same; [|done|done]. by eapply store_inv_same.
    - destruct q as [vs|e]; [|done]. rewrite (Hq vs eq_refl). apply filter_ext. intros d. cbn.
      destruct Hv as (Hb & _). by rewrite Hb. }
  intros w1 [vs|e] _ Hinv1 Hvs; (eapply job_bind; [apply observe_job|]); intros w2 [] Hw2 _ _;
    apply job_done; [|done]. intros _. by exists w1.
Qed.

(** What a pack answers: the visible ones among the requested, each with its
    content, behind the header that announces their length. *)
Definition packed w' (ds : list Digest) (resp : Response PackBody) (ns : string) : Prop :=
  exists wq requested pb pp,
    around wq w' /\ store_inv wq /\ body_namespace (response_body resp) = ns /\
    NoDup requested /\ (forall d, d ∈ requested <-> d ∈ ds) /\
    prepare_entries (List.filter (view_blob (view (metadata wq)) ns) requested)
      (N.of_nat (length BLOB_PACK_MAGIC)) 0 [] = Ok (pb, pp, body_entries (response_body resp)) /\
    header_map resp !! "content-length" = Some (pretty pb).

Lemma pack_blobs_job clock m headers ds w :
  name = headers !! "mbx-cache-namespace" ->
  handler_ok (fun w' resp => exists ns, name = Some ns /\ packed w' ds resp ns)
    (pack_blobs_future clock m headers ds) w.
Proof.
  intros Hname. unfold pack_blobs_future. eapply handler_bind; [by apply handler_authorized|].
  intros w1 ns _ _ Hns. apply handler_if; intros _; [apply handler_throw|].
  eapply handler_bind; [apply handler_true; auto with read_only|]. intros w2 st _ _ _.
  eapply (handler_bind _ _ (fun _ p => collect_requested (max_blob_bytes st) ds ∅ 0 [] = Ok p)); [by apply handler_lift|].
  intros w3 [total requested] _ _ Hcol. apply collect_requested_ok in Hcol as (Hnd & Hreq & _); [|lia|constructor|done|done].
  eapply handler_bind; [apply query_visible_job|]. intros w4 vs Hw4 _ (wq & Hwq & Hinvq & ->).
  eapply handler_bind; [apply handler_true; auto with read_only|]. intros w5 _ Hw5 _ _.
  eapply (handler_bind _ _ (fun _ _ => True)).
  { apply handler_call. intros w6 w7 r _ Hinv. unfold start_pack.
    destruct (Metrics.start_pack _ _ _ _ _) as [mt g]. intros [= <- <-]. split; [by apply served_aside|done]. }
  intros w6 guard Hw6 _ _.
  eapply (handler_bind _ _ (fun _ p => prepare_entries (List.filter (view_blob (view (metadata wq)) ns) requested)
      (N.of_nat (length BLOB_PACK_MAGIC)) 0 [] = Ok p)).
  { apply job_await. intros w7 w8 r _ Hinv. unfold or_drop_guard. destruct (prepare_entries _ _ _ _) as [p|e];
      intros [= <- <-]; (split; [by apply served_aside|done]). }
  intros w7 [[pb pp] entries] Hw7 _ Hprep. apply handler_ret. intros _. exists ns.
  split; [done|]. exists wq, requested, pb, pp. split_and!; [|done..| |done|].
  - by do 3 (etransitivity; [eassumption|]).
  - intros d. rewrite Hreq. set_solver.
  - cbn [header_map]. pose proof header_names as Hnames. rewrite !NoDup_cons in Hnames.
    rewrite lookup_insert_ne by set_solver. rewrite lookup_insert_ne by set_solver. by rewrite lookup_insert_eq.
Qed.
End Download.

(** ** Every request *)

Section Requests.
Context `{Protocol} `{HashLaws} `{Hex} `{!ProtocolLaws} `{!HexLaws} `{Records} `{!JsonText} `{!Documents}
  `{!Jwt} `{!AuthJson} `{!Tokio} `{!DebugFormat} `{!Constants} `{!ConstantsLaws} `{!ManifestText}.
Context {MS BS : Type} `{!MetadataStore MS} `{!BlobStore BS}.
Context `{!MetadataLaws MS} `{!BlobLaws BS} {retention : Retention}.
Notation AppState := (AppState (MS:=MS) (BS:=BS)).
Implicit Types w : AppState.
Variable unswept : Prop.

(** What a client may conclude from an answer: a download is the content its
    digest names; what was uploaded, or not reported missing, is stored and
    visible, where objects are retained; a result that was served or accepted is recorded, and an accepted
    one rests on objects in sight; a pack that was sent to its end is one pack
    of requested blobs, each with its content. *)
Definition promised w (request : Request) (answer : Answer) : Prop :=
  let answered P := exists ns, request_headers request !! "mbx-cache-namespace" = Some ns /\ P ns in
  match request, answer with
  | GetBlob _ _ parts, BlobAnswer (Ok resp) =>
      answered (fun ns => exists d content, parse_digest parts = Ok d /\ landed unswept w ns d /\
        content_matches d content /\ streams (response_body resp) content)
  | PutBlob _ _ parts body _, StatusAnswer (Ok _) =>
      answered (fun ns => exists d chunks, parse_digest parts = Ok d /\ body = map Ok chunks /\
        content_matches d (concat chunks) /\ landed unswept w ns d)
  | MissingBlobs _ _ ds, MissingAnswer (Ok missing) =>
      answered (fun ns => forall d, d ∈ ds -> d ∉ missing -> landed unswept w ns d)
  | PackBlobs _ _ _ ds, PackAnswer (Ok resp) sent =>
      all_sent sent -> answered (fun ns => exists es,
        NoDup (map fst es) /\ Forall (fun e => e.1 ∈ ds /\ landed unswept w ns e.1 /\ content_matches e.1 e.2) es /\
        encode_pack es = Ok (sent_bytes sent) /\
        header_map resp !! "content-length" = Some (pretty (N.of_nat (length (sent_bytes sent)))))
  | GetActionResult _ _ parts, ResultAnswer (Ok r) =>
      answered (fun ns => exists d, parse_action_digest parts = Ok d /\ recorded unswept w ns d r)
  | BatchActionResults _ _ ds, ResultsAnswer (Ok resp) =>
      answered (fun ns => forall r, r ∈ response_body resp -> exists d, d ∈ ds /\ recorded unswept w ns d r)
  | PutActionResult _ _ parts r, StatusAnswer (Ok _) =>
      answered (fun ns => parse_action_digest parts = Ok (result_action r) /\
        recorded unswept w ns (result_action r) r /\ (retains -> unswept -> supported w ns r))
  | _, _ => True
  end.

Lemma promised_around request : stable unswept (fun w => promised w request).
Proof.
  intros w w' answer Hinv Hw. unfold promised.
  destruct request, answer as [[]|[]|[]|[] ?|[]|[]|[]|[]|[]]; try done.
  - intros (ns & Hns & d & c & Hd & Hl & Hc). exists ns. split; [done|]. exists d, c.
    split; [done|]. split; [by eapply landed_around|done].
  - intros (ns & Hns & d & chunks & Hd & Hb & Hc & Hl). exists ns. split; [done|]. exists d, chunks.
    split_and!; [done..|by eapply landed_around].
  - intros (ns & Hns & Hl). exists ns. split; [done|]. intros d Hd Hm. eapply landed_around; eauto.
  - intros Hp Hs. destruct (Hp Hs) as (ns & Hns & es & Hnd & Hes & He). exists ns. split; [done|]. exists es.
    split; [done|]. split; [|done]. eapply Forall_impl; [exact Hes|]. intros e (? & ? & ?).
    split_and!; [done|by eapply landed_around|done].
  - intros (ns & Hns & d & Hd & Hr). exists ns. split; [done|]. exists d. split; [done|by eapply recorded_around].
  - intros (ns & Hns & Hr). exists ns. split; [done|]. intros r (d & Hd & Hrec)%Hr. exists d.
    split; [done|by eapply recorded_around].
  - intros (ns & Hns & Ha & Hr & Hs). exists ns. split; [done|]. split; [done|].
    split; [by eapply recorded_around|]. intros Hk Hu. eapply supported_around; eauto.
Qed.

Lemma pack_answer_kept w ds ns resp sent :
  store_inv w -> packed unswept w ds resp ns ->
  (exists rest, sent = Ok BLOB_PACK_MAGIC :: rest /\ sends (body_entries (response_body resp)) rest) ->
  all_sent sent ->
  exists es, NoDup (map fst es) /\
    Forall (fun e => e.1 ∈ ds /\ landed unswept w ns e.1 /\ content_matches e.1 e.2) es /\
    encode_pack es = Ok (sent_bytes sent) /\
    header_map resp !! "content-length" = Some (pretty (N.of_nat (length (sent_bytes sent)))).
Proof.
  intros Hinv (wq & requested & pb & pp & Hw & Hinvq & _ & Hnd & Hreq & Hprep & Hlen) (rest & -> & Hsends) Hall.
  apply Forall_cons in Hall as [_ Hall]. destruct (Hsends Hall) as (contents & Hcs & Hbytes).
  apply prepare_entries_ok in Hprep as (new & Hnew & Hsnd & Hheaders & ->). cbn in Hnew. subst new.
  set (entries := body_entries (response_body resp)) in *.
  assert (sent_bytes (Ok BLOB_PACK_MAGIC :: rest) = (BLOB_PACK_MAGIC ++ frames_of entries contents)%list) as Hsb.
  { rewrite <-Hbytes. by apply (sent_bytes_app [Ok BLOB_PACK_MAGIC]). }
  assert (forall d, d ∈ map snd entries -> d ∈ requested /\ view_blob (view (metadata wq)) ns d = true) as Hvis.
  { intros d. rewrite Hsnd. intros [? ?]%list_elem_of_In%filter_In. by rewrite list_elem_of_In. }
  destruct (sent_pack content_matches entries contents) as (Hfst & Hmatch & Henc); [done| |done..|].
  { apply Forall_forall. intros d [_ Hv]%Hvis. by eapply inv_valid. }
  exists (zip (map snd entries) contents). split_and!.
  - rewrite Hfst, Hsnd. apply NoDup_ListNoDup, List.NoDup_filter. by apply NoDup_ListNoDup.
  - rewrite Forall_forall in Hmatch |- *. intros e He. split_and!; [..|by apply Hmatch].
    + apply Hreq, Hvis. rewrite <-Hfst. by apply list_elem_of_fmap_2.
    + assert (e.1 ∈ map snd entries) as Hin by (rewrite <-Hfst; by apply list_elem_of_fmap_2).
      apply Hvis in Hin as [_ Hv]. eapply landed_around; [exact Hw|].
      split; [by eapply inv_valid|]. split; [intros Hk; by eapply inv_stored|done].
  - by rewrite Hsb.
  - rewrite Hlen, Hsb, length_app, Nat2N.inj_add, frames_of_length, Hsnd; [done|done|].
    eapply Forall2_impl; [exact Hcs|]. by intros ? ? [_ ?].
Qed.

(** The future of a request is in order, and what it ends with is promised. *)
Lemma answer_job {A} name (P : AppState -> A -> Prop) (Q : AppState -> Answer -> Prop) (answer : result ApiError A -> Answer) t w :
  handler_ok unswept name P t w -> (forall w' a, store_inv w' -> P w' a -> Q w' (answer (Ok a))) ->
  (forall w' e, Q w' (answer (Err e))) -> job_ok unswept name Q (answer_with answer t) w.
Proof.
  intros Ht HQ He. eapply job_bind; [exact Ht|]. intros w' [a|e] _ Hinv HP; apply job_done; intros _; auto.
Qed.

Lemma request_job request w :
  request_u64 request ->
  job_ok unswept (request_headers request !! "mbx-cache-namespace")
    (fun w' answer => BlobReads BS -> promised w' request answer) (request_future request) w.
Proof.
  intros Hu. destruct request as [m headers parts|m headers parts body fs|m headers ds
    |clock m headers ds|m headers parts|m headers ds|m headers parts r|m headers parts
    |m headers parts body|]; cbn [request_future request_headers request_u64] in *.
  - eapply answer_job; [by apply get_blob_job|intros w' a _ Hp Hr|done].
    destruct (Hp Hr) as (ns & d & c & ? & ? & ? & ?). exists ns. eauto 10.
  - eapply answer_job; [by apply put_blob_job|intros w' a _|done]. intros (ns & d & c & ? & ? & ? & ? & ?) _.
    exists ns. eauto 10.
  - eapply answer_job; [by apply missing_blobs_job|intros w' a _|done]. intros (ns & ? & ?) _. by exists ns.
  - eapply job_bind; [by apply pack_blobs_job|]. intros w1 [resp|e] Hw1 Hinv1; [|by intros _; apply job_done].
    intros (ns & Hns & Hp). eapply job_bind.
    { apply pack_stream_job; destruct Hp as (wq & requested & pb & pp & Hw & Hinvq & Hbody & _ & _ & Hprep & _);
        [by rewrite Hbody|].
      apply prepare_entries_ok in Hprep as (new & Hnew & Hsnd & _). cbn in Hnew. subst new.
      apply Forall_forall. intros e He. assert (e.2 ∈ map snd (body_entries (response_body resp))) as Hin
        by (by apply list_elem_of_fmap_2).
      rewrite Hsnd in Hin. apply list_elem_of_In, filter_In in Hin as [_ Hv].
      pose proof (inv_valid _ Hinvq _ _ Hv) as Hd. split; [done|]. split; [by eapply inv_u64|]. intros Hk.
      destruct (inv_stored _ Hinvq Hk _ _ Hv) as [c Hc]. exists c. by eapply around_object. }
    intros w2 sent Hw2 Hinv2 Hsent. apply job_done. intros _ Hr Hall. exists ns. split; [done|].
    apply (pack_answer_kept w2 ds ns); try done; [|by apply Hsent].
    destruct Hp as (wq & requested & pb & pp & Hw & Hp). exists wq, requested, pb, pp.
    split; [by etransitivity|done].
  - eapply answer_job; [by apply get_action_result_job|intros w' a _|done]. intros (ns & d & ? & ? & ?) _. exists ns. eauto.
  - eapply answer_job; [by apply batch_job|intros w' a _|done]. intros (ns & ? & ?) _. by exists ns.
  - eapply answer_job; [by apply put_action_result_job|intros w' a _ Hp Hr|done].
    destruct (Hp Hr) as (ns & ? & ? & ? & ?). by exists ns.
  - by eapply answer_job; [apply get_manifest_job| |].
  - by eapply answer_job; [apply put_manifest_job| |].
  - by eapply answer_job; [apply refresh_metrics_job| |].
Qed.

(** ** Flushes *)

Lemma touch_all_job name calls failed w :
  job_ok unswept name (fun _ _ => True) (touch_all_future calls failed) w.
Proof.
  revert failed w; induction calls as [|[ns chunk] calls IH]; intros failed w; cbn [touch_all_future].
  { by apply job_done. }
  eapply (job_bind _ _ (fun _ _ => True)); [|intros; apply IH]. apply job_await. intros w1 w2 r _ Hinv.
  destruct (touch_blobs ns chunk (metadata w1)) as [m q] eqn:Ht. intros [= <- _].
  apply touch_blobs_law in Ht as [Hwf Hv]; [|apply Hinv].
  assert (same_stores w1 (set_metadata m w1)) as Hs by (by split).
  split; [|done]. apply served_same; [by eapply store_inv_same|done..].
Qed.

(** Whose calls the work is made of. *)
Definition caller (work : Work) : option string :=
  match work with Handling request => request_headers request !! "mbx-cache-namespace" | Flushing => None end.

Definition fulfilled w (work : Work) (outcome : Outcome) : Prop :=
  match work, outcome with
  | Handling request, Responded answer => BlobReads BS -> promised w request answer
  | _, _ => True
  end.

Lemma fulfilled_around work : stable unswept (fun w => fulfilled w work).
Proof. destruct work as [request|]; [|done]. intros w w' [answer|failed]; [|done]. intros Hi Hw Hp Hr. eapply promised_around; [exact Hi|exact Hw|auto]. Qed.

Lemma work_job work w :
  work_ok work -> job_ok unswept (caller work) (fun w' => fulfilled w' work) (work_future work) w.
Proof.
  destruct work as [request|]; cbn [work_ok caller work_future].
  - intros Hu. eapply job_bind; [by apply request_job|]. intros w1 answer _ _ Hp. by apply job_done.
  - intros _. eapply (job_bind _ _ (fun _ _ => True)); [|intros; by apply job_done].
    eapply (job_bind _ _ (fun _ _ => True)); [|intros; apply touch_all_job].
    apply job_await. intros w1 w2 calls _ Hinv [= <- _]. split; [by apply served_aside|done].
Qed.

(** A client without a namespace changes nothing that is seen. *)
Lemma served_worker work w w' : served (Client (caller work)) w w' -> served (worker work) w w'.
Proof.
  destruct work as [request|]; [done|]. intros [Hi Hg Hm Hc Hv]. split; [done..|].
  destruct Hv; try done. by apply ViewSame.
Qed.
End Requests.
