(* ===== verification/InterleavingProofs.v ===== *)
(** * The service keeps its promises between any two calls

    Of one process with any number of requests, flushes and pack uploads under
    way: between any two calls of a request any others may act, a client may go
    away, and the process may end. *)
From stdpp Require Import pretty.
From S2P Require Import Prelude Str Protocol Api Json Model Records Oidc Auth Spool Access.
From S2P Require Import Metrics App Future Pack PackProofs Tree Actions ActionsProofs Blobs BlobsProofs PackUpload.
From S2P Require Import PackUploadProofs PackDownload PackDownloadProofs ReadOnly Results ResultsProofs Service.
From S2P Require Import HandlerFutures FutureProofs Interleaving FutureBalance ServiceProofs FutureSafety.
From S2P Require Import ValidatorSafety HandlerSafety DownloadSafety.

Local Open Scope string_scope.
Local Open Scope mbx_scope.

(** ** Sums over the requests under way *)

Section Totals.
Context `{Protocol} `{Hashes} `{Hex} `{Records} `{!JsonText} `{!Documents} `{!Jwt} `{!AuthJson}.
Context {MS BS : Type} `{!MetadataStore MS} `{!BlobStore BS}.
Implicit Types l : gmap N (Running (MS:=MS) (BS:=BS)).

Definition total (f : Running (MS:=MS) (BS:=BS) -> N) l : N := map_fold (fun _ r n => f r + n)%N 0%N l.

Lemma total_empty f : total f ∅ = 0%N.
Proof. apply map_fold_empty. Qed.

Lemma total_begin f l n r : l !! n = None -> total f (<[n := r]> l) = (f r + total f l)%N.
Proof. intros Hn. unfold total. rewrite map_fold_insert_L; [done|intros; lia|done]. Qed.

Lemma total_delete f l n r : l !! n = Some r -> total f l = (f r + total f (delete n l))%N.
Proof. intros Hn. unfold total. rewrite (map_fold_delete_L _ _ n r); [done|intros; lia|done]. Qed.

Lemma total_replace f l n r r' :
  l !! n = Some r -> total f (<[n := r']> l) = (f r' + total f (delete n l))%N.
Proof. intros Hn. rewrite <-insert_delete_eq. apply total_begin, lookup_delete_eq. Qed.
End Totals.

Section Invariant.
Context `{Protocol} `{HashLaws} `{Hex} `{!ProtocolLaws} `{!HexLaws} `{Records} `{!JsonText} `{!Documents}
  `{!Jwt} `{!AuthJson} `{!Tokio} `{!DebugFormat} `{!Constants} `{!ConstantsLaws} `{!ManifestText}.
Context {MS BS : Type} `{!MetadataStore MS} `{!BlobStore BS}.
Context `{!MetadataLaws MS} `{!BlobLaws BS} {retention : Retention}.
Notation AppState := (AppState (MS:=MS) (BS:=BS)).
Notation Busy := (Busy (MS:=MS) (BS:=BS)).
Notation Running := (Running (MS:=MS) (BS:=BS)).
Implicit Types w : AppState.
Implicit Types s : Busy.

(** Whether the run is one without sweeps. *)
Variable unswept : Prop.

Definition running_ok w (r : Running) : Prop :=
  future_ok unswept (caller (running_work r)) (fun w' => fulfilled unswept w' (running_work r)) (running_future r) w.

Record busy_inv s : Prop := {
  busy_service : service_inv unswept (service s);
  busy_running : map_Forall (fun _ => running_ok (shared (service s))) (running s);
}.

Lemma running_around w w' (l : gmap N Running) :
  store_inv w -> around unswept w w' -> map_Forall (fun _ => running_ok w) l -> map_Forall (fun _ => running_ok w') l.
Proof.
  intros Hinv Hw Hl. eapply map_Forall_impl; [exact Hl|]. intros n r.
  by apply future_ok_around, Hw; [apply fulfilled_around|].
Qed.

Lemma begin_ok work w : work_ok work -> store_inv w -> running_ok w (mkRunning work (work_future work)).
Proof.
  intros Hu Hinv. eapply future_ok_mono; [|by apply work_job]. by intros w' r (_ & _ & ?).
Qed.

(** What a step leaves of the stores. *)
Record busy_kept who s s' : Prop := {
  busy_by_inv : busy_inv s';
  busy_by_grow : objects_grow (shared (service s)) (shared (service s'));
  busy_by_view : view_step who (view (metadata (shared (service s)))) (view (metadata (shared (service s'))));
}.

Lemma busy_kept_served who w w' us l l' :
  served who w w' -> (unswept -> who <> Sweeper) ->
  (map_Forall (fun _ => running_ok w') l -> map_Forall (fun _ => running_ok w') l') ->
  busy_inv (mkBusy (mkService w us) l) -> busy_kept who (mkBusy (mkService w us) l) (mkBusy (mkService w' us) l').
Proof.
  intros Hs Hsw Hl [Hinv Hrun]. split; [split|by eapply srv_grow|by eapply srv_view]; cbn in *.
  - by eapply service_inv_served.
  - apply Hl. eapply running_around; [apply Hinv|by eapply served_around|done].
Qed.

Lemma busy_step_kept who s s' :
  busy_step who s s' -> (unswept -> who <> Sweeper) -> busy_inv s -> busy_kept who s s'.
Proof.
  intros Hstep Hsw Hinv. pose proof Hinv as [Hservice Hrun]. pose proof (service_store _ _ Hservice) as Hst.
  destruct Hstep as [n work [w us] l Hn Hu|n work t w w' t' us l Hn Hturn|n work outcome [w us] l Hn
    |n request X held c k [w us] l Hn|who [w us] [w' us'] l Hstep Hop|[w us] [w' us'] l Hstep]; cbn in Hst.
  - apply busy_kept_served; [by apply served_kept|done| |done]. intros Hl.
    apply map_Forall_insert_2; [by apply begin_ok|done].
  - pose proof (map_Forall_lookup_1 _ _ _ _ Hrun Hn) as Hr. destruct t as [r|X held c k]; [done|].
    cbn in Hturn. destruct (c w) as [w1 x] eqn:Hc. injection Hturn as <- <-.
    unfold running_ok in Hr. cbn in Hr. destruct (Hr w w1 x) as [Hserved Hk]; [reflexivity|done..|].
    apply busy_kept_served; [by apply served_worker|done| |done]. intros Hl. by apply map_Forall_insert_2.
  - apply busy_kept_served; [by apply served_kept|done| |done]. apply map_Forall_delete.
  - apply busy_kept_served; [by apply (served_drop (request_headers request !! _))|done| |done]. apply map_Forall_delete.
  - apply (service_step_kept unswept) in Hstep as Hkept; [|done..]. destruct Hkept as [Hinv' Hg Hv Hs _].
    split; [split|done..]; cbn in *; [done|].
    eapply running_around; [done|eapply served_around; [by apply Hs|done]|done].
  - apply (service_step_kept unswept) in Hstep as Hkept; [|done..]. destruct Hkept as [Hinv' Hg Hv _ _].
    split; [split|done..]; cbn in *; [done|apply map_Forall_empty].
Qed.

Definition busy_allowed (ok : Actor -> Prop) s s' : Prop := exists who, ok who /\ busy_step who s s'.

Lemma busy_run (ok : Actor -> Prop) (P : Busy -> Busy -> Prop) s s' :
  (forall who, ok who -> unswept -> who <> Sweeper) ->
  (forall s1, P s1 s1) -> (forall s1 s2 s3, P s1 s2 -> P s2 s3 -> P s1 s3) ->
  (forall who s1 s2, ok who -> busy_step who s1 s2 -> busy_inv s1 -> busy_kept who s1 s2 -> P s1 s2) ->
  rtc (busy_allowed ok) s s' -> busy_inv s -> busy_inv s' /\ P s s'.
Proof.
  intros Hok Hrefl Htrans HP Hrun. induction Hrun as [|s1 s2 s3 (who & Hwho & Hstep) _ IH]; [done|].
  intros Hinv. apply busy_step_kept in Hstep as Hkept; [|by apply Hok|done].
  destruct IH as [Hinv' HP']; [by apply Hkept|]. split; [done|]. eapply Htrans; [|exact HP']. by eapply HP.
Qed.
End Invariant.

(** ** What the requests under way owe *)

Section Owed.
Context `{Protocol} `{HashLaws} `{Hex} `{!ProtocolLaws} `{!HexLaws} `{Records} `{!JsonText} `{!Documents}
  `{!Jwt} `{!AuthJson} `{!Tokio} `{!DebugFormat} `{!Constants} `{!ConstantsLaws} `{!ManifestText}.
Context {MS BS : Type} `{!MetadataStore MS} `{!BlobStore BS}.
Context `{!MetadataLaws MS} `{!BlobLaws BS} {retention : Retention}.
Notation AppState := (AppState (MS:=MS) (BS:=BS)).
Notation Busy := (Busy (MS:=MS) (BS:=BS)).
Notation Running := (Running (MS:=MS) (BS:=BS)).
Implicit Types w : AppState.
Implicit Types s : Busy.

Definition permits_of (r : Running) : N := owed_permits (owns (running_future r)).
Definition packs_of (r : Running) : N := owed_packs (owns (running_future r)).

(** The permits that uploads and pack uploads hold, and the pack responses
    under way. *)
Definition permits_owed s : N := (held_permits (service s) + total permits_of (running s))%N.
Definition packs_under_way s : N := total packs_of (running s).

Definition books s : SpoolBudget.t * Z :=
  (give (permits_owed s) (spool (shared (service s))), gauge (shared (service s)) - Z.of_N (packs_under_way s))%Z.

Definition all_settled (l : gmap N Running) : Prop := map_Forall (fun _ r => settled (running_future r)) l.

Lemma give_more n m k b b' : give n b' = give m b -> give (n + k) b' = give (m + k) b.
Proof. intros Hg. rewrite (N.add_comm n), (N.add_comm m), <-!give_give. by rewrite Hg. Qed.

Lemma books_running w w' us l n r r' :
  l !! n = Some r -> account (owns (running_future r')) w' = account (owns (running_future r)) w ->
  books (mkBusy (mkService w' us) (<[n := r']> l)) = books (mkBusy (mkService w us) l).
Proof.
  intros Hn. unfold account, books, permits_owed, packs_under_way. intros [= Hp Hg].
  cbn [service shared uploads running].
  rewrite !(total_replace _ _ _ _ r' Hn), !(total_delete _ _ _ r Hn). unfold permits_of at 1 3, packs_of at 1 3.
  unfold held_permits. cbn [uploads]. unfold gauge. f_equal.
  - rewrite !(N.add_comm (foldr _ _ _)), <-!N.add_assoc. by apply give_more.
  - lia.
Qed.

Lemma books_delete w w' us l n r :
  l !! n = Some r -> account nothing_held w' = account (owns (running_future r)) w ->
  books (mkBusy (mkService w' us) (delete n l)) = books (mkBusy (mkService w us) l).
Proof.
  intros Hn. unfold account, books, permits_owed, packs_under_way. intros [= Hp Hg].
  cbn [service shared uploads running]. rewrite !(total_delete _ l n r Hn). unfold permits_of at 2, packs_of at 2.
  unfold held_permits. cbn [uploads]. unfold gauge. f_equal.
  - rewrite (N.add_comm (owed_permits _)), N.add_assoc, (N.add_comm _ (owed_permits _)).
    rewrite <-(N.add_0_l (foldr _ _ _ + _)). by apply give_more.
  - cbn in Hg. lia.
Qed.

Lemma busy_step_settled who s s' : busy_step who s s' -> all_settled (running s) -> all_settled (running s').
Proof.
  intros Hstep Hall. destruct Hstep as [n work s l Hn Hu|n work t w w' t' us l Hn Hturn|n work outcome s l Hn
    |n request X held c k s l Hn|who s s' l Hstep Hop|s s' l Hstep]; cbn in *; try done.
  - apply map_Forall_insert_2; [|done]. cbn. by apply balanced_settled with nothing_held, work_balanced.
  - apply map_Forall_insert_2; [|done]. cbn. apply (map_Forall_lookup_1 _ _ _ _ Hall) in Hn. by eapply settled_turn.
  - by apply map_Forall_delete.
  - by apply map_Forall_delete.
Qed.

Lemma busy_step_books unswept who s s' :
  busy_step who s s' -> who <> Operator -> (unswept -> who <> Sweeper) -> busy_inv unswept s ->
  all_settled (running s) -> books s' = books s.
Proof.
  intros Hstep Hop Hsw Hinv Hall. destruct Hstep as [n work [w us] l Hn Hu|n work t w w' t' us l Hn Hturn
    |n work outcome [w us] l Hn|n request X held c k [w us] l Hn|who [w us] [w' us'] l Hstep _|]; [..|done].
  - unfold books, permits_owed, packs_under_way. cbn [service running]. rewrite !total_begin by done.
    unfold permits_of at 1, packs_of at 1. cbn [running_future].
    destruct (balanced_settled _ _ (work_balanced (MS:=MS) (BS:=BS) work)) as [<- _]. done.
  - apply (map_Forall_lookup_1 _ _ _ _ Hall) in Hn as Hset. apply (settled_turn _ _ _ _ Hset) in Hturn as [_ Ha].
    by eapply books_running.
  - by eapply books_delete; [exact Hn|].
  - eapply books_delete; [exact Hn|]. apply account_drop.
  - apply (service_step_gauge who) in Hstep as Hg; [|done].
    apply (service_step_kept unswept) in Hstep as [_ _ _ _ Hp]; [|done|apply Hinv].
    unfold books. cbn [service shared] in *. rewrite Hg. f_equal. unfold permits_owed. cbn [service running].
    by apply give_more, Hp.
Qed.
End Owed.

(** ** Runs *)

Section Runs.
Context `{Protocol} `{HashLaws} `{Hex} `{!ProtocolLaws} `{!HexLaws} `{Records} `{!JsonText} `{!Documents}
  `{!Jwt} `{!AuthJson} `{!Tokio} `{!DebugFormat} `{!Constants} `{!ConstantsLaws} `{!ManifestText}.
Context {MS BS : Type} `{!MetadataStore MS} `{!BlobStore BS}.
Context `{!MetadataLaws MS} `{!BlobLaws BS} {retention : Retention}.
Notation AppState := (AppState (MS:=MS) (BS:=BS)).
Notation Busy := (Busy (MS:=MS) (BS:=BS)).
Notation Running := (Running (MS:=MS) (BS:=BS)).
Implicit Types s : Busy.

(** A process that has just started on stores in order. *)
Definition fresh s : Prop := started (service s) /\ running s = ∅.

Lemma fresh_busy unswept s : fresh s -> busy_inv unswept s.
Proof. intros [Hs Hr]. split; [by apply started_inv|]. rewrite Hr. apply map_Forall_empty. Qed.

Definition seen s := view (metadata (shared (service s))).
Definition stored s := objects (blobs (shared (service s))).

(** What any run leaves. *)
Lemma any_run_kept s s' :
  fresh s -> rtc any_busy_step s s' ->
  store_inv (shared (service s')) /\ objects_grow (shared (service s)) (shared (service s')).
Proof.
  intros Hstart Hrun.
  destruct (busy_run False (fun _ => True) (fun s1 s2 => objects_grow (shared (service s1)) (shared (service s2))) s s')
    as [[Hinv _] Hgrow]; [done|by intros|by intros; etransitivity| | |by apply fresh_busy|].
  - intros who s1 s2 _ _ _ Hk. by eapply busy_by_grow.
  - eapply rtc_subrel; [|exact Hrun]. intros x y [who Hstep]. by exists who.
  - split; [exact (service_store _ _ Hinv)|done].
Qed.

(** Whatever clients, background tasks, sweeps and restarts do, with every
    request cut into its calls and these interleaved in any order, clients going
    away between any two, and with any failures: what is stored under a digest
    matches it, what a namespace sees has a valid digest and, where objects are
    retained, is stored, and a stored object is then never changed or lost. *)
Theorem calls_interleave_safely s s' (Hstart : fresh s) (Hrun : rtc any_busy_step s s') :
  (forall d content, digest_validate d = Ok tt -> stored s' d = Some content -> content_matches d content) /\
  (forall ns d, view_blob (seen s') ns d = true -> digest_validate d = Ok tt /\
     (retains -> is_Some (stored s' d))) /\
  (retains -> forall d content, digest_validate d = Ok tt -> stored s d = Some content ->
     stored s' d = Some content).
Proof.
  apply any_run_kept in Hrun as [[_ Hcontent Hvalid _ Hstored] Hgrow]; [|done].
  split; [done|]. split; [by eauto|]. intros Hk d c. by apply grow_kept.
Qed.

(** An answer is kept. However the calls of all requests interleave, no sweep
    running: once a request has been answered, and whatever has happened since,
    what was uploaded matches its digest, is stored and visible; what was served
    matches; what was not reported missing is there; a result that was served or
    accepted is the recorded one, and one that was accepted rests on a
    descriptor, metadata and a tree that are complete and in sight; and a pack
    that was sent to its end is one pack of requested blobs. *)
Theorem answers_are_kept `{!BlobReads BS} s s' n request answer (Hstart : fresh s)
    (Hrun : rtc (busy_allowed (fun who => who <> Sweeper)) s s')
    (Hanswer : running s' !! n = Some (mkRunning (Handling request) (Done (Responded answer)))) :
  promised True (shared (service s')) request answer.
Proof.
  eapply (busy_run True _ (fun _ _ => True)) in Hrun as [Hinv _]; [|done|done|done|done|by apply fresh_busy].
  exact (map_Forall_lookup_1 _ _ _ _ (busy_running _ _ Hinv) Hanswer _).
Qed.

(** As long as no sweep runs, nothing is taken from any namespace: between
    any two calls, a blob that was visible stays visible, where objects are
    retained, and a committed action result stays as it was committed. *)
Theorem nothing_is_taken s s' (Hstart : fresh s) (Hrun : rtc (busy_allowed (fun who => who <> Sweeper)) s s') :
  (retains -> forall ns d, view_blob (seen s) ns d = true -> view_blob (seen s') ns d = true) /\
  (forall ns d r, view_result (seen s) ns d = Some r -> view_result (seen s') ns d = Some r).
Proof.
  set (P := fun s1 s2 => (retains -> forall ns d, view_blob (seen s1) ns d = true -> view_blob (seen s2) ns d = true) /\
    (forall ns d r, view_result (seen s1) ns d = Some r -> view_result (seen s2) ns d = Some r)).
  eapply (busy_run True _ P) in Hrun as [_ HP]; [exact HP|done|by split| | |by apply fresh_busy].
  - intros s1 s2 s3 [A B] [A' B']. split; auto.
  - intros who s1 s2 Hwho _ _ Hk. apply busy_by_view in Hk. by apply view_step_keeps in Hk.
Qed.

(** A namespace belongs to the clients authorized for it: while only the
    calls of others run, and no sweep, it sees the blobs, results and manifests
    it saw, none gone, none new and none changed. *)
Theorem namespaces_stay_apart ns s s' (Hstart : fresh s)
    (Hrun : rtc (busy_allowed (fun who => who <> Client (Some ns) /\ who <> Sweeper)) s s') :
  forall d, view_blob (seen s') ns d = view_blob (seen s) ns d /\
    view_result (seen s') ns d = view_result (seen s) ns d /\
    view_manifest (seen s') ns d = view_manifest (seen s) ns d.
Proof.
  set (P := fun s1 s2 => forall d, view_blob (seen s2) ns d = view_blob (seen s1) ns d /\
    view_result (seen s2) ns d = view_result (seen s1) ns d /\
    view_manifest (seen s2) ns d = view_manifest (seen s1) ns d).
  eapply (busy_run False _ P) in Hrun as [_ HP]; [exact HP|done|by split| | |by apply fresh_busy].
  - intros s1 s2 s3 A B d. destruct (A d) as (? & ? & ?), (B d) as (? & ? & ?). split_and!; congruence.
  - intros who s1 s2 [Hne Hsw] _ _ Hk d. apply busy_by_view in Hk. by eapply view_step_elsewhere.
Qed.

Lemma books_run s s' :
  fresh s -> rtc (busy_allowed (fun who => who <> Operator)) s s' -> books s' = books s.
Proof.
  intros Hstart Hrun.
  assert (all_settled (running s)) as Hall by (rewrite (proj2 Hstart); apply map_Forall_empty).
  pose proof (fresh_busy False _ Hstart) as Hinv. clear Hstart.
  induction Hrun as [|s1 s2 s3 (who & Hwho & Hstep) _ IH]; [done|].
  rewrite IH; [by apply (busy_step_books False who)|by eapply busy_step_settled|].
  by apply (busy_step_kept False) in Hstep as [? _ _].
Qed.

Lemma books_idle s : idle s -> books s = (spool (shared (service s)), gauge (shared (service s))).
Proof.
  intros [Hu Hr]. unfold books, permits_owed, packs_under_way, held_permits. rewrite Hu, Hr, !total_empty.
  f_equal; [apply give_0|lia].
Qed.

(** While the process lives the books balance at every moment: the spool's
    free permits and those that uploads and pack uploads hold are the permits it
    started with, and the gauge of packs in flight counts the pack responses
    under way, however requests interleave, fail or are dropped. In particular,
    when nothing is under way, every permit is back and the gauge is where it
    was. *)
Theorem books_balance s s' (Hstart : fresh s) (Hrun : rtc (busy_allowed (fun who => who <> Operator)) s s') :
  give (permits_owed s') (spool (shared (service s'))) = spool (shared (service s)) /\
  gauge (shared (service s')) = (gauge (shared (service s)) + Z.of_N (packs_under_way s'))%Z /\
  (idle s' -> spool (shared (service s')) = spool (shared (service s)) /\
              gauge (shared (service s')) = gauge (shared (service s))).
Proof.
  apply books_run in Hrun; [|done]. destruct Hstart as [[_ _ Hu] Hr].
  rewrite (books_idle s) in Hrun by done. injection Hrun as Hp Hg. split; [done|]. split; [lia|].
  intros Hidle%books_idle. injection Hidle as Hp' Hg'. split; [congruence|lia].
Qed.

(** A request that runs alone, from its beginning to its end. *)
Lemma request_alone request n (w : AppState) us l :
  l !! n = None -> request_u64 request ->
  rtc any_busy_step (mkBusy (mkService w us) l) (mkBusy (mkService (respond request w).1 us) l).
Proof.
  intros Hn Hu. rewrite <-runs_request.
  eapply rtc_l; [eexists; by apply (Begin n (Handling request))|]. cbn [work_future].
  generalize (request_future (MS:=MS) (BS:=BS) request). intros t. revert w.
  induction t as [answer|X held c k IH]; intros w; cbn [bind_all run].
  - apply rtc_once. eexists. pose proof (Finish n (Handling request) (Responded answer) (mkService w us)
      (<[n := mkRunning (Handling request) (Done (Responded answer))]> l) (lookup_insert_eq _ _ _)) as Hend.
    rewrite delete_insert_id in Hend by done. exact Hend.
  - destruct (c w) as [w1 x] eqn:Hc. eapply rtc_l; [|apply (IH x w1)]. eexists.
    pose proof (Turn n (Handling request) _ w w1 (bind_all (k x) (fun answer => Done (Responded answer))) us
      (<[n := mkRunning (Handling request) (bind_all (Call held c k) (fun answer => Done (Responded answer)))]> l)
      (lookup_insert_eq _ _ _)) as Hturn.
    rewrite insert_insert_eq in Hturn. apply Hturn. cbn. by rewrite Hc.
Qed.

(** A pack upload that is answered with a receipt, between whatever calls of
    other requests its steps fell, has landed: as many blobs as it declared and
    as the receipt counts, each matching its digest, stored, and visible to the
    namespace it was uploaded to (no sweep running). *)
Theorem packs_land_beside s s' u c (Hstart : fresh s)
    (Hrun : rtc (busy_allowed (fun who => who <> Sweeper)) s s')
    (Hu : u ∈ uploads (service s')) (Hanswer : phase (upload_request u) = Answered (Ok c)) :
  exists entries,
    N.of_nat (length entries) = upload_blobs u /\ payload_total entries = upload_bytes u /\
    (created c + existing c)%N = upload_blobs u /\
    Forall (fun e => content_matches e.1 e.2 /\ (retains -> is_Some (stored s' e.1) /\
      view_blob (seen s') (upload_namespace u) e.1 = true)) entries.
Proof.
  eapply (busy_run True _ (fun _ _ => True)) in Hrun as [Hinv _]; [|done|done|done|done|by apply fresh_busy].
  exact (answered_landed _ _ _ (busy_service _ _ Hinv) Hu Hanswer).
Qed.
End Runs.

(** ** Every request ends *)

Section Progress.
Context `{Protocol} `{Hashes} `{Hex} `{Records} `{!JsonText} `{!Documents} `{!Jwt} `{!AuthJson}.
Context {MS BS : Type} `{!MetadataStore MS} `{!BlobStore BS}.
Notation AppState := (AppState (MS:=MS) (BS:=BS)).
Notation Running := (Running (MS:=MS) (BS:=BS)).

(** What is under way makes its next call, or is gone. *)
Definition goes_on (now next : option Running) : Prop :=
  exists r, now = Some r /\
    match next with
    | Some r' => running_work r' = running_work r /\ next_future (running_future r') (running_future r)
    | None => True
    end.

(** It is gone before it ended. *)
Definition cut_short (now next : option Running) : Prop :=
  exists work X held (c : AppState -> AppState * X) k,
    now = Some (mkRunning work (Call held c k)) /\ next = None.

(** One piece of work, over time. *)
Variable over_time : nat -> option Running.
Hypothesis stays : forall i r, over_time i = Some r ->
  over_time (S i) = Some r \/ goes_on (over_time i) (over_time (S i)).
Hypothesis goes_on_later : forall i, is_Some (over_time i) ->
  exists j, i <= j /\ (goes_on (over_time j) (over_time (S j)) \/ over_time j = None).

(** Its first turn from now; until then it stays as it is. *)
Lemma next_turn i r :
  over_time i = Some r ->
  exists j, i <= j /\ (forall l, i <= l <= j -> over_time l = Some r) /\ goes_on (over_time j) (over_time (S j)).
Proof.
  intros Hr. destruct (goes_on_later i) as (j & Hij & Hj); [by eexists|]. remember (j - i) as d eqn:Hd.
  assert (forall l, i <= l <= i -> over_time l = Some r) as Hi by (intros l Hl; by assert (l = i) as -> by lia).
  revert i Hr Hij Hd Hi. induction d as [|d IH]; intros i Hr Hij Hd Hi.
  - assert (j = i) as -> by lia. destruct Hj as [Hj|Hj]; [by exists i|congruence].
  - destruct (stays _ _ Hr) as [Hr'|Ht]; [|by exists i].
    destruct (IH (S i) Hr') as (j' & ? & Hl & ?); [lia..|intros l Hl; by assert (l = S i) as -> by lia|].
    exists j'. split; [lia|]. split; [|done]. intros l Hle.
    destruct (decide (l = i)) as [->|]; [done|]. apply Hl. lia.
Qed.

(** It has ended, or is gone at the next moment. *)
Definition over (work : Work) (j : nat) : Prop :=
  (exists outcome, over_time j = Some (mkRunning work (Done outcome))) \/ cut_short (over_time j) (over_time (S j)).

Lemma one_turn i work t :
  over_time i = Some (mkRunning work t) ->
  exists j, i <= j /\ (forall l, i <= l < j -> over_time (S l) = over_time l) /\
    (over work j \/ exists t', next_future t' t /\ over_time (S j) = Some (mkRunning work t')).
Proof.
  intros Hr. destruct t as [outcome|X held c k].
  { exists i. split; [done|]. split; [lia|]. left. left. by exists outcome. }
  destruct (next_turn i _ Hr) as (j & Hij & Hl & (r & Hr1 & Hnext)).
  rewrite Hl in Hr1 by lia. injection Hr1 as <-. exists j. split; [done|].
  split; [intros l Hle; rewrite !Hl by lia; done|].
  destruct (over_time (S j)) as [[work' t']|] eqn:Hj.
  - cbn in Hnext. destruct Hnext as [-> Hnext]. right. by exists t'.
  - left. right. rewrite Hl, Hj by lia. by exists work, X, held, c, k.
Qed.

Lemma ends i r : over_time i = Some r -> exists j, i <= j /\ over (running_work r) j.
Proof.
  destruct r as [work t]. cbn. revert i. induction t as [t IH] using (well_founded_induction next_task_wf).
  intros i Hr. destruct (one_turn _ _ _ Hr) as (j & Hij & _ & [Hend|(t' & Hnext & Hr')]); [by exists j|].
  destruct (IH t' Hnext (S j) Hr') as (j' & Hle & Hend). exists j'. split; [lia|done].
Qed.

(** At most [n] moments at which it does not stay as it is. *)
Lemma ends_at_most n i work t :
  at_most n t -> over_time i = Some (mkRunning work t) ->
  exists j turns, i <= j /\ over work j /\ length turns <= n /\
    (forall l, i <= l < j -> over_time (S l) = over_time l \/ l ∈ turns).
Proof.
  revert i t. induction n as [|n IH]; intros i t Hn Hr;
    destruct (one_turn _ _ _ Hr) as (j & Hij & Hl & [Hend|(t' & Hnext & Hr')]).
  1, 3: exists j, []; split_and!; [done|done|cbn; lia|by auto].
  { by destruct (at_most_next _ _ _ Hn Hnext) as (m & Hm & _). }
  destruct (at_most_next _ _ _ Hn Hnext) as (m & Hm & Hn'). injection Hm as <-.
  destruct (IH _ _ Hn' Hr') as (j' & turns & Hle & Hend & Hlen & Hturns).
  exists j', (j :: turns). split_and!; [lia|done|cbn; lia|]. intros l Hll.
  destruct (decide (l < j)); [left; apply Hl; lia|]. destruct (decide (l = j)) as [->|]; [right; left|].
  destruct (Hturns l) as [|Hin]; [lia|by left|right; by right].
Qed.
End Progress.

Section Liveness.
Context `{Protocol} `{Hashes} `{Hex} `{Records} `{!JsonText} `{!Documents} `{!Jwt} `{!AuthJson} `{!Tokio}
  `{!DebugFormat} `{!Constants} `{!ManifestText}.
Context {MS BS : Type} `{!MetadataStore MS} `{!BlobStore BS}.
Notation Busy := (Busy (MS:=MS) (BS:=BS)).
Implicit Types s : Busy.

(** A step that is the turn of request [n]: its next call, or its end. *)
Definition turn_of (n : N) s s' : Prop := goes_on (running s !! n) (running s' !! n).

(** Request [n] went away before it was answered. *)
Definition dropped_at (n : N) s s' : Prop := cut_short (running s !! n) (running s' !! n).

(** Every other step leaves a request under way as it is. *)
Lemma busy_step_turn who s s' n r :
  busy_step who s s' -> running s !! n = Some r -> running s' !! n = Some r \/ turn_of n s s'.
Proof.
  intros Hstep Hr. unfold turn_of, goes_on.
  destruct Hstep as [n' work s l Hn Hu|n' work t w w' t' us l Hn Hturn|n' work outcome s l Hn
    |n' request X held c k s l Hn|who s s' l Hstep Hop|s s' l Hstep]; cbn in *; [|..|by left|].
  - left. rewrite lookup_insert_ne; [done|]. congruence.
  - destruct (decide (n' = n)) as [->|Hne]; [right|left; by rewrite lookup_insert_ne].
    eexists. split; [exact Hn|]. rewrite lookup_insert_eq. split; [done|]. by exists w, w'.
  - destruct (decide (n' = n)) as [->|Hne]; [right|left; by rewrite lookup_delete_ne].
    exists r. split; [done|]. by rewrite lookup_delete_eq.
  - destruct (decide (n' = n)) as [->|Hne]; [right|left; by rewrite lookup_delete_ne].
    exists r. split; [done|]. by rewrite lookup_delete_eq.
  - right. exists r. split; [done|]. by rewrite lookup_empty.
Qed.

(** Under every schedule in which whatever is under way keeps getting turns (a
    store answers at last), a request is answered or goes away: each of its
    calls is followed by finitely many more, whatever the others do to the state
    in between. *)
Theorem requests_end (schedule : nat -> Busy) n i r
    (Hsteps : forall j, any_busy_step (schedule j) (schedule (S j)))
    (Hfair : forall j, is_Some (running (schedule j) !! n) -> exists j', j <= j' /\
      (turn_of n (schedule j') (schedule (S j')) \/ running (schedule j') !! n = None))
    (Hr : running (schedule i) !! n = Some r) :
  exists j, i <= j /\
    ((exists outcome, running (schedule j) !! n = Some (mkRunning (running_work r) (Done outcome))) \/
     dropped_at n (schedule j) (schedule (S j))).
Proof.
  apply (ends (fun j => running (schedule j) !! n)); [|done..].
  intros j r' Hr'. destruct (Hsteps j) as [who Hstep]. by eapply busy_step_turn.
Qed.
End Liveness.
