(* ===== verification/Fleet.v ===== *)
(** * Replicas over the same stores (README.md, "Run multiple stateless replicas"; src/main.rs)

    Several processes serve from one metadata database and one object store,
    and share nothing else: each has its own spool, metrics, keys, pending
    accesses and requests under way. A step of the fleet is a step of one
    replica on the stores as they are by then, a replica that starts or is
    gone, the sweep, which [main] runs as a process that serves nothing, or an
    expiry: the object store's lifecycle policy takes objects away, whatever
    replicas are in the middle of (README.md, "Bounding storage"). *)
From S2P Require Import Prelude Str Protocol Api Json Model Records Oidc Auth Spool Access.
From S2P Require Import Metrics App Future Pack Tree Actions Blobs PackUpload PackDownload Results Service.
From S2P Require Import HandlerFutures Interleaving.

Local Open Scope string_scope.
Local Open Scope mbx_scope.

Section Fleet.
Context `{Protocol} `{Hashes} `{Hex} `{Records} `{!JsonText} `{!Documents} `{!Jwt} `{!AuthJson} `{!Tokio}
  `{!DebugFormat} `{!Constants} `{!ManifestText}.
Context {MS BS : Type} `{!MetadataStore MS} `{!BlobStore BS} `{!BlobLaws BS}.
Notation AppState := (AppState (MS:=MS) (BS:=BS)).
Notation Service := (Service (MS:=MS) (BS:=BS)).
Notation Busy := (Busy (MS:=MS) (BS:=BS)).

(** What all share. *)
Record Stores := mkStores { database : MS; bucket : BS }.

Definition stores_of (s : Busy) : Stores :=
  mkStores (metadata (shared (service s))) (blobs (shared (service s))).

(** A replica's state holds the stores as it left them; others have used them
    since. *)
Definition reach_stores (st : Stores) (w : AppState) : AppState :=
  set_metadata (database st) (set_blobs (bucket st) w).
Definition reaching (st : Stores) (s : Busy) : Busy :=
  mkBusy (on_shared (reach_stores st) (service s)) (running s).

Record Fleet := mkFleet { stores : Stores; replicas : gmap N Busy }.

(** A process that [main] has started. *)
Definition new_replica (st : Stores) (authorizer : Authorizer) (max_blob concurrency max_spool : N) : Busy :=
  mkBusy (mkService (new_app_state (bucket st) (database st) authorizer max_blob concurrency max_spool) []) ∅.

Inductive fleet_step : Actor -> Fleet -> Fleet -> Prop :=
  | Within i who st l s s' :
      l !! i = Some s -> busy_step who (reaching st s) s' ->
      fleet_step who (mkFleet st l) (mkFleet (stores_of s') (<[i := s']> l))
  | Join i authorizer max_blob concurrency max_spool st l :
      l !! i = None -> (2 * max_blob < u64_modulus)%N ->
      fleet_step Operator (mkFleet st l)
        (mkFleet st (<[i := new_replica st authorizer max_blob concurrency max_spool]> l))
  | Leave i st l : fleet_step Operator (mkFleet st l) (mkFleet st (delete i l))
  | SweepDatabase days st l :
      fleet_step Sweeper (mkFleet st l) (mkFleet (mkStores (sweep days (database st)).1 (bucket st)) l)
  | Expire b st l :
      (forall d, digest_validate d = Ok tt -> objects b d = objects (bucket st) d \/ objects b d = None) ->
      fleet_step Lifecycle (mkFleet st l) (mkFleet (mkStores (database st) b) l).

Definition any_fleet_step (f f' : Fleet) : Prop := exists who, fleet_step who f f'.
Definition fleet_allowed (ok : Actor -> Prop) (f f' : Fleet) : Prop := exists who, ok who /\ fleet_step who f f'.

(** What a replica is, with the stores it reaches. *)
Definition replica (f : Fleet) (i : N) : option Busy := reaching (stores f) <$> replicas f !! i.

(** Nothing is under way anywhere. *)
Definition at_rest (f : Fleet) : Prop := map_Forall (fun _ => idle) (replicas f).
End Fleet.
