(* ===== verification/FleetProofs.v ===== *)
(** * Many replicas keep the service's promises

    What holds of one process with its requests interleaved holds of any number
    of them over the same stores, started and stopped at any time. *)
From S2P Require Import Prelude Str Protocol Api Json Model Records Oidc Auth Spool Access.
From S2P Require Import Metrics App Future Pack PackProofs Tree Actions ActionsProofs Blobs BlobsProofs PackUpload.
From S2P Require Import PackUploadProofs PackDownload PackDownloadProofs ReadOnly ExpiryProofs Results ResultsProofs Service.
From S2P Require Import HandlerFutures FutureProofs FutureTermination Interleaving FutureBalance ServiceProofs FutureSafety.
From S2P Require Import ValidatorSafety HandlerSafety DownloadSafety InterleavingProofs Fleet.

Local Open Scope string_scope.
Local Open Scope mbx_scope.

Section Invariant.
Context `{Protocol} `{HashLaws} `{Hex} `{!ProtocolLaws} `{!HexLaws} `{Records} `{!JsonText} `{!Documents}
  `{!Jwt} `{!AuthJson} `{!Tokio} `{!DebugFormat} `{!Constants} `{!ConstantsLaws} `{!ManifestText}.
Context {MS BS : Type} `{!MetadataStore MS} `{!BlobStore BS}.
Context `{!MetadataLaws MS} `{!BlobLaws BS} {retention : Retention}.
Notation AppState := (AppState (MS:=MS) (BS:=BS)).
Notation Busy := (Busy (MS:=MS) (BS:=BS)).
Notation Fleet := (Fleet (MS:=MS) (BS:=BS)).
Notation Stores := (Stores (MS:=MS) (BS:=BS)).
Implicit Types w : AppState.
Implicit Types s : Busy.
Implicit Types f : Fleet.
Implicit Types st : Stores.

Lemma reaching_itself s : reaching (stores_of s) s = s.
Proof. by destruct s as [[[] us] l]. Qed.

(** A process that serves nothing, on the stores. *)
Definition onlooker st : AppState :=
  new_app_state (bucket st) (database st) (mkAuthorizer [] [] false []) 0 0 0.

Definition fleet_view f : MetaView := view (database (stores f)).
Definition fleet_object f : Digest -> option bytes := objects (bucket (stores f)).

(** Whose steps are the same on any state with these stores. *)
Record moved (who : Actor) st st' : Prop := {
  moved_inv : store_inv (onlooker st');
  moved_grow : objects_grow (onlooker st) (onlooker st');
  moved_view : view_step who (view (database st)) (view (database st'));
}.

Lemma store_inv_onlooker w : store_inv w -> store_inv (onlooker (mkStores (metadata w) (blobs w))).
Proof. by intros []. Qed.

Lemma store_inv_reaching st w : store_inv (onlooker st) -> store_inv (reach_stores st w).
Proof. by intros []. Qed.

Lemma moved_served who st st' w :
  moved who st st' -> served who (reach_stores st w) (reach_stores st' w).
Proof. intros [Hi Hg Hv]. split; [by apply store_inv_reaching|done..]. Qed.

(** Whether the run is one without sweeps. *)
Variable unswept : Prop.

(** Where the object store retains objects, its lifecycle policy takes no step. *)
Definition retaining (who : Actor) : Prop := retains -> who <> Lifecycle.

Lemma kept_moved who st s s' :
  busy_kept unswept who (reaching st s) s' -> moved who st (stores_of s').
Proof. intros [Hi Hg Hv]. split; [apply store_inv_onlooker, Hi|done..]. Qed.

Record fleet_inv f : Prop := {
  fleet_stores : store_inv (onlooker (stores f));
  fleet_config : (MAX_BATCH_ITEMS < u64_max)%N;
  fleet_replicas : map_Forall (fun _ s => busy_inv unswept (reaching (stores f) s)) (replicas f);
}.

(** The others see a step of one as any other change of the stores. *)
Lemma reaching_moved who st st' s :
  moved who st st' -> (unswept -> who <> Sweeper) ->
  busy_inv unswept (reaching st s) -> busy_inv unswept (reaching st' s).
Proof.
  intros Hm Hsw Hinv. destruct s as [[w us] l].
  eapply (busy_kept_served _ who (reach_stores st w) (reach_stores st' w) us l l);
    [by apply moved_served|done..].
Qed.

Lemma replicas_moved who st st' (l : gmap N Busy) :
  moved who st st' -> (unswept -> who <> Sweeper) ->
  map_Forall (fun _ s => busy_inv unswept (reaching st s)) l ->
  map_Forall (fun _ s => busy_inv unswept (reaching st' s)) l.
Proof. intros Hm Hsw Hl. eapply map_Forall_impl; [exact Hl|]. intros i s. by eapply reaching_moved. Qed.

Lemma moved_nothing who st : store_inv (onlooker st) -> moved who st st.
Proof. intros Hi. split; [done|reflexivity|by apply ViewSame]. Qed.

Lemma expired_moved st b :
  (forall d, digest_validate d = Ok tt -> objects b d = objects (bucket st) d \/ objects b d = None) ->
  (retains -> False) -> store_inv (onlooker st) -> moved Lifecycle st (mkStores (database st) b).
Proof.
  intros Hb Hno Hi. destruct (expired_inv b (onlooker st)) as [Hi' Hg]; [done..|].
  split; [exact Hi'|exact Hg|by apply ViewSame].
Qed.

Lemma new_replica_inv st authorizer max_blob concurrency max_spool :
  store_inv (onlooker st) -> (MAX_BATCH_ITEMS < u64_max)%N -> (2 * max_blob < u64_modulus)%N ->
  busy_inv unswept (reaching st (new_replica st authorizer max_blob concurrency max_spool)).
Proof.
  intros Hi Hb Hm. apply fresh_busy. split; [|done]. split; [by apply store_inv_reaching|by split|done].
Qed.

Lemma fleet_step_kept who f f' :
  fleet_step who f f' -> (unswept -> who <> Sweeper) -> retaining who -> fleet_inv f ->
  fleet_inv f' /\ moved who (stores f) (stores f').
Proof.
  intros Hstep Hsw Hret [Hst Hc Hall]. destruct Hstep as [i who st l s s' Hi Hstep
    |i authorizer max_blob concurrency max_spool st l Hi Hmax|i st l|days st l|b st l Hb]; cbn in *.
  - apply (busy_step_kept unswept) in Hstep as Hk; [|done|by apply (map_Forall_lookup_1 _ _ _ _ Hall Hi)].
    apply kept_moved in Hk as Hm. split; [|done]. split; cbn; [apply Hm|done|].
    apply map_Forall_insert_2; [rewrite reaching_itself; apply Hk|by eapply replicas_moved].
  - split; [|by apply moved_nothing]. split; cbn; [done..|].
    apply map_Forall_insert_2; [by apply new_replica_inv|done].
  - split; [|by apply moved_nothing]. split; cbn; [done..|]. by apply map_Forall_delete.
  - destruct (sweep_served days (onlooker st) Hst) as [[Hi Hg _ _ Hv] _].
    assert (sweep_once days (onlooker st) = onlooker (mkStores (sweep days (database st)).1 (bucket st))) as Heq.
    { unfold sweep_once, on_metadata. cbn. by destruct (sweep days (database st)). }
    rewrite Heq in Hi, Hg, Hv. assert (moved Sweeper st (mkStores (sweep days (database st)).1 (bucket st))) by done.
    split; [|done]. split; cbn; [done..|]. by eapply replicas_moved.
  - assert (moved Lifecycle st (mkStores (database st) b)) as Hm.
    { apply expired_moved; [done| |done]. intros Hk. by apply Hret. }
    split; [|done]. split; cbn; [apply Hm|done|by eapply replicas_moved].
Qed.

Lemma fleet_run (ok : Actor -> Prop) (P : Fleet -> Fleet -> Prop) f f' :
  (forall who, ok who -> (unswept -> who <> Sweeper) /\ retaining who) ->
  (forall f1, P f1 f1) -> (forall f1 f2 f3, P f1 f2 -> P f2 f3 -> P f1 f3) ->
  (forall who f1 f2, ok who -> moved who (stores f1) (stores f2) -> P f1 f2) ->
  rtc (fleet_allowed ok) f f' -> fleet_inv f -> fleet_inv f' /\ P f f'.
Proof.
  intros Hok Hrefl Htrans HP Hrun. induction Hrun as [|f1 f2 f3 (who & Hwho & Hstep) _ IH]; [done|].
  intros Hinv. apply fleet_step_kept in Hstep as [Hinv' Hm]; [|by apply Hok..|done].
  destruct IH as [Hinv2 HP']; [done|]. split; [done|]. eapply Htrans; [|exact HP']. by eapply HP.
Qed.
End Invariant.

(** ** Runs *)

Section Runs.
Context `{Protocol} `{HashLaws} `{Hex} `{!ProtocolLaws} `{!HexLaws} `{Records} `{!JsonText} `{!Documents}
  `{!Jwt} `{!AuthJson} `{!Tokio} `{!DebugFormat} `{!Constants} `{!ConstantsLaws} `{!ManifestText}.
Context {MS BS : Type} `{!MetadataStore MS} `{!BlobStore BS}.
Context `{!MetadataLaws MS} `{!BlobLaws BS} {retention : Retention}.
Notation Fleet := (Fleet (MS:=MS) (BS:=BS)).
Implicit Types f : Fleet.

(** A deployment before its first process has started, on stores in order. *)
Record launched f : Prop := {
  launched_stores : store_inv (onlooker (stores f));
  launched_config : (MAX_BATCH_ITEMS < u64_max)%N;
  launched_none : replicas f = ∅;
}.

(** What may happen to a deployment: everything, but an expiry only where the
    object store does not retain objects. *)
Definition deployed_step : relation Fleet := fleet_allowed retaining.

(** What has become of a deployment by some moment of its life. *)
Definition reached f : Prop := exists f0, launched f0 /\ rtc deployed_step f0 f.

Lemma launched_inv unswept f : launched f -> fleet_inv unswept f.
Proof. intros [Hi Hc Hr]. split; [done..|]. rewrite Hr. apply map_Forall_empty. Qed.

Lemma reached_inv f : reached f -> fleet_inv False f.
Proof.
  intros (f0 & Hstart & Hrun).
  by eapply (fleet_run False _ (fun _ _ => True)) in Hrun as [? _]; [|by intros..|apply launched_inv].
Qed.

(** With nothing under way it does not matter what a sweep took before. *)
Lemma at_rest_inv unswept f : reached f -> at_rest f -> fleet_inv unswept f.
Proof.
  intros [Hi Hc Hall]%reached_inv Hrest. split; [done..|]. intros i s Hs.
  destruct (map_Forall_lookup_1 _ _ _ _ Hrest Hs) as [Hu Hr].
  destruct (map_Forall_lookup_1 _ _ _ _ Hall Hs) as [[Hst Hcf _] _].
  apply fresh_busy. by split; [split|].
Qed.

Lemma replica_inv unswept f i s : fleet_inv unswept f -> replica f i = Some s -> busy_inv unswept s.
Proof.
  intros Hinv Hs. apply fmap_Some in Hs as (s0 & Hs0 & ->).
  exact (map_Forall_lookup_1 _ _ _ _ (fleet_replicas _ _ Hinv) Hs0).
Qed.

(** C1. However many replicas serve from the same database and object store, each
    with its requests cut into calls, started, stopped and killed at any time,
    with any sweeps, expiries of objects and failures beside them: what is
    stored under a digest matches it, and what a namespace sees has a valid
    digest. Where the object store retains its objects, what a namespace sees
    is stored, and a stored object is never changed or lost. *)
Theorem replicas_stay_safe f f' (Hstart : launched f) (Hrun : rtc deployed_step f f') :
  (forall d content, digest_validate d = Ok tt -> fleet_object f' d = Some content -> content_matches d content) /\
  (forall ns d, view_blob (fleet_view f') ns d = true ->
     digest_validate d = Ok tt /\ (retains -> is_Some (fleet_object f' d))) /\
  (retains -> forall d content, digest_validate d = Ok tt -> fleet_object f d = Some content ->
     fleet_object f' d = Some content).
Proof.
  set (P := fun f1 f2 => objects_grow (onlooker (stores f1)) (onlooker (stores f2))).
  eapply (fleet_run False _ P) in Hrun as [[[_ Hc Hv _ Hs] _ _] Hg];
    [|by intros|by unfold P|by unfold P; intros; etransitivity|by intros who f1 f2 _ []|by apply launched_inv].
  split; [done|]. split; [by eauto|]. intros Hk d c. by apply (grow_kept _ _ _ _ Hg Hk).
Qed.

(** C2. An answer is kept, whichever replica gave it. From a moment with nothing
    under way on, no sweep running: once a replica has answered a request, and
    whatever it and the others have done since, what was uploaded and what was
    served matches its digest; a result that was served or accepted is the
    recorded one; and a pack that was sent to its end is one pack of requested
    blobs. Where objects are retained, what was uploaded, served or not reported
    missing is also stored and visible, and an accepted result rests on a
    descriptor, metadata and a tree that are complete and in sight. (The store's
    reads are whole; Azure's are while no copy is pending.) *)
Theorem replicas_keep_answers `{!BlobReads BS} f f' i s n request answer (Hreached : reached f) (Hrest : at_rest f)
    (Hrun : rtc (fleet_allowed (fun who => who <> Sweeper /\ retaining who)) f f') (Hs : replica f' i = Some s)
    (Hanswer : running s !! n = Some (mkRunning (Handling request) (Done (Responded answer)))) :
  promised True (shared (service s)) request answer.
Proof.
  eapply (fleet_run True _ (fun _ _ => True)) in Hrun as [Hinv _]; [|by intros who []|done..|by apply at_rest_inv].
  exact (map_Forall_lookup_1 _ _ _ _ (busy_running _ _ (replica_inv _ _ _ _ Hinv Hs)) Hanswer _).
Qed.

(** C3. A namespace belongs to the clients authorized for it, whichever replica they
    speak to: from any moment on, while only the calls of others run, and no
    sweep, it sees the blobs, results and manifests it saw, none gone, none new
    and none changed, even as objects expire and others forget their rows. *)
Theorem replicas_stay_apart ns f f' (Hreached : reached f)
    (Hrun : rtc (fleet_allowed (fun who => who <> Client (Some ns) /\ who <> Sweeper /\ retaining who)) f f') :
  forall d, view_blob (fleet_view f') ns d = view_blob (fleet_view f) ns d /\
    view_result (fleet_view f') ns d = view_result (fleet_view f) ns d /\
    view_manifest (fleet_view f') ns d = view_manifest (fleet_view f) ns d.
Proof.
  set (P := fun f1 f2 => forall d, view_blob (fleet_view f2) ns d = view_blob (fleet_view f1) ns d /\
    view_result (fleet_view f2) ns d = view_result (fleet_view f1) ns d /\
    view_manifest (fleet_view f2) ns d = view_manifest (fleet_view f1) ns d).
  eapply (fleet_run False _ P) in Hrun as [_ HP]; [exact HP|by intros who (_ & _ & ?)|by split| | |by apply reached_inv].
  - intros f1 f2 f3 A B d. destruct (A d) as (? & ? & ?), (B d) as (? & ? & ?). split_and!; congruence.
  - intros who f1 f2 (Hne & Hsw & _) Hm d. apply moved_view in Hm. by eapply view_step_elsewhere.
Qed.

(** C4. As long as no sweep runs, nothing is taken from any namespace: from any
    moment on, a committed action result stays as it was committed, and, where
    objects are retained, a blob that was visible stays visible; only a blob
    whose object expired is forgotten. *)
Theorem replicas_take_nothing f f' (Hreached : reached f)
    (Hrun : rtc (fleet_allowed (fun who => who <> Sweeper /\ retaining who)) f f') :
  (retains -> forall ns d, view_blob (fleet_view f) ns d = true -> view_blob (fleet_view f') ns d = true) /\
  (forall ns d r, view_result (fleet_view f) ns d = Some r -> view_result (fleet_view f') ns d = Some r).
Proof.
  set (P := fun f1 f2 =>
    (retains -> forall ns d, view_blob (fleet_view f1) ns d = true -> view_blob (fleet_view f2) ns d = true) /\
    (forall ns d r, view_result (fleet_view f1) ns d = Some r -> view_result (fleet_view f2) ns d = Some r)).
  eapply (fleet_run False _ P) in Hrun as [_ HP]; [exact HP|by intros who []|by split| | |by apply reached_inv].
  - intros f1 f2 f3 [A B] [A' B']. split; auto.
  - intros who f1 f2 [Hwho _] Hm. apply moved_view in Hm. by apply view_step_keeps in Hm.
Qed.

(** C5. A pack upload that a replica answers with a receipt, between whatever it and
    the other replicas do meanwhile, has landed: as many blobs as it declared
    and as the receipt counts, each matching its digest and, where objects are
    retained, stored and visible to the namespace it was uploaded to (no sweep
    running). *)
Theorem replicas_land_packs f f' i s u c (Hreached : reached f) (Hrest : at_rest f)
    (Hrun : rtc (fleet_allowed (fun who => who <> Sweeper /\ retaining who)) f f') (Hs : replica f' i = Some s)
    (Hu : u ∈ uploads (service s)) (Hanswer : phase (upload_request u) = Answered (Ok c)) :
  exists entries,
    N.of_nat (length entries) = upload_blobs u /\ payload_total entries = upload_bytes u /\
    (created c + existing c)%N = upload_blobs u /\
    Forall (fun e => content_matches e.1 e.2 /\ (retains -> is_Some (fleet_object f' e.1) /\
      view_blob (fleet_view f') (upload_namespace u) e.1 = true)) entries.
Proof.
  eapply (fleet_run True _ (fun _ _ => True)) in Hrun as [Hinv _]; [|by intros who []|done..|by apply at_rest_inv].
  pose proof (answered_landed _ _ _ (busy_service _ _ (replica_inv _ _ _ _ Hinv Hs)) Hu Hanswer) as Hland.
  apply fmap_Some in Hs as (s0 & _ & ->). exact Hland.
Qed.

(** *** Books *)

(** A step in which replica [i] is not started, stopped or killed. *)
Definition spares (i : N) f f' : Prop :=
  exists who, fleet_step who f f' /\ retaining who /\ (who = Operator -> replicas f' !! i = replicas f !! i).

Lemma books_reaching st (s : Busy (MS:=MS) (BS:=BS)) : books (reaching st s) = books s.
Proof. done. Qed.

Lemma fleet_step_books i f f' s :
  spares i f f' -> fleet_inv False f -> replicas f !! i = Some s -> all_settled (running s) ->
  exists s', replicas f' !! i = Some s' /\ books s' = books s /\ all_settled (running s').
Proof.
  intros (who & Hstep & _ & Hsp) [_ _ Hall] Hs Hset. destruct Hstep as [i' who st l s0 s' Hi Hstep
    |i' authorizer max_blob concurrency max_spool st l Hn Hmax|i' st l|days st l|b st l Hb]; cbn in *; [..|by eauto|by eauto].
  - destruct (decide (i' = i)) as [->|Hne]; [|rewrite lookup_insert_ne by done; eauto].
    rewrite Hi in Hs. injection Hs as ->. destruct (decide (who = Operator)) as [->|Hop].
    { rewrite Hsp, Hi by done. eauto. }
    rewrite lookup_insert_eq. exists s'. split; [done|].
    pose proof (map_Forall_lookup_1 _ _ _ _ Hall Hi) as Hinv.
    split; [|by eapply busy_step_settled]. rewrite <-(books_reaching st s). by eapply (busy_step_books False who).
  - rewrite Hsp by done. eauto.
  - rewrite Hsp by done. eauto.
Qed.

Lemma fleet_run_books i f f' s :
  rtc (spares i) f f' -> fleet_inv False f -> replicas f !! i = Some s -> all_settled (running s) ->
  exists s', replicas f' !! i = Some s' /\ books s' = books s.
Proof.
  intros Hrun. revert s. induction Hrun as [f|f1 f2 f3 Hstep _ IH]; intros s Hinv Hs Hset; [eauto|].
  destruct (fleet_step_books _ _ _ _ Hstep Hinv Hs Hset) as (s2 & Hs2 & Hb & Hset2).
  destruct Hstep as (who & Hstep & Hret & _). apply (fleet_step_kept False) in Hstep as [Hinv2 _]; [|done..].
  destruct (IH s2) as (s3 & Hs3 & Hb3); [done..|]. exists s3. split; [done|congruence].
Qed.

(** C6. Each replica's books balance while it lives, whatever the others do,
    restarts of theirs included: from a moment it had nothing under way, its
    spool's free permits and those that its uploads and pack uploads hold are
    the permits it had then, and its gauge of packs in flight counts its pack
    responses under way, however requests interleave, fail or are dropped. In
    particular, whenever it has nothing under way again, every permit is back
    and the gauge is where it was. *)
Theorem replicas_keep_books i f f' s (Hreached : reached f) (Hs : replicas f !! i = Some s) (Hidle : idle s)
    (Hrun : rtc (spares i) f f') :
  exists s', replicas f' !! i = Some s' /\
    give (permits_owed s') (spool (shared (service s'))) = spool (shared (service s)) /\
    gauge (shared (service s')) = (gauge (shared (service s)) + Z.of_N (packs_under_way s'))%Z /\
    (idle s' -> spool (shared (service s')) = spool (shared (service s)) /\
                gauge (shared (service s')) = gauge (shared (service s))).
Proof.
  destruct (fleet_run_books i f f' s) as (s' & Hs' & Hbooks); [done|by apply reached_inv|done| |].
  { rewrite (proj2 Hidle). apply map_Forall_empty. }
  exists s'. split; [done|]. rewrite (books_idle s) in Hbooks by done. injection Hbooks as Hp Hg.
  split; [done|]. split; [lia|]. intros Hagain%books_idle. injection Hagain as Hp' Hg'. split; [congruence|lia].
Qed.
End Runs.

(** ** Every request ends *)

Section Liveness.
Context `{Protocol} `{Hashes} `{Hex} `{Records} `{!JsonText} `{!Documents} `{!Jwt} `{!AuthJson} `{!Tokio}
  `{!DebugFormat} `{!Constants} `{!ManifestText}.
Context {MS BS : Type} `{!MetadataStore MS} `{!BlobStore BS} `{!BlobLaws BS}.
Notation Fleet := (Fleet (MS:=MS) (BS:=BS)).
Implicit Types f : Fleet.

(** What replica [i] has under way as [n]. *)
Definition under_way f (i n : N) : option Running := s ← replicas f !! i; running s !! n.

Lemma fleet_step_turn who f f' i n r :
  fleet_step who f f' -> under_way f i n = Some r ->
  under_way f' i n = Some r \/ goes_on (under_way f i n) (under_way f' i n).
Proof.
  intros Hstep Hr. unfold under_way in *. destruct Hstep as [i' who st l s s' Hs Hstep
    |i' authorizer max_blob concurrency max_spool st l Hn Hmax|i' st l|days st l|b st l Hb]; cbn in *; [..|by left|by left].
  - destruct (decide (i' = i)) as [->|Hne]; [|left; by rewrite lookup_insert_ne].
    rewrite lookup_insert_eq. rewrite Hs in *. cbn in *. by eapply (busy_step_turn who (reaching st s)).
  - left. rewrite lookup_insert_ne; [done|]. intros ->. by rewrite Hn in Hr.
  - destruct (decide (i' = i)) as [->|Hne]; [right|left; by rewrite lookup_delete_ne].
    exists r. split; [done|]. by rewrite lookup_delete_eq.
Qed.

Lemma work_at_most request n :
  call_bound request = Some n -> at_most n (work_future (MS:=MS) (BS:=BS) (Handling request)).
Proof.
  intros Hn%(request_at_most (MS:=MS) (BS:=BS)). cbn [work_future]. rewrite <-(Nat.add_0_r n).
  apply at_most_bind_all; [done|constructor].
Qed.

(** C7. Under every schedule of the fleet in which a request keeps getting turns, it
    is answered, or it goes away with its client or its replica; and it needs no
    more turns than [call_bound] says, whatever its own replica and the others do
    to the stores in between and whatever the stores answer: at every other
    moment until then it stays as it is. (A pack download, whose turns are as many
    as the chunks its blobs come in, has no such bound.) *)
Theorem replicas_answer (schedule : nat -> Fleet) i n j request bound
    (Hsteps : forall k, any_fleet_step (schedule k) (schedule (S k)))
    (Hfair : forall k, is_Some (under_way (schedule k) i n) -> exists k', k <= k' /\
      (goes_on (under_way (schedule k') i n) (under_way (schedule (S k')) i n) \/
       under_way (schedule k') i n = None))
    (Hr : under_way (schedule j) i n = Some (mkRunning (Handling request) (work_future (Handling request))))
    (Hbound : call_bound request = Some bound) :
  exists k turns, j <= k /\
    ((exists outcome, under_way (schedule k) i n = Some (mkRunning (Handling request) (Done outcome))) \/
     cut_short (under_way (schedule k) i n) (under_way (schedule (S k)) i n)) /\
    length turns <= bound /\
    (forall l, j <= l < k -> under_way (schedule (S l)) i n = under_way (schedule l) i n \/ l ∈ turns).
Proof.
  apply (ends_at_most (fun k => under_way (schedule k) i n)) with (work_future (Handling request)); [|done| |done].
  - intros k r' Hr'. destruct (Hsteps k) as [who Hstep]. by eapply fleet_step_turn.
  - by apply work_at_most.
Qed.
End Liveness.
