(* ===== verification/Startup.v ===== *)
(** * Starting the server (src/main.rs)

    [main] up to the router it serves: it opens the metadata, sweeps and exits
    if asked to, and otherwise builds the state of the service. Listening, TLS
    and signals are the runtime's. *)
From S2P Require Import Prelude Str Protocol Api Config Json Model Records Oidc Auth Spool Access.
From S2P Require Import Filesystem ObjectStore Gcs Azure S3 PostgresMetadata Dispatch Metrics App.

Local Open Scope string_scope.
Local Open Scope mbx_scope.

(** What [fetch] and the clock are during [Authorizer::new]. *)
Record Surroundings `{Jwt} := mkSurroundings {
  http_client : result string unit;
  network : nat -> N -> Network;
  clock : nat -> N;
}.
Arguments mkSurroundings {_ _} _ _ _.

Section Startup.
Context `{Protocol} `{Records} `{!Jwt} `{!AuthJson} `{!Tokio} `{!Database} `{!Disk}.
Context `{ObjectPaths} `{SourceFile} {A G T : Type} `{!ObjectStore A} `{!ObjectStore G} `{!S3Client T}.
Context `{!Environment} `{!PostgresMetadata.PgPool} `{!Directories} `{!AzureBuilder A} `{!GcsBuilder G}
  `{!S3Config T}.
Notation AppState := (AppState (MS:=AnyMetadata.t) (BS:=AnyBlobs.t A G T)).

Inductive Started :=
  | Failed (e : StoreError)
  | Swept (metadata : AnyMetadata.t) (swept : result StoreError SweepOutcome)
  | Serving (state : AppState).

Definition or_failed {X} (r : result StoreError X) (k : X -> Started) : Started :=
  match r with Ok x => k x | Err e => Failed e end.

Definition SPOOL_TOO_SMALL : string :=
  "--max-spool-bytes must be 0 or at least --max-blob-bytes, or the largest uploads can never be spooled".

Definition main (s : Surroundings) (config : Config.t) : Started :=
  or_failed (AnyMetadata.from_url (Config.database_url config) (Config.database_max_connections config)
               (Config.database_acquire_timeout config)) (fun metadata =>
  match Config.sweep_metadata_older_than_days config with
  | Some days => let '(metadata, swept) := sweep days metadata in Swept metadata swept
  | None =>
      if negb ((Config.max_spool_bytes config =? 0)%N
               || (Config.max_blob_bytes config <=? Config.max_spool_bytes config)%N)
      then Failed (OtherError SPOOL_TOO_SMALL)
      else
        or_failed (AnyBlobs.from_config config) (fun blobs =>
        or_failed (map_err OtherError
                     (authorizer_new (http_client s) (network s) (clock s) (Config.tokens_json config)
                        (Config.oidc_providers_json config) (Config.allow_anonymous config)
                        (Config.anonymous_read_namespaces_json config))) (fun auth =>
        Serving (new_app_state blobs metadata auth (Config.max_blob_bytes config)
                   (Config.pack_store_concurrency config) (Config.max_spool_bytes config))))
  end).

Lemma or_failed_serving {X} (r : result StoreError X) (k : X -> Started) w :
  or_failed r k = Serving w <-> exists x, r = Ok x /\ k x = Serving w.
Proof. destruct r; cbn; split; [eauto|by intros (? & [= ->] & ?)|done|by intros (? & ? & _)]. Qed.

(** A process that serves was configured to: not asked to sweep, with a budget
    the largest upload fits in, on the stores that were opened. *)
Lemma main_serving s config w :
  main s config = Serving w <->
  Config.sweep_metadata_older_than_days config = None /\
  (Config.max_spool_bytes config = 0%N \/ (Config.max_blob_bytes config <= Config.max_spool_bytes config)%N) /\
  exists m b auth,
    AnyMetadata.from_url (Config.database_url config) (Config.database_max_connections config)
      (Config.database_acquire_timeout config) = Ok m /\
    AnyBlobs.from_config config = Ok b /\
    authorizer_new (http_client s) (network s) (clock s) (Config.tokens_json config)
      (Config.oidc_providers_json config) (Config.allow_anonymous config)
      (Config.anonymous_read_namespaces_json config) = Ok auth /\
    w = new_app_state b m auth (Config.max_blob_bytes config) (Config.pack_store_concurrency config)
          (Config.max_spool_bytes config).
Proof.
  unfold main. rewrite or_failed_serving. split.
  - intros (m & Hm & Hk). destruct (Config.sweep_metadata_older_than_days config) as [days|].
    { by destruct (sweep days m). }
    destruct (negb _) eqn:Hspool; [done|].
    apply negb_false_iff, orb_true_iff in Hspool. rewrite N.eqb_eq, N.leb_le in Hspool.
    apply or_failed_serving in Hk as (b & Hb & Hk). apply or_failed_serving in Hk as (auth & Ha & [= <-]).
    split; [done|]. split; [done|]. exists m, b, auth. split; [done|]. split; [done|]. split; [|done].
    by destruct (authorizer_new _ _ _ _ _ _ _); [injection Ha as ->|].
  - intros (-> & Hspool & m & b & auth & Hm & Hb & Ha & ->). exists m. split; [done|].
    rewrite <-N.eqb_eq, <-N.leb_le, <-orb_true_iff in Hspool. rewrite Hspool. cbn [negb].
    by rewrite Hb, Ha.
Qed.

End Startup.
