(* ===== verification/StartupProofs.v ===== *)
(** * The server, from its configuration on

    [main] composed with the service: on stores in order, the process it
    starts keeps them in order, whatever is asked of it, and leaves them so for
    the next one. *)
From S2P Require Import Prelude Str Protocol Api Config Json Model Records Oidc Auth Spool Access.
From S2P Require Import Filesystem FilesystemProofs ObjectStore Gcs Azure S3 CloudProofs PostgresMetadata Dispatch.
From S2P Require Import Metrics App Pack Tree Actions Blobs BlobsProofs PackUpload PackUploadProofs PackDownload.
From S2P Require Import Results Service ServiceProofs HandlerFutures Interleaving InterleavingProofs Startup.

Local Open Scope string_scope.
Local Open Scope mbx_scope.

(** ** The spool of a started server *)

Lemma div_ceil_u32 size : (div_ceil size 1024 <= u32_max)%N <-> (size <= 1024 * u32_max)%N.
Proof.
  unfold div_ceil. split; intros Hs.
  - pose proof (SpoolBudget.div_ceil_covers size) as Hc. unfold div_ceil in Hc. lia.
  - apply N.lt_succ_r. apply N.Div0.div_lt_upper_bound. lia.
Qed.

Section Spool.
Context `{Tokio} (Hmax : (u32_max <= MAX_PERMITS)%N).

(** An idle budget has room for an upload of at most its size, as long as its
    permits can be counted in 32 bits. *)
Lemma idle_reserve max_bytes size :
  (max_bytes < u64_modulus)%N -> (size <= max_bytes)%N ->
  is_ok (SpoolBudget.reserve (SpoolBudget.new max_bytes) size).2 = (size <=? 1024 * u32_max)%N.
Proof.
  intros Hu Hs. unfold SpoolBudget.new, SpoolBudget.reserve.
  destruct (N.ltb_spec 0 max_bytes) as [Hpos|]; [|by replace size with 0%N by lia].
  pose proof (div_ceil_u32 size) as Hd. pose proof (SpoolBudget.div_ceil_mono size max_bytes Hs) as Hmono.
  destruct (N.leb_spec size (1024 * u32_max)) as [Hle|Hgt].
  - apply Hd in Hle. destruct (N.ltb_spec u32_max (div_ceil size 1024)); [lia|].
    assert (div_ceil size 1024 <= usize_max)%N by (unfold usize_max, u64_max, u64_modulus, u32_max in *; lia).
    assert (div_ceil size 1024 <= N.min (if (div_ceil max_bytes 1024 <=? usize_max)%N
      then div_ceil max_bytes 1024 else usize_max) MAX_PERMITS)%N as Hroom by (case_match; lia).
    apply N.leb_le in Hroom. by rewrite Hroom.
  - destruct (N.ltb_spec u32_max (div_ceil size 1024)) as [|Hn]; [done|]. apply Hd in Hn. lia.
Qed.
End Spool.

Section Server.
Context `{Protocol} `{HashLaws} `{Hex} `{!ProtocolLaws} `{!HexLaws} `{RecordsLaws} `{!JsonText} `{!Documents}
  `{!Jwt} `{!AuthJson} `{!Tokio} `{!DebugFormat} `{!Constants} `{!ConstantsLaws} `{!ManifestText}.
Context `{!Database} `{!Disk} `{!DiskLaws} `{!ObjectPaths} `{!ObjectPathLaws} `{!S3KeyLaws} `{SourceFile} {A G T : Type}.
Context `{!ObjectStore A} `{!ObjectLaws A} `{!ObjectStore G} `{!ObjectLaws G}.
Context `{!S3Client T} `{!S3Laws T}.
Context `{!Environment} `{!PostgresMetadata.PgPool} `{!Directories} `{!AzureBuilder A} `{!GcsBuilder G}
  `{!S3Config T}.
Notation Blobs := (AnyBlobs.t A G T).

(** What happens in the server's own process, on an object store that retains
    its objects. (Expiries are steps of a fleet.) *)
#[local] Instance objects_stay : Retention := True.

(** Stores in order: every object, or copy on its way, is its digest's, and what
    a namespace sees is stored. *)
Definition in_order (m : AnyMetadata.t) (b : Blobs) : Prop :=
  meta_wf m /\
  (forall d c, digest_validate d = Ok tt -> objects b d = Some c -> content_matches d c) /\
  (forall ns d, view_blob (view m) ns d = true -> digest_validate d = Ok tt /\ digest_u64 d /\
     is_Some (objects b d)).

Lemma in_order_inv (w : AppState (MS:=AnyMetadata.t) (BS:=Blobs)) :
  in_order (metadata w) (blobs w) <-> store_inv w.
Proof.
  split; [intros (Hwf & Hc & Hs); split; [done|done|intros; by eapply Hs..|intros _ ? ? ?; by eapply Hs]|].
  intros [Hwf Hc Hv Hu Hs]. split; [done|]. split; [done|]. intros ns d Hvis. split_and!; eauto. by eapply Hs.
Qed.

(** C9. Whatever configuration with a blob limit below 8 EiB the server is started
    with, on the metadata store and the blob store it names, if they are in
    order: it keeps them in order through the calls of all requests, pack
    uploads, flushes, sweeps and restarts, in any order, and loses no object.
    On Azure an object is there from the moment its copy is accepted, pending
    copies included; that it can be read once its put is answered is C36. (What
    expires is taken by the object store: see C1.) *)
Theorem server_stays_in_order s config w s' :
  (MAX_BATCH_ITEMS < u64_max)%N -> (2 * Config.max_blob_bytes config < u64_modulus)%N ->
  main s config = Serving w -> in_order (metadata w) (blobs w) ->
  rtc any_busy_step (mkBusy (mkService w []) ∅) s' ->
  in_order (metadata (shared (service s'))) (blobs (shared (service s'))) /\
  (forall d c, digest_validate d = Ok tt -> objects (blobs w) d = Some c ->
     objects (blobs (shared (service s'))) d = Some c).
Proof.
  intros Hbatch Hblob Hmain Hin Hrun. assert (fresh (mkBusy (mkService w []) ∅)) as Hstart.
  { split; [|done]. split; [by apply in_order_inv| |done]. split; [done|].
    apply main_serving in Hmain as (_ & _ & m & b & auth & _ & _ & _ & ->). exact Hblob. }
  apply any_run_kept in Hrun as [Hinv Hgrow]; [|done]. split; [by apply in_order_inv|].
  intros d c Hd. by apply (grow_kept _ _ _ _ Hgrow).
Qed.

(** C40. The check of [main] does what its message says, up to four TiB: on an idle
    server an upload within the blob limit finds room in the spool, unless it
    is so large that its permits do not fit 32 bits. *)
Theorem largest_uploads_spool s config w size :
  (u32_max <= MAX_PERMITS)%N -> Config.accepted config = true ->
  main s config = Serving w -> (size <= Config.max_blob_bytes config)%N ->
  is_ok (SpoolBudget.reserve (spool w) size).2 = true <->
  Config.max_spool_bytes config = 0%N \/ (size <= 1024 * u32_max)%N.
Proof.
  intros Hmax Hacc Hmain Hsize. apply main_serving in Hmain as (_ & Hspool & m & b & auth & _ & _ & _ & ->).
  cbn [spool new_app_state]. destruct (N.eq_dec (Config.max_spool_bytes config) 0%N) as [->|Hne].
  { split; [by left|done]. }
  assert (Config.max_spool_bytes config < u64_modulus)%N.
  { unfold Config.accepted in Hacc. rewrite !andb_true_iff, !N.ltb_lt in Hacc. tauto. }
  rewrite idle_reserve by (try done; lia). rewrite N.leb_le. naive_solver.
Qed.

(** A server that cannot work as configured does not start. *)
Theorem main_refuses s config :
  Config.sweep_metadata_older_than_days config = None ->
  (0 < Config.max_spool_bytes config < Config.max_blob_bytes config)%N \/
  (Config.storage config = Azure /\ (Config.azure_account config = None \/ Config.azure_container config = None)) \/
  (Config.storage config = Gcs /\ Config.gcs_bucket config = None) \/
  (Config.storage config = S3 /\ Config.s3_bucket config = None) \/
  (Config.database_url config <> "memory://" /\ Config.database_max_connections config = 0%N) ->
  exists e, main (A:=A) (G:=G) (T:=T) s config = Failed e.
Proof.
  intros Hsweep Hbad. destruct (main s config) as [e|m r|w] eqn:Hmain; [by exists e| |].
  { unfold main, or_failed in Hmain. rewrite Hsweep in Hmain. repeat (case_match; try done). }
  apply main_serving in Hmain as (_ & Hspool & m & b & auth & Hm & Hb & _). exfalso.
  unfold AnyBlobs.from_config in Hb. destruct Hbad as [?|[[Hs Ha]|[[Hs Ha]|[[Hs Ha]|[Hu Hc]]]]]; [lia|..].
  - rewrite Hs in Hb. unfold AzureStore.new in Hb. destruct Ha as [Ha|Ha]; rewrite Ha in Hb; [done|].
    by destruct (Config.azure_account config).
  - rewrite Hs in Hb. unfold GcsStore.new in Hb. by rewrite Ha in Hb.
  - rewrite Hs in Hb. unfold S3Store.new in Hb. by rewrite Ha in Hb.
  - unfold AnyMetadata.from_url, PostgresMetadata.connect in Hm. rewrite Hc in Hm.
    by destruct (String.eqb_spec (Config.database_url config) "memory://").
Qed.
End Server.
