(* ===== verification/ConcreteApp.v ===== *)
(** * A concrete service

    Executable instances of every class of the boundary, with their laws, and
    a few sample documents. The example files run the handlers on them. *)
From S2P Require Import Prelude Str Protocol Concrete Api Json Model Records Oidc Auth.
From S2P Require Import AuthExamples MemoryMetadata PostgresMetadata StoreRefinement.
From S2P Require Import Filesystem FilesystemProofs Spool Access Metrics App Actions Results.

Local Open Scope string_scope.
Local Open Scope mbx_scope.

(** An equation checked by evaluating both sides. *)
Ltac evaluate := lazymatch goal with |- _ = ?b => vm_cast_no_check (eq_refl b) end.

(** What a run answers; the state it leaves is never written out. *)
Lemma answers {S A} (run : S * A) a : run.2 = a -> run = (run.1, a).
Proof. by destruct run; intros [= ->]. Qed.

(** ** Encodings *)

(** A number in binary, one byte for each digit below the first. *)
Fixpoint positive_bytes (p : positive) : bytes :=
  match p with
  | xO p => Byte.x00 :: positive_bytes p
  | xI p => Byte.x01 :: positive_bytes p
  | xH => []
  end.
Fixpoint bytes_positive (bs : bytes) : option positive :=
  match bs with
  | [] => Some xH
  | Byte.x00 :: bs => xO <$> bytes_positive bs
  | Byte.x01 :: bs => xI <$> bytes_positive bs
  | _ => None
  end.

Lemma bytes_positive_bytes p : bytes_positive (positive_bytes p) = Some p.
Proof. induction p as [p IH|p IH|]; cbn; by rewrite ?IH. Qed.

Definition encode_bytes `{Countable A} (a : A) : bytes := positive_bytes (encode a).
Definition decode_bytes `{Countable A} (bs : bytes) : option A := bytes_positive bs ≫= decode.

Lemma decode_encode_bytes `{Countable A} (a : A) : decode_bytes (encode_bytes a) = Some a.
Proof. unfold decode_bytes, encode_bytes. rewrite bytes_positive_bytes. cbn. apply decode_encode. Qed.

#[export] Instance ActionResult_countable : Countable ActionResult.
Proof.
  refine (inj_countable'
    (fun r => (result_action r, result_metadata r, output_root r, result_version r))
    (fun '(a, m, o, v) => mkActionResult a m o v) _).
  by intros [].
Defined.

#[local] Existing Instances concrete_numbers.

(** Digests and results as JSON objects. *)
Definition digest_json (d : Digest) : Value :=
  Object [("algorithm", JString (digest_algorithm d)); ("hash", JString (digest_hash d));
          ("size", @JNumber concrete_numbers (digest_size d))].
Definition digest_of_json (v : Value) : option Digest :=
  match v with
  | Object [(_, JString a); (_, JString h); (_, JNumber n)] => Some (mkDigest a h n)
  | _ => None
  end.
Definition optional_json (o : option Digest) : Value :=
  match o with Some d => digest_json d | None => Null end.
Definition optional_of_json (v : Value) : option (option Digest) :=
  match v with Null => Some None | _ => Some <$> digest_of_json v end.

Definition result_json (r : ActionResult) : Value :=
  Object [("action", digest_json (result_action r)); ("metadata", optional_json (result_metadata r));
          ("output_root", optional_json (output_root r));
          ("version", @JNumber concrete_numbers (result_version r))].
Definition result_of_json (v : Value) : option ActionResult :=
  match v with
  | Object [(_, a); (_, m); (_, o); (_, JNumber n)] =>
      a ← digest_of_json a; m ← optional_of_json m; o ← optional_of_json o;
      Some (mkActionResult a m o n)
  | _ => None
  end.

Lemma digest_of_digest_json d : digest_of_json (digest_json d) = Some d.
Proof. by destruct d. Qed.
Lemma optional_of_optional_json o : optional_of_json (optional_json o) = Some o.
Proof. destruct o as [d|]; [|done]. by destruct d. Qed.

(** A manifest is the digest of its selector and a revision. *)
Definition concrete_records : @Records concrete_numbers := {|
  TaskActionManifest := Digest * N;
  manifest_validate m := (0 <? m.2)%N;
  selector_digest := fst;
  canonical_json m := Ok (as_bytes (if (m.2 =? 1)%N then "first manifest" else "later manifest"));
  result_to_vec r := Ok (encode_bytes r);
  result_from_slice bs := ok_or (decode_bytes bs) (OtherError "invalid action result");
  result_to_value r := Ok (result_json r);
  result_from_value v := ok_or (result_of_json v) (OtherError "invalid action result");
  manifest_to_value m := Ok (Array [digest_json m.1; @JNumber concrete_numbers m.2]);
  manifest_from_value v :=
    match v with
    | Array [d; JNumber n] => d <-? ok_or (digest_of_json d) (OtherError "invalid manifest"); Ok (d, n)
    | _ => Err (OtherError "invalid manifest")
    end;
|}.

Lemma concrete_records_laws : @RecordsLaws _ concrete_records.
Proof.
  split; cbn.
  - intros r bs [= <-]. by rewrite decode_encode_bytes.
  - intros [a m o n] v [= <-]. cbn -[digest_of_json digest_json optional_json optional_of_json].
    by rewrite digest_of_digest_json, !optional_of_optional_json.
  - intros [d n] v [= <-]. cbn -[digest_of_json digest_json]. by rewrite digest_of_digest_json.
Qed.

(** ** The database and the disk, working *)

Definition working_database : @Database concrete_numbers := {|
  execution n := mkExec (Z.of_nat n) NoFault;
  jsonb_text v := None;
  jsonb_bigint v :=
    match v with
    | JNumber n => if (n <? 2 ^ 63)%N then Ok (Some (Z.of_N n)) else Err (OtherError "bigint out of range")
    | _ => Ok None
    end;
  database_pool n := mkPoolStats 10 1 1;
|}.

Lemma concrete_result_json_laws : @ResultJsonLaws _ concrete_records working_database.
Proof.
  split; cbn.
  - intros [a [[alg h size]|] o version] _ [= <-]; cbn; [|done].
    eexists. split; [reflexivity|]. repeat split. by eexists.
  - intros [a m [[alg h size]|] version] _ [= <-]; cbn; [|done].
    eexists. split; [reflexivity|]. repeat split. by eexists.
  - intros [] size; cbn; try done. by intros [= ->].
Qed.

(** A file is read in chunks of four bytes. *)
Definition working_disk : Disk := {|
  disk_fault _ := None;
  staging_name n := ".tmp" ++ u64_to_string (N.of_nat n);
  read_stream _ content := map Ok (chunks 4 content);
|}.

Lemma collect_stream_ok (cs : list bytes) : collect_stream (map Ok cs) = (concat cs, Ok tt).
Proof. induction cs as [|c cs IH]; [done|]. cbn. by rewrite IH. Qed.

Lemma working_disk_laws : @DiskLaws working_disk.
Proof.
  split; cbn.
  - intros n. by eexists.
  - intros _ content. unfold streams. rewrite collect_stream_ok.
    by apply PendingAccess.chunks_spec; lia.
Qed.

(** ** Constants and formats *)

Definition concrete_constants : Constants := {|
  PROTOCOL_VERSION := 1;
  PACK_BLOBS_HEADER := "mbx-pack-blobs";
  PACK_BYTES_HEADER := "mbx-pack-bytes";
  ACTION_RESULT_BATCH_MEDIA_TYPE := "application/vnd.mbx.action-results";
  BLOB_PACK_MEDIA_TYPE := "application/vnd.mbx.blob-pack";
  BLOB_PACK_RECEIPT_MEDIA_TYPE := "application/vnd.mbx.blob-pack-receipt";
  TASK_ACTION_MANIFEST_MEDIA_TYPE := "application/vnd.mbx.task-manifest";
|}.

Lemma concrete_constants_laws : @ConstantsLaws concrete_constants.
Proof. split. apply (bool_decide_unpack _). by vm_compute. Qed.

Definition concrete_debug : DebugFormat := {| debug_str s := DQUOTE ++ s ++ DQUOTE |}.

(** ** Documents *)

#[local] Existing Instances concrete_protocol concrete_hex concrete_hashes.

(** The digest of a content. *)
Definition digest_of (content : string) : Digest :=
  mkDigest "blake3" (content_hash Blake3 (as_bytes content)) (N.of_nat (String.length content)).

(** A tree of two directories, one that contains itself, and the descriptor
    and the metadata of a task. *)
Definition file_content : string := "fn main() {}".
Definition leaf_content : string := "leaf directory".
Definition root_content : string := "root directory".
Definition loop_content : string := "loop directory".
Definition task_content : string := "task action".
Definition metadata_content : string := "task metadata".

Definition leaf_directory : Directory :=
  mkDirectory 1 [] [mkFileNode "main.rs" 420 false (digest_of file_content)] [mkSymlinkNode "lib" 511 "main.rs"].
Definition root_directory : Directory :=
  mkDirectory 1 [mkDirectoryNode "src" 493 (digest_of leaf_content)] [] [].
Definition loop_directory : Directory :=
  mkDirectory 1 [mkDirectoryNode "again" 493 (digest_of loop_content)] [] [].

Definition task_action : TaskAction.t :=
  TaskAction.mk 1 "task" "build" Normal [] [] None [] "." "0a" [] ∅ [] ∅ [] "linux" "x86_64".
Definition task_value : Value :=
  Object (map (fun field => (field, if String.eqb field "version" then @JNumber concrete_numbers 1%N else JString field))
            (List.filter (fun field => negb (String.eqb field "kind")) TASK_ACTION_FIELDS)
          ++ [("kind", JString "task")]).
Definition metadata_value : Value :=
  Object [("kind", JString "task"); ("version", @JNumber concrete_numbers 1%N)].

Definition concrete_text : @JsonText concrete_numbers := {|
  value_from_slice bs :=
    if bool_decide (bs = as_bytes task_content) then Ok task_value
    else if bool_decide (bs = as_bytes metadata_content) then Ok metadata_value
    else Err "expected value";
  value_to_vec v :=
    if bool_decide (v = task_value) then Ok (as_bytes task_content)
    else if bool_decide (v = metadata_value) then Ok (as_bytes metadata_content)
    else Err "unsupported value";
|}.

Definition concrete_documents : @Documents _ concrete_text := {|
  directory_from_slice bs :=
    if bool_decide (bs = as_bytes leaf_content) then Ok leaf_directory
    else if bool_decide (bs = as_bytes root_content) then Ok root_directory
    else if bool_decide (bs = as_bytes loop_content) then Ok loop_directory
    else Err "expected value";
  directory_to_vec dir :=
    match directories dir with
    | [] => Ok (as_bytes leaf_content)
    | node :: _ =>
        Ok (as_bytes (if String.eqb (directory_name node) "src" then root_content else loop_content))
    end;
  task_action_from_value v := if bool_decide (v = task_value) then Ok task_action else Err "missing field";
  rustc_action_from_value v := Err "missing field";
  cc_action_from_value v := Err "missing field";
  build_script_action_from_value v := Err "missing field";
  task_metadata_from_value v :=
    if bool_decide (v = metadata_value) then Ok (TaskMetadata.mk 1 "task" "build" ["target"] [] 0 0)
    else Err "missing field";
  build_script_metadata_from_value v := Err "missing field";
  cc_metadata_from_value v := Err "missing field";
  cc_metadata_validate m := true;
  rustc_metadata_from_value v := Err "missing field";
  rustc_metadata_validate m := true;
|}.

(** The manifests of the task, by the revision their text tells. *)
#[local] Existing Instances concrete_records.
Definition task_manifest (revision : N) : TaskActionManifest := (digest_of task_content, revision).
Definition concrete_manifest_text : ManifestText := {|
  manifest_from_slice bs :=
    if bool_decide (bs = as_bytes "first manifest") then Ok (task_manifest 1)
    else if bool_decide (bs = as_bytes "later manifest") then Ok (task_manifest 2)
    else Err "expected value";
|}.
