(* ===== verification/StoreExamples.v ===== *)
(** * Runs of the stores

    The theorems on the metadata stores, the filesystem store and the pending
    accesses, applied to the concrete instances of [ConcreteApp.v]. *)
From S2P Require Import Prelude Str Protocol Concrete Api Json Records Oidc Auth AuthExamples Metadata.
From S2P Require Import MetadataProofs MemoryMetadata PostgresMetadata PostgresProofs.
From S2P Require Import StoreRefinement Filesystem FilesystemProofs Dispatch Access ConcreteApp.

Local Open Scope string_scope.
Local Open Scope mbx_scope.

#[local] Existing Instances concrete_protocol concrete_protocol_laws concrete_hex concrete_hashes
  concrete_numbers concrete_records concrete_records_laws working_database concrete_result_json_laws
  working_disk working_disk_laws.

Definition blob_digest : Digest := digest_of file_content.
Definition action : Digest := digest_of task_content.
Definition selector : Digest := digest_of metadata_content.
Definition first_result : ActionResult := mkActionResult action None (Some blob_digest) 1.
Definition other_result : ActionResult := mkActionResult action (Some blob_digest) None 1.

(** Two clients of one namespace and one of another; a third sees nothing of it. *)
Definition sample_ops : list MetaOp :=
  [OpRegister "team/a" blob_digest PutCreated; OpCommit "team/a" action first_result;
   OpCommit "team/a" action other_result; OpCommit "team/a" action first_result;
   OpGet "team/a" action; OpVisible "team/b" [blob_digest]; OpGetBatch "team/a" [action; selector];
   OpCommitManifest "team/a" selector None "v1" (selector, 1%N);
   OpCommitManifest "team/a" selector None "v2" (selector, 2%N);
   OpCommitManifest "team/a" selector (Some "v1") "v3" (selector, 3%N);
   OpGetManifest "team/a" selector; OpSweep 30].

Definition sample_answers : list (result StoreError MetaAnswer) :=
  [Ok AnsDone; Ok (AnsCommit CommitCreated); Ok (AnsCommit CommitConflict);
   Ok (AnsCommit CommitAlreadyExists); Ok (AnsResult (Some first_result)); Ok (AnsDigests []);
   Ok (AnsResults [first_result]); Ok (AnsManifestCommit ManifestCreated);
   Ok (AnsManifestCommit PreconditionFailed); Ok (AnsManifestCommit ManifestUpdated);
   Ok (AnsManifest (Some (mkManifestRecord "v3" (selector, 3%N))));
   Ok (AnsSwept (mkSweepOutcome 0 0 0))].

Notation memory_end := ((run_ops sample_ops MemoryMetadata.default_store).1).
Notation postgres_end := ((run_ops sample_ops (PostgresMetadata.mk empty_tables 0)).1).

Lemma digest_of_u64 content : (N.of_nat (String.length content) < u64_modulus)%N -> digest_u64 (digest_of content).
Proof. done. Qed.

Lemma sample_ops_u64 : Forall op_u64 sample_ops.
Proof. repeat constructor; by vm_compute. Qed.

Lemma memory_refines_witness :
  run_ops sample_ops MemoryMetadata.default_store = (memory_end, sample_answers) /\
  spec_run empty_view sample_ops sample_answers (MemoryMetadata.view memory_end).
Proof.
  assert (run_ops sample_ops MemoryMetadata.default_store = (memory_end, sample_answers)) as Hrun
    by (apply answers; evaluate).
  split; [exact Hrun|]. exact (proj1 (memory_refines _ _ _ sample_ops_u64 Hrun)).
Defined.

Lemma postgres_refines_witness :
  run_ops sample_ops (PostgresMetadata.mk empty_tables 0) = (postgres_end, sample_answers) /\
  spec_run (view_of empty_tables) sample_ops sample_answers (view_of (PostgresMetadata.tables postgres_end)).
Proof.
  assert (run_ops sample_ops (PostgresMetadata.mk empty_tables 0) = (postgres_end, sample_answers)) as Hrun
    by (apply answers; evaluate).
  split; [exact Hrun|]. exact (proj1 (proj2 (postgres_refines _ 0 _ _ sample_ops_u64 Hrun))).
Defined.

(** ** Any store *)

Definition committed : MemoryMetadata.t :=
  (MemoryMetadata.commit "team/a" action first_result MemoryMetadata.default_store).1.
Definition later_ops : list MetaOp := [OpGet "team/a" action; OpCommit "team/a" action other_result].

Lemma committed_wf : meta_wf committed.
Proof.
  apply map_Forall_insert_2; [|apply map_Forall_empty]. exists first_result. reflexivity.
Qed.

Lemma results_immutable_witness :
  (run_ops later_ops committed).2 = [Ok (AnsResult (Some first_result)); Ok (AnsCommit CommitConflict)] /\
  view_result (view (run_ops later_ops committed).1) "team/a" action = Some first_result.
Proof.
  assert ((run_ops later_ops committed).2 =
    [Ok (AnsResult (Some first_result)); Ok (AnsCommit CommitConflict)]) as Hans by evaluate.
  split; [exact Hans|].
  refine (proj1 (results_immutable committed _ later_ops _ "team/a" action first_result
    committed_wf _ _ (answers _ _ Hans) _)).
  - repeat constructor; by vm_compute.
  - repeat constructor.
  - evaluate.
Defined.

Lemma namespaces_isolated_witness :
  same_namespace "team/c" (view MemoryMetadata.default_store)
    (view (run_ops (take 11 sample_ops) MemoryMetadata.default_store).1).
Proof.
  apply (namespaces_isolated MemoryMetadata.default_store
    (run_ops (take 11 sample_ops) MemoryMetadata.default_store).1 (take 11 sample_ops) (take 11 sample_answers)).
  - exact MemoryMetadata.wf_default.
  - repeat constructor; by vm_compute.
  - apply (bool_decide_unpack _). vm_compute. exact I.
  - apply answers. evaluate.
Defined.

(** A writer that names a stale tag is refused; the manifest is the last accepted
    write. *)
Definition manifest_ops : list MetaOp :=
  [OpCommitManifest "team/a" selector None "v1" (selector, 1%N);
   OpCommitManifest "team/a" selector (Some "v0") "v2" (selector, 2%N);
   OpCommitManifest "team/a" selector (Some "v1") "v3" (selector, 3%N)].
Definition manifest_answers : list (result StoreError MetaAnswer) :=
  [Ok (AnsManifestCommit ManifestCreated); Ok (AnsManifestCommit PreconditionFailed);
   Ok (AnsManifestCommit ManifestUpdated)].
Definition in_memory : AnyMetadata.t := AnyMetadata.Memory MemoryMetadata.default_store.

Lemma in_memory_wf : meta_wf in_memory.
Proof. exact MemoryMetadata.wf_default. Qed.

Lemma manifests_linear_witness :
  (run_ops manifest_ops in_memory).2 = manifest_answers /\
  register_run "team/a" selector None manifest_ops manifest_answers
    (Some (mkManifestRecord "v3" (selector, 3%N))).
Proof.
  assert ((run_ops manifest_ops in_memory).2 = manifest_answers) as Hans by evaluate.
  assert (view_manifest (view (run_ops manifest_ops in_memory).1) "team/a" selector =
    Some (mkManifestRecord "v3" (selector, 3%N))) as Hend by evaluate.
  split; [exact Hans|]. rewrite <-Hend.
  exact (AnyMetadata.manifests_linear in_memory _ manifest_ops _ "team/a" selector in_memory_wf
    ltac:(repeat constructor; by vm_compute) (answers _ _ Hans)).
Defined.

(** ** Postgres *)

(** A result whose output has aged out, and one whose output is still there. *)
Definition aged : PostgresMetadata.t :=
  let at_time t s := PostgresMetadata.mk (PostgresMetadata.tables s) t in
  let s := PostgresMetadata.mk empty_tables 0 in
  let s := (PostgresMetadata.register_blob "team/a" blob_digest PutCreated s).1 in
  (PostgresMetadata.commit "team/a" action first_result s).1.

Notation swept := ((PostgresMetadata.sweep 0 aged).1).

Lemma aged_wf : db_wf (PostgresMetadata.tables aged).
Proof.
  split.
  - apply map_Forall_insert_2; [|apply map_Forall_empty]. split; [by vm_compute|]. by exists first_result.
  - apply map_Forall_insert_2; [by vm_compute|apply map_Forall_empty].
  - apply map_Forall_empty.
Qed.

(** The blob was registered before the sweep's [now], so both rows go. *)
Lemma sweep_leaves_no_dangling_witness :
  PostgresMetadata.sweep 0 aged = (swept, Ok (mkSweepOutcome 1 1 0)) /\
  forall ns a r d, view_result (view_of (PostgresMetadata.tables swept)) ns a = Some r ->
    result_metadata r = Some d \/ output_root r = Some d ->
    view_blob (view_of (PostgresMetadata.tables swept)) ns d = true.
Proof.
  assert (PostgresMetadata.sweep 0 aged = (swept, Ok (mkSweepOutcome 1 1 0))) as Hsweep
    by (apply answers; evaluate).
  split; [exact Hsweep|]. exact (proj1 (sweep_leaves_no_dangling 0 _ _ _ aged_wf Hsweep)).
Defined.

Lemma register_blob_age_witness :
  exists row, PostgresMetadata.namespace_blobs (PostgresMetadata.tables
      (PostgresMetadata.register_blob "team/a" blob_digest PutAlreadyExists aged).1)
    !! PostgresMetadata.key_of "team/a" blob_digest = Some row /\
    PostgresMetadata.created_at row = 0%Z /\ PostgresMetadata.last_accessed_at row = 2%Z.
Proof.
  destruct (register_blob_age "team/a" blob_digest PutAlreadyExists aged
    (PostgresMetadata.register_blob "team/a" blob_digest PutAlreadyExists aged).1 ltac:(apply answers; evaluate))
    as (now & row & Hrow & _ & _).
  exists row. split; [exact Hrow|]. vm_compute in Hrow. injection Hrow as <-. split; reflexivity.
Defined.

(** ** The filesystem *)

Definition empty_disk : FilesystemStore.t := FilesystemStore.mk ∅ 0.
Definition file_path : list string :=
  ["blobs"; "blake3"; "00"; digest_hash blob_digest; "12"].

Lemma path_safe_witness :
  FilesystemStore.path blob_digest = Ok file_path /\ Forall plain_component file_path.
Proof.
  assert (FilesystemStore.path blob_digest = Ok file_path) as Hp by evaluate.
  split; [exact Hp|]. exact (proj1 (proj2 (proj2 (path_safe _ _ Hp)))).
Defined.

Notation filled_disk :=
  ((FilesystemStore.put blob_digest (as_bytes file_content) empty_disk).1).

Lemma put_then_get_witness :
  exists blob, (FilesystemStore.get blob_digest filled_disk).2 = Ok (Some blob) /\ blob_size blob = 12%N /\
    (collect_stream (blob_stream blob)).1 = as_bytes file_content.
Proof.
  set (blob := mkBlob 12 (map Ok [as_bytes "fn m"; as_bytes "ain("; as_bytes ") {}"])).
  exists blob. split; [evaluate|].
  destruct (put_then_get blob_digest (as_bytes file_content) empty_disk filled_disk
    (FilesystemStore.get blob_digest filled_disk).1 PutCreated blob ltac:(apply answers; evaluate) ltac:(apply answers; evaluate))
    as (_ & stored & _ & Hnew & _ & _ & _ & Hall).
  split; [reflexivity|]. rewrite (Hall eq_refl). exact (proj1 (Hnew ltac:(evaluate))).
Defined.

(** Two uploads of the same blob; the second one stages first and loses. *)
Definition both_done : FilesystemStore.Puts :=
  FilesystemStore.mkPuts (<[file_path := as_bytes "a"]> ∅)
    (<[2 := FilesystemStore.Done blob_digest (as_bytes "b") PutAlreadyExists]>
      (<[1 := FilesystemStore.Done blob_digest (as_bytes "a") PutCreated]>
        (<[1 := FilesystemStore.Staged blob_digest (as_bytes "a")]>
          (<[2 := FilesystemStore.Staged blob_digest (as_bytes "b")]>
            (<[2 := FilesystemStore.Checked blob_digest (as_bytes "b")]>
              (<[1 := FilesystemStore.Checked blob_digest (as_bytes "a")]> ∅)))))).

Lemma concurrent_puts_witness :
  rtc FilesystemStore.put_step (FilesystemStore.mkPuts ∅ ∅) both_done /\
  FilesystemStore.blob_files both_done !! file_path = Some (as_bytes "a").
Proof.
  assert (FilesystemStore.path blob_digest = Ok file_path) as Hp by evaluate.
  assert (rtc FilesystemStore.put_step (FilesystemStore.mkPuts ∅ ∅) both_done) as Hrun.
  { eapply rtc_l; [apply (FilesystemStore.PutChecked ∅ ∅ 1 blob_digest (as_bytes "a") file_path)|];
      [evaluate|exact Hp|evaluate|].
    eapply rtc_l; [apply (FilesystemStore.PutChecked ∅ _ 2 blob_digest (as_bytes "b") file_path)|];
      [evaluate|exact Hp|evaluate|].
    eapply rtc_l; [apply (FilesystemStore.PutStaged ∅ _ 2 blob_digest (as_bytes "b")); evaluate|].
    eapply rtc_l; [apply (FilesystemStore.PutStaged ∅ _ 1 blob_digest (as_bytes "a")); evaluate|].
    eapply rtc_l; [apply (FilesystemStore.PutPersisted ∅ _ 1 blob_digest (as_bytes "a") file_path)|];
      [evaluate|exact Hp|evaluate|].
    eapply rtc_l; [apply (FilesystemStore.PutLost _ _ 2 blob_digest (as_bytes "b") file_path)|];
      [evaluate|exact Hp|exists (as_bytes "a"); evaluate|].
    apply rtc_refl. }
  split; [exact Hrun|].
  destruct (concurrent_puts ∅ both_done Hrun) as (_ & Hcreated & _).
  destruct (Hcreated 1 blob_digest (as_bytes "a")) as (p & Hp' & _ & Hfile); [unfold created; evaluate|].
  rewrite Hp in Hp'. injection Hp' as <-. exact Hfile.
Defined.

(** ** Pending accesses *)

Lemma no_pending : PendingAccess.inv PendingAccess.empty.
Proof. split; [reflexivity|done|apply map_Forall_empty]. Qed.

Lemma record_keeps_inv_witness :
  PendingAccess.inv (PendingAccess.record "team/a" [blob_digest; action; blob_digest] PendingAccess.empty) /\
  PendingAccess.len (PendingAccess.record "team/a" [blob_digest; action; blob_digest] PendingAccess.empty) = 2%N.
Proof.
  destruct (PendingAccess.record_keeps_inv "team/a" [blob_digest; action; blob_digest] PendingAccess.empty
    no_pending) as [Hinv _].
  split; [exact Hinv|evaluate].
Defined.

Lemma flush_complete_witness :
  (PendingAccess.flush (PendingAccess.record "team/a" [blob_digest] PendingAccess.empty,
    MemoryMetadata.default_store)).1.1 = PendingAccess.empty.
Proof.
  exact (proj1 (PendingAccess.flush_complete (PendingAccess.record "team/a" [blob_digest] PendingAccess.empty)
    MemoryMetadata.default_store eq_refl)).
Defined.
