(* ===== verification/SessionsExamples.v ===== *)
(** * Operations at the same time on a concrete database

    A sweep and a commit, statement by statement in turn, and the theorems on
    interleaved operations applied to them. *)
From S2P Require Import Prelude Str Protocol Concrete Api Json Records Oidc Auth AuthExamples Metadata.
From S2P Require Import MetadataProofs MemoryMetadata PostgresMetadata PostgresProofs.
From S2P Require Import StoreRefinement PostgresSessions SessionsProofs SweepProofs ConcreteApp StoreExamples.

Local Open Scope string_scope.
Local Open Scope mbx_scope.

Import Sessions.

#[local] Existing Instances concrete_protocol concrete_protocol_laws concrete_hex concrete_hashes
  concrete_numbers concrete_records concrete_records_laws working_database concrete_result_json_laws.

(** ** A scheduler *)

(** The steps of the operations named, in this order; one that waits is passed
    over. *)
Fixpoint advance (ns : list N) (s : Server) : list Event * Server :=
  match ns with
  | [] => ([], s)
  | n :: ns =>
      match next n s with
      | Some (es, s) => let '(es', s) := advance ns s in ((es ++ es')%list, s)
      | None => advance ns s
      end
  end.

Lemma advance_runs ns s : session_run (advance ns s).1 s (advance ns s).2.
Proof.
  revert s; induction ns as [|n ns IH]; intros s; cbn; [constructor|].
  destruct (next n s) as [[es s1]|] eqn:Hn; [|apply IH]. specialize (IH s1).
  destruct (advance ns s1) as [es' s2]. eapply RunStep; [by apply next_step with n|exact IH].
Qed.

Lemma advance_after ns s0 s es s' :
  session_run [] s0 s -> (advance ns s).1 = es -> (advance ns s).2 = s' -> session_run es s0 s'.
Proof.
  intros Hrun <- <-. remember [] as none eqn:Hnone. revert Hnone.
  induction Hrun as [s1|es1 es2 s1 s2 s3 Hstep Hrun IH]; intros Hnil; [apply advance_runs|].
  apply app_eq_nil in Hnil as [-> ->]. eapply (RunStep []); [exact Hstep|by apply IH].
Qed.

(** ** A sweep beside a commit *)

(** Small keys: the tables do not care whether a hash is one. *)
Definition small_blob : Digest := mkDigest "blake3" "b" 1.
Definition small_action : Digest := mkDigest "blake3" "a" 2.
Definition small_result : ActionResult := mkActionResult small_action None (Some small_blob) 1.

(** A result and its blob. *)
Definition whole : PostgresMetadata.t :=
  (PostgresMetadata.commit "n" small_action small_result
    (PostgresMetadata.register_blob "n" small_blob PutCreated (PostgresMetadata.mk empty_tables 0)).1).1.

Lemma whole_wf : db_wf (PostgresMetadata.tables whole).
Proof.
  split.
  - apply map_Forall_insert_2; [|apply map_Forall_empty]. split; [by vm_compute|]. by exists small_result.
  - apply map_Forall_insert_2; [by vm_compute|apply map_Forall_empty].
  - apply map_Forall_empty.
Qed.

(** A blob that is old enough, and no result yet. *)
Definition one_blob : Server :=
  mkServer (PostgresMetadata.register_blob "n" small_blob PutCreated (PostgresMetadata.mk empty_tables 0)).1 ∅.

Definition sweep_op : MetaOp := OpSweep 0.
Definition commit_op : MetaOp := OpCommit "n" small_action small_result.
Definition both_asked : Server :=
  mkServer (server one_blob) (<[1%N := mkSession commit_op Waiting]> (<[0%N := mkSession sweep_op Waiting]> ∅)).

(** The sweep deletes the blob and looks for results without theirs; the commit
    goes through; the sweep ends. *)
Definition looked : Server := (advance [0; 0; 0]%N both_asked).2.
Definition deleted_all : Server := (advance [1; 0]%N looked).2.
Definition ended_late : Server := (advance [0]%N deleted_all).2.

Lemma both_asked_run : session_run [] one_blob both_asked.
Proof.
  eapply (RunStep [] []); [|eapply (RunStep [] []); [|constructor]].
  - by apply (Ask 0 sweep_op).
  - by apply (Ask 1 commit_op).
Qed.

Lemma deleted_all_run : session_run (advance [0; 0; 0; 1; 0]%N both_asked).1 one_blob deleted_all.
Proof.
  apply (advance_after [0; 0; 0; 1; 0]%N one_blob both_asked); [exact both_asked_run|reflexivity|].
  evaluate.
Qed.

Definition late_events : list Event :=
  [(1%N, commit_op, Ok (AnsCommit CommitCreated)); (0%N, sweep_op, Ok (AnsSwept (mkSweepOutcome 1 0 0)))].

Lemma ended_late_run : session_run late_events one_blob ended_late.
Proof.
  apply (advance_after [0; 0; 0; 1; 0; 0]%N one_blob both_asked); [exact both_asked_run|evaluate..].
Qed.

Lemma one_blob_wf : db_wf (PostgresMetadata.tables (server one_blob)).
Proof.
  split; [apply map_Forall_empty| |apply map_Forall_empty].
  apply map_Forall_insert_2; [by vm_compute|apply map_Forall_empty].
Qed.

Lemma operations_linearize_witness :
  spec_run (view_of_server one_blob) [commit_op; sweep_op]
    [Ok (AnsCommit CommitCreated); Ok (AnsSwept (mkSweepOutcome 1 0 0))] (view_of_server ended_late).
Proof.
  exact (proj1 (proj2 (operations_linearize late_events one_blob ended_late one_blob_wf eq_refl ended_late_run))).
Defined.

(** One transaction is not enough for a sweep to leave no result without its
    blobs: a result committed after it has looked for those stays, and is read
    without the blob the sweep then takes. *)
Example sweep_races_commit :
  session_run late_events one_blob ended_late /\
  view_result (view_of_server ended_late) "n" small_action = Some small_result /\
  output_root small_result = Some small_blob /\
  view_blob (view_of_server ended_late) "n" small_blob = false.
Proof. split; [exact ended_late_run|]. split; [evaluate|]. split; [done|evaluate]. Qed.

Lemma operations_alone_witness :
  session_run [(7%N, sweep_op, Ok (AnsSwept (mkSweepOutcome 1 1 0)))]
    (mkServer whole (only 7 sweep_op Waiting))
    (mkServer (run_op sweep_op whole).1 (only 7 sweep_op (Answered (Ok (AnsSwept (mkSweepOutcome 1 1 0)))))).
Proof. apply (operations_alone 7 sweep_op whole). apply answers. evaluate. Defined.

(** ** What the sweep takes *)

Definition key_a : string * string * string * Z := PostgresMetadata.key_of "n" small_blob.
Definition sweep_at (s : Server) : Transaction * list N :=
  match sessions s !! 0%N with
  | Some (mkSession _ (Deleting tx affected)) => (tx, affected)
  | _ => (mkTransaction 0 ∅ ∅ ∅, [])
  end.

Lemma deleted_all_0 :
  sessions deleted_all !! 0%N = Some (mkSession sweep_op (Deleting (sweep_at deleted_all).1 (sweep_at deleted_all).2)).
Proof. evaluate. Qed.

Lemma ended_late_step :
  session_step [(0%N, sweep_op, Ok (AnsSwept (mkSweepOutcome 1 0 0)))] deleted_all ended_late.
Proof. apply (next_step 0). evaluate. Qed.

Lemma ended_late_0 :
  sessions ended_late !! 0%N = Some (mkSession sweep_op (Answered (Ok (AnsSwept (mkSweepOutcome 1 0 0))))).
Proof. evaluate. Qed.

Lemma key_a_row : blob_row key_a (PostgresMetadata.tables (server deleted_all)) = Some (PostgresMetadata.mkBlobRow 0 0).
Proof. evaluate. Qed.

Lemma sweeps_take_the_old_witness :
  blob_row key_a (PostgresMetadata.tables (server ended_late)) = None /\ (0 < begun (sweep_at deleted_all).1)%Z.
Proof.
  assert (blob_row key_a (PostgresMetadata.tables (server ended_late)) = None) as Hgone by evaluate.
  destruct (sweeps_take_the_old _ _ one_blob deleted_all ended_late 0 0 _ _ _ key_a _ eq_refl deleted_all_run
    deleted_all_0 ended_late_step ended_late_0 key_a_row) as [Hkept|[_ Hold]].
  - rewrite Hgone in Hkept. discriminate Hkept.
  - split; [exact Hgone|]. cbn [PostgresMetadata.created_at] in Hold. lia.
Defined.

(** ** What it keeps *)

(** A sweep of what is older than a day, beside a fresh result and its blob. *)
Definition gentle : MetaOp := OpSweep 1.
Definition stage_of (ns : list N) : Server := (advance ns (mkServer whole (only 0 gentle Waiting))).2.
Notation gentle_at s := (mkSession gentle (Deleting (sweep_at s).1 (sweep_at s).2)).

Lemma stage_step_of ns : forall es, next 0 (stage_of ns) = Some (es, stage_of (ns ++ [0%N])%list) ->
  session_step es (stage_of ns) (stage_of (ns ++ [0%N])%list).
Proof. intros es. apply next_step. Qed.

Lemma sweeps_keep_whole_witness :
  view_blob (view_of_server (stage_of [0; 0; 0; 0; 0]%N)) "n" small_blob = true.
Proof.
  assert (session_step [] (stage_of [0; 0]%N) (stage_of [0; 0; 0]%N)) as Hlook by (apply stage_step_of; evaluate).
  assert (session_step [] (stage_of [0; 0; 0]%N) (stage_of [0; 0; 0; 0]%N)) as Hrest by (apply (stage_step_of [0; 0; 0]%N); evaluate).
  assert (session_step [(0%N, gentle, Ok (AnsSwept (mkSweepOutcome 0 0 0)))] (stage_of [0; 0; 0; 0]%N)
    (stage_of [0; 0; 0; 0; 0]%N)) as Hend by (apply (stage_step_of [0; 0; 0; 0]%N); evaluate).
  assert (db_wf (PostgresMetadata.tables (server (stage_of [0; 0]%N)))) as Hwf.
  { assert (PostgresMetadata.tables (server (stage_of [0; 0]%N)) = PostgresMetadata.tables whole) as -> by evaluate. exact whole_wf. }
  assert (sessions (stage_of [0; 0]%N) !! 0%N = Some (mkSession gentle (Deleting (sweep_at (stage_of [0; 0]%N)).1 [0%N])))
    as Hopen by evaluate.
  assert (sessions (stage_of [0; 0; 0]%N) !! 0%N = Some (gentle_at (stage_of [0; 0; 0]%N))) as Hlooked by evaluate.
  assert ((sweep_at (stage_of [0; 0; 0]%N)).2 = [0%N; 0%N]) as Hcount by evaluate.
  assert (sessions (stage_of [0; 0; 0; 0]%N) !! 0%N = Some (gentle_at (stage_of [0; 0; 0; 0]%N))) as Hstill by evaluate.
  assert (sessions (stage_of [0; 0; 0; 0; 0]%N) !! 0%N =
    Some (mkSession gentle (Answered (Ok (AnsSwept (mkSweepOutcome 0 0 0)))))) as Hended by evaluate.
  assert (view_result (view_of_server (stage_of [0; 0]%N)) "n" small_action = Some small_result) as Hres by evaluate.
  assert (bool_decide (PostgresMetadata.key_of "n" small_action ∉ gone_results (sweep_at (stage_of [0; 0; 0; 0]%N)).1) = true)
    as Hkept%bool_decide_eq_true by evaluate.
  refine (proj2 (sweeps_keep_whole _ _ _ _ _ _ _ 0 1 _ 0%N _ _ _ _ _ "n" small_action small_result small_blob Hwf Hopen Hlook
    Hlooked _ (RunStep _ _ _ _ _ Hrest (RunEnds _)) Hstill Hend Hended Hres Hkept (or_intror eq_refl)) _).
  - rewrite Hcount. discriminate.
  - evaluate.
Defined.
