(* ===== verification/CloudExamples.v ===== *)
(** * Runs of the cloud stores

    A bucket whose copies are prompt, one whose copies are only accepted at
    first, and an S3 bucket, with the theorems of [CloudProofs.v] applied to
    runs on them. *)
From S2P Require Import Prelude Str Protocol Concrete Api Json Records Oidc Auth ObjectStore Gcs Azure S3.
From S2P Require Import BlobMachine CloudProofs Filesystem FilesystemProofs Access ConcreteApp.
From Stdlib Require Import Ascii.

Local Open Scope string_scope.
Local Open Scope mbx_scope.

#[local] Existing Instances concrete_protocol concrete_protocol_laws concrete_hex concrete_hashes.

(** ** Paths: the components that are not empty *)

Definition components (s : string) : list string :=
  filter (fun c => str_is_empty c = false) (split "/" s).

Definition concrete_paths : ObjectPaths := {|
  object_path := components;
  path_display := join "/";
  uuid n := u64_to_string (N.of_nat n);
|}.
#[local] Existing Instance concrete_paths.

Lemma components_app a b : components (a ++ String "/" b) = (components a ++ components b)%list.
Proof. unfold components. by rewrite split_app_sep, filter_app. Qed.

Lemma components_single w : contains_char "/" w = false -> w <> "" -> components w = [w].
Proof.
  intros Hc Hw. unfold components. rewrite split_single by done. rewrite filter_cons_True; [done|].
  by destruct w.
Qed.

Lemma components_digits n : components (u64_to_string n) = [u64_to_string n].
Proof.
  apply components_single; [|apply u64_to_string_nonempty].
  eapply str_all_no_char; [apply string_of_uint_digits|done].
Qed.

Lemma components_key d :
  digest_validate d = Ok tt ->
  components (digest_key d) = [digest_algorithm d; digest_hash d; u64_to_string (digest_size d)].
Proof.
  intros Hd. pose proof (validate_hash _ Hd) as [Hl Hh]. destruct (validate_kind _ Hd) as [a Ha].
  apply algorithm_kind_name in Ha.
  change (digest_key d) with (digest_algorithm d ++ String "/" (digest_hash d ++ String "/" (u64_to_string (digest_size d)))).
  rewrite !components_app, components_digits.
  rewrite (components_single (digest_hash d)); [|by eapply str_all_no_char|by destruct (digest_hash d)].
  rewrite Ha. by destruct a.
Qed.

Lemma concrete_key_inj d d' :
  digest_validate d = Ok tt -> digest_validate d' = Ok tt ->
  components (digest_key d) = components (digest_key d') -> d = d'.
Proof.
  intros Hd Hd'. rewrite !components_key by done. destruct d, d'; cbn.
  by intros [= -> -> ->%u64_to_string_inj].
Qed.

Lemma concrete_path_laws : ObjectPathLaws.
Proof.
  split; cbn [object_path uuid concrete_paths].
  - intros p d d' Hd Hd'. change ("/blobs/" ++ ?k) with (String "/" ("blobs" ++ String "/" k)).
    rewrite !components_app. intros Heq%app_inv_head%app_inv_head. by apply concrete_key_inj.
  - intros p n d Hd. change ("/blobs/" ++ ?k) with (String "/" ("blobs" ++ String "/" k)).
    change ("/uploads/" ++ ?k) with (String "/" ("uploads" ++ String "/" k)).
    rewrite !components_app. by intros Heq%app_inv_head.
Qed.

Lemma concrete_s3_key_laws : S3KeyLaws.
Proof. split. intros d d' Hd Hd' Heq. apply concrete_key_inj; [done..|]. by rewrite Heq. Qed.

(** ** Buckets *)

Definition some_stream (content : bytes) : list (result StoreError bytes) := map Ok (chunks 4 content).

Lemma some_stream_ok content : streams (some_stream content) content.
Proof.
  unfold streams, some_stream. rewrite collect_stream_ok.
  by rewrite (proj1 (PendingAccess.chunks_spec 4 content ltac:(lia))).
Qed.

(** Slow under their paths; [placed] is what a copy leaves. *)
Notation Slow := (gmap (list string) Object).

Definition bucket_get (p : list string) : M Slow ObjectError Blob :=
  fun s => (s, match s !! p with
               | Some (Committed c) => Ok (mkBlob (N.of_nat (length c)) (some_stream c))
               | Some (Pending _) => Ok (mkBlob 0 [])
               | None => Err NotFound
               end).
Definition bucket_create (p : list string) (o : Object) : M Slow ObjectError unit :=
  fun s => match s !! p with
           | Some _ => (s, Err AlreadyExists)
           | None => (<[p := o]> s, Ok tt)
           end.
Definition bucket_copy (placed : bytes -> Object) (from to : list string) : M Slow ObjectError unit :=
  fun s => match s !! from with
           | Some (Committed c) => bucket_create to (placed c) s
           | _ => (s, Err NotFound)
           end.
Definition bucket_range (p : list string) (first last : N) : M Slow ObjectError unit :=
  fun s => match s !! p with
           | Some (Committed c) => (s, Ok tt)
           | Some (Pending c) => (<[p := Committed c]> s, Err (OtherObjectError "range not satisfiable"))
           | None => (s, Err NotFound)
           end.

(** Copies that are accepted, and done when they are first looked at. *)
#[local] Instance slow_bucket : ObjectStore Slow := {|
  os_get := bucket_get;
  os_get_range := bucket_range;
  os_put_create p content := bucket_create p (Committed content);
  os_write p content := fun s => (<[p := Committed content]> s, Ok tt);
  os_abort p := m_ret tt;
  os_copy_create := bucket_copy Pending;
  os_delete p := fun s => (delete p s, Ok tt);
|}.

Ltac settled := intros; first [by left|by rewrite ?lookup_insert_ne, ?lookup_delete_ne by congruence; left].

#[local] Instance slow_laws : ObjectLaws Slow.
Proof.
  refine {| contents := fun s p => s !! p |}; cbn; unfold m_ret.
  - unfold bucket_get. intros p s s' r [= <- <-]. split; [settled|].
    destruct (s !! p) as [[c|c]|]; (split; [|by intros [=]]); [|done|done].
    intros c' [= <-]. split; [done|apply some_stream_ok].
  - unfold bucket_range. intros p first last s s' r Hr.
    destruct (s !! p) as [[c|c]|] eqn:E; injection Hr as <- <-; (split; [|by eauto]); [settled| |settled].
    intros q. destruct (decide (q = p)) as [->|]; [|settled]. rewrite lookup_insert_eq, E. right. eauto.
  - unfold bucket_create. intros p content s s' r Hr.
    destruct (s !! p) as [o|] eqn:E; injection Hr as <- <-; (split; [settled|]).
    + rewrite E. split; [by eexists|by left].
    + by rewrite lookup_insert_eq.
  - intros p content s s' r [= <- <-]. split; [settled|]. by rewrite lookup_insert_eq.
  - intros p s s' r [= <- <-]. settled.
  - unfold bucket_copy, bucket_create. intros from to c s s' r Hne -> Hr.
    destruct (s !! to) as [o|] eqn:E; injection Hr as <- <-; (split; [settled|]).
    + rewrite E. split; [by eexists|by left].
    + rewrite lookup_insert_eq. split; [done|]. eauto.
  - intros p s s' r [= <- <-]. settled.
Defined.

(** Copies that are done when they are answered. *)
Notation Prompt := (gmap (list string) bytes).

Definition prompt_create (p : list string) (content : bytes) : M Prompt ObjectError unit :=
  fun s => match s !! p with
           | Some _ => (s, Err AlreadyExists)
           | None => (<[p := content]> s, Ok tt)
           end.

#[local] Instance prompt_bucket : ObjectStore Prompt := {|
  os_get p := fun s => (s, match s !! p with
                           | Some c => Ok (mkBlob (N.of_nat (length c)) (some_stream c))
                           | None => Err NotFound
                           end);
  os_get_range p first last := fun s => (s, if s !! p then Ok tt else Err NotFound);
  os_put_create := prompt_create;
  os_write p content := fun s => (<[p := content]> s, Ok tt);
  os_abort p := m_ret tt;
  os_copy_create from to := fun s => match s !! from with
                                     | Some c => prompt_create to c s
                                     | None => (s, Err NotFound)
                                     end;
  os_delete p := fun s => (delete p s, Ok tt);
|}.

#[local] Instance prompt_laws : ObjectLaws Prompt.
Proof.
  refine {| contents := fun s p => Committed <$> s !! p |}; cbn; unfold m_ret.
  - intros p s s' r [= <- <-]. split; [settled|]. destruct (s !! p) as [c|]; (split; [|by intros [=]]); [|done].
    cbn. intros c' [= <-]. split; [done|apply some_stream_ok].
  - intros p first last s s' r [= <- <-]. split; [settled|]. destruct (s !! p) as [c|]; [|done]. cbn. eauto.
  - unfold prompt_create. intros p content s s' r Hr.
    destruct (s !! p) as [o|] eqn:E; injection Hr as <- <-; (split; [settled|]).
    + rewrite E. split; [by eexists|by left].
    + by rewrite lookup_insert_eq.
  - intros p content s s' r [= <- <-]. split; [settled|]. by rewrite lookup_insert_eq.
  - intros p s s' r [= <- <-]. settled.
  - unfold prompt_create. intros from to c s s' r Hne Hc Hr. destruct (s !! from) as [c'|]; [|done].
    injection Hc as ->. destruct (s !! to) as [o|] eqn:E; injection Hr as <- <-; (split; [settled|]).
    + rewrite E. split; [by eexists|by left].
    + rewrite lookup_insert_eq. split; [done|]. eexists. split; [by left|done].
  - intros p s s' r [= <- <-]. settled.
Defined.

#[local] Instance prompt_copies : PromptCopies Prompt.
Proof. split. intros s p c Hp. by apply fmap_Some in Hp as (o & _ & Ho). Qed.

(** An S3 bucket. *)
Notation S3Bucket := (gmap string bytes).

#[local] Instance s3_bucket : S3Client S3Bucket := {|
  get_object key := fun s => (s, match s !! key with
    | Some c => Ok (mkS3Object (Some (Z.of_nat (length c))) (some_stream c))
    | None => Err (mkS3Error (Some "NoSuchKey") true (Some 404%N) "no such key")
    end);
  put_object_if_none_match key content := fun s => match s !! key with
    | Some _ => (s, Err (mkS3Error (Some "PreconditionFailed") false (Some 412%N) "precondition failed"))
    | None => (<[key := content]> s, Ok tt)
    end;
|}.

#[local] Instance s3_bucket_laws : S3Laws S3Bucket.
Proof.
  refine {| s3_objects := fun s key => s !! key |}; cbn.
  - intros key s s' r [= <- <-]. split; [done|]. destruct (s !! key) as [c|]; [|done].
    exists c. split; [done|]. split; [by intros n [= <-]|apply some_stream_ok].
  - intros key content s s' r Hr.
    destruct (s !! key) as [o|] eqn:E; injection Hr as <- <-.
    + split; [done|]. rewrite E. split; [by eexists|done].
    + split; [intros k Hk; by rewrite lookup_insert_ne|by rewrite lookup_insert_eq].
Defined.

(** ** Runs *)

#[local] Existing Instances concrete_path_laws concrete_s3_key_laws.
#[local] Instance sources_open : SourceFile := {| source_fault _ := None |}.

Definition small : Digest := digest_of file_content.
Definition small_content : bytes := as_bytes file_content.
(** A blob whose declared size is past one request. *)
Definition big : Digest := mkDigest "blake3" (digest_hash small) (SINGLE_REQUEST_BYTES + 1).
Definition big_content : bytes := as_bytes task_content.

Definition blob_ops : list BlobOp :=
  [OpGetBlob small; OpPutBlob small small_content; OpPutBlob small big_content; OpGetBlob small;
   OpPutBlob big big_content; OpPutBlob big small_content; OpGetBlob big].

Definition blob_answers : list (result StoreError BlobAnswer) :=
  [Ok (AnsBlob None); Ok (AnsPut PutCreated); Ok (AnsPut PutAlreadyExists);
   Ok (AnsBlob (Some (mkBlob 12 (some_stream small_content))));
   Ok (AnsPut PutCreated); Ok (AnsPut PutAlreadyExists);
   Ok (AnsBlob (Some (mkBlob 11 (some_stream big_content))))].

Lemma blob_ops_valid : Forall op_valid blob_ops.
Proof. repeat constructor; by vm_compute. Qed.

Notation on_gcs := (@run_blob_ops _ GcsStore.blob_store blob_ops (from_store (S := Prompt) ∅ "/v1/")).
Notation on_s3 := (@run_blob_ops _ S3Store.blob_store blob_ops (S3Store.mk (∅ : S3Bucket) "v1" 0)).

Lemma gcs_refines_witness :
  on_gcs.2 = blob_answers /\
  blob_run (bucket_objects (from_store (S := Prompt) ∅ "/v1/")) blob_ops blob_answers (bucket_objects on_gcs.1).
Proof.
  assert (on_gcs.2 = blob_answers) as Hrun by evaluate.
  split; [exact Hrun|]. exact (gcs_refines _ _ _ _ blob_ops_valid (answers _ _ Hrun)).
Defined.

Lemma s3_refines_witness :
  on_s3.2 = blob_answers /\
  blob_run (s3_blobs (S3Store.mk (∅ : S3Bucket) "v1" 0)) blob_ops blob_answers (s3_blobs on_s3.1).
Proof.
  assert (on_s3.2 = blob_answers) as Hrun by evaluate.
  split; [exact Hrun|]. exact (s3_refines _ _ _ _ blob_ops_valid (answers _ _ Hrun)).
Defined.

(** A copy that is only accepted at first: the put waits for it. *)
Notation azure_put := (AzureStore.put small small_content (from_store (S := Slow) ∅ "v1")).
Definition later_blob_ops : list BlobOp := [OpPutBlob small big_content; OpGetBlob small].
Definition later_blob_answers : list (result StoreError BlobAnswer) :=
  [Ok (AnsPut PutAlreadyExists); Ok (AnsBlob (Some (mkBlob 12 (some_stream small_content))))].
Notation azure_later := (@run_blob_ops _ AzureStore.blob_store later_blob_ops azure_put.1).

Lemma no_pending_empty : empty_whole (from_store (S := Slow) ∅ "v1").
Proof.
  intros d c _ _. assert (forall p, contents (∅ : Slow) p = None) as Hnone by (intros p; apply lookup_empty).
  unfold from_store. cbn [store]. by rewrite Hnone.
Qed.

Lemma azure_reads_what_was_put_witness :
  azure_put.2 = Ok PutCreated /\ azure_later.2 = later_blob_answers /\
  exists content, content = small_content /\
    contents (store azure_later.1) (key azure_later.1 small) = Some (Committed content).
Proof.
  assert (azure_put.2 = Ok PutCreated) as Hput by evaluate.
  assert (azure_later.2 = later_blob_answers) as Hrun by evaluate.
  split; [exact Hput|]. split; [exact Hrun|].
  destruct (azure_reads_what_was_put (S := Slow) small small_content _ _ _ later_blob_ops _ _
    ltac:(by split) no_pending_empty ltac:(repeat constructor; by vm_compute) (answers _ _ Hput) (answers _ _ Hrun))
    as (_ & content & Hc & _ & Hend & _).
  exists content. split; [by apply Hc|exact Hend].
Defined.
