(* ===== verification/ServerExamples.v ===== *)
(** * Runs of the service

    A service with the in-memory metadata store and the filesystem blob store,
    filled by its own handlers, and the theorems on its handlers applied to
    requests that it answers. *)
From stdpp Require Import pretty.
From S2P Require Import Prelude Str Protocol Concrete Api Json Model Records Oidc Auth AuthProofs.
From S2P Require Import AuthExamples MemoryMetadata Filesystem FilesystemProofs Spool Access Metrics.
From S2P Require Import App Pack PackProofs Tree Actions ActionsProofs Blobs BlobsProofs PackUpload.
From S2P Require Import PackUploadProofs PackTermination PackDownload PackDownloadProofs ReadOnly ExpiryProofs Results ResultsProofs Service.
From S2P Require Import ServiceProofs ConcreteApp.

Local Open Scope string_scope.
Local Open Scope mbx_scope.

#[local] Existing Instances concrete_protocol concrete_protocol_laws concrete_hex concrete_hex_laws
  concrete_hashes concrete_hash_laws concrete_numbers concrete_records concrete_records_laws
  concrete_text concrete_documents concrete_jwt concrete_auth_json concrete_tokio concrete_debug
  concrete_constants concrete_constants_laws concrete_manifest_text working_disk working_disk_laws
  FilesystemStore.store.

(** ** A service *)

Notation State := (AppState (MS:=MemoryMetadata.t) (BS:=FilesystemStore.t)).

(** It serves everyone, takes blobs of up to one MiB and spools as much. *)
Definition open_authorizer : Authorizer := mkAuthorizer [] [] true [].
Definition fresh : State :=
  new_app_state (FilesystemStore.mk ∅ 0) MemoryMetadata.default_store open_authorizer 1048576 2 1048576.

Definition now : Moment := at_second 7 down.
Definition headers_of (ns : string) : HeaderMap :=
  <["mbx-cache-protocol" := "1"]> (<["mbx-cache-namespace" := ns]> {["if-none-match" := "*"]}).
Definition headers : HeaderMap := headers_of "team/a".

Definition parts_of (d : Digest) : string * string * N :=
  (digest_algorithm d, digest_hash d, digest_size d).

Notation put content w :=
  (put_blob now headers (parts_of (digest_of content)) [Ok (as_bytes content)] [] (w : State)).

(** The sample contents, uploaded one after another. *)
Definition filled : State :=
  foldl (fun w content => (put content w).1) fresh
    [file_content; leaf_content; root_content; loop_content; task_content; metadata_content].

Lemma fresh_inv {retention : Retention} : store_inv fresh.
Proof.
  split; [exact MemoryMetadata.wf_default| | | |].
  - intros d c _. cbn. unfold fs_objects. by destruct (FilesystemStore.path d).
  - intros ns d. cbn. by rewrite bool_decide_eq_false_2.
  - intros ns d. cbn. by rewrite bool_decide_eq_false_2.
  - intros _ ns d. cbn. by rewrite bool_decide_eq_false_2.
Qed.

Lemma put_inv {retention : Retention} content w :
  (N.of_nat (String.length content) < u64_modulus)%N -> store_inv w -> store_inv (put content w).1.
Proof.
  intros Hu Hinv. destruct (put_blob _ _ _ _ _ w) as [w' r] eqn:E.
  by apply put_blob_any in E as (? & _); [..|exact Hu].
Qed.

Lemma filled_inv {retention : Retention} : store_inv filled.
Proof. unfold filled. cbn [foldl]. repeat (apply put_inv; [by vm_compute|]). apply fresh_inv. Qed.

(** The examples' object store retains its objects. *)
#[local] Instance objects_stay : Retention := True.

(** ** Blobs *)

Notation file_parts := (parts_of (digest_of file_content)).
Notation download w := (get_blob now headers file_parts w).

Lemma file_u64 : (file_parts.2 < u64_modulus)%N.
Proof. by vm_compute. Qed.

Lemma file_digest_parsed : parse_digest file_parts = Ok (digest_of file_content).
Proof. evaluate. Qed.

Lemma authorized_team access : (authorized now headers access fresh).2 = Ok "team/a".
Proof. destruct access; evaluate. Qed.

Lemma put_blob_stores_witness :
  (put file_content fresh).2 = Ok CREATED /\
  view_blob (view (metadata (put file_content fresh).1)) "team/a" (digest_of file_content) = true.
Proof.
  assert ((put file_content fresh).2 = Ok CREATED) as Hok by evaluate. split; [exact Hok|].
  destruct (put_blob_stores _ _ _ _ _ _ _ _ (inv_wf _ fresh_inv) file_u64 (answers _ _ Hok)) as
    (w1 & ns & d & chunks & Hauth & _ & Hd & _ & _ & _ & (Hb & _ & _) & _).
  rewrite (answers _ _ (authorized_team Write)) in Hauth. injection Hauth as _ <-.
  rewrite file_digest_parsed in Hd. injection Hd as <-.
  rewrite Hb. unfold view_set_blob, upd. cbn [view_blob]. by rewrite decide_True.
Defined.

(** A body that is not what its digest says. *)
Notation wrong_body :=
  (put_blob now headers file_parts [Ok (as_bytes "fn main() []")] [] fresh).

Lemma put_blob_safe_witness :
  wrong_body.2 = Err (bad_request "content does not match the requested digest") /\ store_inv wrong_body.1.
Proof.
  assert (wrong_body.2 = Err (bad_request "content does not match the requested digest")) as Herr by evaluate.
  split; [exact Herr|].
  exact (proj1 (put_blob_safe _ _ _ _ _ _ _ _ fresh_inv file_u64 (answers _ _ Herr))).
Defined.

(** The object expires, and its row stays. *)
Notation uploaded_file := (put file_content fresh).1.
Definition expired : State := set_blobs (FilesystemStore.mk ∅ 0) uploaded_file.

Lemma expired_in_order : store_inv (retention:=False) expired.
Proof.
  apply expired_inv; [done|exact (put_inv (retention:=False) file_content fresh file_u64 fresh_inv)|].
  intros d _. right. cbn. unfold fs_objects. by destruct (FilesystemStore.path d).
Qed.

Lemma expired_view : view_blob (view (metadata expired)) "team/a" (digest_of file_content) = true.
Proof. evaluate. Qed.

Lemma expired_gone : objects (blobs expired) (digest_of file_content) = None.
Proof. evaluate. Qed.

Lemma get_blob_answers_witness :
  (exists resp, (download uploaded_file).2 = Ok resp /\ header_map resp !! "content-length" = Some "12") /\
  (download expired).2 = Err (not_found "blob not found") /\
  row_forgotten "team/a" (digest_of file_content) expired (download expired).1.
Proof.
  split.
  - assert (is_ok (download uploaded_file).2 = true) as Hok by evaluate.
    destruct (download uploaded_file).2 as [resp|e] eqn:Hresp; [|discriminate Hok].
    exists resp. split; [reflexivity|].
    assert ((authorized now headers Read uploaded_file).2 = Ok "team/a") as Hauth by evaluate.
    destruct (get_blob_answers _ _ _ _ _ _ _ _ _ (put_inv file_content fresh file_u64 fresh_inv) file_u64
      (answers _ _ Hauth) file_digest_parsed (answers _ _ Hresp)) as
      (_ & _ & _ & content & _ & [Hsize _] & _ & Hlen & _).
    rewrite Hlen, <-Hsize. evaluate.
  - assert ((download expired).2 = Err (not_found "blob not found")) as Herr by evaluate. split; [exact Herr|].
    assert ((authorized now headers Read expired).2 = Ok "team/a") as Hauth by evaluate.
    destruct (get_blob_answers _ _ _ _ _ _ _ _ _ expired_in_order file_u64
      (answers _ _ Hauth) file_digest_parsed (answers _ _ Herr)) as
      (_ & [(_ & Hno & _)|[(_ & _ & _ & _ & Hrow)|(error & Hno & _)]]); [|exact Hrow|destruct error; discriminate Hno].
    rewrite expired_view in Hno. discriminate Hno.
Defined.

(** It comes back: a download that misses it, the question what is missing,
    the upload, and a download that finds it. *)
Notation asked_missing := (missing_blobs now headers [digest_of file_content] (download expired).1).

Lemma expired_blobs_come_back_witness :
  asked_missing.2 = Ok [digest_of file_content] /\ (put file_content asked_missing.1).2 = Ok CREATED /\
  exists resp, (download (put file_content asked_missing.1).1).2 = Ok resp /\
    streams (response_body resp) (as_bytes file_content).
Proof.
  assert (asked_missing.2 = Ok [digest_of file_content]) as Hmissing by evaluate. split; [exact Hmissing|].
  assert ((put file_content asked_missing.1).2 = Ok CREATED) as Hput by evaluate. split; [exact Hput|].
  assert (is_ok (download (put file_content asked_missing.1).1).2 = true) as Hok by evaluate.
  destruct (download (put file_content asked_missing.1).1).2 as [resp|e] eqn:Hresp; [|discriminate Hok].
  exists resp. split; [reflexivity|].
  assert ((authorized now headers Read expired).2 = Ok "team/a") as H1 by evaluate.
  assert ((authorized now headers Read (download expired).1).2 = Ok "team/a") as H2 by evaluate.
  assert ((authorized now headers Write asked_missing.1).2 = Ok "team/a") as H3 by evaluate.
  assert ((authorized now headers Read (put file_content asked_missing.1).1).2 = Ok "team/a") as H4 by evaluate.
  destruct (expired_blobs_come_back file_parts _ "team/a" expired _ _ _ _ _ _ _ _ [digest_of file_content] _ _ _ _ _ _ _ _ _
    _ _ _ _ _ expired_in_order file_u64 file_digest_parsed expired_view expired_gone
    (answers _ _ H1) (surjective_pairing _) (answers _ _ H2) ltac:(by apply list_elem_of_singleton) (answers _ _ Hmissing)
    (answers _ _ H3) (answers _ _ Hput) (answers _ _ H4) (answers _ _ Hresp))
    as (_ & _ & _ & [(resp' & chunks & Hr & Hbody & Hst)|[error He]]); [|discriminate He].
  injection Hr as <-. destruct chunks as [|c [|c' chunks]]; try discriminate Hbody.
  injection Hbody as <-. cbn [concat] in Hst. rewrite app_nil_r in Hst. exact Hst.
Defined.

Lemma put_then_get_blob_witness :
  exists resp, (download (put file_content fresh).1).2 = Ok resp /\
    streams (response_body resp) (as_bytes file_content).
Proof.
  assert ((put file_content fresh).2 = Ok CREATED) as Hput by evaluate.
  assert ((authorized now headers Read (put file_content fresh).1).2 = Ok "team/a") as Hread by evaluate.
  assert (is_ok (download (put file_content fresh).1).2 = true) as Hok by evaluate.
  destruct (download (put file_content fresh).1).2 as [resp|e] eqn:Hresp; [|discriminate Hok].
  destruct (put_then_get_blob _ _ _ _ _ _ _ _ _ _ _ _ _ _ fresh_inv file_u64 (answers _ _ Hput)
    (answers _ _ (authorized_team Write)) (answers _ _ Hread) (answers _ _ Hresp))
    as [(resp' & chunks & Hr & Hbody & Hst)|[error He]]; [|discriminate He].
  exists resp. split; [reflexivity|]. injection Hr as <-.
  destruct chunks as [|c [|c' chunks]]; try discriminate Hbody.
  injection Hbody as <-. cbn [concat] in Hst. rewrite app_nil_r in Hst. exact Hst.
Defined.

(** ** Output trees and results *)

Notation tree w root := (validate_tree "team/a" (digest_of root) (w : State)).


Lemma validate_tree_sound_witness :
  (tree filled root_content).2 = Ok tt /\ Acc (child filled "team/a") (digest_of root_content).
Proof.
  assert ((tree filled root_content).2 = Ok tt) as Hok by evaluate. split; [exact Hok|].
  destruct (validate_tree_sound _ _ _ _ (inv_wf _ filled_inv) (answers _ _ Hok)) as
    (_ & tree & Hroot & _ & _ & Hacc).
  exact (Hacc _ Hroot).
Defined.

Lemma validate_tree_cycle_witness :
  (tree filled loop_content).2 = Err cycle_error /\ exists d, tc (child filled "team/a") d d.
Proof.
  assert ((tree filled loop_content).2 = Err cycle_error) as Herr by evaluate. split; [exact Herr|].
  exact (validate_tree_cycle _ _ _ _ (inv_wf _ filled_inv) (answers _ _ Herr)).
Defined.

Lemma validate_client_metadata_sound_witness :
  let accepted := validate_client_metadata "team/a" (digest_of metadata_content) Task filled in
  accepted.2 = Ok tt /\
  exists value, canonical_object filled "team/a" (digest_of metadata_content) value /\
    json_kind value = Some "task".
Proof.
  cbv zeta.
  assert ((validate_client_metadata "team/a" (digest_of metadata_content) Task filled).2 = Ok tt) as Hok
    by evaluate.
  split; [exact Hok|].
  destruct (validate_client_metadata_sound _ _ _ _ _ (inv_wf _ filled_inv) (answers _ _ Hok)) as
    (_ & value & Hv & Hkind & _). exists value. split; [exact Hv|exact Hkind].
Defined.

(** A task that restored two directories. *)
Definition task_result : ActionResult :=
  mkActionResult (digest_of task_content) (Some (digest_of metadata_content))
    (Some (digest_of root_content)) 1.
Notation task_parts := (parts_of (digest_of task_content)).
Notation commit_task w := (put_action_result now headers task_parts task_result (w : State)).

Lemma task_u64 : (task_parts.2 < u64_modulus)%N.
Proof. by vm_compute. Qed.

Lemma put_action_result_commits_witness :
  (commit_task filled).2 = Ok CREATED /\
  exists ns, view_result (view (metadata (commit_task filled).1)) ns (digest_of task_content) = Some task_result.
Proof.
  assert ((commit_task filled).2 = Ok CREATED) as Hok by evaluate. split; [exact Hok|].
  destruct (put_action_result_commits _ _ _ _ _ _ _ filled_inv task_u64 (answers _ _ Hok)) as
    (_ & _ & ns & _ & [(_ & _ & (_ & Hr & _))|(Hcode & _)]); [|discriminate Hcode].
  exists ns. rewrite Hr. unfold view_set_result, upd. cbn [view_result]. by rewrite decide_True.
Defined.

(** ** Manifests *)

Definition manifest : TaskActionManifest := task_manifest 1.
Definition manifest_bytes : bytes := as_bytes "first manifest".
Definition manifest_body : RequestBody := [Ok manifest_bytes].
Definition manifest_etag : string := blake3_hash manifest_bytes.
Notation put_manifest := (put_action_manifest now headers task_parts manifest_body fresh).
Notation got_manifest := (get_action_manifest now headers task_parts put_manifest.1).
Definition conditional : HeaderMap := {["if-match" := quoted_etag manifest_etag]}.

Lemma put_manifest_wf : meta_wf (metadata put_manifest.1).
Proof.
  destruct put_manifest as [w' q] eqn:E.
  apply put_action_manifest_any in E as [Hinv _ _ _]; [by apply Hinv|exact fresh_inv|exact task_u64].
Qed.

Lemma manifest_request_sample :
  manifest_request now headers task_parts manifest_body fresh "team/a" (digest_of task_content) manifest
    None manifest_bytes.
Proof.
  split; [eexists; exact (answers _ _ (authorized_team Write))|exists manifest_bytes; split; evaluate|evaluate
    |split; evaluate|evaluate|evaluate].
Qed.

Lemma put_action_manifest_spec_witness :
  is_ok put_manifest.2 = true /\
  view_manifest (view (metadata put_manifest.1)) "team/a" (digest_of task_content) =
    Some (mkManifestRecord manifest_etag manifest).
Proof.
  assert (is_ok put_manifest.2 = true) as Hput by evaluate. split; [exact Hput|].
  destruct (put_action_manifest_spec now headers task_parts manifest_body fresh put_manifest.1 put_manifest.2
    "team/a" (digest_of task_content) manifest None manifest_bytes (inv_wf _ fresh_inv) task_u64
    manifest_request_sample (surjective_pairing put_manifest)) as [_ Hspec].
  destruct put_manifest.2 as [resp|e]; [|discriminate Hput]. destruct Hspec as (_ & _ & _ & (_ & _ & Hview)).
  rewrite Hview. unfold view_set_manifest, upd. cbn [view_manifest]. by rewrite decide_True.
Defined.

Lemma manifest_etag_roundtrip_witness :
  is_ok put_manifest.2 = true /\ is_ok got_manifest.2 = true /\
  manifest_precondition conditional =
    Ok (record_etag <$> view_manifest (view (metadata put_manifest.1)) "team/a" (digest_of task_content)).
Proof.
  assert (is_ok put_manifest.2 = true) as Hput by evaluate.
  assert (is_ok got_manifest.2 = true) as Hgot by evaluate.
  split; [exact Hput|]. split; [exact Hgot|].
  assert ((authorized now headers Read put_manifest.1).2 = Ok "team/a") as Hread by evaluate.
  assert ((fun r => match r with Ok resp => header_map resp !! "etag" | Err _ => None end) put_manifest.2 =
    Some (quoted_etag manifest_etag)) as Hetag by evaluate.
  destruct put_manifest.2 as [resp|e] eqn:Hresp; [|discriminate Hput].
  cbv beta iota in Hetag.
  assert (conditional !! "if-match" = header_map resp !! "etag") as Hagain by (rewrite Hetag; evaluate).
  assert (conditional !! "if-none-match" = None) as Hnomatch by evaluate.
  destruct (manifest_etag_roundtrip now now headers headers conditional task_parts manifest_body fresh
    put_manifest.1 resp got_manifest.1 got_manifest.2 "team/a" (digest_of task_content) manifest None
    manifest_bytes (authorized now headers Read put_manifest.1).1 (inv_wf _ fresh_inv)
    put_manifest_wf task_u64 manifest_request_sample (answers _ _ Hresp) (answers _ _ Hread)
    (surjective_pairing got_manifest) Hagain Hnomatch) as [_ Hpre].
  exact Hpre.
Defined.

(** ** Packs *)

Definition pack_entries : list (Digest * bytes) := [(digest_of file_content, as_bytes file_content)].
Definition pack_content : bytes := match encode_pack pack_entries with Ok bs => bs | Err _ => [] end.
Definition pack_headers : HeaderMap :=
  <["mbx-pack-blobs" := "1"]> (<["mbx-pack-bytes" := "12"]> headers).

Notation started_pack := (put_blob_pack now pack_headers [Ok pack_content] fresh).
Definition pack_request : PackRequest :=
  mkRequest (PackReader.new 1048576 1 12) [Ok pack_content] [] None [] (mkReceipt 0 0) Reading.
Notation pack_after n := (Nat.iter n (advance "team/a" 1 12) (started_pack.1, pack_request)).

Lemma pack_starts : started_pack.2 = Ok ("team/a", 1%N, 12%N, pack_request).
Proof. evaluate. Qed.

Lemma pack_answered : phase (pack_after 8).2 = Answered (Ok (mkReceipt 1 0)).
Proof. evaluate. Qed.

Lemma pack_reads_on : forall k, k < 8 -> phase (pack_after k).2 = Reading.
Proof. intros k Hk. do 8 (destruct k as [|k]; [evaluate|]). lia. Qed.

Lemma pack_runs : rtc (pack_step (fun _ _ => False) "team/a" 1 12) (started_pack.1, pack_request)
  ((pack_after 8).1, (pack_after 8).2).
Proof. rewrite <-surjective_pairing. apply advance_run, pack_reads_on. Qed.

Lemma fresh_config : config_ok fresh.
Proof. split; by vm_compute. Qed.

Lemma pack_upload_safe_witness :
  phase (pack_after 8).2 = Answered (Ok (mkReceipt 1 0)) /\ store_inv (pack_after 8).1.
Proof.
  split; [exact pack_answered|].
  exact (proj1 (pack_upload_safe (fun _ _ => False) _ _ _ _ _ _ _ _ _ _ _ fresh_inv fresh_config
    ltac:(done) (answers _ _ pack_starts) pack_runs)).
Defined.

Lemma pack_upload_complete_witness :
  exists entries, length entries = 1 /\
    Forall (fun e => content_matches e.1 e.2 /\
      view_blob (view (metadata (pack_after 8).1)) "team/a" e.1 = true) entries.
Proof.
  destruct (pack_upload_complete (fun _ _ => False) _ _ _ _ _ _ _ _ _ _ _ _ fresh_inv fresh_config
    ltac:(done) (answers _ _ pack_starts) pack_runs pack_answered) as
    (chunks & entries & _ & _ & Hlen & _ & _ & Hall).
  exists entries. split; [lia|]. eapply Forall_impl; [exact Hall|].
  intros e (Hm & _ & Hv). split; [exact Hm|]. apply Hv. intros w1 w2 d [].
Defined.

Definition clock : PackClock := mkPackClock 0 1 2 (fun _ => 3%N) 4.
Notation stored := (put file_content fresh).1.
Notation packed := (pack_blobs clock now headers [digest_of file_content] stored).
Notation streamed := (pack_stream clock
  (match packed.2 with Ok resp => response_body resp | Err _ => mkPackBody "" (Metrics.mkPackGuard 0 true true) [] end)
  packed.1).

Lemma pack_blobs_sends_witness :
  is_ok packed.2 = true /\
  exists es, encode_pack es = Ok (sent_bytes streamed.2) /\ Forall (fun e => content_matches e.1 e.2) es.
Proof.
  assert (is_ok packed.2 = true) as Hok by evaluate. split; [exact Hok|].
  assert (all_sent streamed.2) as Hsent by (apply (bool_decide_unpack _); vm_compute; exact I).
  destruct packed.2 as [resp|e] eqn:Hresp; [|discriminate Hok].
  assert (store_inv packed.1) as Hinv.
  { destruct packed as [w' r] eqn:E. by apply pack_blobs_read_only in E as (? & _); [|exact (put_inv _ _ file_u64 fresh_inv)]. }
  destruct (pack_blobs_sends clock now headers [digest_of file_content] stored packed.1 resp packed.1
    (pack_stream clock (response_body resp) packed.1).1 (pack_stream clock (response_body resp) packed.1).2
    1048576 (put_inv _ _ file_u64 fresh_inv) Hinv (answers _ _ Hresp)
    (surjective_pairing _) Hsent ltac:(by vm_compute) ltac:(by vm_compute)) as
    (w0 & ns & requested & es & _ & _ & _ & _ & Hm & Henc & _).
  exists es. split; [exact Henc|exact Hm].
Defined.

(** ** The service *)

Notation Running := (Service (MS:=MemoryMetadata.t) (BS:=FilesystemStore.t)).

Notation idle := (mkService fresh [] : Running).
Notation uploading := (mkUploading "team/a" 1 12 (pack_after 8).2).
Notation answered := (mkService (pack_after 8).1 [uploading] : Running).

Lemma idle_started : started idle.
Proof. split; [exact fresh_inv|exact fresh_config|reflexivity]. Qed.

(** A pack upload from its start to its answer. *)
Lemma upload_answered (ok : Actor -> Prop) :
  ok (Client (Some "team/a")) -> rtc (allowed ok) idle answered.
Proof.
  intros Hok. apply rtc_l with (y := mkService started_pack.1 [mkUploading "team/a" 1 12 pack_request]).
  - exists (Client (Some "team/a")). split; [exact Hok|].
    apply (PackStart now pack_headers [Ok pack_content] fresh started_pack.1 "team/a" 1 12 pack_request []).
    exact (answers _ _ pack_starts).
  - exact (upload_steps ok "team/a" 1 12 _ _ _ _ [] [] Hok pack_runs).
Qed.

Lemma stored_started : started (mkService stored []).
Proof. split; [exact (put_inv _ _ file_u64 fresh_inv)|split; by vm_compute|reflexivity]. Qed.
