(* ===== verification/StartupExamples.v ===== *)
(** * Starting and running a server

    A server on a Cloud Storage bucket and the in-memory metadata, started from
    its configuration, with the theorems of [StartupProofs.v] applied to it. *)
From S2P Require Import Prelude Str Protocol Concrete Api Config Json Model Records Oidc Auth AuthProofs AuthExamples.
From S2P Require Import MemoryMetadata PostgresMetadata StoreRefinement Filesystem FilesystemProofs ObjectStore Gcs Azure S3.
From S2P Require Import CloudProofs Dispatch Spool Access Metrics App Pack Tree Actions Blobs BlobsProofs PackUpload PackUploadProofs.
From S2P Require Import PackDownload Results Service ServiceProofs HandlerFutures Interleaving InterleavingProofs Startup StartupProofs ConcreteApp CloudExamples.

Local Open Scope string_scope.
Local Open Scope mbx_scope.

#[local] Existing Instances concrete_protocol concrete_protocol_laws concrete_hex concrete_hex_laws
  concrete_hashes concrete_hash_laws concrete_numbers concrete_records concrete_records_laws
  concrete_text concrete_documents concrete_jwt concrete_auth_json concrete_tokio concrete_debug
  concrete_constants concrete_constants_laws concrete_manifest_text working_disk working_disk_laws
  working_database concrete_paths concrete_path_laws concrete_s3_key_laws sources_open.
#[local] Existing Instances prompt_bucket prompt_laws prompt_copies s3_bucket s3_bucket_laws.

(** Nothing is set in the environment, and every service is there, empty. *)
#[local] Instance bare_environment : Environment := {| env_is_set _ := false |}.
#[local] Instance new_database : PostgresMetadata.PgPool := {| PostgresMetadata.pg_connect _ _ _ := Ok empty_tables |}.
#[local] Instance new_directories : Directories := {| create_dir_all _ := Ok tt; files_below _ := ∅ |}.
#[local] Instance new_azure : AzureBuilder Prompt := {| azure_build _ _ _ _ _ _ _ := Ok ∅ |}.
#[local] Instance new_gcs : GcsBuilder Prompt := {| gcs_build _ _ _ := Ok ∅ |}.
#[local] Instance new_s3 : S3Config S3Bucket := {| s3_from_conf _ _ _ _ := ∅ |}.

Definition surroundings : Surroundings := mkSurroundings (Ok tt) (fun _ _ => down) (fun _ => 0%N).

(** The defaults, with a bucket, a bounded spool and open to everyone. *)
Definition cloud_config (max_blob max_spool : N) : Config.t := {|
  Config.listen := Config.listen Config.default;
  Config.tls_cert := None;
  Config.tls_key := None;
  Config.storage := Gcs;
  Config.data_dir := Config.data_dir Config.default;
  Config.database_url := Config.database_url Config.default;
  Config.database_max_connections := Config.database_max_connections Config.default;
  Config.database_acquire_timeout := Config.database_acquire_timeout Config.default;
  Config.sweep_metadata_older_than_days := None;
  Config.azure_account := None;
  Config.azure_container := None;
  Config.azure_prefix := Config.azure_prefix Config.default;
  Config.azure_credential_type := Config.azure_credential_type Config.default;
  Config.azure_endpoint := None;
  Config.azure_allow_http := false;
  Config.gcs_bucket := Some "cache";
  Config.gcs_prefix := "/v1/";
  Config.s3_bucket := None;
  Config.s3_prefix := Config.s3_prefix Config.default;
  Config.s3_endpoint := None;
  Config.s3_region := Config.s3_region Config.default;
  Config.s3_path_style := false;
  Config.tokens_json := None;
  Config.oidc_providers_json := None;
  Config.allow_anonymous := true;
  Config.anonymous_read_namespaces_json := None;
  Config.max_blob_bytes := max_blob;
  Config.pack_store_concurrency := Config.pack_store_concurrency Config.default;
  Config.max_spool_bytes := max_spool;
|}.

Notation Running := (AppState (MS:=AnyMetadata.t) (BS:=AnyBlobs.t Prompt Prompt S3Bucket)).

Definition cloud_server (max_blob max_spool : N) : Running :=
  new_app_state (AnyBlobs.GcsBlobs (from_store ∅ "/v1/")) (AnyMetadata.Memory MemoryMetadata.default_store)
    (mkAuthorizer [] [] true []) max_blob 8 max_spool.

Lemma cloud_starts max_blob max_spool :
  (max_blob <= max_spool)%N ->
  main surroundings (cloud_config max_blob max_spool) = Serving (cloud_server max_blob max_spool).
Proof.
  intros Hle. apply main_serving. split; [reflexivity|]. split; [by right|].
  exists (AnyMetadata.Memory MemoryMetadata.default_store), (AnyBlobs.GcsBlobs (from_store ∅ "/v1/")),
    (mkAuthorizer [] [] true []).
  split; [reflexivity|]. split; [reflexivity|]. split; [reflexivity|]. reflexivity.
Qed.

Lemma cloud_in_order max_blob max_spool :
  in_order (metadata (cloud_server max_blob max_spool)) (blobs (cloud_server max_blob max_spool)).
Proof.
  split; [exact MemoryMetadata.wf_default|]. split.
  - intros d c _. cbn. unfold bucket_objects. cbn. by rewrite lookup_empty.
  - intros ns d. cbn. by rewrite bool_decide_eq_false_2.
Qed.

(** An upload, and a restart with another configuration. *)
Definition first_put : Request :=
  PutBlob (at_second 7 down)
    (<["mbx-cache-protocol" := "1"]> (<["mbx-cache-namespace" := "team/a"]> {["if-none-match" := "*"]}))
    (digest_algorithm small, digest_hash small, digest_size small) [Ok small_content] [].

Notation cloud := (mkService (cloud_server 1024 2048) [] : Service (MS:=AnyMetadata.t) (BS:=AnyBlobs.t Prompt Prompt S3Bucket)).
Notation filled := (respond first_put (cloud_server 1024 2048)).1.
Notation again := (mkService (restart (mkAuthorizer [] [] false []) 4096 1 0 filled) []).

Lemma cloud_run : rtc any_busy_step (mkBusy cloud ∅) (mkBusy again ∅).
Proof.
  eapply rtc_r; [by apply (request_alone first_put 0); [|by vm_compute]|].
  exists Operator. apply Crash. by apply Restart.
Qed.

Lemma batch_bound : (MAX_BATCH_ITEMS < u64_max)%N.
Proof. by vm_compute. Qed.

Lemma server_stays_in_order_witness :
  view_blob (view (metadata (shared again))) "team/a" small = true /\
  in_order (metadata (shared again)) (blobs (shared again)) /\ is_Some (objects (blobs (shared again)) small).
Proof.
  assert (view_blob (view (metadata (shared again))) "team/a" small = true) as Hvisible by evaluate.
  pose proof (server_stays_in_order surroundings (cloud_config 1024 2048) (cloud_server 1024 2048) (mkBusy again ∅)
    batch_bound eq_refl (cloud_starts 1024 2048 ltac:(by vm_compute)) (cloud_in_order 1024 2048)
    cloud_run) as [Hin _].
  split; [exact Hvisible|]. split; [exact Hin|]. exact (proj2 (proj2 (proj2 (proj2 Hin) _ _ Hvisible))).
Defined.

Lemma permits_bound : (u32_max <= MAX_PERMITS)%N.
Proof. by vm_compute. Qed.

Lemma huge_accepted : Config.accepted (cloud_config (2 ^ 43) (2 ^ 43)) = true.
Proof. by vm_compute. Qed.

(** Eight TiB, and a blob that large is never spooled. *)
Lemma largest_uploads_spool_witness :
  is_ok (SpoolBudget.reserve (spool (cloud_server (2 ^ 43) (2 ^ 43))) (2 ^ 41)).2 = true /\
  is_ok (SpoolBudget.reserve (spool (cloud_server (2 ^ 43) (2 ^ 43))) (2 ^ 43)).2 = false.
Proof.
  pose proof (cloud_starts (2 ^ 43) (2 ^ 43) ltac:(by vm_compute)) as Hstart.
  pose proof (fun size => largest_uploads_spool surroundings (cloud_config (2 ^ 43) (2 ^ 43)) _ size
    permits_bound huge_accepted Hstart) as Hspool.
  split.
  - apply Hspool; [by vm_compute|]. right. by vm_compute.
  - apply not_true_is_false. intros Hok. apply Hspool in Hok as [Hno|Hno]; [by vm_compute in Hno..|by vm_compute].
Defined.

Lemma main_refuses_witness :
  exists e, main (A:=Prompt) (G:=Prompt) (T:=S3Bucket) surroundings (cloud_config 2048 1024) = Failed e.
Proof. apply main_refuses; [reflexivity|]. left. by split; vm_compute. Defined.
