(* ===== verification/InterleavingExamples.v ===== *)
(** * Requests interleaved on a concrete service

    Two uploads of the same blob, call by call in turn, and the theorems on
    interleaved runs applied to them. *)
From stdpp Require Import pretty.
From S2P Require Import Prelude Str Protocol Concrete Api Json Model Records Oidc Auth AuthProofs.
From S2P Require Import AuthExamples MemoryMetadata Filesystem FilesystemProofs Spool Access Metrics.
From S2P Require Import App Future Pack PackProofs Tree Actions ActionsProofs Blobs BlobsProofs PackUpload.
From S2P Require Import PackUploadProofs PackDownload PackDownloadProofs Results ResultsProofs Service HandlerFutures.
From S2P Require Import Interleaving FutureBalance ServiceProofs FutureSafety HandlerSafety DownloadSafety InterleavingProofs.
From S2P Require Import ConcreteApp ServerExamples.

Local Open Scope string_scope.
Local Open Scope mbx_scope.

#[local] Existing Instances concrete_protocol concrete_protocol_laws concrete_hex concrete_hex_laws
  concrete_hashes concrete_hash_laws concrete_numbers concrete_records concrete_records_laws
  concrete_text concrete_documents concrete_jwt concrete_auth_json concrete_tokio concrete_debug
  concrete_constants concrete_constants_laws concrete_manifest_text working_disk working_disk_laws
  FilesystemStore.store.

Notation State := (AppState (MS:=MemoryMetadata.t) (BS:=FilesystemStore.t)).
Notation BusyState := (Busy (MS:=MemoryMetadata.t) (BS:=FilesystemStore.t)).

(** The examples' object store retains its objects. *)
#[local] Instance objects_stay : Retention := True.

(** ** A scheduler *)

(** Something begins; its next call. *)
Definition begin_at (n : N) (work : Work) (s : BusyState) : BusyState :=
  mkBusy (service s) (<[n := mkRunning work (work_future work)]> (running s)).

Definition turn_at (s : BusyState) (n : N) : BusyState :=
  match running s !! n with
  | Some r =>
      match turn (running_future r) (shared (service s)) with
      | Some (w, t) =>
          mkBusy (mkService w (uploads (service s))) (<[n := mkRunning (running_work r) t]> (running s))
      | None => s
      end
  | None => s
  end.

Definition requests_ok (ok : Actor -> Prop) (s : BusyState) : Prop :=
  map_Forall (fun _ r => ok (worker (running_work r))) (running s).

Lemma begin_run ok n work s :
  running s !! n = None -> work_ok work -> ok (worker work) -> requests_ok ok s ->
  rtc (busy_allowed ok) s (begin_at n work s) /\ requests_ok ok (begin_at n work s).
Proof.
  intros Hn Hu Hok Hall. split; [|by apply map_Forall_insert_2].
  apply rtc_once. exists (worker work). split; [done|]. destruct s as [sv l]. by apply Begin.
Qed.

Lemma turn_run ok s n :
  requests_ok ok s -> rtc (busy_allowed ok) s (turn_at s n) /\ requests_ok ok (turn_at s n).
Proof.
  intros Hall. unfold turn_at. destruct (running s !! n) as [[work t]|] eqn:Hn; [|done].
  cbn [running_future running_work]. destruct (turn t (shared (service s))) as [[w t']|] eqn:Ht; [|done].
  pose proof (map_Forall_lookup_1 _ _ _ _ Hall Hn) as Hok. split; [|by apply map_Forall_insert_2].
  apply rtc_once. exists (worker work). split; [done|]. destruct s as [[w0 us] l]. by eapply Turn.
Qed.

Lemma turns_run ok ns s :
  requests_ok ok s -> rtc (busy_allowed ok) s (foldl turn_at s ns) /\ requests_ok ok (foldl turn_at s ns).
Proof.
  revert s; induction ns as [|n ns IH]; intros s Hall; cbn; [done|].
  destruct (turn_run ok s n Hall) as [Hrun Hall']. destruct (IH _ Hall') as [Hrun' Hall2].
  split; [by etransitivity|done].
Qed.

(** ** Two uploads of one blob *)

Definition put_by (ns : string) : Work :=
  Handling (PutBlob now (headers_of ns) file_parts [Ok (as_bytes file_content)] []).

Definition nobody : BusyState := mkBusy (mkService ServerExamples.fresh []) ∅.
Definition two : BusyState := begin_at 1 (put_by "team/b") (begin_at 0 (put_by "team/a") nobody).

(** Both hold their permits; then both are answered. *)
Definition halfway : BusyState := foldl turn_at two [0; 1; 0; 1; 0; 1]%N.
Definition both_answered : BusyState := foldl turn_at halfway [1; 0; 0; 1; 1; 0; 0; 1]%N.

Lemma nobody_fresh : InterleavingProofs.fresh nobody.
Proof. split; [|done]. split; [exact fresh_inv|split; by vm_compute|done]. Qed.

Lemma two_run ok :
  ok (worker (put_by "team/a")) -> ok (worker (put_by "team/b")) ->
  rtc (busy_allowed ok) nobody two /\ requests_ok ok two.
Proof.
  intros Ha Hb.
  destruct (begin_run ok 0 (put_by "team/a") nobody) as [H1 R1]; [done|exact file_u64|done|apply map_Forall_empty|].
  destruct (begin_run ok 1 (put_by "team/b") (begin_at 0 (put_by "team/a") nobody)) as [H2 R2];
    [by evaluate|exact file_u64|done|done|]. split; [by etransitivity|done].
Qed.

Lemma halfway_run ok :
  ok (worker (put_by "team/a")) -> ok (worker (put_by "team/b")) ->
  rtc (busy_allowed ok) nobody halfway /\ requests_ok ok halfway.
Proof.
  intros Ha Hb. destruct (two_run ok Ha Hb) as [H1 R1]. destruct (turns_run ok [0; 1; 0; 1; 0; 1]%N two R1) as [H2 R2].
  split; [by etransitivity|done].
Qed.

Lemma both_run ok :
  ok (worker (put_by "team/a")) -> ok (worker (put_by "team/b")) -> rtc (busy_allowed ok) nobody both_answered.
Proof.
  intros Ha Hb. destruct (halfway_run ok Ha Hb) as [H1 R1].
  destruct (turns_run ok [1; 0; 0; 1; 1; 0; 0; 1]%N halfway R1) as [H2 R2]. by etransitivity.
Qed.

Lemma calls_interleave_safely_witness :
  rtc any_busy_step nobody both_answered /\
  forall ns d, view_blob (seen both_answered) ns d = true ->
    digest_validate d = Ok tt /\ (retains -> is_Some (InterleavingProofs.stored both_answered d)).
Proof.
  assert (rtc any_busy_step nobody both_answered) as Hrun.
  { eapply rtc_subrel; [|exact (both_run (fun _ => True) I I)]. intros s s' (who & _ & Hstep). by exists who. }
  split; [exact Hrun|]. exact (proj1 (proj2 (calls_interleave_safely nobody both_answered nobody_fresh Hrun))).
Defined.

(** Who began last put first: the other upload is answered 204. *)
Lemma both_answered_0 : running both_answered !! 0%N = Some (mkRunning (put_by "team/a") (Done (Responded (StatusAnswer (Ok NO_CONTENT))))).
Proof. evaluate. Qed.

Lemma put_by_namespace ns : headers_of ns !! "mbx-cache-namespace" = Some ns.
Proof. done. Qed.

Lemma answers_are_kept_witness :
  view_blob (seen both_answered) "team/a" (digest_of file_content) = true.
Proof.
  destruct (answers_are_kept nobody both_answered 0 _ _ nobody_fresh
    (both_run (fun who => who <> Sweeper) ltac:(discriminate) ltac:(discriminate)) both_answered_0)
    as (ns & Hns & d & chunks & Hd & _ & _ & _ & _ & Hv).
  cbn [request_headers] in Hns. rewrite put_by_namespace in Hns. injection Hns as <-. rewrite file_digest_parsed in Hd. injection Hd as <-.
  exact (Hv I I).
Defined.

Lemma books_balance_witness :
  permits_owed halfway = 2%N /\ spool (shared (service halfway)) = Some 1022%N /\
  spool (shared (service both_answered)) = Some 1024%N.
Proof.
  assert (permits_owed halfway = 2%N) as Howed by evaluate.
  destruct (books_balance nobody halfway nobody_fresh
    (proj1 (halfway_run (fun who => who <> Operator) ltac:(discriminate) ltac:(discriminate)))) as (Hspool & _).
  destruct (books_balance nobody both_answered nobody_fresh
    (both_run (fun who => who <> Operator) ltac:(discriminate) ltac:(discriminate))) as (Hback & _).
  split; [exact Howed|]. split; [rewrite Howed in Hspool; revert Hspool|].
  - assert (spool (shared (service nobody)) = Some 1024%N) as -> by evaluate.
    destruct (spool (shared (service halfway))) as [n|]; [|discriminate]. cbn. intros [= Hn]. f_equal. lia.
  - assert (permits_owed both_answered = 0%N) as Hnone by evaluate. rewrite Hnone, give_0 in Hback. rewrite Hback. evaluate.
Defined.

(** ** Beside what is there *)

Definition nobody_yet : BusyState := mkBusy (mkService stored []) ∅.
Definition beside : BusyState := foldl turn_at (begin_at 7 (put_by "team/b") nobody_yet) [7; 7; 7; 7; 7; 7; 7]%N.

Lemma nobody_yet_fresh : InterleavingProofs.fresh nobody_yet.
Proof. split; [exact stored_started|done]. Qed.

Lemma beside_run (ok : Actor -> Prop) : ok (worker (put_by "team/b")) -> rtc (busy_allowed ok) nobody_yet beside.
Proof.
  intros Hok. destruct (begin_run ok 7 (put_by "team/b") nobody_yet) as [H1 R1];
    [done|exact file_u64|done|apply map_Forall_empty|].
  destruct (turns_run ok [7; 7; 7; 7; 7; 7; 7]%N _ R1) as [H2 _]. by etransitivity.
Qed.

Lemma nothing_is_taken_witness : view_blob (seen beside) "team/a" (digest_of file_content) = true.
Proof.
  refine (proj1 (nothing_is_taken nobody_yet beside nobody_yet_fresh
    (beside_run (fun who => who <> Sweeper) ltac:(discriminate))) I "team/a" (digest_of file_content) _).
  evaluate.
Defined.

Lemma namespaces_stay_apart_witness :
  view_blob (seen beside) "team/b" (digest_of file_content) = true /\
  view_blob (seen beside) "team/c" (digest_of file_content) = false.
Proof.
  split; [evaluate|].
  rewrite (proj1 (namespaces_stay_apart "team/c" nobody_yet beside nobody_yet_fresh
    (beside_run (fun who => who <> Client (Some "team/c") /\ who <> Sweeper) ltac:(split; discriminate))
    (digest_of file_content))).
  evaluate.
Defined.

(** A pack upload while a request is under way. *)
Definition pack_done : BusyState := mkBusy (mkService (pack_after 8).1 [uploading]) ∅.
Definition uploaded_beside : BusyState := begin_at 3 (put_by "team/b") pack_done.

Lemma lift_run (ok : Actor -> Prop) s s' l :
  (forall who, ok who -> who <> Operator) -> rtc (allowed ok) s s' ->
  rtc (busy_allowed ok) (mkBusy s l : BusyState) (mkBusy s' l).
Proof.
  intros Hok Hrun. induction Hrun as [|s1 s2 s3 (who & Hwho & Hstep) _ IH]; [done|].
  eapply rtc_l; [|exact IH]. exists who. split; [done|]. apply Beside; auto.
Qed.

Lemma uploaded_run (ok : Actor -> Prop) : (forall ns, ok (Client ns)) -> rtc (busy_allowed ok) nobody uploaded_beside.
Proof.
  intros Hok. transitivity pack_done.
  - eapply rtc_subrel; [|apply (lift_run (fun who => exists ns, who = Client ns));
      [by intros who [ns ->]|apply upload_answered; by eexists]].
    intros s1 s2 (who & [ns ->] & Hstep). by exists (Client ns).
  - by apply begin_run; [|exact file_u64|apply Hok|apply map_Forall_empty].
Qed.

Lemma packs_land_beside_witness :
  exists entries, length entries = 1 /\
    Forall (fun e : Digest * bytes => view_blob (seen uploaded_beside) "team/a" e.1 = true) entries.
Proof.
  destruct (packs_land_beside nobody uploaded_beside uploading (mkReceipt 1 0) nobody_fresh
    (uploaded_run (fun who => who <> Sweeper) ltac:(discriminate)) ltac:(by left) pack_answered) as (entries & Hlen & _ & _ & Hall).
  exists entries. split; [cbn in Hlen; lia|]. eapply Forall_impl; [exact Hall|]. intros e (_ & Hland). exact (proj2 (Hland I)).
Defined.

(** ** A schedule without an end *)

(** A request for the metrics, its only call, its end, and sweeps ever after. *)
Definition asking : BusyState := begin_at 5 (Handling GetMetrics) nobody.
Definition asked : BusyState := turn_at asking 5.
Definition schedule (i : nat) : BusyState := match i with 0 => asking | 1 => asked | _ => nobody end.

Lemma asking_5 : running asking !! 5%N = Some (mkRunning (Handling GetMetrics) (work_future (Handling GetMetrics))).
Proof. done. Qed.

Lemma asked_5 : running asked !! 5%N = Some (mkRunning (Handling GetMetrics) (Done (Responded (MetricsAnswer (Ok tt))))).
Proof. evaluate. Qed.

Lemma asked_is : asked = mkBusy (service nobody) {[5%N := mkRunning (Handling GetMetrics) (Done (Responded (MetricsAnswer (Ok tt))))]}.
Proof. evaluate. Qed.

Lemma asking_turn : busy_step (worker (Handling GetMetrics)) asking asked /\ turn_of 5 asking asked.
Proof.
  destruct (turn (work_future (Handling GetMetrics)) (shared (service asking))) as [[w t]|] eqn:Ht; [|discriminate Ht].
  assert (asked = mkBusy (mkService w []) (<[5%N := mkRunning (Handling GetMetrics) t]> (running asking))) as ->.
  { unfold asked, turn_at. rewrite asking_5. cbn [running_future]. by rewrite Ht. }
  split; [by apply (Turn 5 (Handling GetMetrics) (work_future (Handling GetMetrics)))|].
  eexists. split; [exact asking_5|]. cbn [running]. rewrite lookup_insert_eq. split; [done|]. by eexists _, _.
Qed.

Lemma asked_end : busy_step (worker (Handling GetMetrics)) asked nobody /\ turn_of 5 asked nobody.
Proof.
  split; [|eexists; by split; [exact asked_5|]]. rewrite asked_is.
  pose proof (Finish 5 (Handling GetMetrics) (Responded (MetricsAnswer (Ok tt))) (service nobody)
    {[5%N := mkRunning (Handling GetMetrics) (Done (Responded (MetricsAnswer (Ok tt))))]} (lookup_singleton_eq _ _)) as Hstep.
  by rewrite delete_singleton_eq in Hstep.
Qed.

Lemma schedule_steps i : any_busy_step (schedule i) (schedule (S i)).
Proof.
  destruct i as [|[|i]]; cbn [schedule]; eexists; [apply asking_turn|apply asked_end|].
  assert (nobody = mkBusy (mkService (sweep_once 1 (shared (service nobody))) []) ∅) as Heq by evaluate.
  rewrite Heq at 2. apply Beside; [by apply Sweep|done].
Qed.

Lemma schedule_fair i : is_Some (running (schedule i) !! 5%N) ->
  exists j, i <= j /\ (turn_of 5 (schedule j) (schedule (S j)) \/ running (schedule j) !! 5%N = None).
Proof.
  intros _. destruct i as [|[|i]].
  - exists 2. split; [lia|by right].
  - exists 2. split; [lia|by right].
  - exists (S (S i)). split; [lia|by right].
Qed.

Lemma requests_end_witness :
  exists j, (exists outcome, running (schedule j) !! 5%N = Some (mkRunning (Handling GetMetrics) (Done outcome))) \/
    dropped_at 5 (schedule j) (schedule (S j)).
Proof.
  destruct (requests_end schedule 5 0 _ schedule_steps schedule_fair asking_5) as (j & _ & Hend). exists j. exact Hend.
Defined.
