(* ===== verification/FleetExamples.v ===== *)
(** * Two replicas on the same stores

    Each takes an upload of the same blob, their calls in turn; an object expires
    while one looks for it and the other takes it again; and the theorems on
    fleets applied to them. *)
From S2P Require Import Prelude Str Protocol Concrete Api Json Model Records Oidc Auth AuthProofs.
From S2P Require Import AuthExamples MemoryMetadata Filesystem FilesystemProofs Spool Access Metrics.
From S2P Require Import App Future Pack PackProofs Tree Actions ActionsProofs Blobs BlobsProofs PackUpload.
From S2P Require Import PackUploadProofs PackDownload PackDownloadProofs Results ResultsProofs Service HandlerFutures.
From S2P Require Import Interleaving FutureBalance ServiceProofs FutureSafety HandlerSafety DownloadSafety InterleavingProofs.
From S2P Require Import Fleet FleetProofs ConcreteApp ServerExamples InterleavingExamples.

Local Open Scope string_scope.
Local Open Scope mbx_scope.

#[local] Existing Instances concrete_protocol concrete_protocol_laws concrete_hex concrete_hex_laws
  concrete_hashes concrete_hash_laws concrete_numbers concrete_records concrete_records_laws
  concrete_text concrete_documents concrete_jwt concrete_auth_json concrete_tokio concrete_debug
  concrete_constants concrete_constants_laws concrete_manifest_text working_disk working_disk_laws
  FilesystemStore.store.

Notation FleetState := (Fleet (MS:=MemoryMetadata.t) (BS:=FilesystemStore.t)).

(** ** A scheduler *)

(** Replica [i] has taken a step to [s]. *)
Definition after (i : N) (s : BusyState) (f : FleetState) : FleetState :=
  mkFleet (stores_of s) (<[i := s]> (replicas f)).

Definition can_turn (s : BusyState) (n : N) : bool :=
  match running s !! n with
  | Some r => match turn (running_future r) (shared (service s)) with Some _ => true | None => false end
  | None => false
  end.

(** The next call of what replica [i] has under way as [n]. *)
Definition turn_on (f : FleetState) (p : N * N) : FleetState :=
  match replica f p.1 with
  | Some s => if can_turn s p.2 then after p.1 (turn_at s p.2) f else f
  | None => f
  end.

Definition begin_on (i n : N) (work : Work) (f : FleetState) : FleetState :=
  match replica f i with Some s => after i (begin_at n work s) f | None => f end.

Definition fleet_ok (ok : Actor -> Prop) (f : FleetState) : Prop :=
  map_Forall (fun _ => requests_ok ok) (replicas f).

Lemma within_step (ok : Actor -> Prop) i f s s' :
  replica f i = Some s -> busy_allowed ok s s' -> rtc (fleet_allowed ok) f (after i s' f).
Proof.
  intros Hs (who & Hok & Hstep). apply fmap_Some in Hs as (s0 & Hs0 & ->). apply rtc_once.
  exists who. split; [done|]. destruct f as [st l]. by eapply Within.
Qed.

Lemma replica_ok ok f i s : fleet_ok ok f -> replica f i = Some s -> requests_ok ok s.
Proof. intros Hall (s0 & Hs0 & ->)%fmap_Some. exact (map_Forall_lookup_1 _ _ _ _ Hall Hs0). Qed.

Lemma turn_allowed ok s n :
  requests_ok ok s -> can_turn s n = true -> busy_allowed ok s (turn_at s n).
Proof.
  unfold can_turn, turn_at. intros Hall. destruct (running s !! n) as [[work t]|] eqn:Hn; [|done].
  cbn [running_future running_work]. destruct (turn t (shared (service s))) as [[w t']|] eqn:Ht; [|done]. intros _.
  exists (worker work). split; [exact (map_Forall_lookup_1 _ _ _ _ Hall Hn)|]. destruct s as [[w0 us] l]. by eapply Turn.
Qed.

Lemma turn_on_run ok f p :
  fleet_ok ok f -> rtc (fleet_allowed ok) f (turn_on f p) /\ fleet_ok ok (turn_on f p).
Proof.
  intros Hall. unfold turn_on. destruct (replica f p.1) as [s|] eqn:Hs; [|done].
  destruct (can_turn s p.2) eqn:Hc; [|done]. pose proof (replica_ok _ _ _ _ Hall Hs) as Hok.
  split; [by eapply within_step; [|apply turn_allowed]|]. apply map_Forall_insert_2; [|done]. by apply turn_run.
Qed.

Lemma turns_on_run ok f ps :
  fleet_ok ok f -> rtc (fleet_allowed ok) f (foldl turn_on f ps) /\ fleet_ok ok (foldl turn_on f ps).
Proof.
  revert f; induction ps as [|p ps IH]; intros f Hall; cbn [foldl]; [done|].
  destruct (turn_on_run ok f p Hall) as [Hrun Hall']. destruct (IH _ Hall') as [Hrun' Hall2].
  split; [by etransitivity|done].
Qed.

Lemma begin_on_run ok i n work f s :
  replica f i = Some s -> running s !! n = None -> work_ok work -> ok (worker work) -> fleet_ok ok f ->
  rtc (fleet_allowed ok) f (begin_on i n work f) /\ fleet_ok ok (begin_on i n work f).
Proof.
  intros Hs Hn Hu Hok Hall. unfold begin_on. rewrite Hs. pose proof (replica_ok _ _ _ _ Hall Hs) as Hsok.
  split; [|apply map_Forall_insert_2; [by apply begin_run|done]]. eapply within_step; [exact Hs|].
  exists (worker work). split; [done|]. destruct s as [sv l]. by apply Begin.
Qed.

Lemma deployed_any {retention : Retention} ok (f f' : FleetState) :
  (forall who, ok who -> retaining who) -> rtc (fleet_allowed ok) f f' -> rtc deployed_step f f'.
Proof. intros Hok. apply rtc_subrel. intros x y (who & Hwho & Hstep). exists who. auto. Qed.

(** ** Two replicas *)

Definition no_replica : FleetState := mkFleet (stores_of nobody) ∅.
Definition two_replicas : FleetState := mkFleet (stores_of nobody) (<[1%N := nobody]> (<[0%N := nobody]> ∅)).

Lemma no_replica_launched {retention : Retention} : launched no_replica.
Proof. split; [exact (store_inv_onlooker _ fresh_inv)|by vm_compute|done]. Qed.

Lemma two_started {retention : Retention} : rtc deployed_step no_replica two_replicas.
Proof.
  eapply rtc_l; [|apply rtc_once]; exists Operator; (split; [done|]).
  - by apply (Join 0 open_authorizer 1048576 2 1048576).
  - by apply (Join 1 open_authorizer 1048576 2 1048576).
Qed.

Lemma two_reached {retention : Retention} : reached two_replicas.
Proof. exists no_replica. split; [exact no_replica_launched|exact two_started]. Qed.

Lemma two_at_rest : at_rest two_replicas.
Proof. apply map_Forall_insert_2; [done|]. apply map_Forall_insert_2; [done|]. apply map_Forall_empty. Qed.

Lemma two_ok ok : fleet_ok ok two_replicas.
Proof. intros i s Hs. destruct (map_Forall_lookup_1 _ _ _ _ two_at_rest Hs) as [_ Hr]. unfold requests_ok. rewrite Hr. apply map_Forall_empty. Qed.

(** Each replica has the other's upload of the same blob beside its own. *)
Definition two_puts : FleetState := begin_on 1 4 (put_by "team/b") (begin_on 0 4 (put_by "team/a") two_replicas).
Definition turns : list (N * N) := (fun i => (i, 4%N)) <$> [0; 1; 0; 1; 1; 0; 1; 0; 0; 1; 1; 0; 0; 1]%N.
Definition both_put : FleetState := foldl turn_on two_puts turns.

Lemma both_put_run (ok : Actor -> Prop) :
  ok (worker (put_by "team/a")) -> ok (worker (put_by "team/b")) -> rtc (fleet_allowed ok) two_replicas both_put.
Proof.
  intros Ha Hb. destruct (begin_on_run ok 0 4 (put_by "team/a") two_replicas nobody) as [H1 R1];
    [by evaluate|done|exact file_u64|done|apply two_ok|].
  destruct (begin_on_run ok 1 4 (put_by "team/b") (begin_on 0 4 (put_by "team/a") two_replicas) nobody) as [H2 R2];
    [by evaluate|done|exact file_u64|done|exact R1|].
  destruct (turns_on_run ok two_puts turns R2) as [H3 _].
  exact (transitivity H1 (transitivity H2 H3)).
Qed.

(** The examples' object store retains its objects, but for one that expires
    below. *)
#[local] Instance objects_stay : Retention := True.

Definition client (who : Actor) : Prop := exists ns, who = Client ns.

Lemma client_retaining {retention : Retention} who : client who -> retaining who.
Proof. intros [ns ->] _. discriminate. Qed.

Lemma client_no_sweep {retention : Retention} (f f' : FleetState) :
  rtc (fleet_allowed client) f f' -> rtc (fleet_allowed (fun who => who <> Sweeper /\ retaining who)) f f'.
Proof.
  apply rtc_subrel. intros x y (who & Hwho & Hstep). exists who. split; [|exact Hstep].
  split; [by destruct Hwho as [ns ->]|by apply client_retaining].
Qed.

Lemma put_client ns : client (worker (put_by ns)).
Proof. by eexists. Qed.

Definition answer_at (f : FleetState) (i n : N) : option (Interleaving.Running (MS:=MemoryMetadata.t) (BS:=FilesystemStore.t)) :=
  s ← replica f i; running s !! n.

Lemma answer_at_some f i n r :
  answer_at f i n = Some r -> exists s, replica f i = Some s /\ running s !! n = Some r.
Proof. apply bind_Some. Qed.

Lemma held_at_some (f : FleetState) i s n : permits_owed <$> replicas f !! i = Some n -> replicas f !! i = Some s -> permits_owed s = n.
Proof. intros Hf Hs. rewrite Hs in Hf. by injection Hf. Qed.

Lemma answered_by_1 :
  answer_at both_put 1 4 = Some (mkRunning (put_by "team/b") (Done (Responded (StatusAnswer (Ok CREATED))))).
Proof. evaluate. Qed.

(** The first to put creates the object; what both were told is kept. *)
Lemma replicas_keep_answers_witness :
  exists s, replica both_put 1 = Some s /\
    view_blob (view (metadata (shared (service s)))) "team/b" (digest_of file_content) = true.
Proof.
  destruct (answer_at_some _ _ _ _ answered_by_1) as (s & Hs & Hanswer). exists s. split; [exact Hs|].
  destruct (replicas_keep_answers two_replicas both_put 1 s 4 _ _ two_reached two_at_rest
    (client_no_sweep _ _ (both_put_run client (put_client _) (put_client _))) Hs Hanswer)
    as (ns & Hns & d & chunks & Hd & _ & _ & _ & _ & Hv).
  cbn [request_headers] in Hns. rewrite put_by_namespace in Hns. injection Hns as <-.
  rewrite file_digest_parsed in Hd. injection Hd as <-. exact (Hv I I).
Defined.

(** ** Beside what is there *)

(** Replica 0 has taken an upload and is gone; then replica 1 takes another. *)
Definition one_put : FleetState :=
  foldl turn_on (begin_on 0 4 (put_by "team/a") two_replicas) (replicate 7 (0, 4)%N).
Definition one_gone : FleetState := mkFleet (stores one_put) (delete 0%N (replicas one_put)).
Definition other_put_after : FleetState :=
  foldl turn_on (begin_on 1 4 (put_by "team/b") one_gone) (replicate 7 (1, 4)%N).

Lemma leave_step i (f : FleetState) : fleet_step Operator f (mkFleet (stores f) (delete i (replicas f))).
Proof. destruct f as [st l]. apply Leave. Qed.

Lemma leave_deployed {retention : Retention} i (f : FleetState) :
  deployed_step f (mkFleet (stores f) (delete i (replicas f))).
Proof. exists Operator. split; [done|apply leave_step]. Qed.

Lemma one_put_run {retention : Retention} : rtc deployed_step no_replica one_put.
Proof.
  destruct (begin_on_run client 0 4 (put_by "team/a") two_replicas nobody) as [H1 R1];
    [by evaluate|done|exact file_u64|apply put_client|apply two_ok|].
  destruct (turns_on_run _ _ (replicate 7 (0, 4)%N) R1) as [H2 _].
  exact (transitivity two_started (deployed_any _ _ _ client_retaining (transitivity H1 H2))).
Qed.

Lemma one_gone_reached {retention : Retention} : reached one_gone.
Proof.
  exists no_replica. split; [exact no_replica_launched|].
  apply rtc_r with one_put; [exact one_put_run|exact (leave_deployed 0 one_put)].
Qed.

Lemma one_gone_1 : replica one_gone 1 = Some (reaching (stores one_gone) nobody).
Proof. evaluate. Qed.

Lemma one_gone_ok ok : fleet_ok ok one_gone.
Proof.
  assert (replicas one_gone = {[1%N := nobody]}) as Hone by evaluate.
  unfold fleet_ok. rewrite Hone. apply map_Forall_singleton, map_Forall_empty.
Qed.

Lemma other_put_run (ok : Actor -> Prop) :
  ok (worker (put_by "team/b")) -> rtc (fleet_allowed ok) one_gone other_put_after.
Proof.
  intros Hb. destruct (begin_on_run ok 1 4 (put_by "team/b") one_gone (reaching (stores one_gone) nobody)) as [H1 R1];
    [exact one_gone_1|done|exact file_u64|exact Hb|apply one_gone_ok|].
  destruct (turns_on_run _ _ (replicate 7 (1, 4)%N) R1) as [H2 _]. exact (transitivity H1 H2).
Qed.

Lemma replicas_take_nothing_witness : view_blob (fleet_view other_put_after) "team/a" (digest_of file_content) = true.
Proof.
  refine (proj1 (replicas_take_nothing one_gone other_put_after one_gone_reached
    (client_no_sweep _ _ (other_put_run client (put_client _)))) I "team/a" (digest_of file_content) _).
  evaluate.
Defined.

Lemma replicas_stay_apart_witness :
  view_blob (fleet_view other_put_after) "team/b" (digest_of file_content) = true /\
  view_blob (fleet_view other_put_after) "team/a" (digest_of file_content) = true.
Proof.
  split; [evaluate|].
  rewrite (proj1 (replicas_stay_apart "team/a" one_gone other_put_after one_gone_reached
    (other_put_run (fun who => who <> Client (Some "team/a") /\ who <> Sweeper /\ retaining who)
       ltac:(split_and!; [discriminate..|by apply client_retaining, put_client]))
    (digest_of file_content))).
  evaluate.
Defined.

(** ** An object expires *)

(** The object of the upload expires. Replica 1 is asked for it, and finds its
    row and no object; before it forgets the row, replica 0 takes the blob
    again. *)
Definition get_by (ns : string) : Work := Handling (GetBlob now (headers_of ns) file_parts).
Definition expire_all (f : FleetState) : FleetState :=
  mkFleet (mkStores (database (stores f)) (FilesystemStore.mk ∅ 0)) (replicas f).
Definition lost : FleetState := expire_all one_put.
Definition missed : FleetState := foldl turn_on (begin_on 1 6 (get_by "team/a") lost) (replicate 4 (1, 6)%N).
Definition put_again : FleetState := foldl turn_on (begin_on 0 8 (put_by "team/a") missed) (replicate 7 (0, 8)%N).
Definition forgotten : FleetState := turn_on put_again (1, 6)%N.

Lemma expire_step f : fleet_step Lifecycle f (expire_all f).
Proof.
  destruct f as [st l]. apply Expire. intros d _. right. cbn. unfold fs_objects. by destruct (FilesystemStore.path d).
Qed.

Lemma expire_ok ok f : fleet_ok ok f -> fleet_ok ok (expire_all f).
Proof. done. Qed.

Lemma lost_run {retention : Retention} : (retains -> False) -> rtc deployed_step no_replica lost.
Proof.
  intros Hno. apply rtc_r with one_put; [exact one_put_run|]. exists Lifecycle. split; [by intros ?|].
  exact (expire_step one_put).
Qed.

Lemma free_slot (f : FleetState) i n :
  bool_decide (is_Some (replica f i)) = true -> answer_at f i n = None ->
  exists s, replica f i = Some s /\ running s !! n = None.
Proof.
  intros Hs Hn. destruct (bool_decide_eq_true_1 _ Hs) as [s Hrep]. exists s. split; [exact Hrep|].
  unfold answer_at in Hn. rewrite Hrep in Hn. exact Hn.
Qed.

Lemma lost_ok : fleet_ok client lost.
Proof.
  destruct (begin_on_run client 0 4 (put_by "team/a") two_replicas nobody) as [_ R1];
    [by evaluate|done|exact file_u64|apply put_client|apply two_ok|].
  assert (fleet_ok client one_put) as R2 by exact (proj2 (turns_on_run _ _ (replicate 7 (0, 4)%N) R1)).
  exact (expire_ok client one_put R2).
Qed.

Lemma lost_slot : exists s, replica lost 1 = Some s /\ running s !! 6%N = None.
Proof. apply free_slot; evaluate. Qed.

Lemma missed_slot : exists s, replica missed 0 = Some s /\ running s !! 8%N = None.
Proof. apply free_slot; evaluate. Qed.

Lemma missed_run : rtc (fleet_allowed client) lost missed /\ fleet_ok client missed.
Proof.
  destruct lost_slot as (s1 & Hs1 & Hn1).
  destruct (begin_on_run client 1 6 (get_by "team/a") lost s1) as [H1 R1];
    [exact Hs1|exact Hn1|exact file_u64|by eexists|exact lost_ok|].
  destruct (turns_on_run _ _ (replicate 4 (1, 6)%N) R1) as [H2 R2].
  split; [exact (transitivity H1 H2)|exact R2].
Qed.

Lemma put_again_run : rtc (fleet_allowed client) missed put_again /\ fleet_ok client put_again.
Proof.
  destruct missed_slot as (s0 & Hs0 & Hn0).
  destruct (begin_on_run client 0 8 (put_by "team/a") missed s0) as [H1 R1];
    [exact Hs0|exact Hn0|exact file_u64|apply put_client|exact (proj2 missed_run)|].
  destruct (turns_on_run _ _ (replicate 7 (0, 8)%N) R1) as [H2 R2].
  split; [exact (transitivity H1 H2)|exact R2].
Qed.

Lemma forgotten_run : rtc (fleet_allowed client) lost forgotten.
Proof.
  destruct missed_run as [H1 _], put_again_run as [H2 R2]. destruct (turn_on_run client put_again (1, 6)%N R2) as [H3 _].
  exact (transitivity H1 (transitivity H2 H3)).
Qed.

(** The upload was answered 201; the row it registered is forgotten; the object
    is there. It costs one more upload. *)
Example forget_races_upload :
  answer_at forgotten 0 8 = Some (mkRunning (put_by "team/a") (Done (Responded (StatusAnswer (Ok CREATED))))) /\
  view_blob (fleet_view put_again) "team/a" (digest_of file_content) = true /\
  view_blob (fleet_view forgotten) "team/a" (digest_of file_content) = false /\
  fleet_object forgotten (digest_of file_content) = Some (as_bytes file_content).
Proof. split_and!; evaluate. Qed.

(** Where nothing expires, what both uploads left is in order; and so is what the
    race left. *)
Lemma replicas_stay_safe_witness :
  (forall ns d, view_blob (fleet_view both_put) ns d = true ->
     digest_validate d = Ok tt /\ is_Some (fleet_object both_put d)) /\
  content_matches (digest_of file_content) (as_bytes file_content).
Proof.
  split.
  - assert (rtc deployed_step no_replica both_put) as Hrun.
    { exact (transitivity two_started (deployed_any _ _ _ client_retaining (both_put_run client (put_client _) (put_client _)))). }
    intros ns d Hv. destruct (proj1 (proj2 (replicas_stay_safe no_replica both_put no_replica_launched Hrun)) ns d Hv) as [Hd Hs].
    split; [exact Hd|exact (Hs I)].
  - assert (rtc (deployed_step (retention:=False)) no_replica forgotten) as Hrun.
    { exact (transitivity (lost_run (retention:=False) (fun no => no))
        (deployed_any (retention:=False) _ _ _ client_retaining forgotten_run)). }
    refine (proj1 (replicas_stay_safe (retention:=False) no_replica forgotten no_replica_launched Hrun) _ _ _ _).
    + exact (parsed_valid _ _ file_digest_parsed).
    + exact (proj2 (proj2 (proj2 forget_races_upload))).
Defined.

(** ** A pack upload to one, an upload to the other *)

Lemma replica_run (ok : Actor -> Prop) i s s' f :
  stores f = stores_of s -> replicas f !! i = Some s ->
  rtc (busy_allowed ok) s s' -> rtc (fleet_allowed ok) f (after i s' f).
Proof.
  intros Hst Hs Hrun. revert f Hst Hs. induction Hrun as [s|s1 s2 s3 Hstep _ IH]; intros f Hst Hs.
  - unfold after. rewrite insert_id by done. rewrite <-Hst. by destruct f.
  - assert (replica f i = Some s1) as Hreach by (unfold replica; rewrite Hs, Hst; cbn; by rewrite reaching_itself).
    etransitivity; [by eapply within_step|]. specialize (IH (after i s2 f) eq_refl (lookup_insert_eq _ _ _)).
    unfold after in *. cbn [replicas] in IH. by rewrite insert_insert_eq in IH.
Qed.

Definition pack_sent : FleetState := after 0 pack_done two_replicas.
Definition pack_beside : FleetState := begin_on 1 4 (put_by "team/b") pack_sent.

Lemma pack_sent_1 : replica pack_sent 1 = Some (reaching (stores pack_sent) nobody).
Proof. done. Qed.

Lemma pack_beside_run (ok : Actor -> Prop) : (forall ns, ok (Client ns)) -> rtc (fleet_allowed ok) two_replicas pack_beside.
Proof.
  intros Hok. transitivity pack_sent.
  - apply (replica_run ok 0 nobody pack_done two_replicas); [done|done|].
    eapply rtc_subrel; [|apply (lift_run (fun who => exists ns, who = Client ns));
      [by intros who [ns ->]|apply upload_answered; by eexists]].
    intros s1 s2 (who & [ns ->] & Hstep). by exists (Client ns).
  - eapply within_step; [exact pack_sent_1|]. exists (worker (put_by "team/b")). split; [apply Hok|].
    apply Begin; [done|exact file_u64].
Qed.

Definition packer : BusyState := reaching (stores pack_beside) pack_done.

Lemma packer_is : replica pack_beside 0 = Some packer.
Proof. done. Qed.

Lemma replicas_land_packs_witness :
  exists entries, length entries = 1 /\
    Forall (fun e : Digest * bytes => view_blob (fleet_view pack_beside) "team/a" e.1 = true) entries.
Proof.
  destruct (replicas_land_packs two_replicas pack_beside 0 packer uploading (mkReceipt 1 0) two_reached two_at_rest
    (client_no_sweep _ _ (pack_beside_run client (fun ns => ex_intro _ ns eq_refl))) packer_is ltac:(by left) pack_answered)
    as (entries & Hlen & _ & _ & Hall).
  exists entries. split; [cbn in Hlen; lia|]. eapply Forall_impl; [exact Hall|]. intros e (_ & Hland). exact (proj2 (Hland I)).
Defined.

(** ** Books *)

(** Both have reserved spool room; then replica 0 is killed and replica 1 goes on. *)
Definition reserved : FleetState :=
  foldl turn_on (begin_on 1 4 (put_by "team/b") two_replicas) (replicate 3 (1, 4)%N).
Definition alone : FleetState := mkFleet (stores reserved) (delete 0%N (replicas reserved)).
Definition answered_alone : FleetState := foldl turn_on alone (replicate 4 (1, 4)%N).
Lemma clients_spare i (f f' : FleetState) : rtc (fleet_allowed client) f f' -> rtc (spares i) f f'.
Proof.
  apply rtc_subrel. intros x y (who & Hwho & Hstep). exists who. split; [done|].
  split; [by apply client_retaining|]. by destruct Hwho as [ns ->].
Qed.

Lemma alone_run : rtc (spares 1) two_replicas alone /\ fleet_ok client alone.
Proof.
  destruct (begin_on_run client 1 4 (put_by "team/b") two_replicas nobody) as [H1 R1];
    [by evaluate|done|exact file_u64|apply put_client|apply two_ok|].
  destruct (turns_on_run _ _ (replicate 3 (1, 4)%N) R1) as [H2 R2]. split; [|by apply map_Forall_delete].
  assert (rtc (fleet_allowed client) two_replicas reserved) as H3 by exact (transitivity H1 H2).
  apply rtc_r with reserved; [exact (clients_spare 1 _ _ H3)|].
  exists Operator. split; [exact (leave_step 0 reserved)|]. split; [done|]. intros _. by apply lookup_delete_ne.
Qed.

Lemma answered_alone_run : rtc (spares 1) two_replicas answered_alone.
Proof.
  destruct alone_run as [H1 R1]. destruct (turns_on_run _ _ (replicate 4 (1, 4)%N) R1) as [H2 _].
  exact (transitivity H1 (clients_spare 1 _ _ H2)).
Qed.

Lemma two_1 : replicas two_replicas !! 1%N = Some nobody.
Proof. done. Qed.

Lemma nobody_idle : Interleaving.idle nobody.
Proof. done. Qed.

Lemma alone_held : permits_owed <$> replicas alone !! 1%N = Some 1%N.
Proof. evaluate. Qed.

Lemma nobody_spool : spool (shared (service nobody)) = Some 1024%N.
Proof. evaluate. Qed.

Lemma replicas_keep_books_witness :
  (exists s, replicas alone !! 1%N = Some s /\ spool (shared (service s)) = Some 1023%N) /\
  exists s, replicas answered_alone !! 1%N = Some s /\ give (permits_owed s) (spool (shared (service s))) = Some 1024%N.
Proof.
  destruct (replicas_keep_books 1 two_replicas alone nobody two_reached two_1 nobody_idle (proj1 alone_run))
    as (s & Hs & Hspool & _).
  destruct (replicas_keep_books 1 two_replicas answered_alone nobody two_reached two_1 nobody_idle answered_alone_run)
    as (s' & Hs' & Hspool' & _).
  rewrite nobody_spool in Hspool, Hspool'. split; [|exists s'; split; [exact Hs'|exact Hspool']].
  exists s. split; [exact Hs|]. rewrite (held_at_some _ _ _ _ alone_held Hs) in Hspool. revert Hspool.
  destruct (spool (shared (service s))) as [n|]; [|discriminate]. cbn. intros [= Hn]. f_equal. lia.
Defined.

(** ** A schedule without an end *)

(** Replica 0 answers a request for its metrics, and is gone. *)
Definition asked_0 : FleetState := begin_on 0 5 (Handling GetMetrics) two_replicas.
Definition answered_0 : FleetState := turn_on asked_0 (0, 5)%N.
Definition fleet_schedule (i : nat) : FleetState :=
  match i with
  | 0 => asked_0
  | 1 => answered_0
  | _ => mkFleet (stores answered_0) (delete 0%N (replicas answered_0))
  end.

Lemma asked_0_5 :
  under_way (fleet_schedule 0) 0 5 = Some (mkRunning (Handling GetMetrics) (work_future (Handling GetMetrics))).
Proof. done. Qed.

Lemma gone_0 i : under_way (fleet_schedule (S (S i))) 0 5 = None.
Proof. unfold under_way. cbn [fleet_schedule replicas]. by rewrite lookup_delete_eq. Qed.

Lemma fleet_schedule_steps i : any_fleet_step (fleet_schedule i) (fleet_schedule (S i)).
Proof.
  destruct i as [|[|i]].
  - assert (busy_allowed (fun _ => True) (begin_at 5 (Handling GetMetrics) nobody)
      (turn_at (begin_at 5 (Handling GetMetrics) nobody) 5)) as (who & _ & Hstep).
    { apply turn_allowed; [|done]. apply map_Forall_insert_2; [done|apply map_Forall_empty]. }
    exists who. exact (Within 0 who (stores asked_0) (replicas asked_0) (begin_at 5 (Handling GetMetrics) nobody) _ eq_refl Hstep).
  - exists Operator. exact (leave_step 0 answered_0).
  - exists Operator. pose proof (leave_step 0 (fleet_schedule (S (S i)))) as Hstep. cbn [fleet_schedule stores replicas] in *.
    by rewrite delete_delete_eq in Hstep.
Qed.

Lemma fleet_schedule_fair i : is_Some (under_way (fleet_schedule i) 0 5) ->
  exists j, i <= j /\ (goes_on (under_way (fleet_schedule j) 0 5) (under_way (fleet_schedule (S j)) 0 5) \/
    under_way (fleet_schedule j) 0 5 = None).
Proof.
  intros _. exists (S (S i)). split; [lia|]. right. apply gone_0.
Qed.

Lemma replicas_answer_witness :
  exists k (turns : list nat), ((exists outcome, under_way (fleet_schedule k) 0 5 = Some (mkRunning (Handling GetMetrics) (Done outcome))) \/
    cut_short (under_way (fleet_schedule k) 0 5) (under_way (fleet_schedule (S k)) 0 5)) /\ length turns <= 2.
Proof.
  destruct (replicas_answer fleet_schedule 0 5 0 GetMetrics 2 fleet_schedule_steps fleet_schedule_fair asked_0_5 eq_refl)
    as (k & turns & _ & Hend & Hlen & _).
  exists k, turns. split; [exact Hend|exact Hlen].
Defined.
